(** * modulefinder-revamped: a shallow embedding of the import scanner

    The development follows [src/modulefinder_revamped.py] (the current
    implementation) and, for relative-name anchoring, the legacy variant
    [src/misc/_modulefinder_typed.py].

    Layout: Python string helpers, insertion-ordered dictionaries, code
    objects, the finder state, the missing/maybe classifier, path
    rewriting, relative-name resolution, the import machinery that the
    scanner drives, and finally the theorems. *)

From Stdlib Require Import String Ascii List ZArith Lia Bool.
From stdpp Require Import base decidable option list sorting strings gmap sets.

Set Warnings "-register-all,-clear-no-such-hyp".

Open Scope string_scope.
Open Scope list_scope.

(* ===================================================================== *)
(** ** Python [str] operations used by the sources *)
(* ===================================================================== *)

Module PyStr.

  (** [c == "."] on one character. *)
Definition is_dot (c : ascii) : bool := Ascii.eqb c "."%char.

  (** ["." in s] *)
Fixpoint contains_dot (s : string) : bool :=
    match s with
    | EmptyString => false
    | String c r => is_dot c || contains_dot r
    end.

  (** [s.count(".")] *)
Fixpoint count_dot (s : string) : nat :=
    match s with
    | EmptyString => 0
    | String c r => (if is_dot c then 1 else 0)%nat + count_dot r
    end.

  (** [s.rpartition(".")]: [Some (head, tail)] when the separator occurs
      (the split is at its last occurrence), [None] when it does not, in
      which case Python returns [("", "", s)]. *)
Fixpoint rpartition (s : string) : option (string * string) :=
    match s with
    | EmptyString => None
    | String c r =>
        match rpartition r with
        | Some (h, t) => Some (String c h, t)
        | None => if is_dot c then Some (EmptyString, r) else None
        end
    end.

  (** [s.rpartition(".")[0]] *)
Definition rpartition_head (s : string) : string :=
    match rpartition s with Some (h, _) => h | None => "" end.

  (** [s.rpartition(".")[2]] *)
Definition rpartition_tail (s : string) : string :=
    match rpartition s with Some (_, t) => t | None => s end.

  (** [s.partition(".")[0]]: everything before the first separator. *)
Fixpoint partition_head (s : string) : string :=
    match s with
    | EmptyString => EmptyString
    | String c r => if is_dot c then EmptyString else String c (partition_head r)
    end.

  (** [s.startswith(p)] *)
Definition startswith (s p : string) : bool := String.prefix p s.

  (** [s[n:]] *)
Fixpoint drop (n : nat) (s : string) : string :=
    match n, s with
    | O, _ => s
    | S _, EmptyString => EmptyString
    | S k, String _ r => drop k r
    end.

  (** [s.replace(old, new, 1)]: the leftmost occurrence of [old] in [s]
      is replaced by [new]; [s] is returned as it is when [old] does not
      occur.  The empty [old] occurs at index 0. *)
Fixpoint replace1 (old new s : string) : string :=
    if String.prefix old s then new ++ drop (String.length old) s
    else match s with
         | EmptyString => EmptyString
         | String c r => String c (replace1 old new r)
         end.

  (** ["." * n] *)
Fixpoint dots (n : nat) : string :=
    match n with O => "" | S k => String "."%char (dots k) end.

  (** [s.split(".")] *)
Fixpoint split_dot_aux (cur : string) (s : string) : list string :=
    match s with
    | EmptyString => [cur]
    | String c r =>
        if is_dot c then cur :: split_dot_aux "" r
        else split_dot_aux (cur ++ String c "") r
    end.
Definition split_dot (s : string) : list string := split_dot_aux "" s.

  (** [".".join(l)] *)
Fixpoint join_dot (l : list string) : string :=
    match l with
    | [] => ""
    | [x] => x
    | x :: r => x ++ "." ++ join_dot r
    end.

  (** [s.rsplit(".", k)[0]] for [k >= 0]: [s] with its last [k] dotted
      components removed, or all of [s] up to the first separator when
      there are fewer than [k] separators. *)
Fixpoint rstrip_components (k : nat) (s : string) : string :=
    match k with
    | O => s
    | S j => match rpartition s with
             | Some (h, _) => rstrip_components j h
             | None => s
             end
    end.

  (** [len(s.rsplit(".", k))] for [k >= 0] *)
Definition rsplit_len (k : nat) (s : string) : nat :=
    S (Nat.min k (count_dot s)).

  (** [l.sort()]: ascending in the lexicographic order of [str]. *)
Definition sort (l : list string) : list string := merge_sort String.le l.

End PyStr.

(* ===================================================================== *)
(** ** Python [dict]: insertion-ordered, one entry per key *)
(* ===================================================================== *)

Module PyDict.
Section Dict.
Context {V : Type}.

Definition t := list (string * V).

    (** [d.get(k)] *)
Fixpoint get (k : string) (d : t) : option V :=
      match d with
      | [] => None
      | (k', v) :: r => if String.eqb k k' then Some v else get k r
      end.

    (** [d[k] = f(d[k])] for a present key; the position is kept. *)
Fixpoint update (k : string) (f : V -> V) (d : t) : t :=
      match d with
      | [] => []
      | (k', v) :: r =>
          if String.eqb k k' then (k', f v) :: r else (k', v) :: update k f r
      end.

    (** [f(d.setdefault(k, dflt))] where [f] mutates the value in place:
        a present entry is updated where it stands, a new one is
        appended. *)
Definition setdefault_apply (k : string) (dflt : V) (f : V -> V) (d : t) : t :=
      match get k d with
      | Some _ => update k f d
      | None => d ++ [(k, f dflt)]
      end.

    (** [list(d)]: the keys in insertion order. *)
Definition keys (d : t) : list string := map fst d.

    (** A dictionary holds each key once. *)
Definition wf (d : t) : Prop := NoDup (keys d).
End Dict.
Arguments t : clear implicits.
End PyDict.

(* ===================================================================== *)
(** ** Code objects and the facts [dis] reads off them *)
(* ===================================================================== *)

(** One import statement as [dis._find_imports] yields it. *)
Record ImportDirective := mkImport {
  imp_name : string;                    (* raw target, without leading dots *)
  imp_level : Z;                        (* relativity level *)
  imp_fromlist : option (list string)   (* [None] for a plain [import x] *)
}.

(** An entry of [co_consts]: a nested code object or any other constant. *)
Inductive Const (C : Type) : Type :=
| KOther : Const C
| KCode : C -> Const C.
Arguments KOther {C}.
Arguments KCode {C} _.

(** [types.CodeType], reduced to what the scanner reads:
    [co_filename], [co_consts], and the two streams
    [dis._find_store_names(code)] and [dis._find_imports(code)]. *)
Inductive CodeType : Type :=
| Code (co_filename : string)
       (store_names : list string)
       (imports : list ImportDirective)
       (co_consts : list (Const CodeType)).

Definition co_filename (c : CodeType) : string :=
  match c with Code f _ _ _ => f end.
Definition find_store_names (c : CodeType) : list string :=
  match c with Code _ s _ _ => s end.
Definition find_imports (c : CodeType) : list ImportDirective :=
  match c with Code _ _ i _ => i end.
Definition co_consts (c : CodeType) : list (Const CodeType) :=
  match c with Code _ _ _ k => k end.

(* ===================================================================== *)
(** ** Modules and the finder state *)
(* ===================================================================== *)

(** [MFModuleType].  A module object is referred to by the key under
    which it sits in [mf.modules]: the import machinery registers a
    module under its [__name__] before its loader runs, so the scanner's
    [module] argument is always such a key.  [__code__] and the two name
    sets are assigned by the first three statements of
    [_MFLoader.exec_module], which run right after the registration; a
    record shows the values these statements give them.

    [mf.modules] is declared [dict[str, MFModuleType]].  For a spec
    without a loader (a namespace package) [importlib] makes the module
    itself, a plain [types.ModuleType]: an entry that is not of the
    declared type and has no [__code__] and no name sets.  [mod_typed]
    is [false] for such an entry, whose last three fields then show
    nothing that could be read. *)
Record MFModuleType := mkModule {
  mod_name : string;                       (* [__name__] *)
  mod_package : string;                    (* [__package__], the spec's parent *)
  mod_path : option (list string);         (* [__path__], set for packages only *)
  mod_attrs : gset string;                 (* submodules bound with [setattr] *)
  mod_typed : bool;                        (* has the three fields below *)
  mod_code : option CodeType;              (* [__code__] *)
  mf_global_names : gset string;           (* [__mf_global_names__] *)
  mf_star_imports : gset string            (* [__mf_star_imports__] *)
}.

(** What the run has done so far; the scanner never reads it. *)
Inductive Event : Type :=
| EvFind (fullname : string)      (* a meta-path finder was asked for the name *)
| EvRegister (name : string)      (* [sys.modules[name] = module] *)
| EvUnregister (name : string)    (* [del sys.modules[name]] *)
| EvScanBegin (name : string)     (* [_scan_code] entered for the module's code *)
| EvScanEnd (name : string).      (* ... and returned *)

(** [ModuleFinder]: [modules] doubles as [sys.modules] while the finder
    runs ([_patch_sys]). *)
Record ModuleFinder := mkFinder {
  path_replacements : list (string * string);
  excludes : list string;
  modules : gmap string MFModuleType;
  bad_modules : PyDict.t (gset string);
  trace : list Event
}.

(* ===================================================================== *)
(** ** [ModuleFinder.any_missing_maybe] *)
(* ===================================================================== *)

(** [self.bad_modules[name]] for a key the loop is iterating over. *)
Definition importers_of (mf : ModuleFinder) (name : string) : gset string :=
  default ∅ (PyDict.get name (bad_modules mf)).

(** One turn of [for name in self.bad_modules]; the accumulator is the
    pair of local lists [(missing, maybe)]. *)
Definition any_missing_maybe_body (mf : ModuleFinder)
    (acc : list string * list string) (name : string) : list string * list string :=
  let '(missing, maybe) := acc in
  if bool_decide (name ∈ excludes mf) then acc
  else if negb (PyStr.contains_dot name) then (missing ++ [name], maybe)
  else
    let pkgname := PyStr.rpartition_head name in
    let subname := PyStr.rpartition_tail name in
    match modules mf !! pkgname with
    | Some pkg =>
        if bool_decide (pkgname ∈ importers_of mf name) then (missing ++ [name], maybe)
        else if bool_decide (subname ∈ mf_global_names pkg) then acc
        else if negb (bool_decide (mf_star_imports pkg = ∅)) then (missing, maybe ++ [name])
        else (missing ++ [name], maybe)
    | None => (missing ++ [name], maybe)
    end.

Definition any_missing_maybe (mf : ModuleFinder) : list string * list string :=
  let '(missing, maybe) :=
    fold_left (any_missing_maybe_body mf) (PyDict.keys (bad_modules mf)) ([], []) in
  (PyStr.sort missing, PyStr.sort maybe).

(* ===================================================================== *)
(** ** [_replace_paths_in_code] *)
(* ===================================================================== *)

(** Induction over code objects that reaches the nested code objects in
    [co_consts]. *)
Definition const_holds (P : CodeType → Prop) (k : Const CodeType) : Prop :=
  match k with KCode c => P c | KOther => True end.

Fixpoint CodeType_nested_ind (P : CodeType → Prop)
    (step : ∀ f s i ks, Forall (const_holds P) ks → P (Code f s i ks))
    (c : CodeType) : P c :=
  match c with
  | Code f s i ks =>
      step f s i ks
        ((fix go (l : list (Const CodeType)) : Forall (const_holds P) l :=
            match l with
            | [] => @List.Forall_nil _ (const_holds P)
            | k :: r =>
                @List.Forall_cons _ (const_holds P) k r
                  (match k return const_holds P k with
                   | KCode c' => CodeType_nested_ind P step c'
                   | KOther => I
                   end)
                  (go r)
            end) ks)
  end.

(** The [for ... else] loop over [path_replacements]: the first pair
    whose old path is a prefix of the file name rewrites it with
    [str.replace(old, new, 1)]; without such a pair the name is kept. *)
Fixpoint rewrite_filename (original_filename : string)
    (path_replacements : list (string * string)) : string :=
  match path_replacements with
  | [] => original_filename
  | (old_path, new_path) :: rest =>
      if PyStr.startswith original_filename old_path
      then PyStr.replace1 old_path new_path original_filename
      else rewrite_filename original_filename rest
  end.

Section ReplacePaths.
(** [os.path.normpath] of the platform the finder runs on. *)
Variable normpath : string → string.

Fixpoint _replace_paths_in_code (code : CodeType)
    (path_replacements : list (string * string)) : CodeType :=
  match code with
  | Code filename stores imps consts =>
      let original_filename := normpath filename in
      let new_filename := rewrite_filename original_filename path_replacements in
      let new_consts :=
        map (λ const,
               match const with
               | KCode c => KCode (_replace_paths_in_code c path_replacements)
               | KOther => KOther
               end) consts in
      Code new_filename stores imps new_consts
  end.
End ReplacePaths.

(** Every file name in a code object's tree, the unit's own first. *)
Fixpoint all_filenames (code : CodeType) : list string :=
  match code with
  | Code filename _ _ consts =>
      filename ::
      concat (map (λ const, match const with
                            | KCode c => all_filenames c
                            | KOther => []
                            end) consts)
  end.

(** *** [posixpath.normpath]

    The standard library's function on a POSIX host (CPython,
    [Lib/posixpath.py]); it is not part of this repository and stands
    here so that [_replace_paths_in_code] can be run on sample inputs. *)
Module Posix.

Definition is_sep (c : ascii) : bool := Ascii.eqb c "/"%char.

(** [path.split("/")] *)
Fixpoint split_sep_aux (cur : string) (s : string) : list string :=
  match s with
  | EmptyString => [cur]
  | String c r =>
      if is_sep c then cur :: split_sep_aux EmptyString r
      else split_sep_aux (cur +:+ String c EmptyString) r
  end.
Definition split_sep (s : string) : list string := split_sep_aux EmptyString s.

(** ["/".join(comps)] *)
Fixpoint join_sep (l : list string) : string :=
  match l with
  | [] => EmptyString
  | [x] => x
  | x :: r => x +:+ "/" +:+ join_sep r
  end.

(** One turn of the loop over the components; [new_comps] is kept in
    order, [initial_slashes] is 0, 1 or 2. *)
Definition normpath_step (initial_slashes : nat) (new_comps : list string)
    (comp : string) : list string :=
  if String.eqb comp "" || String.eqb comp "." then new_comps
  else if negb (String.eqb comp "..")
          || (Nat.eqb initial_slashes 0 && bool_decide (new_comps = []))
          || (negb (bool_decide (new_comps = []))
              && bool_decide (last new_comps = Some ".."))
  then new_comps ++ [comp]
  else if negb (bool_decide (new_comps = [])) then removelast new_comps
  else new_comps.

Definition normpath (path : string) : string :=
  if String.eqb path "" then "."
  else
    let initial_slashes :=
      if PyStr.startswith path "/" then
        if PyStr.startswith path "//" && negb (PyStr.startswith path "///")
        then 2 else 1
      else 0 in
    let comps := fold_left (normpath_step initial_slashes) (split_sep path) [] in
    let joined := join_sep comps in
    let result :=
      match initial_slashes with
      | 0 => joined
      | 1 => "/" +:+ joined
      | _ => "//" +:+ joined
      end in
    if String.eqb result "" then "." else result.

End Posix.

(* ===================================================================== *)
(** ** Exceptions and results *)
(* ===================================================================== *)

(** The exception classes that occur.  [ModuleNotFoundError] is a
    subclass of [ImportError] and carries the [name] attribute that
    [importlib] inspects. *)
Inductive Exc : Type :=
| ModuleNotFoundError (name : string)
| ImportError
| SyntaxError
| ValueError
| AttributeError
| KeyError
| AssertionError
| FileNotFoundError.

#[global] Instance Exc_eq_dec : EqDecision Exc.
Proof. solve_decision. Defined.

(** [except (ImportError, SyntaxError)] *)
Definition caught_by_scan (e : Exc) : bool :=
  match e with
  | ModuleNotFoundError _ | ImportError | SyntaxError => true
  | _ => false
  end.

(** A returned value or a raised exception. *)
Inductive Res (A : Type) : Type :=
| Ok (a : A)
| Raise (e : Exc).
Arguments Ok {A} _.
Arguments Raise {A} _.

(* ===================================================================== *)
(** ** Module specs and fresh modules *)
(* ===================================================================== *)

(** The loader of a spec, seen through what [loader.get_code(name)]
    does for the found module.  [NoLoader]: [spec.loader] is [None], as
    in the spec [PathFinder] gives for a namespace package. *)
Inductive GetCode : Type :=
| GotCode (code : CodeType)     (* source or bytecode was compiled *)
| NoCode                        (* built-in or extension module: [None] *)
| CodeRaises (e : Exc)          (* e.g. [SyntaxError] in the source *)
| NoLoader.                     (* there is no loader to ask *)

(** [importlib.machinery.ModuleSpec], reduced to what is read here.
    [_inject_mf_into_spec] installs [_MFLoader] around the loader of a
    spec that has one and leaves a spec without loader as it is. *)
Record ModuleSpec := mkSpec {
  submodule_search_locations : option (list string);   (* set for packages *)
  get_code : GetCode
}.

(** [spec.loader is not None] *)
Definition has_loader (spec : ModuleSpec) : bool :=
  match get_code spec with
  | NoLoader => false
  | _ => true
  end.

(** [spec.parent] for a spec found under [name]. *)
Definition spec_parent (name : string) (spec : ModuleSpec) : string :=
  match submodule_search_locations spec with
  | None => PyStr.rpartition_head name
  | Some _ => name
  end.

(** [importlib.util.module_from_spec(spec)]: a fresh module with the
    import attributes set by [_init_module_attrs].  With a loader the
    module is the [MFModuleType(spec.name)] of [_MFLoader.create_module];
    [__code__] and the two name sets are not assigned yet, and the
    record shows what [exec_module] starts them at.  Without a loader
    it is the plain module of [importlib]'s [_new_module]. *)
Definition module_from_spec (name : string) (spec : ModuleSpec) : MFModuleType :=
  {| mod_name := name;
     mod_package := spec_parent name spec;
     mod_path := submodule_search_locations spec;
     mod_attrs := ∅;
     mod_typed := has_loader spec;
     mod_code := None;
     mf_global_names := ∅;
     mf_star_imports := ∅ |}.

(* ===================================================================== *)
(** ** Relative names: [importlib.util.resolve_name] *)
(* ===================================================================== *)

(** [_calc___package__(module.__dict__)]: the module's [__package__],
    which [_init_module_attrs] has set to [spec.parent]. *)
Definition _calc___package__ (module : MFModuleType) : option string :=
  Some (mod_package module).

(** Number of leading dots of a name. *)
Fixpoint leading_dots (s : string) : nat :=
  match s with
  | String c r => if PyStr.is_dot c then S (leading_dots r) else 0
  | EmptyString => 0
  end.

(** [importlib._bootstrap._resolve_name(name, package, level)], [level >= 1] *)
Definition _resolve_name (name package : string) (level : nat) : Res string :=
  if Nat.ltb (PyStr.rsplit_len (Nat.pred level) package) level then Raise ImportError
  else
    let base := PyStr.rstrip_components (Nat.pred level) package in
    Ok (if String.eqb name "" then base else base +:+ "." +:+ name).

(** [importlib.util.resolve_name(name, package)] *)
Definition resolve_name (name : string) (package : option string) : Res string :=
  if negb (PyStr.startswith name ".") then Ok name
  else
    match package with
    | None | Some EmptyString => Raise ImportError
    | Some package =>
        let level := leading_dots name in
        _resolve_name (PyStr.drop level name) package level
    end.

(** Lines 111-113 of [_scan_code]: the absolute name of a directive with
    [level > 0] in [module]. *)
Definition resolve_relative (module : MFModuleType) (name : string) (level : Z)
    : Res string :=
  let package := _calc___package__ module in
  resolve_name (PyStr.dots (Z.to_nat level) +:+ name) package.

(* ===================================================================== *)
(** ** The legacy variant: [ModuleFinder.determine_parent] *)
(* ===================================================================== *)

Module Legacy.

(** [Module] of [_modulefinder_typed.py], reduced to name and path. *)
Record Module := mkModule {
  __name__ : string;
  __path__ : option (list string)
}.

#[global] Instance Module_eq_dec : EqDecision Module.
Proof. solve_decision. Defined.

(** Truth value of [caller.__path__]: set and not empty. *)
Definition has_path (m : Module) : bool :=
  match __path__ m with
  | Some (_ :: _) => true
  | _ => false
  end.

(** [self.modules[pname]] *)
Definition getitem (modules : gmap string Module) (pname : string) : Res Module :=
  match modules !! pname with
  | Some m => Ok m
  | None => Raise KeyError
  end.

(** [l[:-k]] for [k >= 1] *)
Definition drop_last {A} (k : nat) (l : list A) : list A :=
  take (length l - k) l.

Definition determine_parent (modules : gmap string Module)
    (caller : option Module) (level : Z) : Res (option Module) :=
  match caller with
  | None => Ok None
  | Some caller =>
      if (level =? 0)%Z then Ok None
      else
        let pname := __name__ caller in
        if (level >=? 1)%Z then
          let level := if has_path caller then (level - 1)%Z else level in
          if (level =? 0)%Z then
            match getitem modules pname with
            | Ok parent =>
                if decide (parent = caller) then Ok (Some parent)
                else Raise AssertionError
            | Raise e => Raise e
            end
          else if (Z.of_nat (PyStr.count_dot pname) <? level)%Z then Raise ImportError
          else
            let pname :=
              PyStr.join_dot (drop_last (Z.to_nat level) (PyStr.split_dot pname)) in
            match getitem modules pname with
            | Ok parent => Ok (Some parent)
            | Raise e => Raise e
            end
        else if has_path caller then
          match getitem modules pname with
          | Ok parent =>
              if decide (parent = caller) then Ok (Some parent)
              else Raise AssertionError
          | Raise e => Raise e
          end
        else if PyStr.contains_dot pname then
          let pname := PyStr.rpartition_head pname in
          match getitem modules pname with
          | Ok parent =>
              if decide (__name__ parent = pname) then Ok (Some parent)
              else Raise AssertionError
          | Raise e => Raise e
          end
        else Ok None
  end.

End Legacy.

(* ===================================================================== *)
(** ** Computations over the finder *)
(* ===================================================================== *)

(** A computation takes the finder, and either runs out of fuel
    ([None]) or ends in a finder and a result, which is a value or a
    raised exception. *)
Definition Run (A : Type) : Type := ModuleFinder → option (ModuleFinder * Res A).

Definition ret {A} (a : A) : Run A := λ mf, Some (mf, Ok a).
Definition raise {A} (e : Exc) : Run A := λ mf, Some (mf, Raise e).
Definition out_of_fuel {A} : Run A := λ _, None.

Definition bind {A B} (c : Run A) (k : A → Run B) : Run B :=
  λ mf, match c mf with
        | None => None
        | Some (mf', Ok a) => k a mf'
        | Some (mf', Raise e) => Some (mf', Raise e)
        end.

Notation "'let!' x ':=' c 'in' k" := (bind c (λ x, k))
  (at level 10, x pattern, c at level 100, k at level 200).

(** Runs [c] and hands its outcome over instead of raising. *)
Definition attempt {A} (c : Run A) : Run (Res A) :=
  λ mf, match c mf with
        | None => None
        | Some (mf', r) => Some (mf', Ok r)
        end.

(** Reads and writes of the finder's fields. *)
Definition gets {A} (f : ModuleFinder → A) : Run A := λ mf, Some (mf, Ok (f mf)).
Definition modify (f : ModuleFinder → ModuleFinder) : Run unit :=
  λ mf, Some (f mf, Ok tt).

Definition set_modules (f : gmap string MFModuleType → gmap string MFModuleType)
    (mf : ModuleFinder) : ModuleFinder :=
  {| path_replacements := path_replacements mf; excludes := excludes mf;
     modules := f (modules mf); bad_modules := bad_modules mf; trace := trace mf |}.

Definition set_bad_modules (f : PyDict.t (gset string) → PyDict.t (gset string))
    (mf : ModuleFinder) : ModuleFinder :=
  {| path_replacements := path_replacements mf; excludes := excludes mf;
     modules := modules mf; bad_modules := f (bad_modules mf); trace := trace mf |}.

(** Appends an event to the trace. *)
Definition log_event (ev : Event) (mf : ModuleFinder) : ModuleFinder :=
  {| path_replacements := path_replacements mf; excludes := excludes mf;
     modules := modules mf; bad_modules := bad_modules mf;
     trace := trace mf ++ [ev] |}.

Definition log (ev : Event) : Run unit := modify (log_event ev).

(** [sys.modules[name]] *)
Definition getmodule (name : string) : Run MFModuleType :=
  λ mf, match modules mf !! name with
        | Some m => Some (mf, Ok m)
        | None => Some (mf, Raise KeyError)
        end.

(** An in-place change of the module object registered under [name]. *)
Definition update_module (name : string) (f : MFModuleType → MFModuleType) : Run unit :=
  modify (set_modules (alter f name)).

(** Field updates of a module object. *)
Definition set_code (code : option CodeType) (m : MFModuleType) : MFModuleType :=
  {| mod_name := mod_name m; mod_package := mod_package m; mod_path := mod_path m;
     mod_attrs := mod_attrs m; mod_typed := mod_typed m;
     mod_code := code;
     mf_global_names := mf_global_names m; mf_star_imports := mf_star_imports m |}.

Definition set_global_names (f : gset string → gset string) (m : MFModuleType) : MFModuleType :=
  {| mod_name := mod_name m; mod_package := mod_package m; mod_path := mod_path m;
     mod_attrs := mod_attrs m; mod_typed := mod_typed m;
     mod_code := mod_code m;
     mf_global_names := f (mf_global_names m); mf_star_imports := mf_star_imports m |}.

Definition set_star_imports (f : gset string → gset string) (m : MFModuleType) : MFModuleType :=
  {| mod_name := mod_name m; mod_package := mod_package m; mod_path := mod_path m;
     mod_attrs := mod_attrs m; mod_typed := mod_typed m;
     mod_code := mod_code m;
     mf_global_names := mf_global_names m; mf_star_imports := f (mf_star_imports m) |}.

(** [setattr(module, child, ...)] *)
Definition bind_attr (child : string) (m : MFModuleType) : MFModuleType :=
  {| mod_name := mod_name m; mod_package := mod_package m; mod_path := mod_path m;
     mod_attrs := mod_attrs m ∪ {[child]}; mod_typed := mod_typed m;
     mod_code := mod_code m;
     mf_global_names := mf_global_names m; mf_star_imports := mf_star_imports m |}.

(** The object now carries [__code__] and the two name sets. *)
Definition mark_typed (m : MFModuleType) : MFModuleType :=
  {| mod_name := mod_name m; mod_package := mod_package m; mod_path := mod_path m;
     mod_attrs := mod_attrs m; mod_typed := true;
     mod_code := mod_code m;
     mf_global_names := mf_global_names m; mf_star_imports := mf_star_imports m |}.

(** [mf.bad_modules.setdefault(name, set()).add(importer)] *)
Definition add_bad_module (name importer : string) : Run unit :=
  modify (set_bad_modules (PyDict.setdefault_apply name ∅ (λ s, s ∪ {[importer]}))).

(** A result computed without the finder. *)
Definition lift_res {A} (r : Res A) : Run A :=
  match r with Ok a => ret a | Raise e => raise e end.

(** A [for] loop whose body may raise. *)
Fixpoint for_each {A} (body : A → Run unit) (l : list A) : Run unit :=
  match l with
  | [] => ret tt
  | x :: r => let! _ := body x in for_each body r
  end.

(* ===================================================================== *)
(** ** The scanner and the import machinery it drives *)
(* ===================================================================== *)

Section Engine.

(** Whether [assert] statements are compiled out ([python -O]). *)
Variable optimized : bool.

(** [os.path.normpath] of the host. *)
Variable normpath : string → string.

(** The file system and the built-in tables, as seen through the three
    wrapped finders of [mf.meta_path] tried in order: the spec found for
    a full name on a search path ([None] as path: [mf.path]), [None]
    when no finder has one, or the exception a finder raised. *)
Variable find_spec : string → option (list string) → Res (option ModuleSpec).

(** Attributes a module object has apart from [__path__] and from
    submodules bound by the import machinery ([__name__], [__spec__],
    ...).  Module code is never executed, so its globals are not among
    them. *)
Variable intrinsic_attr : MFModuleType → string → bool.

(** [hasattr(module, attr)] *)
Definition hasattr (m : MFModuleType) (attr : string) : bool :=
  if String.eqb attr "__path__" then
    match mod_path m with Some _ => true | None => false end
  else intrinsic_attr m attr || bool_decide (attr ∈ mod_attrs m).

(** The wildcard part of a directive (lines 126-137 of [_scan_code]).
    [cached_mod] may be [module] itself; the three reads of it are not
    affected by the writes before them.  A registered module that is
    not an [MFModuleType] fails the assertion of line 131; with asserts
    compiled out the read of its [__mf_global_names__] on line 132
    raises instead. *)
Definition star_import (module name : string) : Run unit :=
  let! mods := gets modules in
  match mods !! name with
  | Some cached_mod =>
      if negb (mod_typed cached_mod) then
        raise (if optimized then AttributeError else AssertionError)
      else
        let! _ := update_module module
                    (set_global_names (λ s, s ∪ mf_global_names cached_mod)) in
        let! _ := update_module module
                    (set_star_imports (λ s, s ∪ mf_star_imports cached_mod)) in
        match mod_code cached_mod with
        | None => update_module module (set_star_imports (λ s, s ∪ {[name]}))
        | Some _ => ret tt
        end
  | None => update_module module (set_star_imports (λ s, s ∪ {[name]}))
  end.

(** [have_star] and the fromlist without the sentinel (lines 102-107). *)
Definition split_fromlist (fromlist : option (list string)) : bool * list string :=
  match fromlist with
  | Some fl => (bool_decide ("*" ∈ fl), filter (λ f, f ≠ "*") fl)
  | None => (false, [])
  end.

(** The [else] of the [try] (lines 121-124). *)
Definition record_missing_fromlist (module name result_module : string)
    (fromlist : list string) : Run unit :=
  let! result := getmodule result_module in
  if hasattr result "__path__" then
    for_each (λ from_item,
                let! result := getmodule result_module in
                if hasattr result from_item then ret tt
                else add_bad_module (name +:+ "." +:+ from_item) module)
             fromlist
  else ret tt.

Section Machinery.

(** [_gcd_import], the callback [importlib] threads through its helpers;
    it returns the key of the imported module. *)
Variable import_ : string → Run string.

(** [importlib._bootstrap._handle_fromlist(module, fromlist, import_)].
    [_scan_code] strips the ["*"] sentinel before it calls, and no
    module has [__all__] since module code is not run. *)
Definition _handle_fromlist (module : string) (fromlist : list string) : Run string :=
  let! _ :=
    for_each
      (λ x,
         if String.eqb x "*" then ret tt
         else
           let! m := getmodule module in
           if hasattr m x then ret tt
           else
             let from_name := module +:+ "." +:+ x in
             let! r := attempt (import_ from_name) in
             match r with
             | Ok _ => ret tt
             | Raise (ModuleNotFoundError n) =>
                 if String.eqb n from_name then ret tt
                 else raise (ModuleNotFoundError n)
             | Raise e => raise e
             end)
      fromlist in
  ret module.

(** [importlib.__import__(name, globals, locals, fromlist, 0)] *)
Definition __import__ (name : string) (fromlist : list string) : Run string :=
  let! module := import_ name in
  if bool_decide (fromlist = []) then import_ (PyStr.partition_head name)
  else
    let! m := getmodule module in
    if hasattr m "__path__" then _handle_fromlist module fromlist
    else ret module.

(** The [try] block of a directive (lines 109-117): the value [name]
    has when the block is left, and how the block ended.  A negative
    level is refused by [importlib]'s [_sanity_check]. *)
Definition try_import (module : string) (d : ImportDirective) (fromlist : list string)
    : Run (string * Res string) :=
  let name := imp_name d in
  let level := imp_level d in
  if (0 <? level)%Z then
    let! m := getmodule module in
    match resolve_relative m name level with
    | Raise e => ret (name, Raise e)
    | Ok name => let! r := attempt (__import__ name fromlist) in ret (name, r)
    end
  else if (level <? 0)%Z then ret (name, Raise ValueError)
  else let! r := attempt (__import__ name fromlist) in ret (name, r).

(** One [("import", (name, fromlist, level))] turn of [_scan_code]. *)
Definition scan_import (module : string) (d : ImportDirective) : Run unit :=
  let '(have_star, fromlist) := split_fromlist (imp_fromlist d) in
  let! (name, outcome) := try_import module d fromlist in
  let! _ :=
    match outcome with
    | Raise e =>
        if caught_by_scan e then add_bad_module name module
        else raise e
    | Ok result_module => record_missing_fromlist module name result_module fromlist
    end in
  if have_star then star_import module name else ret tt.

(** [_scan_code(mf, module, code)]: the store names, then the imports,
    then the nested code objects. *)
Fixpoint _scan_code (module : string) (code : CodeType) : Run unit :=
  match code with
  | Code _ stores imps consts =>
      let! _ := for_each (λ name, update_module module
                                    (set_global_names (λ s, s ∪ {[name]}))) stores in
      let! _ := for_each (scan_import module) imps in
      (fix scan_consts (l : list (Const CodeType)) : Run unit :=
         match l with
         | [] => ret tt
         | KCode const :: r => let! _ := _scan_code module const in scan_consts r
         | KOther :: r => scan_consts r
         end) consts
  end.

(** [_MFLoader.exec_module(module)].  [importlib] passes the module
    registered under [name].  The assertion of line 182 fails for a
    module that is not an [MFModuleType]; with asserts compiled out the
    three assignments give such a module the fields too.  A wrapper
    around no loader has nothing to ask for the code. *)
Definition exec_module (name : string) (spec : ModuleSpec) : Run unit :=
  let! mods := gets modules in
  if negb optimized &&
     match mods !! name with Some m => negb (mod_typed m) | None => false end
  then raise AssertionError
  else
    let! _ := update_module name
                (λ m, mark_typed
                        (set_star_imports (λ _, ∅)
                           (set_global_names (λ _, ∅) (set_code None m)))) in
    match get_code spec with
    | NoLoader => raise AttributeError
    | CodeRaises e => raise e
    | NoCode => ret tt
    | GotCode code =>
        let! rules := gets path_replacements in
        let code := if bool_decide (rules = []) then code
                    else _replace_paths_in_code normpath code rules in
        let! _ := update_module name (set_code (Some code)) in
        let! _ := log (EvScanBegin name) in
        let! _ := _scan_code name code in
        log (EvScanEnd name)
    end.

(** What [_load_unlocked] does between registering the module and
    handing it back: with a loader, [spec.loader.exec_module(module)];
    without one, nothing for a namespace package and [ImportError]
    ("missing loader") otherwise. *)
Definition run_loader (name : string) (spec : ModuleSpec) : Run unit :=
  if has_loader spec then exec_module name spec
  else
    match submodule_search_locations spec with
    | Some _ => ret tt
    | None => raise ImportError
    end.

(** [importlib._bootstrap._load_unlocked(spec)] *)
Definition _load_unlocked (name : string) (spec : ModuleSpec) : Run string :=
  let! _ := modify (set_modules (insert name (module_from_spec name spec))) in
  let! _ := log (EvRegister name) in
  let! r := attempt (run_loader name spec) in
  match r with
  | Raise e =>
      let! _ := modify (set_modules (delete name)) in
      let! _ := log (EvUnregister name) in
      raise e
  | Ok _ =>
      let! _ := getmodule name in
      ret name
  end.

(** [_find_spec(name, path)] over the wrapped finders; what a finder
    raises goes to the caller. *)
Definition _find_spec (name : string) (path : option (list string))
    : Run (option ModuleSpec) :=
  let! _ := log (EvFind name) in
  lift_res (find_spec name path).

(** The second half of [_find_and_load_unlocked]: find, load, and bind
    the module on its parent. *)
Definition find_load_bind (name : string) (path : option (list string))
    (parent : option string) : Run string :=
  let! spec := _find_spec name path in
  match spec with
  | None => raise (ModuleNotFoundError name)
  | Some spec =>
      let! module := _load_unlocked name spec in
      let! _ :=
        match parent with
        | Some parent =>
            let! _ := getmodule parent in
            update_module parent (bind_attr (PyStr.rpartition_tail name))
        | None => ret tt
        end in
      ret module
  end.

(** [importlib._bootstrap._find_and_load_unlocked(name, import_)] *)
Definition _find_and_load_unlocked (name : string) : Run string :=
  let parent := PyStr.rpartition_head name in
  if String.eqb parent "" then find_load_bind name None None
  else
    let! mods := gets modules in
    let! _ := match mods !! parent with
              | Some _ => ret tt
              | None => let! _ := import_ parent in ret tt
              end in
    let! mods := gets modules in
    match mods !! name with
    | Some _ => ret name
    | None =>
        let! parent_module := getmodule parent in
        match mod_path parent_module with
        | None => raise (ModuleNotFoundError name)
        | Some path => find_load_bind name (Some path) (Some parent)
        end
    end.

(** [importlib._bootstrap._find_and_load(name, import_)] *)
Definition _find_and_load (name : string) : Run string :=
  let! mods := gets modules in
  match mods !! name with
  | Some _ => ret name
  | None => _find_and_load_unlocked name
  end.

End Machinery.

(** [importlib._bootstrap._gcd_import(name)]; the fuel bounds the depth
    of nested imports. *)
Fixpoint _gcd_import (fuel : nat) (name : string) : Run string :=
  match fuel with
  | O => out_of_fuel
  | S fuel =>
      if String.eqb name "" then raise ValueError
      else _find_and_load (_gcd_import fuel) name
  end.

(** [ModuleFinder.import_as_module(name)] with its default arguments. *)
Definition import_as_module (fuel : nat) (name : string) : Run unit :=
  let! _ := __import__ (_gcd_import fuel) name [] in
  ret tt.

(** [ModuleFinder._import_from_file(name, pathname)];
    [spec] is [importlib.util.spec_from_file_location(name, pathname)].
    With asserts on, a spec without loader fails the assertion of line
    283, and for any other spec the fresh [MFModuleType] has no
    [__code__] attribute yet, so that evaluating the assertion of line
    286 raises [AttributeError]: nothing is registered.  With asserts
    compiled out the module is registered and handed to the loader. *)
Definition _import_from_file (fuel : nat) (name : string)
    (spec : option ModuleSpec) : Run unit :=
  match spec with
  | None => raise FileNotFoundError
  | Some spec =>
      if negb optimized then
        raise (if has_loader spec then AttributeError else AssertionError)
      else
        let! _ := modify (set_modules (insert name (module_from_spec name spec))) in
        let! _ := log (EvRegister name) in
        if has_loader spec then exec_module (_gcd_import fuel) name spec
        else raise AttributeError
  end.

End Engine.

(* ===================================================================== *)
(** ** [any_missing_maybe] on any registry *)
(* ===================================================================== *)

(** [any_missing_maybe] above is the method over a registry of
    [MFModuleType]s, as [mf.modules] is declared.  A registered module
    that is not one has no [__mf_global_names__]: the read in the
    second test on the package raises [AttributeError], and the loop
    is left at that name. *)
Definition any_missing_maybe_turn (mf : ModuleFinder)
    (acc : list string * list string) (name : string)
    : Res (list string * list string) :=
  let '(missing, maybe) := acc in
  if bool_decide (name ∈ excludes mf) then Ok acc
  else if negb (PyStr.contains_dot name) then Ok (missing ++ [name], maybe)
  else
    let pkgname := PyStr.rpartition_head name in
    let subname := PyStr.rpartition_tail name in
    match modules mf !! pkgname with
    | Some pkg =>
        if bool_decide (pkgname ∈ importers_of mf name) then Ok (missing ++ [name], maybe)
        else if negb (mod_typed pkg) then Raise AttributeError
        else if bool_decide (subname ∈ mf_global_names pkg) then Ok acc
        else if negb (bool_decide (mf_star_imports pkg = ∅)) then Ok (missing, maybe ++ [name])
        else Ok (missing ++ [name], maybe)
    | None => Ok (missing ++ [name], maybe)
    end.

(** [for name in self.bad_modules], left at the first exception. *)
Fixpoint any_missing_maybe_loop (mf : ModuleFinder) (names : list string)
    (acc : list string * list string) : Res (list string * list string) :=
  match names with
  | [] => Ok acc
  | name :: rest =>
      match any_missing_maybe_turn mf acc name with
      | Ok acc' => any_missing_maybe_loop mf rest acc'
      | Raise e => Raise e
      end
  end.

Definition any_missing_maybe_call (mf : ModuleFinder) : Res (list string * list string) :=
  match any_missing_maybe_loop mf (PyDict.keys (bad_modules mf)) ([], []) with
  | Ok (missing, maybe) => Ok (PyStr.sort missing, PyStr.sort maybe)
  | Raise e => Raise e
  end.

(* ===================================================================== *)
(** ** Statement vocabulary *)
(* ===================================================================== *)

(** What one turn of the classifier loop does with a name. *)
Inductive Verdict : Type := VSkip | VMissing | VMaybe | VDrop.

#[global] Instance Verdict_eq_dec : EqDecision Verdict.
Proof. solve_decision. Defined.

(** The branch the loop body of [any_missing_maybe] takes for [name]. *)
Definition verdict (mf : ModuleFinder) (name : string) : Verdict :=
  if bool_decide (name ∈ excludes mf) then VSkip
  else if negb (PyStr.contains_dot name) then VMissing
  else
    match modules mf !! PyStr.rpartition_head name with
    | Some pkg =>
        if bool_decide (PyStr.rpartition_head name ∈ importers_of mf name) then VMissing
        else if bool_decide (PyStr.rpartition_tail name ∈ mf_global_names pkg) then VDrop
        else if negb (bool_decide (mf_star_imports pkg = ∅)) then VMaybe
        else VMissing
    | None => VMissing
    end.

(** Where a failed name ends up in the report. *)
Inductive Placement : Type := InMissing | InMaybe | InNeither.

Definition placed (mf : ModuleFinder) (n : string) (where_ : Placement) : Prop :=
  match where_ with
  | InMissing => (n ∈ (any_missing_maybe mf).1) ∧ (n ∉ (any_missing_maybe mf).2)
  | InMaybe => (n ∈ (any_missing_maybe mf).2) ∧ (n ∉ (any_missing_maybe mf).1)
  | InNeither => (n ∉ (any_missing_maybe mf).1) ∧ (n ∉ (any_missing_maybe mf).2)
  end.


(** [any_missing_maybe] as a method: the finder after the call and the
    returned pair.  No statement of the method assigns to a field of
    [self] or calls a mutating method of one of its containers (the two
    sorted lists are locals), so the finder is handed back as received. *)
Definition any_missing_maybe_method (mf : ModuleFinder)
    : ModuleFinder * (list string * list string) :=
  (mf, any_missing_maybe mf).

(** *** Sample states *)

(** A module record as [exec_module] leaves it when no code was found. *)
Definition blank_module (name : string) (path : option (list string)) : MFModuleType :=
  {| mod_name := name;
     mod_package := match path with Some _ => name | None => PyStr.rpartition_head name end;
     mod_path := path; mod_attrs := ∅; mod_typed := true; mod_code := None;
     mf_global_names := ∅; mf_star_imports := ∅ |}.

Definition with_names (m : MFModuleType) (globals stars : gset string) : MFModuleType :=
  {| mod_name := mod_name m; mod_package := mod_package m; mod_path := mod_path m;
     mod_attrs := mod_attrs m; mod_typed := mod_typed m; mod_code := mod_code m;
     mf_global_names := globals; mf_star_imports := stars |}.

(** The state the test case "maybe" of [test_modulefinder.py] ends in:
    package [b] did [from sys import *], [a.module] asked for
    [b.something] and for [c.something]. *)
Definition sample_maybe : ModuleFinder :=
  {| path_replacements := []; excludes := [];
     modules :=
       <["a" := blank_module "a" (Some ["/t/a"])]>
       (<["a.module" := blank_module "a.module" None]>
       (<["b" := with_names (blank_module "b" (Some ["/t/b"])) ∅ {["sys"]}]>
       (<["sys" := blank_module "sys" None]> ∅)));
     bad_modules := [("b.something", {["a.module"]}); ("c", {["a.module"]})];
     trace := [] |}.

(** Package [b] did [from sys import *] and then failed to import its
    own submodule [b.x]. *)
Definition sample_self_import : ModuleFinder :=
  {| path_replacements := []; excludes := [];
     modules :=
       <["b" := with_names (blank_module "b" (Some ["/t/b"])) ∅ {["sys"]}]>
       (<["sys" := blank_module "sys" None]> ∅);
     bad_modules := [("b.x", {["b"]})];
     trace := [] |}.

(** *** Relative names, in the words of the specification *)

(** Number of dotted components of a qualified name; the empty name has
    none. *)
Definition components (s : string) : nat :=
  if String.eqb s "" then 0 else length (PyStr.split_dot s).

(** [s] with its last [k] dotted components removed. *)
Definition strip_components (k : nat) (s : string) : string :=
  PyStr.join_dot (take (length (PyStr.split_dot s) - k) (PyStr.split_dot s)).

(** The anchor of a relative import: the importer's own qualified name
    when it is a package, else the name of its parent package. *)
Definition anchor (qualified_name : string) (is_package : bool) : string :=
  if is_package then qualified_name
  else if PyStr.contains_dot qualified_name then strip_components 1 qualified_name
  else "".

(** The stripped anchor joined to the raw target with a dot; an empty
    target adds nothing. *)
Definition join_target (base target : string) : string :=
  if String.eqb target "" then base else base +:+ "." +:+ target.

(** A qualified module name is not empty and does not begin with a dot. *)
Definition valid_qualname (s : string) : Prop :=
  s ≠ "" ∧ PyStr.startswith s "." = false.

Definition is_package_spec (spec : ModuleSpec) : bool :=
  match submodule_search_locations spec with Some _ => true | None => false end.

(** A plain module's spec whose loader finds no code. *)
Definition plain_spec : ModuleSpec :=
  {| submodule_search_locations := None; get_code := NoCode |}.

(** The legacy registry of test case "relative-imports-2" around
    [a.b.c.moduleC]. *)
Definition legacy_sample : gmap string Legacy.Module :=
  <["a" := Legacy.mkModule "a" (Some ["/t/a"])]>
  (<["a.b" := Legacy.mkModule "a.b" (Some ["/t/a/b"])]>
  (<["a.b.c" := Legacy.mkModule "a.b.c" (Some ["/t/a/b/c"])]>
  (<["a.b.c.moduleC" := Legacy.mkModule "a.b.c.moduleC" None]> ∅))).

(** *** Sample worlds

    A file tree is given as a table from full module names to specs;
    the search path a name is looked up on is determined by the name. *)

Definition table_finder (table : list (string * ModuleSpec))
    (name : string) (path : option (list string)) : Res (option ModuleSpec) :=
  Ok (PyDict.get name table).

Definition no_intrinsic_attr (m : MFModuleType) (attr : string) : bool := false.

Definition source (file : string) (stores : list string)
    (imps : list ImportDirective) : ModuleSpec :=
  {| submodule_search_locations := None;
     get_code := GotCode (Code file stores imps []) |}.

Definition package (dir : string) (stores : list string)
    (imps : list ImportDirective) : ModuleSpec :=
  {| submodule_search_locations := Some [dir];
     get_code := GotCode (Code (dir +:+ "/__init__.py") stores imps []) |}.

Definition builtin : ModuleSpec :=
  {| submodule_search_locations := None; get_code := NoCode |}.

(** [import name] *)
Definition imp (name : string) : ImportDirective := mkImport name 0 None.
(** [from name import items] with [level] leading dots *)
Definition imp_from (level : Z) (name : string) (items : list string) : ImportDirective :=
  mkImport name level (Some items).

(** A new [ModuleFinder]. *)
Definition new_finder (path_replacements : list (string * string))
    (excludes : list string) : ModuleFinder :=
  {| path_replacements := path_replacements; excludes := excludes;
     modules := ∅; bad_modules := []; trace := [] |}.

(** What a run is judged by in [test_modulefinder.py]: the registered
    names and the two lists of [any_missing_maybe]. *)
Definition outcome_of (r : option (ModuleFinder * Res unit))
    : option (list string * (list string * list string)) :=
  match r with
  | Some (mf, Ok _) =>
      Some (PyStr.sort (elements (dom (modules mf))), any_missing_maybe mf)
  | _ => None
  end.

(** Test case "package". *)
Definition world_package : list (string * ModuleSpec) :=
  [ ("mymodule", source "/t/mymodule.py" [] []);
    ("a", package "/t/a" ["blahblah"; "b"; "c"]
            [imp "blahblah"; imp_from 0 "a" ["b"]; imp "c"]);
    ("a.module", source "/t/a/module.py" ["sys"; "x"; "sillyname"]
            [imp "sys"; imp_from 0 "a" ["b"]; imp_from 0 "a.c" ["sillyname"]]);
    ("a.b", source "/t/a/b.py" [] []);
    ("a.c", source "/t/a/c.py" ["x"; "sillyname"; "version_info"]
            [imp_from 0 "a.module" ["x"]; imp "mymodule"; imp_from 0 "sys" ["version_info"]]);
    ("sys", builtin) ].

(** Test case "maybe". *)
Definition world_maybe : list (string * ModuleSpec) :=
  [ ("a", package "/t/a" [] []);
    ("a.module", source "/t/a/module.py" ["something"; "something"]
            [imp_from 0 "b" ["something"]; imp_from 0 "c" ["something"]]);
    ("b", package "/t/b" [] [imp_from 0 "sys" ["*"]]);
    ("sys", builtin) ].

(** Test case "relative-imports-3". *)
Definition world_relative_3 : list (string * ModuleSpec) :=
  [ ("a", package "/t/a" ["foo"] []);
    ("a.module", source "/t/a/module.py" ["foo"; "bar"]
            [imp_from 1 "" ["foo"]; imp_from 1 "" ["bar"]]) ].

(** Test case "relative-imports-4". *)
Definition world_relative_4 : list (string * ModuleSpec) :=
  [ ("a", package "/t/a" ["foo"] []);
    ("a.module", source "/t/a/module.py" [] [imp_from 1 "" ["*"]]) ].

(** Test case "syntax-error". *)
Definition world_syntax_error : list (string * ModuleSpec) :=
  [ ("a", package "/t/a" [] []);
    ("a.module", source "/t/a/module.py" ["b"] [imp "b.module"]);
    ("b", package "/t/b" [] []);
    ("b.module", {| submodule_search_locations := None;
                    get_code := CodeRaises SyntaxError |}) ].

(** Test case "same-name-as-bad". *)
Definition world_same_name : list (string * ModuleSpec) :=
  [ ("a", package "/t/a" [] []);
    ("a.module", source "/t/a/module.py" ["c"; "c"] [imp "c"; imp_from 0 "b" ["c"]]);
    ("b", package "/t/b" [] []);
    ("b.c", source "/t/b/c.py" [] []) ].

(** Test case "relative-imports-2". *)
Definition world_relative_2 : list (string * ModuleSpec) :=
  [ ("mymodule", source "/t/mymodule.py" [] []);
    ("a", package "/t/a" ["sys"] [imp_from 1 "" ["sys"]]);
    ("a.another", source "/t/a/another.py" [] []);
    ("a.module", source "/t/a/module.py" ["y"; "z"] [imp_from 1 "b" ["y"; "z"]]);
    ("a.gc", source "/t/a/gc.py" [] []);
    ("a.sys", source "/t/a/sys.py" [] []);
    ("a.b", package "/t/a/b" ["moduleC"; "d"]
            [imp_from 1 "c" ["moduleC"]; imp_from 1 "c" ["d"]]);
    ("a.b.x", source "/t/a/b/x.py" [] []);
    ("a.b.y", source "/t/a/b/y.py" [] []);
    ("a.b.z", source "/t/a/b/z.py" [] []);
    ("a.b.c", package "/t/a/b/c" ["e"] [imp_from 1 "" ["e"]]);
    ("a.b.c.moduleC", source "/t/a/b/c/moduleC.py" ["f"; "x"; "another"]
            [imp_from 1 "" ["f"]; imp_from 2 "" ["x"]; imp_from 3 "" ["another"]]);
    ("a.b.c.d", source "/t/a/b/c/d.py" [] []);
    ("a.b.c.e", source "/t/a/b/c/e.py" [] []);
    ("a.b.c.f", source "/t/a/b/c/f.py" [] []) ].

Definition run_test (world : list (string * ModuleSpec)) (import_this : string)
    : option (list string * (list string * list string)) :=
  outcome_of (import_as_module false Posix.normpath (table_finder world) no_intrinsic_attr
                20 import_this (new_finder [] [])).

(** *** One directive *)

(** The name a directive is filed under: its absolute name where that
    can be computed (the raw target for [level] 0, the resolved name for
    a relative import), and the raw target where relative resolution
    itself fails. *)
Definition directive_name (mf : ModuleFinder) (module : string)
    (d : ImportDirective) : string :=
  if (0 <? imp_level d)%Z then
    match modules mf !! module with
    | Some m =>
        match resolve_relative m (imp_name d) (imp_level d) with
        | Ok abs => abs
        | Raise _ => imp_name d
        end
    | None => imp_name d
    end
  else imp_name d.

(** What the wildcard part of a directive does to the importing
    module's record, given the record registered for the target. *)
Definition star_merge (name : string) (target : option MFModuleType)
    (m : MFModuleType) : MFModuleType :=
  match target with
  | Some t =>
      set_star_imports
        (λ s, s ∪ mf_star_imports t ∪
              match mod_code t with None => {[name]} | Some _ => ∅ end)
        (set_global_names (λ s, s ∪ mf_global_names t) m)
  | None => set_star_imports (λ s, s ∪ {[name]}) m
  end.

(** The wildcard part raises when [name] is registered to a module that
    is not an [MFModuleType]: [AssertionError] from line 131, or, with
    asserts compiled out, [AttributeError] from the read on line 132. *)
Definition star_blocked (mf : ModuleFinder) (name : string) : bool :=
  match modules mf !! name with
  | Some t => negb (mod_typed t)
  | None => false
  end.

Definition star_error (optimized : bool) : Exc :=
  if optimized then AttributeError else AssertionError.

(** How a directive ends once its [try] statement is through. *)
Definition star_result (optimized have_star : bool) (mf : ModuleFinder)
    (name : string) : Res unit :=
  if have_star && star_blocked mf name then Raise (star_error optimized) else Ok tt.

(** Filing one unexposed fromlist item of target [name]. *)
Definition file_item (module name : string) (bad : PyDict.t (gset string))
    (from_item : string) : PyDict.t (gset string) :=
  PyDict.setdefault_apply (name +:+ "." +:+ from_item) ∅ (λ s, s ∪ {[module]}) bad.

(** A finder in which only a plain module [m] is registered, and the
    import callback of an empty file tree. *)
Definition sample_one_module : ModuleFinder :=
  set_modules (insert "m" (blank_module "m" None)) (new_finder [] []).

Definition empty_tree_import : string → Run string :=
  _gcd_import false Posix.normpath (table_finder []) no_intrinsic_attr 5.



(** The spec of a namespace package: search locations and no loader. *)
Definition namespace (dir : string) : ModuleSpec :=
  {| submodule_search_locations := Some [dir]; get_code := NoLoader |}.

(** Package [pkg] with a directory [pkg/ns] that has no [__init__.py],
    and a module [a] that runs [from pkg.ns import *]. *)
Definition world_namespace : list (string * ModuleSpec) :=
  [ ("a", source "/t/a.py" [] [imp_from 0 "pkg.ns" ["*"]]);
    ("pkg", package "/t/pkg" [] []);
    ("pkg.ns", namespace "/t/pkg/ns") ].

(** The same package, and a module [a] that runs
    [from pkg.ns import x] where [pkg/ns] has no [x]. *)
Definition world_namespace_item : list (string * ModuleSpec) :=
  [ ("a", source "/t/a.py" [] [imp_from 0 "pkg.ns" ["x"]]);
    ("pkg", package "/t/pkg" [] []);
    ("pkg.ns", namespace "/t/pkg/ns") ].

Definition namespace_import : string → Run string :=
  _gcd_import false Posix.normpath (table_finder world_namespace) no_intrinsic_attr 5.

Definition sample_namespace_before : ModuleFinder :=
  set_modules (insert "a" (blank_module "a" None)) (new_finder [] []).

(** The finders over a tree with a top-level directory [ns] that has no
    [__init__.py]: with [sys.modules] patched, [PathFinder] raises
    [KeyError] when it is asked for [ns]. *)
Definition key_error_finder (name : string) (path : option (list string))
    : Res (option ModuleSpec) :=
  if String.eqb name "ns" then Raise KeyError else Ok None.

Definition key_error_import : string → Run string :=
  _gcd_import false Posix.normpath key_error_finder no_intrinsic_attr 5.

(** Package [b] of test case "maybe" before its [from sys import *];
    [sys] is built in. *)
Definition sys_only_import : string → Run string :=
  _gcd_import false Posix.normpath (table_finder [("sys", builtin)]) no_intrinsic_attr 5.

Definition sample_star_before : ModuleFinder :=
  set_modules (insert "b" (blank_module "b" (Some ["/t/b"]))) (new_finder [] []).



(** *** Registration and analysis along a run *)

(** The registered names after the events of [tr], starting from [reg]. *)
Fixpoint replay (reg : gset string) (tr : list Event) : gset string :=
  match tr with
  | [] => reg
  | EvRegister n :: r => replay ({[n]} ∪ reg) r
  | EvUnregister n :: r => replay (reg ∖ {[n]}) r
  | _ :: r => replay reg r
  end.

(** Along [tr], starting with the names [reg] registered, the scan of a
    module's code begins and ends only while the module is registered
    under its name. *)
Fixpoint scans_registered (reg : gset string) (tr : list Event) : Prop :=
  match tr with
  | [] => True
  | EvRegister n :: r => scans_registered ({[n]} ∪ reg) r
  | EvUnregister n :: r => scans_registered (reg ∖ {[n]}) r
  | EvScanBegin n :: r | EvScanEnd n :: r => n ∈ reg ∧ scans_registered reg r
  | EvFind _ :: r => scans_registered reg r
  end.

(** From [mf] to [mf']: the trace was extended by events that respect
    [scans_registered] and account for the registered names. *)
Definition Traced (mf mf' : ModuleFinder) : Prop :=
  ∃ tr, trace mf' = trace mf ++ tr ∧
        scans_registered (dom (modules mf)) tr ∧
        dom (modules mf') = replay (dom (modules mf)) tr.

(** No registered name was lost. *)
Definition Grows (mf mf' : ModuleFinder) : Prop :=
  dom (modules mf) ⊆ dom (modules mf').

Definition Good (mf mf' : ModuleFinder) : Prop := Traced mf mf' ∧ Grows mf mf'.

(** [Q] holds of every way [c] can end from [mf]. *)
Definition post {A} (c : Run A) (mf : ModuleFinder)
    (Q : ModuleFinder → Res A → Prop) : Prop :=
  ∀ mf' r, c mf = Some (mf', r) → Q mf' r.

Definition sound {A} (c : Run A) : Prop :=
  ∀ mf, post c mf (λ mf' _, Good mf mf').

(** *** Two modules that import each other *)

(** The record of a plain top-level module after the analysis of its
    code. *)
Definition analysed (name : string) (code : CodeType) : MFModuleType :=
  {| mod_name := name; mod_package := ""; mod_path := None; mod_attrs := ∅;
     mod_typed := true; mod_code := Some code;
     mf_global_names := list_to_set (find_store_names code);
     mf_star_imports := ∅ |}.

(** A top-level name: not empty, no dot. *)
Definition top_level (name : string) : Prop :=
  name ≠ "" ∧ PyStr.contains_dot name = false.

(** What [exec_module] starts the three fields at. *)
Definition reset_fields (m : MFModuleType) : MFModuleType :=
  mark_typed (set_star_imports (λ _, ∅) (set_global_names (λ _, ∅) (set_code None m))).

(** Modules [a] and [b] that import each other. *)
Definition world_cycle : list (string * ModuleSpec) :=
  [ ("a", source "/t/a.py" ["b"; "x"] [imp "b"]);
    ("b", source "/t/b.py" ["a"; "y"] [imp "a"]) ].

(** Module [a] imports [b]; both files exist. *)
Definition world_excluded : list (string * ModuleSpec) :=
  [ ("a", source "/t/a.py" ["b"] [imp "b"]);
    ("b", source "/t/b.py" [] []) ].

(** *** Fuel and termination *)

(** [c2] ends as [c1] does wherever [c1] ends. *)
Definition refines {A} (c1 c2 : Run A) : Prop :=
  ∀ mf r, c1 mf = Some r → c2 mf = Some r.

(** A family of computations indexed by fuel that keeps its results
    when given more fuel. *)
Definition fuel_mono {A} (c : nat → Run A) : Prop :=
  ∀ f f', (f ≤ f')%nat → refines (c f) (c f').

(** Some amount of fuel lets the family end from [mf]. *)
Definition halts {A} (c : nat → Run A) (mf : ModuleFinder) : Prop :=
  ∃ f r, c f mf = Some r.

(** Every way [c] can end keeps the registered names. *)
Definition grows {A} (c : Run A) : Prop :=
  ∀ mf mf' r, c mf = Some (mf', r) → Grows mf mf'.

(** [c] always ends, whatever the fuel. *)
Definition total {A} (c : Run A) : Prop := ∀ mf, ∃ r, c mf = Some r.

(** The names of [world] that are not registered yet: what a run can
    still load. *)
Definition budget (world : gset string) (mf : ModuleFinder) : nat :=
  size (world ∖ dom (modules mf)).

(** From every finder with at most [k] names of [world] left to load,
    some amount of fuel lets the family end. *)
Definition halts_within (world : gset string) (k : nat) {A}
    (c : nat → Run A) : Prop :=
  ∀ mf, (budget world mf ≤ k)%nat → halts c mf.

(** A family that keeps its results with more fuel, keeps the
    registered names, and ends within the budget [k]. *)
Definition nice (world : gset string) (k : nat) {A} (c : nat → Run A) : Prop :=
  fuel_mono c ∧ (∀ f, grows (c f)) ∧ halts_within world k c.

(* ===================================================================== *)
(** ** What a run keeps *)
(* ===================================================================== *)

(** [m'] is [m] with possibly more bound names, wildcard sources and
    bound submodules; its code, once set, stays. *)
Definition module_le (m m' : MFModuleType) : Prop :=
  mod_name m' = mod_name m ∧
  mod_package m' = mod_package m ∧
  mod_path m' = mod_path m ∧
  mod_attrs m ⊆ mod_attrs m' ∧
  (∀ c, mod_code m = Some c → mod_code m' = Some c) ∧
  mf_global_names m ⊆ mf_global_names m' ∧
  mf_star_imports m ⊆ mf_star_imports m'.

(** Every registered module is still registered, and has only gained. *)
Definition registry_le (M M' : gmap string MFModuleType) : Prop :=
  ∀ k m, M !! k = Some m → ∃ m', M' !! k = Some m' ∧ module_le m m'.

(** Every failed name is still on record, with at least its importers. *)
Definition bad_le (b b' : PyDict.t (gset string)) : Prop :=
  ∀ k s, PyDict.get k b = Some s → ∃ s', PyDict.get k b' = Some s' ∧ s ⊆ s'.

(** Every module sits in the registry under its own [__name__]. *)
Definition names_ok (M : gmap string MFModuleType) : Prop :=
  ∀ k m, M !! k = Some m → mod_name m = k.

(** From [mf] to [mf']: the configuration is untouched, the registry and
    the failure record have only gained, the failure record keeps its
    entries in place and stays a dictionary, and modules stay under their
    names. *)
Definition Keeps (mf mf' : ModuleFinder) : Prop :=
  path_replacements mf' = path_replacements mf ∧
  excludes mf' = excludes mf ∧
  registry_le (modules mf) (modules mf') ∧
  bad_le (bad_modules mf) (bad_modules mf') ∧
  PyDict.keys (bad_modules mf) `prefix_of` PyDict.keys (bad_modules mf') ∧
  (PyDict.wf (bad_modules mf) → PyDict.wf (bad_modules mf')) ∧
  (names_ok (modules mf) → names_ok (modules mf')).

Definition keeps {A} (c : Run A) : Prop :=
  ∀ mf, post c mf (λ mf' _, Keeps mf mf').

(** A module record as [module_from_spec] makes it and [exec_module]
    starts it: no code, no names. *)
Definition fresh (m : MFModuleType) : Prop :=
  mod_code m = None ∧ mf_global_names m = ∅ ∧ mf_star_imports m = ∅.

(** Every name stored anywhere in a code object's tree. *)
Fixpoint all_store_names (code : CodeType) : list string :=
  match code with
  | Code _ stores _ consts =>
      stores ++
      concat (map (λ const, match const with
                            | KCode c => all_store_names c
                            | KOther => []
                            end) consts)
  end.

(** A module body that defines a function [f] whose body stores [y]
    and holds a nested function storing [z]. *)
Definition sample_nested_code : CodeType :=
  Code "/t/m.py" ["x"; "f"] []
    [KOther; KCode (Code "/t/m.py" ["y"] [] [KCode (Code "/t/m.py" ["z"] [] [])])].

(** What [_MFLoader.exec_module] assigns to [module.__code__] for the
    code object [code] the loader hands out (lines 195-197). *)
Definition stored_code (normpath : string → string) (rules : list (string * string))
    (code : CodeType) : CodeType :=
  if bool_decide (rules = []) then code
  else _replace_paths_in_code normpath code rules.

(** A finder that has module [m] registered and the failed name [gone]
    on record for it. *)
Definition sample_failed_before : ModuleFinder :=
  set_bad_modules (λ _, [("gone", {["m"]})]) sample_one_module.

(** A finder with one path replacement and module [m] registered. *)
Definition sample_with_rules : ModuleFinder :=
  set_modules (insert "m" (blank_module "m" None)) (new_finder [("/t", "/srv")] []).

(** The failure record of test case "maybe" with its two entries in
    either order of discovery. *)
Definition sample_maybe_swapped : ModuleFinder :=
  set_bad_modules (λ b, reverse b) sample_maybe.

(** A computation that never ends with an exception the scanner would
    catch ([ImportError], its subclass [ModuleNotFoundError], or
    [SyntaxError]). *)
Definition quiet {A} (c : Run A) : Prop :=
  ∀ mf mf' e, c mf = Some (mf', Raise e) → caught_by_scan e = false.

(** A module body importing the empty name, which [importlib] refuses
    with [ValueError]. *)
Definition sample_bad_directive : CodeType :=
  Code "/t/m.py" ["x"] [imp "nosuch"; imp ""; imp "never"] [].

(** Every registered dotted name has its parent registered. *)
Definition parent_closed (M : gmap string MFModuleType) : Prop :=
  ∀ n, is_Some (M !! n) → PyStr.rpartition_head n ≠ "" →
       is_Some (M !! PyStr.rpartition_head n).

(** How a call may end without the whole analysis being abandoned:
    normally, or with an exception the scanner catches. *)
Definition settled {A} (r : Res A) : Prop :=
  match r with
  | Ok _ => True
  | Raise e => caught_by_scan e = true
  end.

Definition tidy {A} (c : Run A) : Prop :=
  ∀ mf mf' r, parent_closed (modules mf) → c mf = Some (mf', r) → settled r →
              parent_closed (modules mf').

(** Every import directive anywhere in a code object's tree. *)
Fixpoint all_imports (code : CodeType) : list ImportDirective :=
  match code with
  | Code _ _ imps consts =>
      imps ++
      concat (map (λ const, match const with
                            | KCode c => all_imports c
                            | KOther => []
                            end) consts)
  end.

(** The names some finder has a spec for. *)
Definition known_by (find_spec : string → option (list string) → Res (option ModuleSpec))
    (n : string) : Prop :=
  ∃ path spec, find_spec n path = Ok (Some spec).

(** A computation that registers only names the finder knows. *)
Definition only_known (find_spec : string → option (list string) → Res (option ModuleSpec))
    {A} (c : Run A) : Prop :=
  ∀ mf mf' r n, c mf = Some (mf', r) → is_Some (modules mf' !! n) →
                is_Some (modules mf !! n) ∨ known_by find_spec n.

(** A module whose function body imports a module that does not exist. *)
Definition world_unknown : list (string * ModuleSpec) :=
  [ ("app", {| submodule_search_locations := None;
               get_code := GotCode (Code "/t/app.py" ["main"] [imp "util"]
                                      [KCode (Code "/t/app.py" [] [imp "ghost"] [])]) |});
    ("util", source "/t/util.py" [] []) ].

(** A loader that hands out its code, or none, without raising; or no
    loader, for a namespace package. *)
Definition loads (spec : ModuleSpec) : Prop :=
  match get_code spec with
  | CodeRaises _ => False
  | NoLoader => is_Some (submodule_search_locations spec)
  | _ => True
  end.

(* ===================================================================== *)
(** ** [_patch_attr] and [_patch_sys] *)
(* ===================================================================== *)

(** The body of a [with] statement acts on the attributes of the
    patched object and on the rest of the program state and, when it
    ends, ends normally or by raising.  An object is the table of its
    attributes; [V] is the type of attribute values, [H] the rest of the
    state. *)
Section PatchAttr.
Context {V H A : Type}.

Definition Block : Type := gmap string V → H → option (gmap string V * H * Res A).

(** [with _patch_attr(obj, attr_name, new_value): body].  When
    [getattr] raises, [old_value] is still [_MISSING], the [finally]
    clause restores nothing and the body is never entered. *)
Definition _patch_attr (attr_name : string) (new_value : V) (body : Block) : Block :=
  λ obj h,
    match obj !! attr_name with
    | None => Some (obj, h, Raise AttributeError)
    | Some old_value =>
        match body (<[attr_name := new_value]> obj) h with
        | Some (obj', h', r) => Some (<[attr_name := old_value]> obj', h', r)
        | None => None
        end
    end.

(** [with self._patch_sys(): body] on the attributes of [sys].  The
    last two context expressions read [sys] when their turn comes;
    [copy_list] and [copy_dict] stand for [list(...)] and [dict(...)].
    The lock is taken first and released last; it has no effect on a
    single thread. *)
Definition _patch_sys (self_modules self_path self_meta_path : V)
    (copy_list copy_dict : V → V) (body : Block) : Block :=
  _patch_attr "modules" self_modules
    (_patch_attr "path" self_path
       (_patch_attr "meta_path" self_meta_path
          (λ sys h,
             match sys !! "path_hooks" with
             | None => Some (sys, h, Raise AttributeError)
             | Some hooks =>
                 _patch_attr "path_hooks" (copy_list hooks)
                   (λ sys h,
                      match sys !! "path_importer_cache" with
                      | None => Some (sys, h, Raise AttributeError)
                      | Some cache =>
                          _patch_attr "path_importer_cache" (copy_dict cache) body sys h
                      end) sys h
             end))).

End PatchAttr.

(** The attributes of [sys] that [_patch_sys] patches. *)
Definition patched_names : list string :=
  ["modules"; "path"; "meta_path"; "path_hooks"; "path_importer_cache"].

(** A [sys] with the five attributes and one more; values are numbers
    standing for objects. *)
Definition sample_sys : gmap string nat :=
  list_to_map [("modules", 1); ("path", 2); ("meta_path", 3); ("path_hooks", 4);
               ("path_importer_cache", 5); ("argv", 6)]%nat.

(** A body that rebinds [sys.modules], deletes [sys.path], changes
    [sys.argv] and raises. *)
Definition sample_body : @Block nat unit unit :=
  λ sys h, Some (<["argv" := 60%nat]> (delete "path" (<["modules" := 10%nat]> sys)), h,
                 Raise KeyError).

(** *** The entry points under [_patch_sys] *)

(** What an attribute of [sys] is bound to: an object of the running
    interpreter, one of the finder's three objects, or a copy made by
    [list(...)] or [dict(...)]. *)
Inductive SysValue : Type :=
| HostObject (id : nat)
| FinderModules                 (* [mf.modules] *)
| FinderPath                    (* [mf.path] *)
| FinderMetaPath                (* [mf.meta_path] *)
| CopyOf (v : SysValue).

(** The running interpreter next to the finder: the module table that
    [sys.modules] is bound to outside of [_patch_sys]. *)
Record Interpreter := mkInterpreter {
  host_modules : gmap string MFModuleType;
  finder : ModuleFinder
}.

(** A computation of the import machinery as the interpreter runs it.
    [importlib] and the wildcard part of [_scan_code] go through
    [sys.modules] at each use, so that the computation acts on the
    table [sys.modules] is bound to at that time: the finder's registry,
    or else the interpreter's own table, in which case the finder's
    registry is left as it is. *)
Definition via_sys {A} (c : Run A) : @Block SysValue Interpreter A :=
  λ sys st,
    match sys !! "modules" with
    | None => Some (sys, st, Raise AttributeError)
    | Some FinderModules =>
        match c (finder st) with
        | Some (mf', r) =>
            Some (sys, {| host_modules := host_modules st; finder := mf' |}, r)
        | None => None
        end
    | Some _ =>
        match c (set_modules (λ _, host_modules st) (finder st)) with
        | Some (mf', r) =>
            Some (sys,
                  {| host_modules := modules mf';
                     finder := set_modules (λ _, modules (finder st)) mf' |}, r)
        | None => None
        end
    end.

(** [with self._patch_sys(): body] for a finder. *)
Definition with_patch_sys {A} (body : Run A) : @Block SysValue Interpreter A :=
  _patch_sys FinderModules FinderPath FinderMetaPath CopyOf CopyOf (via_sys body).

(** A [sys] with the five attributes, all bound to the interpreter's
    objects. *)
Definition host_sys : gmap string SysValue :=
  list_to_map [("modules", HostObject 1); ("path", HostObject 2);
               ("meta_path", HostObject 3); ("path_hooks", HostObject 4);
               ("path_importer_cache", HostObject 5); ("argv", HostObject 6)]%nat.

(* ===================================================================== *)
(** ** The legacy finder, [misc/_modulefinder_typed.py] *)
(* ===================================================================== *)

(** The legacy [ModuleFinder] keeps the same tables as the current one
    ([modules], [badmodules], [excludes], [replace_paths]) and its
    [Module] objects the same fields ([__name__], [__path__],
    [__code__], [globalnames], [starimports] and the attributes bound
    by [setattr]), so the records and the computations of the current
    finder are used for them; [mod_package] has no legacy counterpart
    and is never read.  Modules are referred to by their key in
    [self.modules]: the legacy finder never removes or replaces an
    entry.  The finder runs with [debug = 0], its default, so that
    [msg], [msgin] and [msgout] do nothing; only
    [replace_paths_in_code] is modelled for every [debug]. *)
Module LegacyFinder.

(** [s.removeprefix(p)] *)
Definition removeprefix (p s : string) : string :=
  if String.prefix p s then PyStr.drop (String.length p) s else s.

(** [s.rfind(".")]; [None] stands for [-1]. *)
Fixpoint rfind_dot (s : string) : option nat :=
  match s with
  | EmptyString => None
  | String c r =>
      match rfind_dot r with
      | Some i => Some (S i)
      | None => if PyStr.is_dot c then Some O else None
      end
  end.

(** [s[:n]] *)
Fixpoint take (n : nat) (s : string) : string :=
  match n, s with
  | S k, String c r => String c (take k r)
  | _, _ => EmptyString
  end.

(** [s.partition(".")[2]]: everything after the first separator. *)
Fixpoint partition_tail (s : string) : string :=
  match s with
  | EmptyString => EmptyString
  | String c r => if PyStr.is_dot c then r else partition_tail r
  end.

(** *** [replace_paths_in_code] *)

(** The two fields the method touches besides its result: [indent],
    which [msgout] decrements when it prints, and [processed_paths].
    What is printed is left out. *)
Record DebugState := mkDebug {
  indent : Z;
  processed_paths : list string
}.

(** [self.msgout(level, ...)] *)
Definition msgout (debug level : Z) (st : DebugState) : DebugState :=
  if (level <=? debug)%Z then mkDebug (indent st - 1) (processed_paths st) else st.

(** The loop over [self.replace_paths] (lines 583-587). *)
Fixpoint new_filename (original_filename : string)
    (replace_paths : list (string * string)) : string :=
  match replace_paths with
  | [] => original_filename
  | (f, r) :: rest =>
      if PyStr.startswith original_filename f
      then r +:+ removeprefix f original_filename
      else new_filename original_filename rest
  end.

Section ReplacePaths.
Variable normpath : string → string.
Variable debug : Z.
Variable replace_paths : list (string * string).

(** Lines 589-594. *)
Definition note_path (original_filename : string) (st : DebugState) : DebugState :=
  if negb (debug =? 0)%Z &&
     negb (bool_decide (original_filename ∈ processed_paths st))
  then
    let st := msgout debug 2 st in
    mkDebug (indent st) (processed_paths st ++ [original_filename])
  else st.

Fixpoint replace_paths_in_code (co : CodeType) (st : DebugState)
    : CodeType * DebugState :=
  match co with
  | Code filename stores imps consts =>
      let original_filename := normpath filename in
      let st := note_path original_filename st in
      let '(consts, st) :=
        (fix go (l : list (Const CodeType)) (st : DebugState)
           : list (Const CodeType) * DebugState :=
           match l with
           | [] => ([], st)
           | KCode c :: r =>
               let '(c', st) := replace_paths_in_code c st in
               let '(r', st) := go r st in
               (KCode c' :: r', st)
           | KOther :: r =>
               let '(r', st) := go r st in
               (KOther :: r', st)
           end) consts st in
      (Code (new_filename original_filename replace_paths) stores imps consts, st)
  end.

End ReplacePaths.

(** *** [any_missing_maybe] and [any_missing] *)

(** One turn of [for name in self.badmodules] (lines 547-577). *)
Definition any_missing_maybe_body (mf : ModuleFinder)
    (acc : list string * list string) (name : string) : list string * list string :=
  let '(missing, maybe) := acc in
  if bool_decide (name ∈ excludes mf) then acc
  else
    match rfind_dot name with
    | None => (missing ++ [name], maybe)
    | Some i =>
        let subname := PyStr.drop (i + 1) name in
        let pkgname := take i name in
        match modules mf !! pkgname with
        | Some pkg =>
            if bool_decide (pkgname ∈ importers_of mf name) then (missing ++ [name], maybe)
            else if bool_decide (subname ∈ mf_global_names pkg) then acc
            else if negb (bool_decide (mf_star_imports pkg = ∅))
                 then (missing, maybe ++ [name])
            else (missing ++ [name], maybe)
        | None => (missing ++ [name], maybe)
        end
    end.

Definition any_missing_maybe (mf : ModuleFinder) : list string * list string :=
  let '(missing, maybe) :=
    fold_left (any_missing_maybe_body mf) (PyDict.keys (bad_modules mf)) ([], []) in
  (PyStr.sort missing, PyStr.sort maybe).

Definition any_missing (mf : ModuleFinder) : list string :=
  let '(missing, maybe) := any_missing_maybe mf in
  missing ++ maybe.

End LegacyFinder.

(** A code object with a nested one from the same file and one from
    another file. *)
Definition sample_two_files : CodeType :=
  Code "/t/./m.py" ["f"; "g"] []
    [KCode (Code "/t/m.py" [] [] []); KOther; KCode (Code "/u/n.py" [] [] [])].

(** How [replace_paths_in_code] may change the debugging fields: paths
    are only appended, none twice, and [indent] goes down by one for
    each appended path when [msgout] prints at level 2. *)
Definition noted (debug : Z) (st st' : LegacyFinder.DebugState) : Prop :=
  LegacyFinder.processed_paths st `prefix_of` LegacyFinder.processed_paths st' ∧
  (NoDup (LegacyFinder.processed_paths st) → NoDup (LegacyFinder.processed_paths st')) ∧
  (debug = 0%Z → st' = st) ∧
  LegacyFinder.indent st' =
    (LegacyFinder.indent st -
     (if (2 <=? debug)%Z
      then Z.of_nat (length (LegacyFinder.processed_paths st')) -
           Z.of_nat (length (LegacyFinder.processed_paths st))
      else 0))%Z.

(* ===================================================================== *)
(** ** The legacy import hook *)
(* ===================================================================== *)

(** What [importlib.machinery.PathFinder.find_spec] can hand to
    [_find_spec_from_path]. *)
Inductive PathFound : Type :=
| NoSpec
| SpecWithoutLoader
| SpecFound (spec : ModuleSpec).

(** [s.endswith(suff)] and [s.removesuffix(suff)] *)
Definition endswith (s suff : string) : bool :=
  (String.length suff <=? String.length s)%nat &&
  String.eqb (PyStr.drop (String.length s - String.length suff) s) suff.

Definition removesuffix (suff s : string) : string :=
  if endswith s suff then LegacyFinder.take (String.length s - String.length suff) s
  else s.

(** [d[k] = k] on the keys of an insertion-ordered [dict]. *)
Definition dict_add (keys : list string) (k : string) : list string :=
  if bool_decide (k ∈ keys) then keys else keys ++ [k].

(** [except ImportError] *)
Definition is_import_error (e : Exc) : bool :=
  match e with
  | ModuleNotFoundError _ | ImportError => true
  | _ => false
  end.

(** [Module] projected to the fields [determine_parent] reads. *)
Definition to_legacy (m : MFModuleType) : Legacy.Module :=
  Legacy.mkModule (mod_name m) (mod_path m).

Section LegacyHook.
(** [self.path], [sys.builtin_module_names], [PathFinder.find_spec],
    the suffixes [find_all_submodules] strips, [os.listdir] ([None]
    when it raises [OSError]), the attributes every [Module] instance
    has, and [self.load_module], which hands back the key of the
    module it returns. *)
Variable path : list string.
Variable builtin_module_names : list string.
Variable path_find : string → list string → PathFound.
Variable suffixes : list string.
Variable listdir : string → option (list string).
Variable intrinsic_attr : MFModuleType → string → bool.
Variable load_module : string → option ModuleSpec → Run string.

(** [hasattr(m, sub)] on a [Module] instance *)
Definition legacy_hasattr (m : MFModuleType) (attr : string) : bool :=
  intrinsic_attr m attr || bool_decide (attr ∈ mod_attrs m).

(** [_find_spec_from_path(name, path)]; the call of the path finder is
    logged. *)
Definition _find_spec_from_path (name : string) (path : list string) : Run ModuleSpec :=
  let! _ := log (EvFind name) in
  match path_find name path with
  | NoSpec => raise ImportError
  | SpecWithoutLoader => raise ImportError
  | SpecFound spec => ret spec
  end.

(** [self.find_module(name, path, parent)] *)
Definition find_module (name : string) (search : option (list string))
    (parent : option string) : Run (option ModuleSpec) :=
  let! fullname :=
    match parent with
    | Some p => let! pm := getmodule p in ret (mod_name pm +:+ "." +:+ name)
    | None => ret name
    end in
  let! ex := gets excludes in
  if bool_decide (fullname ∈ ex) then raise ImportError
  else
    match search with
    | None =>
        if bool_decide (name ∈ builtin_module_names) then ret None
        else let! spec := _find_spec_from_path name path in ret (Some spec)
    | Some search =>
        let! spec := _find_spec_from_path name search in ret (Some spec)
    end.

(** [self.import_module(partname, fqname, parent)] *)
Definition import_module (partname fqname : string) (parent : option string)
    : Run (option string) :=
  let! mods := gets modules in
  match mods !! fqname with
  | Some _ => ret (Some fqname)
  | None =>
      let! bad := gets bad_modules in
      if bool_decide (fqname ∈ PyDict.keys bad) then ret None
      else
        let! search :=
          match parent with
          | Some p => let! pm := getmodule p in ret (Some (mod_path pm))
          | None => ret None
          end in
        match search with
        | Some None => ret None
        | _ =>
            let! r := attempt (find_module partname (mjoin search) parent) in
            match r with
            | Raise e => if is_import_error e then ret None else raise e
            | Ok spec =>
                let! m := load_module fqname spec in
                let! _ := match parent with
                          | Some p => update_module p (bind_attr partname)
                          | None => ret tt
                          end in
                ret (Some m)
            end
        end
  end.

(** [self.determine_parent(caller, level)] on keys. *)
Definition determine_parent (caller : option string) (level : Z) : Run (option string) :=
  let! mods := gets modules in
  let! caller :=
    match caller with
    | Some c => let! cm := getmodule c in ret (Some (to_legacy cm))
    | None => ret None
    end in
  let! parent := lift_res (Legacy.determine_parent (to_legacy <$> mods) caller level) in
  ret (Legacy.__name__ <$> parent).

(** [self.find_head_package(parent, name)] *)
Definition find_head_package (parent : option string) (name : string)
    : Run (string * string) :=
  let head := PyStr.partition_head name in
  let tail := LegacyFinder.partition_tail name in
  let! qname :=
    match parent with
    | Some p => let! pm := getmodule p in ret (mod_name pm +:+ "." +:+ head)
    | None => ret head
    end in
  let! q := import_module head qname parent in
  match q with
  | Some q => ret (q, tail)
  | None =>
      match parent with
      | Some _ =>
          let! q := import_module head head None in
          match q with
          | Some q => ret (q, tail)
          | None => raise ImportError
          end
      | None => raise ImportError
      end
  end.

(** The [while tail:] loop of [load_tail]; every turn shortens [tail],
    so its length bounds the number of turns. *)
Fixpoint load_tail_loop (turns : nat) (m : string) (tail : string) : Run string :=
  if String.eqb tail "" then ret m
  else
    match turns with
    | O => out_of_fuel
    | S turns =>
        let head := PyStr.partition_head tail in
        let tail := LegacyFinder.partition_tail tail in
        let! mm := getmodule m in
        let! r := import_module head (mod_name mm +:+ "." +:+ head) (Some m) in
        match r with
        | Some m => load_tail_loop turns m tail
        | None => raise ImportError
        end
    end.

Definition load_tail (q : string) (tail : string) : Run string :=
  load_tail_loop (String.length tail) q tail.

(** [self.find_all_submodules(m)] *)
Definition submodule_of (name : string) : option string :=
  match List.find (endswith name) suffixes with
  | Some suff => Some (removesuffix suff name)
  | None => None
  end.

Definition find_all_submodules (m : MFModuleType) : option (list string) :=
  match mod_path m with
  | None | Some [] => None
  | Some dirs =>
      Some (fold_left
              (λ modules dir_,
                 match listdir dir_ with
                 | None => modules
                 | Some names =>
                     fold_left
                       (λ modules name,
                          match submodule_of name with
                          | Some mod_ =>
                              if negb (String.eqb mod_ "") && negb (String.eqb mod_ "__init__")
                              then dict_add modules mod_
                              else modules
                          | None => modules
                          end) names modules
                 end) dirs [])
  end.

(** [self.ensure_fromlist(m, fromlist, recursive)] *)
Definition ensure_item (m sub : string) : Run unit :=
  let! mm := getmodule m in
  if legacy_hasattr mm sub then ret tt
  else
    let! submod := import_module sub (mod_name mm +:+ "." +:+ sub) (Some m) in
    match submod with
    | Some _ => ret tt
    | None => raise ImportError
    end.

Definition ensure_fromlist (m : string) (fromlist : list string) (recursive : bool)
    : Run unit :=
  for_each
    (λ sub,
       if String.eqb sub "*" then
         if recursive then ret tt
         else
           let! mm := getmodule m in
           match find_all_submodules mm with
           | Some (x :: r) =>
               for_each (λ sub, if String.eqb sub "*" then ret tt else ensure_item m sub)
                        (x :: r)
           | _ => ret tt
           end
       else ensure_item m sub)
    fromlist.

(** [self.import_hook(name, caller, fromlist, level)] *)
Definition import_hook (name : string) (caller : option string)
    (fromlist : option (list string)) (level : Z) : Run (option string) :=
  let! parent := determine_parent caller level in
  let! (q, tail) := find_head_package parent name in
  let! m := load_tail q tail in
  match fromlist with
  | None | Some [] => ret (Some q)
  | Some fromlist =>
      let! mm := getmodule m in
      let! _ := if Legacy.has_path (to_legacy mm) then ensure_fromlist m fromlist false
                else ret tt in
      ret None
  end.

(** [self._add_badmodule(name, caller)] *)
Definition _add_badmodule (name : string) (caller : option string) : Run unit :=
  match caller with
  | Some c => let! cm := getmodule c in add_bad_module name (mod_name cm)
  | None => add_bad_module name "-"
  end.

(** [self._safe_import_hook(name, caller, fromlist, level)] *)
Definition _safe_import_hook (name : string) (caller : option string)
    (fromlist : option (list string)) (level : Z) : Run unit :=
  let! bad := gets bad_modules in
  if bool_decide (name ∈ PyDict.keys bad) then _add_badmodule name caller
  else
    let! r := attempt (import_hook name caller None level) in
    match r with
    | Raise e =>
        if caught_by_scan e then _add_badmodule name caller else raise e
    | Ok _ =>
        for_each
          (λ sub,
             let fullname := name +:+ "." +:+ sub in
             let! bad := gets bad_modules in
             if bool_decide (fullname ∈ PyDict.keys bad) then _add_badmodule fullname caller
             else
               let! r := attempt (import_hook name caller (Some [sub]) level) in
               match r with
               | Raise e =>
                   if is_import_error e then _add_badmodule fullname caller else raise e
               | Ok _ => ret tt
               end)
          (default [] fromlist)
    end.

End LegacyHook.

(** A finder that excludes [secret], with module [m] registered. *)
Definition sample_excluding : ModuleFinder :=
  set_modules (insert "m" (blank_module "m" None)) (new_finder [] ["secret"]).

(* ===================================================================== *)
(** * Theorems *)
(* ===================================================================== *)

(** Decides a closed decidable proposition by evaluation. *)
Ltac by_eval :=
  match goal with
  | |- ?P => apply (bool_decide_unpack P); vm_compute; exact I
  end.

(** ** Strings *)

Lemma contains_dot_app (s1 s2 : string) :
  PyStr.contains_dot (s1 +:+ s2) = (PyStr.contains_dot s1 || PyStr.contains_dot s2).
Proof.
  induction s1 as [|c s1 IH]; simpl; [done|].
  rewrite IH. by rewrite orb_assoc.
Qed.

Lemma rpartition_None (s : string) :
  PyStr.rpartition s = None ↔ PyStr.contains_dot s = false.
Proof.
  induction s as [|c s IH]; simpl; [done|].
  destruct (PyStr.rpartition s) as [[h t]|] eqn:E.
  - split; [done|]. intros [_ H]%orb_false_iff.
    apply IH in H. discriminate.
  - destruct IH as [IH _]. rewrite (IH eq_refl), orb_false_r.
    destruct (PyStr.is_dot c); by split.
Qed.

(** [rpartition] cuts at the last separator: a name written as a
    parent, a dot and a dot-free tail is split into exactly these. *)
Lemma rpartition_app (p t : string) :
  PyStr.contains_dot t = false →
  PyStr.rpartition (p +:+ "." +:+ t) = Some (p, t).
Proof.
  intros Ht. induction p as [|c p IH].
  - apply rpartition_None in Ht.
    change (PyStr.rpartition (String "." t) = Some (EmptyString, t)).
    cbn [PyStr.rpartition]. by rewrite Ht.
  - change (PyStr.rpartition (String c (p +:+ "." +:+ t)) = Some (String c p, t)).
    cbn [PyStr.rpartition]. by rewrite IH.
Qed.

Lemma rpartition_Some (s h t : string) :
  PyStr.rpartition s = Some (h, t) →
  s = h +:+ "." +:+ t ∧ PyStr.contains_dot t = false.
Proof.
  revert h t. induction s as [|c s IH]; intros h t; simpl; [done|].
  destruct (PyStr.rpartition s) as [[h' t']|] eqn:E.
  - intros [= <- <-]. destruct (IH _ _ eq_refl) as [-> ?]. done.
  - destruct (PyStr.is_dot c) eqn:Ec; [|done].
    intros [= <- <-]. apply rpartition_None in E.
    unfold PyStr.is_dot in Ec. apply Ascii.eqb_eq in Ec. by subst.
Qed.

(** ** The classifier *)

Lemma any_missing_maybe_body_verdict (mf : ModuleFinder) (mi ma : list string) (n : string) :
  any_missing_maybe_body mf (mi, ma) n =
    match verdict mf n with
    | VSkip | VDrop => (mi, ma)
    | VMissing => (mi ++ [n], ma)
    | VMaybe => (mi, ma ++ [n])
    end.
Proof.
  unfold any_missing_maybe_body, verdict.
  repeat (case_bool_decide || case_match || simpl); done.
Qed.

Lemma any_missing_maybe_fold (mf : ModuleFinder) (ks mi ma : list string) :
  fold_left (any_missing_maybe_body mf) ks (mi, ma) =
    (mi ++ filter (λ n, verdict mf n = VMissing) ks,
     ma ++ filter (λ n, verdict mf n = VMaybe) ks).
Proof.
  revert mi ma. induction ks as [|k ks IH]; intros mi ma; cbn [fold_left].
  - by rewrite !filter_nil, !app_nil_r.
  - rewrite any_missing_maybe_body_verdict.
    rewrite !(filter_cons _ k).
    destruct (verdict mf k) eqn:E; rewrite IH;
      repeat (case_decide; try congruence);
      by rewrite <- ?app_assoc.
Qed.

Lemma any_missing_maybe_unfold (mf : ModuleFinder) :
  any_missing_maybe mf =
    (PyStr.sort (filter (λ n, verdict mf n = VMissing) (PyDict.keys (bad_modules mf))),
     PyStr.sort (filter (λ n, verdict mf n = VMaybe) (PyDict.keys (bad_modules mf)))).
Proof. unfold any_missing_maybe. by rewrite any_missing_maybe_fold. Qed.

Lemma sort_perm (l : list string) : PyStr.sort l ≡ₚ l.
Proof. apply merge_sort_Permutation. Qed.

Lemma elem_of_missing (mf : ModuleFinder) (n : string) :
  n ∈ (any_missing_maybe mf).1 ↔
  verdict mf n = VMissing ∧ n ∈ PyDict.keys (bad_modules mf).
Proof.
  rewrite any_missing_maybe_unfold. simpl.
  by rewrite sort_perm, list_elem_of_filter.
Qed.

Lemma elem_of_maybe (mf : ModuleFinder) (n : string) :
  n ∈ (any_missing_maybe mf).2 ↔
  verdict mf n = VMaybe ∧ n ∈ PyDict.keys (bad_modules mf).
Proof.
  rewrite any_missing_maybe_unfold. simpl.
  by rewrite sort_perm, list_elem_of_filter.
Qed.

Lemma placed_of_verdict (mf : ModuleFinder) (n : string) :
  n ∈ PyDict.keys (bad_modules mf) →
  placed mf n
    match verdict mf n with
    | VMissing => InMissing
    | VMaybe => InMaybe
    | VSkip | VDrop => InNeither
    end.
Proof.
  intros Hn. destruct (verdict mf n) eqn:E; simpl;
    rewrite elem_of_missing, elem_of_maybe, E; intuition congruence.
Qed.

Example any_missing_maybe_sample_maybe :
  any_missing_maybe sample_maybe = (["c"], ["b.something"]).
Proof. vm_compute. reflexivity. Qed.

Example any_missing_maybe_sample_self_import :
  any_missing_maybe sample_self_import = (["b.x"], []).
Proof. vm_compute. reflexivity. Qed.





(** C2, as stated, fails: package [b] has an unresolved wildcard source
    and is itself recorded as an importer of [b.x]; the name is reported
    as definitely missing. *)
Lemma wildcard_taint_counterexample :
  ¬ (∀ (mf : ModuleFinder) (n p t : string) (pkg : MFModuleType),
       n ∈ PyDict.keys (bad_modules mf) →
       n = p +:+ "." +:+ t → PyStr.contains_dot t = false →
       modules mf !! p = Some pkg →
       mf_star_imports pkg ≠ ∅ →
       n ∉ (any_missing_maybe mf).1).
Proof.
  intros H.
  apply (H sample_self_import "b.x" "b" "x"
           (with_names (blank_module "b" (Some ["/t/b"])) ∅ {["sys"]})).
  - by_eval.
  - reflexivity.
  - reflexivity.
  - reflexivity.
  - simpl. set_solver.
  - rewrite any_missing_maybe_sample_self_import. simpl. set_solver.
Qed.

(** C2, amended.  For a failed name [p.t] whose parent [p] is in the
    Registry with a non-empty set of unresolved wildcard sources, and
    where [p] is not itself among the importers recorded for the name,
    [any_missing_maybe] does not report the name as definitely missing:
    it is in the maybe-missing list or in neither. *)
Theorem wildcard_taint_not_missing
    (mf : ModuleFinder) (n p t : string) (pkg : MFModuleType) :
  n ∈ PyDict.keys (bad_modules mf) →
  n = p +:+ "." +:+ t → PyStr.contains_dot t = false →
  modules mf !! p = Some pkg →
  mf_star_imports pkg ≠ ∅ →
  p ∉ importers_of mf n →
  (n ∉ (any_missing_maybe mf).1) ∧
  (placed mf n InMaybe ∨ placed mf n InNeither).
Proof.
  intros Hk -> Ht Hp Hs Hi.
  pose proof (placed_of_verdict mf _ Hk) as H.
  assert (verdict mf (p +:+ "." +:+ t) ≠ VMissing) as Hv.
  { unfold verdict. case_bool_decide; [done|].
    unfold PyStr.rpartition_head, PyStr.rpartition_tail.
    rewrite (rpartition_app p t Ht), Hp.
    assert (PyStr.contains_dot (p +:+ "." +:+ t) = true) as ->.
    { rewrite !contains_dot_app. simpl. by rewrite orb_true_r. }
    simpl. rewrite (bool_decide_eq_false_2 _ Hi).
    case_bool_decide; [done|].
    by rewrite (bool_decide_eq_false_2 _ Hs). }
  split.
  - rewrite elem_of_missing. by intros [? _].
  - destruct (verdict mf (p +:+ "." +:+ t)); simpl in H; try done; auto.
Qed.

Lemma wildcard_taint_not_missing_witness :
  ("b.something" ∉ (any_missing_maybe sample_maybe).1) ∧
  (placed sample_maybe "b.something" InMaybe ∨
   placed sample_maybe "b.something" InNeither).
Proof.
  apply (wildcard_taint_not_missing sample_maybe "b.something" "b" "something"
           (with_names (blank_module "b" (Some ["/t/b"])) ∅ {["sys"]})).
  - by_eval.
  - reflexivity.
  - reflexivity.
  - reflexivity.
  - simpl. set_solver.
  - by_eval.
Defined.

(** C10.  Over a well-formed failure record (one entry per key) the two
    lists returned by [any_missing_maybe] are duplicate-free and
    disjoint, every name in either list is a key of [bad_modules] that
    is not in [excludes], and the finder is the same after the call. *)
Theorem any_missing_maybe_lists (mf : ModuleFinder) :
  PyDict.wf (bad_modules mf) →
  NoDup (any_missing_maybe mf).1 ∧
  NoDup (any_missing_maybe mf).2 ∧
  (∀ n, n ∈ (any_missing_maybe mf).1 → n ∉ (any_missing_maybe mf).2) ∧
  (∀ n, n ∈ (any_missing_maybe mf).1 ∨ n ∈ (any_missing_maybe mf).2 →
        n ∈ PyDict.keys (bad_modules mf) ∧ n ∉ excludes mf) ∧
  (any_missing_maybe_method mf).1 = mf ∧
  (any_missing_maybe_method mf).2 = any_missing_maybe mf.
Proof.
  intros Hwf. unfold PyDict.wf in Hwf.
  split_and!; try done.
  - rewrite any_missing_maybe_unfold. simpl.
    rewrite sort_perm. by apply NoDup_filter.
  - rewrite any_missing_maybe_unfold. simpl.
    rewrite sort_perm. by apply NoDup_filter.
  - intros n. rewrite elem_of_missing, elem_of_maybe.
    intros [E _] [E' _]. congruence.
  - intros n. rewrite elem_of_missing, elem_of_maybe.
    assert (∀ v, verdict mf n = v → v ≠ VSkip → n ∉ excludes mf) as Hv.
    { intros v Hv Hne Hx. unfold verdict in Hv.
      rewrite bool_decide_eq_true_2 in Hv by done. congruence. }
    intros [[E ?]|[E ?]]; split; try done; eapply Hv; eauto.
Qed.

Lemma any_missing_maybe_lists_witness :
  PyDict.wf (bad_modules sample_maybe) ∧
  NoDup (any_missing_maybe sample_maybe).1 ∧
  (any_missing_maybe_method sample_maybe).1 = sample_maybe.
Proof.
  assert (PyDict.wf (bad_modules sample_maybe)) as Hwf.
  { unfold PyDict.wf. by_eval. }
  split; [exact Hwf|].
  pose proof (any_missing_maybe_lists sample_maybe Hwf) as H.
  split; [apply H|apply H].
Defined.

(** ** Path rewriting *)

Example normpath_samples :
  Posix.normpath "a//b.py" = "a/b.py" ∧
  Posix.normpath "/tmp/x/../y.py" = "/tmp/y.py" ∧
  Posix.normpath "./a/./b/" = "a/b" ∧
  Posix.normpath "../a" = "../a" ∧
  Posix.normpath "//a" = "//a" ∧
  Posix.normpath "///a" = "/a" ∧
  Posix.normpath "/.." = "/" ∧
  Posix.normpath "" = "." ∧
  Posix.normpath "/tmp/hello.py" = "/tmp/hello.py".
Proof. vm_compute. repeat split. Qed.

Lemma prefix_drop (p s : string) :
  String.prefix p s = true → s = p +:+ PyStr.drop (String.length p) s.
Proof.
  revert s. induction p as [|a p IH]; intros s; simpl.
  - by destruct s.
  - destruct s as [|b s]; simpl; [done|].
    destruct (ascii_dec a b) as [->|]; [|done].
    intros H.
    change (String b s = String b (p +:+ PyStr.drop (String.length p) s)).
    f_equal. by apply IH.
Qed.

Lemma replace1_prefix (old new s : string) :
  String.prefix old s = true →
  PyStr.replace1 old new s = new +:+ PyStr.drop (String.length old) s.
Proof. intros H. destruct s; simpl in *; by rewrite H. Qed.

Lemma rewrite_filename_find (s : string) (rules : list (string * string)) :
  rewrite_filename s rules =
    match List.find (λ r, PyStr.startswith s r.1) rules with
    | Some (old, new) => new +:+ PyStr.drop (String.length old) s
    | None => s
    end.
Proof.
  induction rules as [|[old new] rules IH]; simpl; [done|].
  destruct (PyStr.startswith s old) eqn:E; [|done].
  by apply replace1_prefix.
Qed.

Lemma rewrite_filename_no_match (s : string) (rules : list (string * string)) :
  (∀ r, r ∈ rules → PyStr.startswith s r.1 = false) →
  rewrite_filename s rules = s.
Proof.
  induction rules as [|[old new] rules IH]; intros H; simpl; [done|].
  pose proof (H (old, new) ltac:(left)) as Ho. simpl in Ho. rewrite Ho.
  apply IH. intros r Hr. apply H. by right.
Qed.

Lemma all_filenames_replace (normpath : string → string)
    (rules : list (string * string)) (code : CodeType) :
  all_filenames (_replace_paths_in_code normpath code rules) =
    map (λ f, rewrite_filename (normpath f) rules) (all_filenames code).
Proof.
  induction code as [f s i ks IH] using CodeType_nested_ind.
  cbn [_replace_paths_in_code all_filenames map]. f_equal.
  rewrite map_map, concat_map, map_map.
  f_equal. induction IH as [|k ks Hk _ IHks]; [done|].
  cbn [map]. f_equal; [|done].
  destruct k; [done|]. exact Hk.
Qed.

(** C9, as stated, fails on a POSIX host: the file name is normalised
    before the rules are tried, so with no matching rule a recorded
    location such as [a//b.py] is changed, and a rule whose prefix
    matches the recorded location only ([a//]) is not applied. *)
Lemma path_rewrite_counterexample :
  ¬ (∀ (code : CodeType) (rules : list (string * string)),
       match List.find (λ r, PyStr.startswith (co_filename code) r.1) rules with
       | Some (old, new) =>
           ∃ rest, co_filename code = old +:+ rest ∧
                   co_filename (_replace_paths_in_code Posix.normpath code rules)
                     = new +:+ rest
       | None =>
           co_filename (_replace_paths_in_code Posix.normpath code rules)
             = co_filename code
       end).
Proof.
  intros H.
  pose proof (H (Code "a//b.py" [] [] []) [("/old", "/new")]) as H1.
  vm_compute in H1. discriminate H1.
Qed.

(** C9, amended.  [_replace_paths_in_code] works on the normalised
    form [os.path.normpath(code.co_filename)] of the recorded location:
    the first rule whose prefix is a prefix of the normalised location
    replaces that prefix, once, by its replacement; when no rule
    matches, the new location is the normalised one (hence the recorded
    one when that was already normalised).  Store names and imports are
    kept, every nested code object in [co_consts] is rewritten by the
    same function, and so every file name in the tree is rewritten by
    the same rule. *)
Theorem path_rewrite_normalised (normpath : string → string)
    (code : CodeType) (rules : list (string * string)) :
  let code' := _replace_paths_in_code normpath code rules in
  match List.find (λ r, PyStr.startswith (normpath (co_filename code)) r.1) rules with
  | Some (old, new) =>
      ∃ rest, normpath (co_filename code) = old +:+ rest ∧
              co_filename code' = new +:+ rest
  | None => co_filename code' = normpath (co_filename code)
  end ∧
  ((∀ r, r ∈ rules → PyStr.startswith (normpath (co_filename code)) r.1 = false) →
   normpath (co_filename code) = co_filename code →
   co_filename code' = co_filename code) ∧
  find_store_names code' = find_store_names code ∧
  find_imports code' = find_imports code ∧
  co_consts code' =
    map (λ k, match k with
              | KCode c => KCode (_replace_paths_in_code normpath c rules)
              | KOther => KOther
              end) (co_consts code) ∧
  all_filenames code' =
    map (λ f, rewrite_filename (normpath f) rules) (all_filenames code).
Proof.
  intros code'. split_and!.
  - destruct code as [f s i ks]. subst code'. cbn.
    rewrite rewrite_filename_find.
    destruct (List.find _ rules) as [[old new]|] eqn:E; [|done].
    apply find_some in E as [_ E]. simpl in E.
    exists (PyStr.drop (String.length old) (normpath f)).
    split; [|done]. by apply prefix_drop.
  - intros Hno Hnorm. destruct code as [f s i ks]. subst code'. cbn in *.
    rewrite rewrite_filename_no_match by done. done.
  - by destruct code.
  - by destruct code.
  - by destruct code.
  - apply all_filenames_replace.
Qed.

(** The two path-rewrite tests of [test_modulefinder.py]: an active rule
    renames [hello.py], an unrelated one leaves it alone; the nested
    function body follows. *)
Example path_rewrite_tests :
  let hello := Code "/tmp/t/hello.py" ["hello"] []
                 [KOther; KCode (Code "/tmp/t/hello.py" [] [] [KOther])] in
  all_filenames (_replace_paths_in_code Posix.normpath hello
                   [("/tmp/t/hello.py", "/tmp/t/goodbye.py")])
    = ["/tmp/t/goodbye.py"; "/tmp/t/goodbye.py"] ∧
  all_filenames (_replace_paths_in_code Posix.normpath hello
                   [("/tmp/t/hi.py", "/tmp/t/goodbye.py")])
    = ["/tmp/t/hello.py"; "/tmp/t/hello.py"].
Proof. vm_compute. split; reflexivity. Qed.

(** ** Dotted names *)

Lemma append_cons (c : ascii) (s t : string) :
  String c s +:+ t = String c (s +:+ t).
Proof. reflexivity. Qed.

Lemma append_empty_l (s : string) : "" +:+ s = s.
Proof. reflexivity. Qed.

Lemma append_empty_r (s : string) : s +:+ "" = s.
Proof. induction s as [|c s IH]; [done|]. by rewrite append_cons, IH. Qed.

Lemma append_assoc (s t u : string) : (s +:+ t) +:+ u = s +:+ (t +:+ u).
Proof. induction s as [|c s IH]; [done|]. by rewrite !append_cons, IH. Qed.

Lemma split_dot_aux_cur (cur s : string) :
  PyStr.split_dot_aux cur s =
    match PyStr.split_dot s with
    | x :: r => (cur +:+ x) :: r
    | [] => [cur]
    end.
Proof.
  unfold PyStr.split_dot. revert cur.
  induction s as [|c s IH]; intros cur; cbn [PyStr.split_dot_aux].
  - by rewrite append_empty_r.
  - destruct (PyStr.is_dot c).
    + by rewrite append_empty_r.
    + rewrite (IH (cur +:+ String c "")), (IH ("" +:+ String c "")).
      destruct (PyStr.split_dot_aux "" s); [done|].
      by rewrite append_assoc.
Qed.

Lemma split_dot_cons (c : ascii) (s : string) :
  PyStr.split_dot (String c s) =
    if PyStr.is_dot c then "" :: PyStr.split_dot s
    else match PyStr.split_dot s with
         | x :: r => String c x :: r
         | [] => [String c ""]
         end.
Proof.
  unfold PyStr.split_dot at 1. cbn [PyStr.split_dot_aux].
  destruct (PyStr.is_dot c); [done|].
  rewrite split_dot_aux_cur. by destruct (PyStr.split_dot s).
Qed.

Lemma split_dot_length (s : string) :
  length (PyStr.split_dot s) = S (PyStr.count_dot s).
Proof.
  induction s as [|c s IH]; [done|].
  rewrite split_dot_cons. cbn [PyStr.count_dot].
  destruct (PyStr.is_dot c); cbn [length]; [by rewrite IH|].
  destruct (PyStr.split_dot s); simpl in *; lia.
Qed.

Lemma split_dot_nodot (s : string) :
  PyStr.contains_dot s = false → PyStr.split_dot s = [s].
Proof.
  induction s as [|c s IH]; [done|].
  cbn [PyStr.contains_dot]. intros [Hc Hs]%orb_false_iff.
  rewrite split_dot_cons, Hc, (IH Hs). done.
Qed.

Lemma split_dot_rpartition (s h t : string) :
  PyStr.rpartition s = Some (h, t) →
  PyStr.split_dot s = PyStr.split_dot h ++ [t].
Proof.
  revert h t. induction s as [|c s IH]; intros h t; [done|].
  cbn [PyStr.rpartition].
  destruct (PyStr.rpartition s) as [[h' t']|] eqn:E.
  - intros [= <- <-]. rewrite !split_dot_cons, (IH _ _ eq_refl).
    destruct (PyStr.is_dot c); [done|].
    pose proof (split_dot_length h') as Hl.
    destruct (PyStr.split_dot h'); [done|]. done.
  - destruct (PyStr.is_dot c) eqn:Ec; [|done].
    intros [= <- <-]. rewrite split_dot_cons, Ec.
    apply rpartition_None in E. by rewrite (split_dot_nodot _ E).
Qed.

Lemma join_dot_cons (x : string) (l : list string) :
  l ≠ [] → PyStr.join_dot (x :: l) = x +:+ "." +:+ PyStr.join_dot l.
Proof. by destruct l. Qed.

Lemma join_split_dot (s : string) : PyStr.join_dot (PyStr.split_dot s) = s.
Proof.
  induction s as [|c s IH]; [done|].
  rewrite split_dot_cons.
  pose proof (split_dot_length s) as Hl.
  destruct (PyStr.is_dot c) eqn:Ec.
  - rewrite join_dot_cons by (intros E; by rewrite E in Hl).
    rewrite IH. unfold PyStr.is_dot in Ec. apply Ascii.eqb_eq in Ec. by subst.
  - destruct (PyStr.split_dot s) as [|x r]; [done|].
    destruct r as [|y r]; cbn [PyStr.join_dot] in *; by rewrite <- IH.
Qed.

Lemma count_dot_rpartition (s h t : string) :
  PyStr.rpartition s = Some (h, t) → PyStr.count_dot s = S (PyStr.count_dot h).
Proof.
  intros E. pose proof (split_dot_rpartition _ _ _ E) as H.
  apply (f_equal length) in H. rewrite length_app, !split_dot_length in H.
  simpl in H. lia.
Qed.

(** [rsplit(".", k)[0]] and slicing the split name agree. *)
Lemma rstrip_components_spec (k : nat) (s : string) :
  (k ≤ PyStr.count_dot s)%nat →
  PyStr.rstrip_components k s = strip_components k s.
Proof.
  unfold strip_components. revert s. induction k as [|k IH]; intros s Hk.
  - cbn [PyStr.rstrip_components]. rewrite Nat.sub_0_r, firstn_all.
    by rewrite join_split_dot.
  - cbn [PyStr.rstrip_components].
    destruct (PyStr.rpartition s) as [[h t]|] eqn:E.
    + pose proof (count_dot_rpartition _ _ _ E).
      rewrite IH by lia.
      rewrite (split_dot_rpartition _ _ _ E), length_app. cbn [length].
      rewrite take_app_le by (rewrite split_dot_length; lia).
      f_equal. f_equal. lia.
    + apply rpartition_None in E.
      assert (PyStr.count_dot s = 0) as Hz.
      { pose proof (split_dot_length s) as Hl.
        rewrite (split_dot_nodot _ E) in Hl. simpl in Hl. lia. }
      lia.
Qed.

Lemma rpartition_head_strip (s : string) :
  PyStr.contains_dot s = true →
  PyStr.rpartition_head s = strip_components 1 s.
Proof.
  intros Hd. unfold PyStr.rpartition_head, strip_components.
  destruct (PyStr.rpartition s) as [[h t]|] eqn:E.
  - rewrite (split_dot_rpartition _ _ _ E), length_app. cbn [length].
    rewrite take_app_le by lia.
    replace (length (PyStr.split_dot h) + 1 - 1) with (length (PyStr.split_dot h)) by lia.
    by rewrite firstn_all, join_split_dot.
  - apply rpartition_None in E. congruence.
Qed.

Lemma startswith_dot_false (t : string) :
  PyStr.startswith t "." = false → leading_dots t = 0.
Proof.
  destruct t as [|c r]; [done|].
  unfold PyStr.startswith. cbn. unfold PyStr.is_dot.
  destruct (ascii_dec "." c) as [<-|Hne].
  - by destruct r.
  - intros _. destruct (Ascii.eqb_spec c "."); congruence.
Qed.

Lemma leading_dots_dots (n : nat) (t : string) :
  leading_dots t = 0 → leading_dots (PyStr.dots n +:+ t) = n.
Proof.
  intros Ht. induction n as [|n IH]; [done|].
  cbn [PyStr.dots]. rewrite append_cons. cbn. by rewrite IH.
Qed.

Lemma drop_dots (n : nat) (t : string) : PyStr.drop n (PyStr.dots n +:+ t) = t.
Proof. induction n as [|n IH]; [done|]. cbn [PyStr.dots]. by rewrite append_cons. Qed.

Lemma startswith_dots (n : nat) (t : string) :
  PyStr.startswith (PyStr.dots (S n) +:+ t) "." = true.
Proof.
  cbn [PyStr.dots]. rewrite append_cons. unfold PyStr.startswith. cbn.
  by destruct (PyStr.dots n +:+ t).
Qed.

Lemma components_nonempty (s : string) :
  s ≠ "" → components s = S (PyStr.count_dot s).
Proof.
  intros Hs. unfold components.
  destruct (String.eqb_spec s ""); [done|]. apply split_dot_length.
Qed.

Lemma spec_parent_anchor (name : string) (spec : ModuleSpec) :
  spec_parent name spec = anchor name (is_package_spec spec).
Proof.
  unfold spec_parent, anchor, is_package_spec.
  destruct (submodule_search_locations spec); [done|].
  destruct (PyStr.contains_dot name) eqn:E.
  - by apply rpartition_head_strip.
  - apply rpartition_None in E. unfold PyStr.rpartition_head. by rewrite E.
Qed.

(** The current implementation: [_calc___package__] and [resolve_name]. *)
Lemma resolve_relative_spec (name : string) (spec : ModuleSpec)
    (target : string) (level : Z) :
  (0 < level)%Z →
  PyStr.startswith target "." = false →
  let a := anchor name (is_package_spec spec) in
  (resolve_relative (module_from_spec name spec) target level = Raise ImportError
     ↔ (Z.of_nat (components a) < level)%Z) ∧
  ((level ≤ Z.of_nat (components a))%Z →
   resolve_relative (module_from_spec name spec) target level =
     Ok (join_target (strip_components (Z.to_nat (level - 1)) a) target)).
Proof.
  intros Hl Ht a.
  unfold resolve_relative, _calc___package__. cbn [mod_package module_from_spec].
  rewrite spec_parent_anchor. fold a.
  destruct (Z.to_nat level) as [|n] eqn:En; [lia|].
  assert (level = Z.of_nat (S n)) as -> by lia.
  replace (Z.to_nat (Z.of_nat (S n) - 1)) with n by lia.
  unfold resolve_name. rewrite startswith_dots. cbn [negb].
  destruct (String.eqb_spec a "") as [Ha|Ha].
  - rewrite Ha. unfold components. cbn. split; [|lia]. split; [lia|done].
  - assert (∀ A (x y : A), match a with "" => x | String _ _ => y end = y) as Hm
      by (intros; by destruct a).
    rewrite Hm. clear Hm.
    rewrite leading_dots_dots by (by apply startswith_dot_false).
    rewrite drop_dots. unfold _resolve_name, PyStr.rsplit_len. cbn [Nat.pred].
    rewrite (components_nonempty a Ha).
    destruct (Nat.ltb_spec (S (n `min` PyStr.count_dot a)) (S n)) as [Hlt|Hge].
    + split; [split; [lia|done]|lia].
    + split; [split; [done|lia]|]. intros _.
      rewrite rstrip_components_spec by lia. done.
Qed.

(** The legacy variant: [determine_parent] strips the same number of
    components off the same anchor and fails in the same cases; where it
    does not fail it hands back whatever [self.modules] holds under the
    stripped anchor. *)
Lemma determine_parent_spec (modules : gmap string Legacy.Module)
    (caller : Legacy.Module) (level : Z) :
  (0 < level)%Z →
  valid_qualname (Legacy.__name__ caller) →
  modules !! Legacy.__name__ caller = Some caller →
  let a := anchor (Legacy.__name__ caller) (Legacy.has_path caller) in
  (Legacy.determine_parent modules (Some caller) level = Raise ImportError
     ↔ (Z.of_nat (components a) < level)%Z) ∧
  ((level ≤ Z.of_nat (components a))%Z →
   Legacy.determine_parent modules (Some caller) level =
     match modules !! strip_components (Z.to_nat (level - 1)) a with
     | Some parent => Ok (Some parent)
     | None => Raise KeyError
     end).
Proof.
  intros Hl [Hne Hdot] Hreg a.
  destruct (Z.to_nat level) as [|n] eqn:En; [lia|].
  assert (level = Z.of_nat (S n)) as -> by lia.
  replace (Z.to_nat (Z.of_nat (S n) - 1)) with n by lia.
  unfold Legacy.determine_parent.
  destruct (Z.eqb_spec (Z.of_nat (S n)) 0) as [|_]; [lia|].
  destruct (Z.geb_spec (Z.of_nat (S n)) 1) as [_|]; [|lia].
  set (pname := Legacy.__name__ caller) in *.
  pose proof (components_nonempty pname Hne) as Hc.
  unfold a, anchor. destruct (Legacy.has_path caller) eqn:Hp.
  - (* a package: one level less, anchored at its own name *)
    rewrite Hc.
    destruct (Z.eqb_spec (Z.of_nat (S n) - 1) 0) as [Hz|Hz].
    + assert (n = 0) as -> by lia.
      unfold Legacy.getitem. rewrite Hreg.
      rewrite decide_True by done.
      split; [split; [done|lia]|]. intros _.
      unfold strip_components. rewrite Nat.sub_0_r, firstn_all, join_split_dot.
      by rewrite Hreg.
    + destruct (Z.ltb_spec (Z.of_nat (PyStr.count_dot pname)) (Z.of_nat (S n) - 1)).
      * split; [split; [lia|done]|lia].
      * replace (Z.to_nat (Z.of_nat (S n) - 1)) with n by lia.
        unfold Legacy.drop_last, Legacy.getitem.
        fold (strip_components n pname).
        destruct (modules !! strip_components n pname);
          (split; [split; [done|lia]|done]).
  - (* a plain module: anchored at its parent package *)
    destruct (Z.eqb_spec (Z.of_nat (S n)) 0) as [|_]; [lia|].
    replace (Z.to_nat (Z.of_nat (S n))) with (S n) by lia.
    destruct (PyStr.contains_dot pname) eqn:Hd.
    + destruct (PyStr.rpartition pname) as [[h t]|] eqn:E;
        [|apply rpartition_None in E; congruence].
      assert (strip_components 1 pname = h) as Hh.
      { rewrite <- rpartition_head_strip by done.
        unfold PyStr.rpartition_head. by rewrite E. }
      rewrite Hh.
      assert (h ≠ "") as Hhne.
      { intros ->. apply rpartition_Some in E as [E _].
        rewrite E in Hdot. unfold PyStr.startswith in Hdot.
        change ("" +:+ "." +:+ t) with (String "." t) in Hdot.
        cbn in Hdot. by destruct t. }
      rewrite (components_nonempty h Hhne).
      pose proof (count_dot_rpartition _ _ _ E) as Hcnt.
      destruct (Z.ltb_spec (Z.of_nat (PyStr.count_dot pname)) (Z.of_nat (S n))).
      * split; [split; [lia|done]|lia].
      * assert (Legacy.drop_last (S n) (PyStr.split_dot pname)
                = take (length (PyStr.split_dot h) - n) (PyStr.split_dot h)) as Hs.
        { unfold Legacy.drop_last.
          rewrite (split_dot_rpartition _ _ _ E), length_app. cbn [length].
          rewrite take_app_le by lia. f_equal. lia. }
        rewrite Hs. fold (strip_components n h). unfold Legacy.getitem.
        destruct (modules !! strip_components n h);
          (split; [split; [done|lia]|done]).
    + assert (PyStr.count_dot pname = 0) as Hz.
      { pose proof (split_dot_length pname) as Hlen.
        rewrite (split_dot_nodot _ Hd) in Hlen. simpl in Hlen. lia. }
      rewrite Hz. unfold components. cbn.
      destruct (Z.ltb_spec (Z.of_nat 0) (Z.of_nat (S n))); [|lia].
      split; [split; [lia|done]|lia].
Qed.

Example resolve_relative_samples :
  resolve_relative (module_from_spec "a.b.c.moduleC" plain_spec) "" 3 = Ok "a" ∧
  resolve_relative (module_from_spec "a.b.c.moduleC" plain_spec) "x" 2 = Ok "a.b.x" ∧
  resolve_relative (module_from_spec "a.b.c.moduleC" plain_spec) "f" 1 = Ok "a.b.c.f" ∧
  resolve_relative (module_from_spec "a.b.c.moduleC" plain_spec) "x" 4 = Raise ImportError ∧
  resolve_relative (module_from_spec "top" plain_spec) "x" 1 = Raise ImportError ∧
  resolve_relative
    (module_from_spec "a.b" {| submodule_search_locations := Some ["/t/a/b"];
                               get_code := NoCode |}) "b.x" 2 = Ok "a.b.x".
Proof. vm_compute. repeat split. Qed.

Example determine_parent_samples :
  Legacy.determine_parent legacy_sample
    (Some (Legacy.mkModule "a.b.c.moduleC" None)) 3
    = Ok (Some (Legacy.mkModule "a" (Some ["/t/a"]))) ∧
  Legacy.determine_parent legacy_sample
    (Some (Legacy.mkModule "a.b.c.moduleC" None)) 4 = Raise ImportError ∧
  Legacy.determine_parent legacy_sample
    (Some (Legacy.mkModule "a.b.c" (Some ["/t/a/b/c"]))) 1
    = Ok (Some (Legacy.mkModule "a.b.c" (Some ["/t/a/b/c"]))).
Proof. vm_compute. repeat split. Qed.

(** C4.  For an import directive with [level > 0] whose raw target does
    not itself begin with a dot: the anchor is the importing module's
    own qualified name when it is a package and the name of its parent
    package otherwise; resolution raises [ImportError] (relative import
    too deep) exactly when [level] exceeds the number of dotted
    components of the anchor, and otherwise yields the anchor with
    [level - 1] trailing components stripped, joined to the target with
    a dot.  The legacy [determine_parent] fails in exactly the same case
    and otherwise looks up the same stripped anchor in [self.modules]. *)
Theorem relative_import_anchor
    (name : string) (spec : ModuleSpec) (target : string) (level : Z)
    (modules : gmap string Legacy.Module) (caller : Legacy.Module) :
  (0 < level)%Z →
  PyStr.startswith target "." = false →
  valid_qualname (Legacy.__name__ caller) →
  modules !! Legacy.__name__ caller = Some caller →
  let a := anchor name (is_package_spec spec) in
  let a' := anchor (Legacy.__name__ caller) (Legacy.has_path caller) in
  (resolve_relative (module_from_spec name spec) target level = Raise ImportError
     ↔ (Z.of_nat (components a) < level)%Z) ∧
  ((level ≤ Z.of_nat (components a))%Z →
   resolve_relative (module_from_spec name spec) target level =
     Ok (join_target (strip_components (Z.to_nat (level - 1)) a) target)) ∧
  (Legacy.determine_parent modules (Some caller) level = Raise ImportError
     ↔ (Z.of_nat (components a') < level)%Z) ∧
  ((level ≤ Z.of_nat (components a'))%Z →
   Legacy.determine_parent modules (Some caller) level =
     match modules !! strip_components (Z.to_nat (level - 1)) a' with
     | Some parent => Ok (Some parent)
     | None => Raise KeyError
     end).
Proof.
  intros Hl Ht Hv Hreg a a'.
  destruct (resolve_relative_spec name spec target level Hl Ht) as [H1 H2].
  destruct (determine_parent_spec modules caller level Hl Hv Hreg) as [H3 H4].
  done.
Qed.

Lemma relative_import_anchor_witness :
  resolve_relative (module_from_spec "a.b.c.moduleC" plain_spec) "x" 2
    = Ok (join_target (strip_components 1 (anchor "a.b.c.moduleC" false)) "x") ∧
  Legacy.determine_parent legacy_sample
    (Some (Legacy.mkModule "a.b.c.moduleC" None)) 2
    = match legacy_sample !! strip_components 1 (anchor "a.b.c.moduleC" false) with
      | Some parent => Ok (Some parent)
      | None => Raise KeyError
      end.
Proof.
  assert ((0 < 2)%Z) as Hl by lia.
  assert (PyStr.startswith "x" "." = false) as Ht by reflexivity.
  assert (valid_qualname "a.b.c.moduleC") as Hv by (split; [discriminate|reflexivity]).
  assert (legacy_sample !! "a.b.c.moduleC"
          = Some (Legacy.mkModule "a.b.c.moduleC" None)) as Hreg
    by (vm_compute; reflexivity).
  pose proof (relative_import_anchor "a.b.c.moduleC" plain_spec "x" 2
                legacy_sample (Legacy.mkModule "a.b.c.moduleC" None)
                Hl Ht Hv Hreg) as (_ & H2 & _ & H4).
  split; [apply H2|apply H4]; vm_compute; discriminate.
Defined.

(** ** The engine on the cases of [test_modulefinder.py] *)

Example test_package :
  run_test world_package "a.module" =
    Some (["a"; "a.b"; "a.c"; "a.module"; "mymodule"; "sys"], (["blahblah"; "c"], [])).
Proof. vm_compute. reflexivity. Qed.

Example test_maybe :
  run_test world_maybe "a.module" =
    Some (["a"; "a.module"; "b"; "sys"], (["c"], ["b.something"])).
Proof. vm_compute. reflexivity. Qed.

Example test_relative_imports_2 :
  run_test world_relative_2 "a.module" =
    Some (["a"; "a.another"; "a.b"; "a.b.c"; "a.b.c.d"; "a.b.c.e"; "a.b.c.f";
           "a.b.c.moduleC"; "a.b.x"; "a.b.y"; "a.b.z"; "a.module"; "a.sys"], ([], [])).
Proof. vm_compute. reflexivity. Qed.

Example test_relative_imports_3 :
  run_test world_relative_3 "a.module" = Some (["a"; "a.module"], (["a.bar"], [])).
Proof. vm_compute. reflexivity. Qed.

Example test_relative_imports_4 :
  run_test world_relative_4 "a.module" = Some (["a"; "a.module"], ([], [])).
Proof. vm_compute. reflexivity. Qed.

Example test_syntax_error :
  run_test world_syntax_error "a.module" =
    Some (["a"; "a.module"; "b"], (["b.module"], [])).
Proof. vm_compute. reflexivity. Qed.

Example test_same_name_as_bad :
  run_test world_same_name "a.module" =
    Some (["a"; "a.module"; "b"; "b.c"], (["c"], [])).
Proof. vm_compute. reflexivity. Qed.

(** ** Dictionaries *)

Section PyDictFacts.
Context {V : Type}.
Implicit Types (d : PyDict.t V) (k : string) (f : V → V).

Lemma get_update_eq d k f :
  PyDict.get k (PyDict.update k f d) = f <$> PyDict.get k d.
Proof.
  induction d as [|[k' v] d IH]; [done|]. cbn.
  destruct (String.eqb_spec k k') as [->|Hne]; cbn.
  - by rewrite String.eqb_refl.
  - destruct (String.eqb_spec k k'); [done|]. exact IH.
Qed.

Lemma get_update_ne d k k' f :
  k ≠ k' → PyDict.get k' (PyDict.update k f d) = PyDict.get k' d.
Proof.
  intros Hne. induction d as [|[k0 v] d IH]; [done|]. cbn.
  destruct (String.eqb_spec k k0) as [->|]; cbn.
  - destruct (String.eqb_spec k' k0); [congruence|done].
  - destruct (String.eqb_spec k' k0); [done|]. exact IH.
Qed.

Lemma keys_update d k f : PyDict.keys (PyDict.update k f d) = PyDict.keys d.
Proof.
  unfold PyDict.keys. induction d as [|[k' v] d IH]; [done|]. cbn.
  destruct (String.eqb k k'); cbn; [done|]. by rewrite IH.
Qed.

Lemma get_app_None d d' k :
  PyDict.get k d = None → PyDict.get k (d ++ d') = PyDict.get k d'.
Proof.
  induction d as [|[k' v] d IH]; [done|]. cbn.
  destruct (String.eqb k k'); [done|]. exact IH.
Qed.

Lemma get_app_Some d d' k v :
  PyDict.get k d = Some v → PyDict.get k (d ++ d') = Some v.
Proof.
  induction d as [|[k' v'] d IH]; [done|]. cbn.
  destruct (String.eqb k k'); [done|]. exact IH.
Qed.

Lemma get_None_keys d k : PyDict.get k d = None ↔ k ∉ PyDict.keys d.
Proof.
  unfold PyDict.keys. induction d as [|[k' v] d IH]; cbn.
  - split; [intros _; apply not_elem_of_nil|done].
  - rewrite not_elem_of_cons.
    destruct (String.eqb_spec k k') as [->|Hne].
    + split; [done|]. by intros [? _].
    + rewrite IH. intuition.
Qed.

Lemma get_setdefault_apply_eq d k dflt f :
  PyDict.get k (PyDict.setdefault_apply k dflt f d)
    = Some (f (default dflt (PyDict.get k d))).
Proof.
  unfold PyDict.setdefault_apply.
  destruct (PyDict.get k d) as [v|] eqn:E.
  - by rewrite get_update_eq, E.
  - rewrite (get_app_None _ _ _ E). cbn. by rewrite String.eqb_refl.
Qed.

Lemma get_setdefault_apply_ne d k k' dflt f :
  k ≠ k' →
  PyDict.get k' (PyDict.setdefault_apply k dflt f d) = PyDict.get k' d.
Proof.
  intros Hne. unfold PyDict.setdefault_apply.
  destruct (PyDict.get k d) as [v|] eqn:E.
  - by apply get_update_ne.
  - destruct (PyDict.get k' d) as [v'|] eqn:E'.
    + by apply get_app_Some.
    + rewrite (get_app_None _ _ _ E'). cbn.
      destruct (String.eqb_spec k' k); [congruence|done].
Qed.

Lemma keys_setdefault_apply d k dflt f :
  PyDict.keys (PyDict.setdefault_apply k dflt f d) =
    if decide (k ∈ PyDict.keys d) then PyDict.keys d else PyDict.keys d ++ [k].
Proof.
  unfold PyDict.setdefault_apply.
  destruct (PyDict.get k d) as [v|] eqn:E.
  - rewrite keys_update. rewrite decide_True; [done|].
    destruct (decide (k ∈ PyDict.keys d)) as [|Hn]; [done|].
    apply get_None_keys in Hn. congruence.
  - apply get_None_keys in E. rewrite decide_False by done.
    unfold PyDict.keys. by rewrite map_app.
Qed.

Lemma wf_setdefault_apply d k dflt f :
  PyDict.wf d → PyDict.wf (PyDict.setdefault_apply k dflt f d).
Proof.
  unfold PyDict.wf. intros Hwf. rewrite keys_setdefault_apply.
  case_decide; [done|].
  apply NoDup_app. split_and!; [done| |apply NoDup_singleton].
  intros x Hx ->%list_elem_of_singleton. done.
Qed.

End PyDictFacts.

(** ** One import directive *)

(** Unfolds the plumbing of [Run]. *)
Ltac run_unfold :=
  unfold bind, ret, raise, attempt, gets, modify, log, getmodule, update_module,
    add_bad_module in *.

(** The wildcard part on its own: it ends as [star_result] says, merges
    into the importing module unless it raises, and touches nothing
    else. *)
Lemma star_import_run (optimized : bool) (module name : string) (mf : ModuleFinder) :
  ∃ mf', star_import optimized module name mf
           = Some (mf', star_result optimized true mf name) ∧
         modules mf' = (if star_blocked mf name then modules mf
                        else alter (star_merge name (modules mf !! name)) module
                               (modules mf)) ∧
         bad_modules mf' = bad_modules mf ∧
         excludes mf' = excludes mf ∧
         path_replacements mf' = path_replacements mf ∧
         trace mf' = trace mf.
Proof.
  unfold star_import, star_result, star_blocked, star_error. run_unfold.
  destruct (modules mf !! name) as [t|] eqn:Et; cbn.
  - destruct (mod_typed t); cbn; [|by eexists].
    destruct (mod_code t) eqn:Ec; cbn; eexists; (split; [done|]); cbn;
      (split; [|done]);
      rewrite !alter_alter_eq; apply alter_ext; intros m _;
      unfold star_merge, set_star_imports, set_global_names; cbn;
      rewrite Ec; f_equal; by rewrite ?(right_id_L ∅ (∪)).
  - by eexists.
Qed.

Lemma star_import_inv (optimized : bool) (module name : string)
    (mf mf' : ModuleFinder) (r : Res unit) :
  star_import optimized module name mf = Some (mf', r) →
  r = star_result optimized true mf name ∧
  modules mf' = (if star_blocked mf name then modules mf
                 else alter (star_merge name (modules mf !! name)) module
                        (modules mf)) ∧
  bad_modules mf' = bad_modules mf ∧
  excludes mf' = excludes mf ∧
  path_replacements mf' = path_replacements mf ∧
  trace mf' = trace mf.
Proof.
  destruct (star_import_run optimized module name mf) as (mf2 & E & H).
  rewrite E. by intros [= <- <-].
Qed.


Lemma try_import_name (ia : MFModuleType → string → bool) (import_ : string → Run string)
    (module : string) (d : ImportDirective) (fromlist : list string)
    (mf mf1 : ModuleFinder) (name : string) (outcome : Res string) :
  try_import ia import_ module d fromlist mf = Some (mf1, Ok (name, outcome)) →
  name = directive_name mf module d.
Proof.
  unfold try_import, directive_name. run_unfold.
  destruct (0 <? imp_level d)%Z.
  - destruct (modules mf !! module) as [m|]; [|done].
    destruct (resolve_relative m (imp_name d) (imp_level d)) as [abs|e].
    + destruct (__import__ ia import_ abs fromlist mf) as [[? ?]|]; [|done].
      by intros [= _ <- _].
    + by intros [= _ <- _].
  - destruct (imp_level d <? 0)%Z; [by intros [= _ <- _]|].
    destruct (__import__ ia import_ (imp_name d) fromlist mf) as [[? ?]|]; [|done].
    by intros [= _ <- _].
Qed.

Lemma scan_import_unfold (optimized : bool) (ia : MFModuleType → string → bool)
    (import_ : string → Run string) (module : string) (d : ImportDirective) :
  scan_import optimized ia import_ module d =
    (let! (name, outcome) :=
       try_import ia import_ module d (split_fromlist (imp_fromlist d)).2 in
     let! _ :=
       match outcome with
       | Raise e => if caught_by_scan e then add_bad_module name module else raise e
       | Ok result_module =>
           record_missing_fromlist ia module name result_module
             (split_fromlist (imp_fromlist d)).2
       end in
     if (split_fromlist (imp_fromlist d)).1 then star_import optimized module name else ret tt).
Proof. unfold scan_import. by destruct (split_fromlist (imp_fromlist d)). Qed.




(** An unknown module is filed under its name. *)
Example unknown_is_recorded :
  match scan_import false no_intrinsic_attr empty_tree_import "m"
          (imp "nosuch") sample_one_module with
  | Some (mf', Ok _) => bad_modules mf' = [("nosuch", {["m"]})]
  | _ => False
  end.
Proof. vm_compute. reflexivity. Qed.

(** What a finder raises that is neither [ImportError] nor
    [SyntaxError] leaves the directive, and nothing is filed. *)
Example finder_error_escapes :
  match scan_import false no_intrinsic_attr key_error_import "m" (imp "ns")
          sample_one_module with
  | Some (mf', r) => r = Raise KeyError ∧ bad_modules mf' = []
  | None => False
  end.
Proof. vm_compute. split; reflexivity. Qed.

(** A relative import that is too deep is filed under its raw target. *)
Example too_deep_is_recorded :
  match scan_import false no_intrinsic_attr empty_tree_import "m"
          (imp_from 2 "x" ["y"]) sample_one_module with
  | Some (mf', Ok _) => bad_modules mf' = [("x", {["m"]})]
  | _ => False
  end.
Proof. vm_compute. reflexivity. Qed.

Lemma set_bad_modules_id (mf : ModuleFinder) : set_bad_modules (λ b, b) mf = mf.
Proof. by destruct mf. Qed.

Lemma set_bad_modules_compose (f g : PyDict.t (gset string) → PyDict.t (gset string))
    (mf : ModuleFinder) :
  set_bad_modules f (set_bad_modules g mf) = set_bad_modules (λ b, f (g b)) mf.
Proof. done. Qed.

(** The loop over the fromlist files exactly the items the result
    module does not expose. *)
Lemma for_each_file_items (ia : MFModuleType → string → bool)
    (module name result : string) (rm : MFModuleType)
    (l : list string) (mf : ModuleFinder) :
  modules mf !! result = Some rm →
  for_each (λ from_item,
              let! r := getmodule result in
              if hasattr ia r from_item then ret tt
              else add_bad_module (name +:+ "." +:+ from_item) module) l mf
  = Some (set_bad_modules
            (λ b, fold_left (file_item module name)
                    (filter (λ x, hasattr ia rm x = false) l) b) mf,
          Ok tt).
Proof.
  revert mf. induction l as [|x l IH]; intros mf Hrm.
  - cbn. by rewrite set_bad_modules_id.
  - cbn [for_each]. unfold bind at 1. unfold bind at 1.
    unfold getmodule at 1. rewrite Hrm.
    rewrite filter_cons. destruct (hasattr ia rm x) eqn:Ex.
    + unfold ret at 1. rewrite decide_False by done. by apply IH.
    + unfold add_bad_module, modify. rewrite decide_True by done.
      rewrite IH by done. rewrite set_bad_modules_compose. done.
Qed.

Lemma record_missing_fromlist_registered (ia : MFModuleType → string → bool)
    (module name result : string) (rm : MFModuleType)
    (fromlist : list string) (mf : ModuleFinder) :
  modules mf !! result = Some rm →
  record_missing_fromlist ia module name result fromlist mf =
    Some (match mod_path rm with
          | Some _ =>
              set_bad_modules
                (λ b, fold_left (file_item module name)
                        (filter (λ x, hasattr ia rm x = false) fromlist) b) mf
          | None => mf
          end, Ok tt).
Proof.
  intros Hrm. unfold record_missing_fromlist. unfold bind at 1.
  unfold getmodule at 1. rewrite Hrm.
  unfold hasattr at 1. cbn.
  destruct (mod_path rm); [|done].
  by apply for_each_file_items.
Qed.

Lemma record_missing_fromlist_modules (ia : MFModuleType → string → bool)
    (module name result : string) (fromlist : list string)
    (mf mf' : ModuleFinder) (r : Res unit) :
  record_missing_fromlist ia module name result fromlist mf = Some (mf', r) →
  modules mf' = modules mf.
Proof.
  destruct (modules mf !! result) as [rm|] eqn:Hrm.
  - rewrite (record_missing_fromlist_registered _ _ _ _ rm) by done.
    intros [= <- _]. by destruct (mod_path rm).
  - unfold record_missing_fromlist. unfold bind, getmodule. rewrite Hrm.
    by intros [= <- _].
Qed.

(** C7.  For a directive whose fromlist holds the ["*"] sentinel and
    whose [try] statement is through, with a module or with a caught
    failure, let [name] be the directive's name and take the registry as
    the [try] statement left it.  If a module is registered under [name]
    and it is an [MFModuleType], the directive returns, the target's
    bound names are unioned into the importing module's bound names and
    its unresolved wildcard sources into the importer's, and when no
    code was obtained for the target [name] itself is added to the
    importer's unresolved wildcard sources.  If no module is registered
    under [name], the directive returns and only [name] is added to the
    importer's unresolved wildcard sources.  If the module registered
    under [name] is not an [MFModuleType] (a namespace package, for
    which no code is obtained), the directive does not add [name] to the
    importer's unresolved wildcard sources: it raises [AssertionError]
    ([AttributeError] with asserts compiled out) and leaves every module
    record as it was.  No module record other than the importer's
    changes in any case. *)
Theorem wildcard_import_merges
    (optimized : bool) (ia : MFModuleType → string → bool) (import_ : string → Run string)
    (module : string) (d : ImportDirective) (fl : list string)
    (mf mf1 : ModuleFinder) (name : string) (outcome : Res string) :
  imp_fromlist d = Some fl →
  "*" ∈ fl →
  try_import ia import_ module d (filter (λ f, f ≠ "*") fl) mf
    = Some (mf1, Ok (name, outcome)) →
  match outcome with
  | Ok result => is_Some (modules mf1 !! result)
  | Raise e => caught_by_scan e = true
  end →
  ∃ mf',
    scan_import optimized ia import_ module d mf
      = Some (mf', match modules mf1 !! name with
                   | Some target =>
                       if mod_typed target then Ok tt
                       else Raise (if optimized then AttributeError else AssertionError)
                   | None => Ok tt
                   end) ∧
    name = directive_name mf module d ∧
    (∀ k, k ≠ module → modules mf' !! k = modules mf1 !! k) ∧
    (∀ m, modules mf1 !! module = Some m →
       ∃ m', modules mf' !! module = Some m' ∧
         match modules mf1 !! name with
         | Some target =>
             if mod_typed target then
               mf_global_names m' = mf_global_names m ∪ mf_global_names target ∧
               mf_star_imports m ∪ mf_star_imports target ⊆ mf_star_imports m' ∧
               (mod_code target = None → name ∈ mf_star_imports m') ∧
               (is_Some (mod_code target) →
                mf_star_imports m' = mf_star_imports m ∪ mf_star_imports target)
             else m' = m
         | None =>
             mf_global_names m' = mf_global_names m ∧
             mf_star_imports m' = mf_star_imports m ∪ {[name]}
         end) ∧
    (star_blocked mf1 name = false →
     modules mf' = alter (star_merge name (modules mf1 !! name)) module (modules mf1)) ∧
    (star_blocked mf1 name = true → modules mf' = modules mf1).
Proof.
  intros Hfl Hstar Htry Hout.
  pose proof (try_import_name _ _ _ _ _ _ _ _ _ Htry) as Hname.
  assert (∃ mf2,
            match outcome with
            | Raise e => if caught_by_scan e then add_bad_module name module else raise e
            | Ok result_module =>
                record_missing_fromlist ia module name result_module
                  (filter (λ f, f ≠ "*") fl)
            end mf1 = Some (mf2, Ok tt) ∧ modules mf2 = modules mf1)
    as (mf2 & Hmid & Hmods).
  { destruct outcome as [result|e].
    - destruct Hout as [rm Hrm].
      rewrite (record_missing_fromlist_registered _ _ _ _ rm) by done.
      eexists; split; [done|]. by destruct (mod_path rm).
    - rewrite Hout. by eexists. }
  destruct (star_import_run optimized module name mf2) as (mf' & Hs & Hm & _).
  unfold star_result, star_blocked, star_error in Hs, Hm. rewrite Hmods in Hs, Hm.
  unfold star_blocked.
  exists mf'. split_and!; [|done| | | |].
  - rewrite scan_import_unfold, Hfl. cbn [split_fromlist fst snd].
    rewrite bool_decide_eq_true_2 by done.
    unfold bind at 1. rewrite Htry. unfold bind at 1. rewrite Hmid, Hs.
    cbn [andb]. destruct (modules mf1 !! name) as [target|]; [|done].
    by destruct (mod_typed target).
  - intros k Hk. rewrite Hm.
    destruct (modules mf1 !! name) as [target|]; [destruct (mod_typed target)|];
      cbn; [|done|]; by apply lookup_alter_ne.
  - intros m Hmod. rewrite Hm.
    destruct (modules mf1 !! name) as [target|]; [destruct (mod_typed target)|]; cbn.
    + rewrite lookup_alter_eq, Hmod. cbn. eexists; split; [done|].
      split_and!; [done|set_solver| |].
      * intros ->. set_solver.
      * intros [c ->]. set_solver.
    + by exists m.
    + rewrite lookup_alter_eq, Hmod. cbn. by eexists.
  - intros Hfree. rewrite Hm.
    destruct (modules mf1 !! name) as [target|]; [|done].
    cbn in Hfree. by rewrite Hfree.
  - intros Hblocked. rewrite Hm.
    destruct (modules mf1 !! name) as [target|]; [|done].
    cbn in Hblocked. by rewrite Hblocked.
Qed.

Lemma wildcard_import_merges_witness :
  ∃ mf',
    scan_import false no_intrinsic_attr namespace_import "a" (imp_from 0 "pkg.ns" ["*"])
      sample_namespace_before = Some (mf', Raise AssertionError) ∧
    modules mf' !! "a" = Some (blank_module "a" None).
Proof.
  assert (∃ mf1, try_import no_intrinsic_attr namespace_import "a"
                   (imp_from 0 "pkg.ns" ["*"]) [] sample_namespace_before
                 = Some (mf1, Ok ("pkg.ns", Ok "pkg")) ∧
                 is_Some (modules mf1 !! "pkg") ∧
                 modules mf1 !! "pkg.ns"
                   = Some (module_from_spec "pkg.ns" (namespace "/t/pkg/ns")) ∧
                 modules mf1 !! "a" = Some (blank_module "a" None))
    as (mf1 & Htry & Hpkg & Hns & Ha).
  { eexists. split_and!; [vm_compute; reflexivity| |vm_compute; reflexivity..].
    vm_compute. by eexists. }
  destruct (wildcard_import_merges false no_intrinsic_attr namespace_import "a"
              (imp_from 0 "pkg.ns" ["*"]) ["*"] sample_namespace_before mf1
              "pkg.ns" (Ok "pkg"))
    as (mf' & H1 & _ & _ & H4 & _).
  - reflexivity.
  - by_eval.
  - exact Htry.
  - exact Hpkg.
  - exists mf'. rewrite Hns in H1. split; [exact H1|].
    destruct (H4 _ Ha) as (m' & Hm' & Hsame). rewrite Hns in Hsame. cbn in Hsame.
    by rewrite Hm', Hsame.
Defined.

(** The same directive on the way from the entry point: the run is
    abandoned and [a] is taken out of the registry again. *)
Example namespace_wildcard_aborts_run :
  match import_as_module false Posix.normpath (table_finder world_namespace)
          no_intrinsic_attr 5 "a" (new_finder [] []) with
  | Some (mf', r) =>
      r = Raise AssertionError ∧
      PyStr.sort (elements (dom (modules mf'))) = ["pkg"; "pkg.ns"]
  | None => False
  end.
Proof. vm_compute. split; reflexivity. Qed.

(** A wildcard import from a built-in module, as in test case "maybe". *)
Example builtin_wildcard_taints :
  match scan_import false no_intrinsic_attr sys_only_import "b" (imp_from 0 "sys" ["*"])
          sample_star_before with
  | Some (mf', r) =>
      r = Ok tt ∧
      modules mf' !! "b" = Some (with_names (blank_module "b" (Some ["/t/b"])) ∅ {["sys"]})
  | None => False
  end.
Proof. vm_compute. split; reflexivity. Qed.





(** ** Registration precedes analysis *)

Lemma replay_app (reg : gset string) (t1 t2 : list Event) :
  replay reg (t1 ++ t2) = replay (replay reg t1) t2.
Proof.
  revert reg. induction t1 as [|ev t1 IH]; intros reg; [done|].
  destruct ev; cbn; apply IH.
Qed.

Lemma scans_registered_app (reg : gset string) (t1 t2 : list Event) :
  scans_registered reg (t1 ++ t2) ↔
  scans_registered reg t1 ∧ scans_registered (replay reg t1) t2.
Proof.
  revert reg. induction t1 as [|ev t1 IH]; intros reg.
  - cbn. tauto.
  - destruct ev; cbn; rewrite IH; tauto.
Qed.

Lemma Grows_refl (mf : ModuleFinder) : Grows mf mf.
Proof. unfold Grows. reflexivity. Qed.

Lemma Good_refl (mf : ModuleFinder) : Good mf mf.
Proof.
  split; [|apply Grows_refl]. exists []. by rewrite app_nil_r.
Qed.

Lemma Good_trans (mf1 mf2 mf3 : ModuleFinder) :
  Good mf1 mf2 → Good mf2 mf3 → Good mf1 mf3.
Proof.
  intros [(t1 & Ht1 & Hs1 & Hd1) Hg1] [(t2 & Ht2 & Hs2 & Hd2) Hg2].
  split; [|unfold Grows in *; set_solver].
  exists (t1 ++ t2). split_and!.
  - by rewrite Ht2, Ht1, app_assoc.
  - apply scans_registered_app. split; [done|]. by rewrite <- Hd1.
  - by rewrite replay_app, <- Hd1.
Qed.

Lemma Good_same_dom (mf mf' : ModuleFinder) :
  dom (modules mf') = dom (modules mf) → trace mf' = trace mf → Good mf mf'.
Proof.
  intros Hd Ht. split; [|unfold Grows; by rewrite Hd].
  exists []. by rewrite app_nil_r.
Qed.

Lemma Good_log_find (n : string) (mf : ModuleFinder) :
  Good mf (log_event (EvFind n) mf).
Proof. split; [|unfold Grows; cbn; reflexivity]. by exists [EvFind n]. Qed.

Lemma Good_log_scan_begin (n : string) (mf : ModuleFinder) :
  n ∈ dom (modules mf) → Good mf (log_event (EvScanBegin n) mf).
Proof.
  intros Hn. split; [|unfold Grows; cbn; reflexivity]. by exists [EvScanBegin n].
Qed.

Lemma Good_log_scan_end (n : string) (mf : ModuleFinder) :
  n ∈ dom (modules mf) → Good mf (log_event (EvScanEnd n) mf).
Proof.
  intros Hn. split; [|unfold Grows; cbn; reflexivity]. by exists [EvScanEnd n].
Qed.

Lemma Good_register (n : string) (m : MFModuleType) (mf : ModuleFinder) :
  Good mf (log_event (EvRegister n) (set_modules (insert n m) mf)).
Proof.
  split.
  - exists [EvRegister n]. cbn. by rewrite dom_insert_L.
  - unfold Grows. cbn. rewrite dom_insert_L. set_solver.
Qed.

(** *** Rules for [post] and [sound] *)

Lemma post_bind {A B} (c : Run A) (k : A → Run B) (mf : ModuleFinder)
    (Q : ModuleFinder → Res B → Prop) :
  post c mf (λ mf1 r, match r with
                      | Ok a => post (k a) mf1 Q
                      | Raise e => Q mf1 (Raise e)
                      end) →
  post (bind c k) mf Q.
Proof.
  intros Hc mf' r. unfold bind.
  destruct (c mf) as [[mf1 [a|e]]|] eqn:E; [| |done].
  - apply (Hc _ _ E).
  - intros [= <- <-]. apply (Hc _ _ E).
Qed.

Lemma post_sound {A} (c : Run A) (mf0 mf : ModuleFinder)
    (Q : ModuleFinder → Res A → Prop) :
  sound c → Good mf0 mf →
  (∀ mf1 r, Good mf0 mf1 → Good mf mf1 → Q mf1 r) →
  post c mf Q.
Proof.
  intros Hc H0 HQ mf1 r E. apply HQ; [|by apply (Hc _ _ _ E)].
  eapply Good_trans; [done|]. by apply (Hc _ _ _ E).
Qed.

Lemma sound_ret {A} (a : A) : sound (ret a).
Proof. intros mf mf' r [= <- _]. apply Good_refl. Qed.

Lemma sound_raise {A} (e : Exc) : sound (@raise A e).
Proof. intros mf mf' r [= <- _]. apply Good_refl. Qed.

Lemma sound_gets {A} (f : ModuleFinder → A) : sound (gets f).
Proof. intros mf mf' r [= <- _]. apply Good_refl. Qed.

Lemma sound_getmodule (n : string) : sound (getmodule n).
Proof.
  intros mf mf' r. unfold getmodule.
  destruct (modules mf !! n); intros [= <- _]; apply Good_refl.
Qed.

Lemma sound_update_module (n : string) (f : MFModuleType → MFModuleType) :
  sound (update_module n f).
Proof.
  intros mf mf' r [= <- _]. apply Good_same_dom; [|done].
  cbn. by rewrite dom_alter_L.
Qed.

Lemma sound_add_bad_module (n importer : string) : sound (add_bad_module n importer).
Proof. intros mf mf' r [= <- _]. by apply Good_same_dom. Qed.

Lemma sound_bind {A B} (c : Run A) (k : A → Run B) :
  sound c → (∀ a, sound (k a)) → sound (bind c k).
Proof.
  intros Hc Hk mf. apply post_bind.
  eapply (post_sound c mf mf); [done|apply Good_refl|].
  intros mf1 [a|e] H1 _; [|done].
  eapply post_sound; [apply Hk|done|]. by intros.
Qed.

Lemma sound_attempt {A} (c : Run A) : sound c → sound (attempt c).
Proof.
  intros Hc mf mf' r. unfold attempt.
  destruct (c mf) as [[mf1 r1]|] eqn:E; [|done].
  intros [= <- _]. by apply (Hc _ _ _ E).
Qed.

Lemma sound_for_each {A} (body : A → Run unit) (l : list A) :
  (∀ x, sound (body x)) → sound (for_each body l).
Proof.
  intros Hb. induction l as [|x l IH]; cbn [for_each].
  - apply sound_ret.
  - apply sound_bind; [apply Hb|]. by intros _.
Qed.

Lemma sound_star_import (optimized : bool) (module name : string) :
  sound (star_import optimized module name).
Proof.
  intros mf mf' r E.
  destruct (star_import_inv _ _ _ _ _ _ E) as (_ & Hm & _ & _ & _ & Ht).
  apply Good_same_dom; [|done]. rewrite Hm.
  destruct (star_blocked mf name); [done|]. by rewrite dom_alter_L.
Qed.

Lemma sound_record_missing_fromlist (ia : MFModuleType → string → bool)
    (module name result : string) (fromlist : list string) :
  sound (record_missing_fromlist ia module name result fromlist).
Proof.
  unfold record_missing_fromlist.
  apply sound_bind; [apply sound_getmodule|]. intros rm.
  destruct (hasattr ia rm "__path__"); [|apply sound_ret].
  apply sound_for_each. intros x.
  apply sound_bind; [apply sound_getmodule|]. intros rm'.
  destruct (hasattr ia rm' x); [apply sound_ret|apply sound_add_bad_module].
Qed.

Section SoundMachinery.
Variable optimized : bool.
Variable normpath : string → string.
Variable find_spec : string → option (list string) → Res (option ModuleSpec).
Variable ia : MFModuleType → string → bool.
Variable import_ : string → Run string.
Hypothesis import_sound : ∀ n, sound (import_ n).

Lemma sound_handle_fromlist (module : string) (fromlist : list string) :
  sound (_handle_fromlist ia import_ module fromlist).
Proof.
  unfold _handle_fromlist.
  apply sound_bind; [|intros _; apply sound_ret].
  apply sound_for_each. intros x.
  destruct (String.eqb x "*"); [apply sound_ret|].
  apply sound_bind; [apply sound_getmodule|]. intros m.
  destruct (hasattr ia m x); [apply sound_ret|].
  apply sound_bind; [apply sound_attempt, import_sound|].
  intros [k|e]; [apply sound_ret|].
  destruct e; try apply sound_raise.
  destruct (String.eqb _ _); [apply sound_ret|apply sound_raise].
Qed.

Lemma sound_dunder_import (name : string) (fromlist : list string) :
  sound (__import__ ia import_ name fromlist).
Proof.
  unfold __import__.
  apply sound_bind; [apply import_sound|]. intros module.
  case_bool_decide; [apply import_sound|].
  apply sound_bind; [apply sound_getmodule|]. intros m.
  destruct (hasattr ia m "__path__"); [apply sound_handle_fromlist|apply sound_ret].
Qed.

Lemma sound_try_import (module : string) (d : ImportDirective) (fromlist : list string) :
  sound (try_import ia import_ module d fromlist).
Proof.
  unfold try_import.
  destruct (0 <? imp_level d)%Z.
  - apply sound_bind; [apply sound_getmodule|]. intros m.
    destruct (resolve_relative m (imp_name d) (imp_level d)); [|apply sound_ret].
    apply sound_bind; [apply sound_attempt, sound_dunder_import|].
    intros r. apply sound_ret.
  - destruct (imp_level d <? 0)%Z; [apply sound_ret|].
    apply sound_bind; [apply sound_attempt, sound_dunder_import|].
    intros r. apply sound_ret.
Qed.

Lemma sound_scan_import (module : string) (d : ImportDirective) :
  sound (scan_import optimized ia import_ module d).
Proof.
  rewrite scan_import_unfold.
  apply sound_bind; [apply sound_try_import|]. intros [name outcome].
  apply sound_bind.
  - destruct outcome as [result|e]; [apply sound_record_missing_fromlist|].
    destruct (caught_by_scan e); [apply sound_add_bad_module|apply sound_raise].
  - intros _. destruct (split_fromlist (imp_fromlist d)).1;
      [apply sound_star_import|apply sound_ret].
Qed.

Lemma sound_scan_code (module : string) (code : CodeType) :
  sound (_scan_code optimized ia import_ module code).
Proof.
  induction code as [f s i ks IH] using CodeType_nested_ind.
  cbn [_scan_code].
  apply sound_bind.
  { apply sound_for_each. intros x. apply sound_update_module. }
  intros _. apply sound_bind.
  { apply sound_for_each. intros x. apply sound_scan_import. }
  intros _. induction IH as [|k ks Hk _ IHks]; [apply sound_ret|].
  destruct k as [|c]; [exact IHks|].
  apply sound_bind; [exact Hk|]. intros _. exact IHks.
Qed.

Lemma exec_module_good (name : string) (spec : ModuleSpec) (mf : ModuleFinder) :
  name ∈ dom (modules mf) →
  post (exec_module optimized normpath ia import_ name spec) mf (λ mf' _, Good mf mf').
Proof.
  intros Hn. unfold exec_module.
  apply post_bind. intros mf0 r0 [= <- <-].
  destruct (negb optimized && _); [intros mf1 r1 [= <- _]; apply Good_refl|].
  apply post_bind.
  eapply post_sound; [apply sound_update_module|apply Good_refl|].
  intros mf1 [[]|e] H1 _; [|done].
  destruct (get_code spec) as [code| |e|].
  - apply post_bind.
    eapply post_sound; [apply sound_gets|exact H1|].
    intros mf2 [rules|e] H2 _; [|done].
    apply post_bind.
    eapply post_sound; [apply sound_update_module|exact H2|].
    intros mf3 [[]|e] H3 _; [|done].
    apply post_bind. intros mf4 r4 [= <- <-].
    assert (Good mf (log_event (EvScanBegin name) mf3)) as H4.
    { eapply Good_trans; [exact H3|]. apply Good_log_scan_begin.
      destruct H3 as [_ Hg]. by apply Hg. }
    apply post_bind.
    eapply post_sound; [apply sound_scan_code|exact H4|].
    intros mf5 [[]|e] H5 _; [|done].
    intros mf6 r6 [= <- <-].
    eapply Good_trans; [exact H5|]. apply Good_log_scan_end.
    destruct H5 as [_ Hg]. by apply Hg.
  - intros mf2 r2 [= <- _]. done.
  - intros mf2 r2 [= <- _]. done.
  - intros mf2 r2 [= <- _]. done.
Qed.

Lemma run_loader_good (name : string) (spec : ModuleSpec) (mf : ModuleFinder) :
  name ∈ dom (modules mf) →
  post (run_loader optimized normpath ia import_ name spec) mf (λ mf' _, Good mf mf').
Proof.
  intros Hn. unfold run_loader.
  destruct (has_loader spec); [by apply exec_module_good|].
  destruct (submodule_search_locations spec);
    intros mf1 r1 [= <- _]; apply Good_refl.
Qed.

Lemma Good_unregister (name : string) (mf0 mf : ModuleFinder) :
  name ∉ dom (modules mf0) →
  Good mf0 mf →
  Good mf0 (log_event (EvUnregister name) (set_modules (delete name) mf)).
Proof.
  intros Hn [(tr & Ht & Hs & Hd) Hg]. split.
  - exists (tr ++ [EvUnregister name]). split_and!.
    + cbn. by rewrite Ht, app_assoc.
    + apply scans_registered_app. by split.
    + rewrite replay_app. cbn. by rewrite dom_delete_L, Hd.
  - unfold Grows in *. cbn. rewrite dom_delete_L. set_solver.
Qed.

Lemma load_unlocked_good (name : string) (spec : ModuleSpec) (mf : ModuleFinder) :
  modules mf !! name = None →
  post (_load_unlocked optimized normpath ia import_ name spec) mf (λ mf' _, Good mf mf').
Proof.
  intros Hn. apply not_elem_of_dom in Hn. unfold _load_unlocked.
  apply post_bind. intros mf1 r1 [= <- <-].
  apply post_bind. intros mf2 r2 [= <- <-].
  set (mf2 := log_event (EvRegister name)
                (set_modules (insert name (module_from_spec name spec)) mf)).
  assert (Good mf mf2) as H2 by apply Good_register.
  assert (name ∈ dom (modules mf2)) as Hin.
  { cbn. rewrite dom_insert_L. set_solver. }
  apply post_bind. intros mf3 r3 E3. unfold attempt in E3.
  destruct (run_loader optimized normpath ia import_ name spec mf2) as [[mf3' r3']|] eqn:Ex;
    [|done].
  injection E3 as <- <-.
  pose proof (run_loader_good name spec mf2 Hin _ _ Ex) as H3. cbn in H3.
  assert (Good mf mf3') as H03 by (eapply Good_trans; done).
  destruct r3' as [[]|e].
  - apply post_bind.
    eapply post_sound; [apply sound_getmodule|exact H03|].
    intros mf4 [m|e] H4 _; [|done].
    intros mf5 r5 [= <- _]. done.
  - apply post_bind. intros mf4 r4 [= <- <-].
    apply post_bind. intros mf5 r5 [= <- <-].
    intros mf6 r6 [= <- _].
    by apply Good_unregister.
Qed.

Lemma find_load_bind_good (name : string) (path : option (list string))
    (parent : option string) (mf : ModuleFinder) :
  modules mf !! name = None →
  post (find_load_bind optimized normpath find_spec ia import_ name path parent) mf
    (λ mf' _, Good mf mf').
Proof.
  intros Hn. unfold find_load_bind, _find_spec.
  apply post_bind. apply post_bind. intros mf1 r1 [= <- <-].
  assert (Good mf (log_event (EvFind name) mf)) as H1 by apply Good_log_find.
  destruct (find_spec name path) as [[spec|]|e]; cbn [lift_res];
    intros mf2 r2 [= <- <-]; [|by intros mf3 r3 [= <- _]|done].
  apply post_bind. intros mf3 r3 E3.
  pose proof (load_unlocked_good name spec (log_event (EvFind name) mf) Hn _ _ E3) as H3.
  cbn in H3. assert (Good mf mf3) as H03 by (eapply Good_trans; done).
  destruct r3 as [module|e]; [|done].
  apply post_bind.
  assert (sound (match parent with
                 | Some parent0 =>
                     let! _ := getmodule parent0 in
                     update_module parent0 (bind_attr (PyStr.rpartition_tail name))
                 | None => ret tt
                 end)) as Hs.
  { destruct parent; [|apply sound_ret].
    apply sound_bind; [apply sound_getmodule|]. intros _. apply sound_update_module. }
  eapply post_sound; [exact Hs|exact H03|].
  intros mf4 [[]|e] H4 _; [|done].
  intros mf5 r5 [= <- _]. done.
Qed.

Lemma find_and_load_unlocked_good (name : string) (mf : ModuleFinder) :
  modules mf !! name = None →
  post (_find_and_load_unlocked optimized normpath find_spec ia import_ name) mf
    (λ mf' _, Good mf mf').
Proof.
  intros Hn. unfold _find_and_load_unlocked.
  destruct (String.eqb (PyStr.rpartition_head name) "").
  { by apply find_load_bind_good. }
  set (parent := PyStr.rpartition_head name).
  apply post_bind. intros mf1 r1 [= <- <-].
  apply post_bind.
  assert (sound (match modules mf !! parent with
                 | Some _ => ret tt
                 | None => let! _ := import_ parent in ret tt
                 end)) as Hs.
  { destruct (modules mf !! parent); [apply sound_ret|].
    apply sound_bind; [apply import_sound|]. intros _. apply sound_ret. }
  eapply post_sound; [exact Hs|apply Good_refl|].
  intros mf2 [[]|e] H2 _; [|done].
  apply post_bind. intros mf3 r3 [= <- <-].
  destruct (modules mf2 !! name) eqn:Hn2.
  { intros mf4 r4 [= <- _]. done. }
  apply post_bind. intros mf4 r4 E4. unfold getmodule in E4.
  destruct (modules mf2 !! parent) as [pm|]; injection E4 as <- <-; [|done].
  destruct (mod_path pm) as [path|]; [|by intros mf5 r5 [= <- _]].
  intros mf5 r5 E5.
  pose proof (find_load_bind_good name (Some path) (Some parent) mf2 Hn2 _ _ E5) as H5.
  cbn in H5. eapply Good_trans; done.
Qed.

Lemma sound_find_and_load (name : string) :
  sound (_find_and_load optimized normpath find_spec ia import_ name).
Proof.
  intros mf. unfold _find_and_load.
  apply post_bind. intros mf1 r1 [= <- <-].
  destruct (modules mf !! name) eqn:Hn.
  - intros mf2 r2 [= <- _]. apply Good_refl.
  - by apply find_and_load_unlocked_good.
Qed.

End SoundMachinery.

Lemma sound_gcd_import (optimized : bool) (normpath : string → string)
    (find_spec : string → option (list string) → Res (option ModuleSpec))
    (ia : MFModuleType → string → bool) (fuel : nat) (name : string) :
  sound (_gcd_import optimized normpath find_spec ia fuel name).
Proof.
  revert name. induction fuel as [|fuel IH]; intros name; cbn [_gcd_import].
  - intros mf mf' r E. discriminate E.
  - destruct (String.eqb name ""); [apply sound_raise|].
    by apply sound_find_and_load.
Qed.

Lemma sound_import_as_module (optimized : bool) (normpath : string → string)
    (find_spec : string → option (list string) → Res (option ModuleSpec))
    (ia : MFModuleType → string → bool) (fuel : nat) (name : string) :
  sound (import_as_module optimized normpath find_spec ia fuel name).
Proof.
  unfold import_as_module. apply sound_bind.
  - apply sound_dunder_import. intros n. apply sound_gcd_import.
  - intros _. apply sound_ret.
Qed.

(** ** Cyclic imports *)

Lemma top_level_eqb (n : string) : top_level n → String.eqb n "" = false.
Proof. intros [Hn _]. by apply String.eqb_neq. Qed.

Lemma top_level_rpartition_head (n : string) :
  top_level n → PyStr.rpartition_head n = "".
Proof.
  intros [_ Hd]. unfold PyStr.rpartition_head.
  apply rpartition_None in Hd. by rewrite Hd.
Qed.

Lemma top_level_partition_head (n : string) :
  top_level n → PyStr.partition_head n = n.
Proof.
  intros [_ Hd]. induction n as [|c n IH]; [done|].
  cbn in *. apply orb_false_iff in Hd as [Hc Hd]. rewrite Hc. f_equal. by apply IH.
Qed.

Section Cached.
Variable optimized : bool.
Variable normpath : string → string.
Variable find_spec : string → option (list string) → Res (option ModuleSpec).
Variable ia : MFModuleType → string → bool.

(** A registered name is handed back at once: no finder is asked, no
    code is scanned, the finder is left as it is. *)
Lemma gcd_import_cached (fuel : nat) (n : string) (mf : ModuleFinder) :
  n ≠ "" → is_Some (modules mf !! n) →
  _gcd_import optimized normpath find_spec ia (S fuel) n mf = Some (mf, Ok n).
Proof.
  intros Hn [m Hm]. cbn [_gcd_import].
  rewrite (proj2 (String.eqb_neq n "") Hn).
  unfold _find_and_load, bind, gets. by rewrite Hm.
Qed.

Lemma dunder_import_cached (fuel : nat) (n : string) (mf : ModuleFinder) :
  top_level n → is_Some (modules mf !! n) →
  __import__ ia (_gcd_import optimized normpath find_spec ia (S fuel)) n [] mf = Some (mf, Ok n).
Proof.
  intros Ht Hm. unfold __import__. unfold bind at 1.
  rewrite gcd_import_cached by (done || apply Ht).
  rewrite bool_decide_eq_true_2 by done.
  rewrite (top_level_partition_head n Ht).
  apply gcd_import_cached; [apply Ht|done].
Qed.

Lemma scan_import_cached (fuel : nat) (module n : string) (mf : ModuleFinder) :
  top_level n → is_Some (modules mf !! n) →
  scan_import optimized ia (_gcd_import optimized normpath find_spec ia (S fuel)) module (imp n) mf
    = Some (mf, Ok tt).
Proof.
  intros Ht Hm. unfold scan_import, imp. cbn [split_fromlist imp_fromlist].
  unfold bind at 1. unfold try_import. cbn [imp_level imp_name].
  change (0 <? 0)%Z with false. cbv iota.
  unfold bind at 1, attempt.
  rewrite dunder_import_cached by done.
  unfold ret at 1. unfold bind at 1.
  unfold record_missing_fromlist. unfold bind at 1, getmodule.
  destruct Hm as [m ->].
  destruct (hasattr ia m "__path__"); done.
Qed.

End Cached.

Lemma store_names_loop (module : string) (l : list string) (mf : ModuleFinder) :
  for_each (λ name, update_module module (set_global_names (λ s, s ∪ {[name]}))) l mf
  = Some (set_modules
            (alter (set_global_names (λ s, s ∪ list_to_set l)) module) mf, Ok tt).
Proof.
  revert mf. induction l as [|x l IH]; intros mf.
  - cbn [for_each]. unfold ret. f_equal. f_equal.
    destruct mf as [pr ex ms bad tr]. unfold set_modules. cbn. f_equal.
    symmetry. apply alter_id. intros m _. destruct m. unfold set_global_names. cbn.
    f_equal. by rewrite (right_id_L ∅ (∪)).
  - cbn [for_each]. unfold bind at 1. unfold update_module at 1, modify.
    rewrite IH. f_equal. f_equal. unfold set_modules. cbn. f_equal.
    rewrite alter_alter_eq. apply alter_ext. intros m _.
    unfold set_global_names. cbn. f_equal.
    rewrite ?list_to_set_cons. by rewrite (assoc_L (∪)).
Qed.

Section Typed.
Variable optimized : bool.
Variable normpath : string → string.
Variable ia : MFModuleType → string → bool.
Variable import_ : string → Run string.

(** [exec_module] on a module that passes the assertion of line 182. *)
Lemma exec_module_typed (name : string) (spec : ModuleSpec) (mf : ModuleFinder) :
  (∀ m, modules mf !! name = Some m → mod_typed m = true) →
  exec_module optimized normpath ia import_ name spec mf =
    (let! _ := update_module name reset_fields in
     match get_code spec with
     | NoLoader => raise AttributeError
     | CodeRaises e => raise e
     | NoCode => ret tt
     | GotCode code =>
         let! rules := gets path_replacements in
         let code := if bool_decide (rules = []) then code
                     else _replace_paths_in_code normpath code rules in
         let! _ := update_module name (set_code (Some code)) in
         let! _ := log (EvScanBegin name) in
         let! _ := _scan_code optimized ia import_ name code in
         log (EvScanEnd name)
     end) mf.
Proof.
  intros Ht. unfold exec_module. unfold bind at 1. unfold gets at 1.
  destruct (modules mf !! name) as [m|] eqn:Em.
  - rewrite (Ht m eq_refl). by rewrite andb_false_r.
  - by rewrite andb_false_r.
Qed.

(** With a loader, [_load_unlocked] runs [exec_module]. *)
Lemma run_loader_loader (name : string) (spec : ModuleSpec) :
  has_loader spec = true →
  run_loader optimized normpath ia import_ name spec
  = exec_module optimized normpath ia import_ name spec.
Proof. intros Hl. unfold run_loader. by rewrite Hl. Qed.

(** The module [_load_unlocked] has just registered passes the
    assertion. *)
Lemma registered_typed (name : string) (spec : ModuleSpec) (mf : ModuleFinder) :
  has_loader spec = true →
  ∀ m, modules (log_event (EvRegister name)
                  (set_modules (insert name (module_from_spec name spec)) mf)) !! name
       = Some m → mod_typed m = true.
Proof.
  intros Hl m. cbn [modules set_modules log_event]. rewrite lookup_insert_eq.
  by intros [= <-].
Qed.

End Typed.

Section SingleImport.
Variable optimized : bool.
Variable normpath : string → string.
Variable find_spec : string → option (list string) → Res (option ModuleSpec).
Variable ia : MFModuleType → string → bool.
Variable import_ : string → Run string.

(** [exec_module] for a module whose code binds [stores] and holds the
    one directive [import Y]. *)
Lemma exec_single_import (X Y file : string) (stores : list string)
    (spec : ModuleSpec) (mf st' : ModuleFinder) :
  get_code spec = GotCode (Code file stores [imp Y] []) →
  (∀ m, modules mf !! X = Some m → mod_typed m = true) →
  path_replacements mf = [] →
  scan_import optimized ia import_ X (imp Y)
    (set_modules (alter (set_global_names (λ s, s ∪ list_to_set stores)) X)
       (log_event (EvScanBegin X)
          (set_modules (alter (set_code (Some (Code file stores [imp Y] []))) X)
             (set_modules (alter reset_fields X) mf))))
    = Some (st', Ok tt) →
  exec_module optimized normpath ia import_ X spec mf
    = Some (log_event (EvScanEnd X) st', Ok tt).
Proof.
  intros Hcode Htyped Hpr Hscan. rewrite exec_module_typed by done.
  unfold bind at 1. unfold update_module at 1, modify.
  rewrite Hcode.
  unfold bind at 1. unfold gets. cbn [path_replacements set_modules].
  rewrite Hpr. rewrite bool_decide_eq_true_2 by done.
  unfold bind at 1. unfold update_module at 1, modify.
  unfold bind at 1. unfold log at 1, modify.
  unfold bind at 1. cbn [_scan_code].
  unfold bind at 1. rewrite store_names_loop.
  unfold bind at 1. cbn [for_each]. unfold bind at 1.
  rewrite Hscan. cbn. done.
Qed.

(** Loading a top-level module that is not registered yet. *)
Lemma gcd_import_load (fuel : nat) (name : string) (spec : ModuleSpec)
    (mf st' : ModuleFinder) :
  top_level name →
  modules mf !! name = None →
  find_spec name None = Ok (Some spec) →
  has_loader spec = true →
  exec_module optimized normpath ia (_gcd_import optimized normpath find_spec ia fuel) name spec
    (log_event (EvRegister name)
       (set_modules (insert name (module_from_spec name spec))
          (log_event (EvFind name) mf)))
    = Some (st', Ok tt) →
  is_Some (modules st' !! name) →
  _gcd_import optimized normpath find_spec ia (S fuel) name mf = Some (st', Ok name).
Proof.
  intros Ht Hn Hspec Hl Hexec [m Hm]. cbn [_gcd_import].
  rewrite (top_level_eqb _ Ht).
  unfold _find_and_load. unfold bind at 1, gets. rewrite Hn.
  unfold _find_and_load_unlocked. rewrite (top_level_rpartition_head _ Ht).
  cbn [String.eqb]. unfold find_load_bind.
  unfold bind at 1. unfold _find_spec. unfold bind at 1. unfold log at 1, modify.
  rewrite Hspec. cbn [lift_res]. unfold ret at 1.
  unfold bind at 1. unfold _load_unlocked.
  unfold bind at 1. unfold modify at 1.
  unfold bind at 1. unfold log at 1, modify.
  unfold bind at 1. unfold attempt. rewrite run_loader_loader by done. rewrite Hexec.
  unfold bind at 1. unfold getmodule. rewrite Hm.
  done.
Qed.

End SingleImport.

Section Cycle.
Variable optimized : bool.
Variable normpath : string → string.
Variable find_spec : string → option (list string) → Res (option ModuleSpec).
Variable ia : MFModuleType → string → bool.

(** A directive [import n] for a top-level module that the callback
    loads. *)
Lemma scan_import_load (fuel : nat) (module n : string) (mf st' : ModuleFinder) :
  top_level n →
  _gcd_import optimized normpath find_spec ia (S fuel) n mf = Some (st', Ok n) →
  is_Some (modules st' !! n) →
  scan_import optimized ia (_gcd_import optimized normpath find_spec ia (S fuel)) module (imp n) mf
    = Some (st', Ok tt).
Proof.
  intros Ht Hload Hm. unfold scan_import, imp. cbn [split_fromlist imp_fromlist].
  unfold bind at 1. unfold try_import. cbn [imp_level imp_name].
  change (0 <? 0)%Z with false. cbv iota.
  unfold bind at 1, attempt. unfold __import__. unfold bind at 1.
  rewrite Hload. rewrite bool_decide_eq_true_2 by done.
  rewrite (top_level_partition_head n Ht).
  rewrite gcd_import_cached by (done || apply Ht).
  unfold ret at 1. unfold bind at 1.
  unfold record_missing_fromlist. unfold bind at 1, getmodule.
  destruct Hm as [m ->].
  destruct (hasattr ia m "__path__"); done.
Qed.

Variables a b fa fb : string.
Variables sa sb : list string.
Hypothesis a_top : top_level a.
Hypothesis b_top : top_level b.
Hypothesis a_b : a ≠ b.
Hypothesis find_a : find_spec a None = Ok (Some (source fa sa [imp b])).
Hypothesis find_b : find_spec b None = Ok (Some (source fb sb [imp a])).

Ltac lookup_simpl :=
  cbn [modules set_modules log_event new_finder];
  repeat first
    [ rewrite lookup_alter_eq
    | rewrite lookup_alter_ne by done
    | rewrite lookup_insert_eq
    | rewrite lookup_insert_ne by done
    | rewrite lookup_empty ].

(** The loader of [a] on the freshly registered [a]: the scan of [a]
    loads [b], whose import of [a] finds [a] registered. *)
Lemma cycle_exec (fuel : nat) (ex : list string) (tr0 : list Event) :
  ∃ mf',
    exec_module optimized normpath ia
      (_gcd_import optimized normpath find_spec ia (S (S fuel))) a (source fa sa [imp b])
      (log_event (EvRegister a)
         (set_modules (insert a (module_from_spec a (source fa sa [imp b])))
            (mkFinder [] ex ∅ [] tr0)))
      = Some (mf', Ok tt) ∧
    modules mf' !! a = Some (analysed a (Code fa sa [imp b] [])) ∧
    modules mf' !! b = Some (analysed b (Code fb sb [imp a] [])) ∧
    dom (modules mf') = {[a; b]} ∧
    bad_modules mf' = [] ∧
    excludes mf' = ex ∧
    trace mf' = tr0 ++ [EvRegister a; EvScanBegin a;
                        EvFind b; EvRegister b; EvScanBegin b; EvScanEnd b;
                        EvScanEnd a].
Proof.
  assert (b ≠ a) as b_a by done.
  set (st0 := mkFinder [] ex ∅ [] tr0).
  set (stA0 := log_event (EvRegister a)
                 (set_modules (insert a (module_from_spec a (source fa sa [imp b])))
                    st0)).
  set (stA := set_modules (alter (set_global_names (λ s, s ∪ list_to_set sa)) a)
                (log_event (EvScanBegin a)
                   (set_modules (alter (set_code (Some (Code fa sa [imp b] []))) a)
                      (set_modules (alter reset_fields a) stA0)))).
  set (stB0 := log_event (EvRegister b)
                 (set_modules (insert b (module_from_spec b (source fb sb [imp a])))
                    (log_event (EvFind b) stA))).
  set (stB := set_modules (alter (set_global_names (λ s, s ∪ list_to_set sb)) b)
                (log_event (EvScanBegin b)
                   (set_modules (alter (set_code (Some (Code fb sb [imp a] []))) b)
                      (set_modules (alter reset_fields b) stB0)))).
  assert (is_Some (modules stB !! a)) as HaB.
  { subst stB stB0 stA stA0 st0. lookup_simpl. by eexists. }
  assert (is_Some (modules (log_event (EvScanEnd b) stB) !! b)) as HbB.
  { subst stB stB0. lookup_simpl. by eexists. }
  assert (modules stA !! b = None) as HbA.
  { subst stA stA0 st0. lookup_simpl. done. }
  (* the inner module: its import of [a] finds [a] registered *)
  assert (exec_module optimized normpath ia (_gcd_import optimized normpath find_spec ia (S fuel)) b
            (source fb sb [imp a]) stB0
          = Some (log_event (EvScanEnd b) stB, Ok tt)) as ExecB.
  { apply (exec_single_import _ _ _ _ b a fb sb); [done| |done|].
    - by apply registered_typed.
    - fold stB. by apply scan_import_cached. }
  assert (_gcd_import optimized normpath find_spec ia (S (S fuel)) b stA
          = Some (log_event (EvScanEnd b) stB, Ok b)) as LoadB.
  { by apply (gcd_import_load _ _ _ _ _ _ (source fb sb [imp a])). }
  (* the outer module *)
  exists (log_event (EvScanEnd a) (log_event (EvScanEnd b) stB)).
  split_and!.
  - apply (exec_single_import _ _ _ _ a b fa sa); [done| |done|].
    + by apply registered_typed.
    + fold stA. by apply scan_import_load.
  - subst stB stB0 stA stA0 st0. lookup_simpl.
    unfold set_global_names, set_code, reset_fields, mark_typed, set_star_imports,
      module_from_spec, spec_parent, source, analysed. cbn.
    rewrite (top_level_rpartition_head a a_top).
    f_equal. by rewrite (left_id_L ∅ (∪)).
  - subst stB stB0 stA stA0 st0. lookup_simpl.
    unfold set_global_names, set_code, reset_fields, mark_typed, set_star_imports,
      module_from_spec, spec_parent, source, analysed. cbn.
    rewrite (top_level_rpartition_head b b_top).
    f_equal. by rewrite (left_id_L ∅ (∪)).
  - subst stB stB0 stA stA0 st0. cbn [modules set_modules log_event].
    rewrite !dom_alter_L, dom_insert_L, !dom_alter_L, dom_insert_L, dom_empty_L.
    set_solver.
  - done.
  - done.
  - cbn. by rewrite <- !app_assoc.
Qed.

Lemma cycle_run (fuel : nat) (ex : list string) :
  ∃ mf',
    import_as_module optimized normpath find_spec ia (S (S (S fuel))) a (new_finder [] ex)
      = Some (mf', Ok tt) ∧
    modules mf' !! a = Some (analysed a (Code fa sa [imp b] [])) ∧
    modules mf' !! b = Some (analysed b (Code fb sb [imp a] [])) ∧
    dom (modules mf') = {[a; b]} ∧
    bad_modules mf' = [] ∧
    trace mf' = [EvFind a; EvRegister a; EvScanBegin a;
                 EvFind b; EvRegister b; EvScanBegin b; EvScanEnd b;
                 EvScanEnd a].
Proof.
  destruct (cycle_exec fuel ex [EvFind a]) as (mf' & Ex & Ha & Hb & Hd & Hbad & _ & Ht).
  assert (_gcd_import optimized normpath find_spec ia (S (S (S fuel))) a (new_finder [] ex)
          = Some (mf', Ok a)) as LoadA.
  { apply (gcd_import_load _ _ _ _ _ _ (source fa sa [imp b])); [done|done|done|done| |].
    - exact Ex.
    - rewrite Ha. by eexists. }
  exists mf'. split_and!; [|done..].
  unfold import_as_module. unfold bind at 1. unfold __import__. unfold bind at 1.
  rewrite LoadA. rewrite bool_decide_eq_true_2 by done.
  rewrite (top_level_partition_head a a_top).
  rewrite gcd_import_cached; [done|apply a_top|]. rewrite Ha. by eexists.
Qed.

(** The same two modules, entered through [_import_from_file] with
    asserts compiled out. *)
Lemma cycle_from_file (fuel : nat) (ex : list string) :
  optimized = true →
  ∃ mf',
    _import_from_file optimized normpath find_spec ia (S (S fuel)) a
      (Some (source fa sa [imp b])) (new_finder [] ex) = Some (mf', Ok tt) ∧
    modules mf' !! a = Some (analysed a (Code fa sa [imp b] [])) ∧
    modules mf' !! b = Some (analysed b (Code fb sb [imp a] [])) ∧
    dom (modules mf') = {[a; b]} ∧
    bad_modules mf' = [] ∧
    trace mf' = [EvRegister a; EvScanBegin a;
                 EvFind b; EvRegister b; EvScanBegin b; EvScanEnd b;
                 EvScanEnd a].
Proof.
  intros Hopt.
  destruct (cycle_exec fuel ex []) as (mf' & Ex & Ha & Hb & Hd & Hbad & _ & Ht).
  exists mf'. split_and!; [|done..].
  assert (negb optimized = false) as Hn by (by rewrite Hopt).
  unfold _import_from_file. rewrite Hn.
  unfold bind at 1. unfold modify at 1.
  unfold bind at 1. unfold log at 1, modify.
  exact Ex.
Qed.

End Cycle.

Lemma sound_import_from_file (optimized : bool) (normpath : string → string)
    (find_spec : string → option (list string) → Res (option ModuleSpec))
    (ia : MFModuleType → string → bool) (fuel : nat)
    (name : string) (spec : option ModuleSpec) :
  sound (_import_from_file optimized normpath find_spec ia fuel name spec).
Proof.
  intros mf. unfold _import_from_file.
  destruct spec as [spec|]; [|apply sound_raise].
  destruct (negb optimized); [apply sound_raise|].
  apply post_bind. intros mf1 r1 [= <- <-].
  apply post_bind. intros mf2 r2 [= <- <-].
  destruct (has_loader spec).
  - intros mf3 r3 E3.
    eapply Good_trans; [apply Good_register|].
    eapply exec_module_good; [| |exact E3].
    + intros n. apply sound_gcd_import.
    + cbn. rewrite dom_insert_L. set_solver.
  - intros mf3 r3 [= <- _]. apply Good_register.
Qed.

Example cycle_sample :
  run_test world_cycle "a" = Some (["a"; "b"], ([], [])).
Proof. vm_compute. reflexivity. Qed.

(** ** The exclude list *)

(** C5: the engine does not consult [excludes].  With [b] excluded and
    [a] importing [b], the finders are asked for [b], [b] is loaded and
    registered, and nothing is filed in the failure record.  The
    classifier, for its part, leaves every excluded name out of both
    lists. *)
Theorem excludes_not_consulted :
  (∀ optimized : bool,
     match import_as_module optimized Posix.normpath (table_finder world_excluded)
             no_intrinsic_attr 5 "a" (new_finder [] ["b"]) with
     | Some (mf, Ok _) =>
         excludes mf = ["b"] ∧
         EvFind "b" ∈ trace mf ∧
         is_Some (modules mf !! "b") ∧
         bad_modules mf = []
     | _ => False
     end) ∧
  (∀ (mf : ModuleFinder) (n : string),
     n ∈ excludes mf →
     (n ∉ (any_missing_maybe mf).1) ∧ (n ∉ (any_missing_maybe mf).2)).
Proof.
  split.
  - intros []; vm_compute; (split_and!; [reflexivity| |by eexists|reflexivity]);
      apply list_elem_of_In; cbn; tauto.
  - intros mf n Hn.
    assert (verdict mf n = VSkip) as Hv.
    { unfold verdict. by rewrite bool_decide_eq_true_2. }
    rewrite elem_of_missing, elem_of_maybe, Hv. split; intros [? _]; discriminate.
Qed.

(** ** More fuel changes nothing *)

Lemma refines_refl {A} (c : Run A) : refines c c.
Proof. by intros mf r. Qed.

Lemma refines_bind {A B} (c1 c2 : Run A) (k1 k2 : A → Run B) :
  refines c1 c2 → (∀ a, refines (k1 a) (k2 a)) →
  refines (bind c1 k1) (bind c2 k2).
Proof.
  intros Hc Hk mf r. unfold bind.
  destruct (c1 mf) as [[mf1 [a|e]]|] eqn:E; [| |done];
    rewrite (Hc _ _ E); [apply Hk|done].
Qed.

Lemma refines_attempt {A} (c1 c2 : Run A) :
  refines c1 c2 → refines (attempt c1) (attempt c2).
Proof.
  intros Hc mf r. unfold attempt.
  destruct (c1 mf) as [[mf1 r1]|] eqn:E; [|done]. by rewrite (Hc _ _ E).
Qed.

Lemma refines_for_each {A} (b1 b2 : A → Run unit) (l : list A) :
  (∀ x, refines (b1 x) (b2 x)) → refines (for_each b1 l) (for_each b2 l).
Proof.
  intros Hb. induction l as [|x l IH]; cbn [for_each]; [apply refines_refl|].
  apply refines_bind; [apply Hb|]. by intros _.
Qed.

Section Refinement.
Variable optimized : bool.
Variable normpath : string → string.
Variable find_spec : string → option (list string) → Res (option ModuleSpec).
Variable ia : MFModuleType → string → bool.
Variables i1 i2 : string → Run string.
Hypothesis i1_i2 : ∀ n, refines (i1 n) (i2 n).

Lemma refines_handle_fromlist (module : string) (fromlist : list string) :
  refines (_handle_fromlist ia i1 module fromlist)
          (_handle_fromlist ia i2 module fromlist).
Proof.
  unfold _handle_fromlist.
  apply refines_bind; [|intros _; apply refines_refl].
  apply refines_for_each. intros x.
  destruct (String.eqb x "*"); [apply refines_refl|].
  apply refines_bind; [apply refines_refl|]. intros m.
  destruct (hasattr ia m x); [apply refines_refl|].
  apply refines_bind; [apply refines_attempt, i1_i2|].
  intros r. apply refines_refl.
Qed.

Lemma refines_dunder_import (name : string) (fromlist : list string) :
  refines (__import__ ia i1 name fromlist) (__import__ ia i2 name fromlist).
Proof.
  unfold __import__.
  apply refines_bind; [apply i1_i2|]. intros module.
  case_bool_decide; [apply i1_i2|].
  apply refines_bind; [apply refines_refl|]. intros m.
  destruct (hasattr ia m "__path__");
    [apply refines_handle_fromlist|apply refines_refl].
Qed.

Lemma refines_try_import (module : string) (d : ImportDirective)
    (fromlist : list string) :
  refines (try_import ia i1 module d fromlist) (try_import ia i2 module d fromlist).
Proof.
  unfold try_import.
  destruct (0 <? imp_level d)%Z.
  - apply refines_bind; [apply refines_refl|]. intros m.
    destruct (resolve_relative m (imp_name d) (imp_level d)); [|apply refines_refl].
    apply refines_bind; [apply refines_attempt, refines_dunder_import|].
    intros r. apply refines_refl.
  - destruct (imp_level d <? 0)%Z; [apply refines_refl|].
    apply refines_bind; [apply refines_attempt, refines_dunder_import|].
    intros r. apply refines_refl.
Qed.

Lemma refines_scan_import (module : string) (d : ImportDirective) :
  refines (scan_import optimized ia i1 module d) (scan_import optimized ia i2 module d).
Proof.
  rewrite !scan_import_unfold.
  apply refines_bind; [apply refines_try_import|]. intros [name outcome].
  apply refines_refl.
Qed.

Lemma refines_scan_code (module : string) (code : CodeType) :
  refines (_scan_code optimized ia i1 module code) (_scan_code optimized ia i2 module code).
Proof.
  induction code as [f s i ks IH] using CodeType_nested_ind.
  cbn [_scan_code].
  apply refines_bind; [apply refines_refl|]. intros _.
  apply refines_bind; [apply refines_for_each; intros x; apply refines_scan_import|].
  intros _. induction IH as [|k ks Hk _ IHks]; [apply refines_refl|].
  destruct k as [|c]; [exact IHks|].
  apply refines_bind; [exact Hk|]. intros _. exact IHks.
Qed.

Lemma refines_exec_module (name : string) (spec : ModuleSpec) :
  refines (exec_module optimized normpath ia i1 name spec)
          (exec_module optimized normpath ia i2 name spec).
Proof.
  unfold exec_module.
  apply refines_bind; [apply refines_refl|]. intros mods.
  destruct (negb optimized && _); [apply refines_refl|].
  apply refines_bind; [apply refines_refl|]. intros _.
  destruct (get_code spec); try apply refines_refl.
  apply refines_bind; [apply refines_refl|]. intros rules.
  apply refines_bind; [apply refines_refl|]. intros _.
  apply refines_bind; [apply refines_refl|]. intros _.
  apply refines_bind; [apply refines_scan_code|]. intros _. apply refines_refl.
Qed.

Lemma refines_run_loader (name : string) (spec : ModuleSpec) :
  refines (run_loader optimized normpath ia i1 name spec)
          (run_loader optimized normpath ia i2 name spec).
Proof.
  unfold run_loader.
  destruct (has_loader spec); [apply refines_exec_module|apply refines_refl].
Qed.

Lemma refines_load_unlocked (name : string) (spec : ModuleSpec) :
  refines (_load_unlocked optimized normpath ia i1 name spec)
          (_load_unlocked optimized normpath ia i2 name spec).
Proof.
  unfold _load_unlocked.
  apply refines_bind; [apply refines_refl|]. intros _.
  apply refines_bind; [apply refines_refl|]. intros _.
  apply refines_bind; [apply refines_attempt, refines_run_loader|].
  intros r. apply refines_refl.
Qed.

Lemma refines_find_load_bind (name : string) (path : option (list string))
    (parent : option string) :
  refines (find_load_bind optimized normpath find_spec ia i1 name path parent)
          (find_load_bind optimized normpath find_spec ia i2 name path parent).
Proof.
  unfold find_load_bind.
  apply refines_bind; [apply refines_refl|]. intros [spec|]; [|apply refines_refl].
  apply refines_bind; [apply refines_load_unlocked|]. intros m. apply refines_refl.
Qed.

Lemma refines_find_and_load_unlocked (name : string) :
  refines (_find_and_load_unlocked optimized normpath find_spec ia i1 name)
          (_find_and_load_unlocked optimized normpath find_spec ia i2 name).
Proof.
  unfold _find_and_load_unlocked.
  destruct (String.eqb _ ""); [apply refines_find_load_bind|].
  apply refines_bind; [apply refines_refl|]. intros mods.
  apply refines_bind.
  { destruct (mods !! _); [apply refines_refl|].
    apply refines_bind; [apply i1_i2|]. intros _. apply refines_refl. }
  intros _. apply refines_bind; [apply refines_refl|]. intros mods'.
  destruct (mods' !! name); [apply refines_refl|].
  apply refines_bind; [apply refines_refl|]. intros pm.
  destruct (mod_path pm); [apply refines_find_load_bind|apply refines_refl].
Qed.

Lemma refines_find_and_load (name : string) :
  refines (_find_and_load optimized normpath find_spec ia i1 name)
          (_find_and_load optimized normpath find_spec ia i2 name).
Proof.
  unfold _find_and_load.
  apply refines_bind; [apply refines_refl|]. intros mods.
  destruct (mods !! name); [apply refines_refl|apply refines_find_and_load_unlocked].
Qed.

End Refinement.

Lemma gcd_import_step_mono (optimized : bool) (normpath : string → string)
    (find_spec : string → option (list string) → Res (option ModuleSpec))
    (ia : MFModuleType → string → bool) (f : nat) (name : string) :
  refines (_gcd_import optimized normpath find_spec ia f name)
          (_gcd_import optimized normpath find_spec ia (S f) name).
Proof.
  revert name. induction f as [|f IH]; intros name.
  - intros mf r E. discriminate E.
  - cbn [_gcd_import]. destruct (String.eqb name ""); [apply refines_refl|].
    by apply refines_find_and_load.
Qed.

Lemma gcd_import_mono (optimized : bool) (normpath : string → string)
    (find_spec : string → option (list string) → Res (option ModuleSpec))
    (ia : MFModuleType → string → bool) (name : string) :
  fuel_mono (λ f, _gcd_import optimized normpath find_spec ia f name).
Proof.
  intros f f' Hle. induction Hle as [|f' _ IH]; [apply refines_refl|].
  intros mf r E. by apply gcd_import_step_mono, IH.
Qed.

(** ** Termination on a finite file tree *)

Lemma sound_grows {A} (c : Run A) : sound c → grows c.
Proof. intros Hc mf mf' r E. by destruct (Hc _ _ _ E). Qed.

Lemma budget_grows (world : gset string) (mf mf' : ModuleFinder) :
  Grows mf mf' → (budget world mf' ≤ budget world mf)%nat.
Proof.
  unfold Grows, budget. intros Hg. apply subseteq_size. set_solver.
Qed.

Section Nice.
Variable world : gset string.
Variable k : nat.

Lemma nice_const {A} (c : Run A) : total c → grows c → nice world k (λ _, c).
Proof.
  intros Ht Hg. split_and!.
  - intros f f' _. apply refines_refl.
  - by intros _.
  - intros mf _. exists 0. apply Ht.
Qed.

Lemma nice_ret {A} (a : A) : nice world k (λ _, ret a).
Proof.
  apply nice_const; [intros mf; by eexists|apply sound_grows, sound_ret].
Qed.

Lemma nice_raise {A} (e : Exc) : nice world k (λ _, @raise A e).
Proof.
  apply nice_const; [intros mf; by eexists|apply sound_grows, sound_raise].
Qed.

Lemma nice_gets {A} (g : ModuleFinder → A) : nice world k (λ _, gets g).
Proof.
  apply nice_const; [intros mf; by eexists|apply sound_grows, sound_gets].
Qed.

Lemma nice_getmodule (n : string) : nice world k (λ _, getmodule n).
Proof.
  apply nice_const; [|apply sound_grows, sound_getmodule].
  intros mf. unfold getmodule. destruct (modules mf !! n); by eexists.
Qed.

Lemma nice_update_module (n : string) (g : MFModuleType → MFModuleType) :
  nice world k (λ _, update_module n g).
Proof.
  apply nice_const; [intros mf; by eexists|apply sound_grows, sound_update_module].
Qed.

Lemma nice_add_bad_module (n importer : string) :
  nice world k (λ _, add_bad_module n importer).
Proof.
  apply nice_const; [intros mf; by eexists|apply sound_grows, sound_add_bad_module].
Qed.

Lemma nice_log (ev : Event) : nice world k (λ _, log ev).
Proof.
  apply nice_const; [intros mf; by eexists|].
  intros mf mf' r [= <- _]. unfold Grows. cbn. reflexivity.
Qed.

Lemma nice_star_import (optimized : bool) (module name : string) :
  nice world k (λ _, star_import optimized module name).
Proof.
  apply nice_const; [|apply sound_grows, sound_star_import].
  intros mf. destruct (star_import_run optimized module name mf) as (mf' & E & _).
  by eexists.
Qed.

Lemma nice_bind {A B} (c : nat → Run A) (κ : A → nat → Run B) :
  nice world k c → (∀ a, nice world k (κ a)) →
  nice world k (λ f, bind (c f) (λ a, κ a f)).
Proof.
  intros (Hm & Hg & Hh) Hκ. split_and!.
  - intros f f' Hle. apply refines_bind; [by apply Hm|].
    intros a. by apply (Hκ a).
  - intros f mf mf' r. unfold bind.
    destruct (c f mf) as [[mf1 [a|e]]|] eqn:E; [| |done].
    + intros E2. pose proof (Hg _ _ _ _ E) as G1.
      destruct (Hκ a) as (_ & Hga & _). pose proof (Hga _ _ _ _ E2) as G2.
      unfold Grows in *. set_solver.
    + intros [= <- _]. by apply (Hg _ _ _ _ E).
  - intros mf Hb. destruct (Hh mf Hb) as (f1 & [mf1 r1] & E1).
    destruct r1 as [a|e].
    + destruct (Hκ a) as (Hma & _ & Hha).
      assert (budget world mf1 ≤ k)%nat as Hb1.
      { pose proof (budget_grows world _ _ (Hg _ _ _ _ E1)). lia. }
      destruct (Hha mf1 Hb1) as (f2 & r2 & E2).
      exists (f1 `max` f2), r2. unfold bind.
      rewrite (Hm f1 (f1 `max` f2) ltac:(lia) _ _ E1).
      apply (Hma f2 (f1 `max` f2) ltac:(lia) _ _ E2).
    + exists f1. eexists. unfold bind. by rewrite E1.
Qed.

Lemma nice_attempt {A} (c : nat → Run A) :
  nice world k c → nice world k (λ f, attempt (c f)).
Proof.
  intros (Hm & Hg & Hh). split_and!.
  - intros f f' Hle. apply refines_attempt. by apply Hm.
  - intros f mf mf' r. unfold attempt.
    destruct (c f mf) as [[mf1 r1]|] eqn:E; [|done].
    intros [= <- _]. by apply (Hg _ _ _ _ E).
  - intros mf Hb. destruct (Hh mf Hb) as (f1 & [mf1 r1] & E1).
    exists f1. eexists. unfold attempt. by rewrite E1.
Qed.

Lemma nice_for_each {A} (body : A → nat → Run unit) (l : list A) :
  (∀ x, nice world k (body x)) →
  nice world k (λ f, for_each (λ x, body x f) l).
Proof.
  intros Hb. induction l as [|x l IH]; cbn [for_each].
  - apply nice_ret.
  - apply (nice_bind (body x) (λ _ f, for_each (λ x, body x f) l)); [apply Hb|].
    by intros _.
Qed.

End Nice.

Section NiceScan.
Variable world : gset string.
Variable k : nat.
Variable optimized : bool.
Variable ia : MFModuleType → string → bool.
Variable imp_ : nat → string → Run string.
Hypothesis imp_nice : ∀ n, nice world k (λ f, imp_ f n).

(** Splits a family at its first [bind]. *)
Ltac nice_step := refine (nice_bind world k _ _ _ _).

Lemma nice_handle_fromlist (module : string) (fromlist : list string) :
  nice world k (λ f, _handle_fromlist ia (imp_ f) module fromlist).
Proof.
  unfold _handle_fromlist. nice_step; [|intros _; apply nice_ret].
  refine (nice_for_each world k _ _ _). intros x.
  destruct (String.eqb x "*"); [apply nice_ret|].
  nice_step; [apply nice_getmodule|]. intros m.
  destruct (hasattr ia m x); [apply nice_ret|].
  nice_step; [apply nice_attempt, imp_nice|].
  intros [key|e]; [apply nice_ret|].
  destruct e; try apply nice_raise.
  destruct (String.eqb _ _); [apply nice_ret|apply nice_raise].
Qed.

Lemma nice_dunder_import (name : string) (fromlist : list string) :
  nice world k (λ f, __import__ ia (imp_ f) name fromlist).
Proof.
  unfold __import__. nice_step; [apply imp_nice|]. intros module.
  case_bool_decide; [apply imp_nice|].
  nice_step; [apply nice_getmodule|]. intros m.
  destruct (hasattr ia m "__path__"); [apply nice_handle_fromlist|apply nice_ret].
Qed.

Lemma nice_try_import (module : string) (d : ImportDirective) (fromlist : list string) :
  nice world k (λ f, try_import ia (imp_ f) module d fromlist).
Proof.
  unfold try_import.
  destruct (0 <? imp_level d)%Z.
  - nice_step; [apply nice_getmodule|]. intros m.
    destruct (resolve_relative m (imp_name d) (imp_level d)); [|apply nice_ret].
    nice_step; [apply nice_attempt, nice_dunder_import|].
    intros r. apply nice_ret.
  - destruct (imp_level d <? 0)%Z; [apply nice_ret|].
    nice_step; [apply nice_attempt, nice_dunder_import|].
    intros r. apply nice_ret.
Qed.

Lemma nice_record_missing_fromlist (module name result : string)
    (fromlist : list string) :
  nice world k (λ _ : nat, record_missing_fromlist ia module name result fromlist).
Proof.
  unfold record_missing_fromlist.
  nice_step; [apply nice_getmodule|]. intros rm.
  destruct (hasattr ia rm "__path__"); [|apply nice_ret].
  refine (nice_for_each world k _ _ _). intros x.
  nice_step; [apply nice_getmodule|]. intros rm'.
  destruct (hasattr ia rm' x); [apply nice_ret|apply nice_add_bad_module].
Qed.

Lemma nice_scan_import (module : string) (d : ImportDirective) :
  nice world k (λ f, scan_import optimized ia (imp_ f) module d).
Proof.
  assert (∀ (c c' : nat → Run unit), (∀ f, c f = c' f) →
            nice world k c' → nice world k c) as Hext.
  { intros c c' Heq (Hm & Hg & Hh). split_and!.
    - intros f f' Hle mf r. rewrite !Heq. by apply Hm.
    - intros f. rewrite Heq. apply Hg.
    - intros mf Hb. destruct (Hh mf Hb) as (f & r & E). exists f, r. by rewrite Heq. }
  eapply Hext; [intros f; apply scan_import_unfold|]. cbv beta.
  nice_step; [apply nice_try_import|]. intros [name outcome].
  nice_step.
  - destruct outcome as [result|e]; [apply nice_record_missing_fromlist|].
    destruct (caught_by_scan e); [apply nice_add_bad_module|apply nice_raise].
  - intros _. destruct (split_fromlist (imp_fromlist d)).1;
      [apply nice_star_import|apply nice_ret].
Qed.

Lemma nice_scan_code (module : string) (code : CodeType) :
  nice world k (λ f, _scan_code optimized ia (imp_ f) module code).
Proof.
  induction code as [file s i ks IH] using CodeType_nested_ind.
  cbn [_scan_code].
  nice_step.
  { refine (nice_for_each world k _ _ _). intros x. apply nice_update_module. }
  intros _. nice_step.
  { refine (nice_for_each world k _ _ _). intros x. apply nice_scan_import. }
  intros _. induction IH as [|c ks Hc _ IHks]; [apply nice_ret|].
  destruct c as [|c]; [exact IHks|].
  nice_step; [exact Hc|]. intros _. exact IHks.
Qed.

Lemma nice_exec_module (normpath : string → string) (name : string)
    (spec : ModuleSpec) :
  nice world k (λ f, exec_module optimized normpath ia (imp_ f) name spec).
Proof.
  unfold exec_module.
  nice_step; [apply nice_gets|]. intros mods.
  destruct (negb optimized && _); [apply nice_raise|].
  nice_step; [apply nice_update_module|]. intros _.
  destruct (get_code spec); [|apply nice_ret|apply nice_raise|apply nice_raise].
  nice_step; [apply nice_gets|]. intros rules.
  nice_step; [apply nice_update_module|]. intros _.
  nice_step; [apply nice_log|]. intros _.
  nice_step; [apply nice_scan_code|]. intros _. apply nice_log.
Qed.

Lemma nice_run_loader (normpath : string → string) (name : string)
    (spec : ModuleSpec) :
  nice world k (λ f, run_loader optimized normpath ia (imp_ f) name spec).
Proof.
  unfold run_loader.
  destruct (has_loader spec); [apply nice_exec_module|].
  destruct (submodule_search_locations spec); [apply nice_ret|apply nice_raise].
Qed.

End NiceScan.

Lemma length_append (s t : string) :
  String.length (s +:+ t) = (String.length s + String.length t)%nat.
Proof.
  induction s as [|c s IH]; [done|]. rewrite append_cons. cbn. by rewrite IH.
Qed.

Lemma rpartition_head_shorter (n : string) :
  PyStr.rpartition_head n ≠ "" →
  (String.length (PyStr.rpartition_head n) < String.length n)%nat.
Proof.
  unfold PyStr.rpartition_head.
  destruct (PyStr.rpartition n) as [[h t]|] eqn:E; [|done].
  intros _. apply rpartition_Some in E as [-> _].
  rewrite !length_append. cbn. lia.
Qed.

Section Termination.
Variable optimized : bool.
Variable normpath : string → string.
Variable find_spec : string → option (list string) → Res (option ModuleSpec).
Variable ia : MFModuleType → string → bool.
Variable world : gset string.
Hypothesis find_in_world :
  ∀ n path spec, find_spec n path = Ok (Some spec) → n ∈ world.

Abbreviation gcd := (_gcd_import optimized normpath find_spec ia).

Lemma budget_register (n : string) (m : MFModuleType) (mf : ModuleFinder) :
  n ∈ world → modules mf !! n = None →
  (budget world
     (log_event (EvRegister n) (set_modules (insert n m) (log_event (EvFind n) mf)))
   < budget world mf)%nat.
Proof.
  intros Hw Hn. apply not_elem_of_dom in Hn. unfold budget. cbn.
  rewrite dom_insert_L. apply subset_size. set_solver.
Qed.

(** Finding, loading and binding a module that is not registered ends,
    once imports end from every finder with a smaller budget. *)
Lemma find_load_bind_halts (k : nat) (n : string) (path : option (list string))
    (parent : option string) (mf : ModuleFinder) :
  (∀ k', (k' < k)%nat → ∀ n', nice world k' (λ f, gcd f n')) →
  modules mf !! n = None →
  (budget world mf ≤ k)%nat →
  halts (λ f, find_load_bind optimized normpath find_spec ia (gcd f) n path parent) mf.
Proof.
  intros IH Hn Hb. unfold halts, find_load_bind, _find_spec.
  destruct (find_spec n path) as [[spec|]|e] eqn:Hspec; cbn [lift_res].
  - pose proof (find_in_world _ _ _ Hspec) as Hw.
    set (mfr := log_event (EvRegister n)
                  (set_modules (insert n (module_from_spec n spec))
                     (log_event (EvFind n) mf))).
    pose proof (budget_register n (module_from_spec n spec) mf Hw Hn) as Hlt.
    fold mfr in Hlt.
    destruct k as [|k]; [lia|].
    assert (nice world k (λ f, run_loader optimized normpath ia (gcd f) n spec)) as (_ & _ & Hh).
    { apply nice_run_loader. intros n'. apply IH. lia. }
    destruct (Hh mfr ltac:(lia)) as (f & [mfe re] & Ee).
    exists f. unfold bind at 1. unfold bind at 1. unfold log at 1, modify.
    unfold ret at 1.
    unfold bind at 1. unfold _load_unlocked.
    unfold bind at 1. unfold modify at 1.
    unfold bind at 1. unfold log at 1, modify.
    unfold bind at 1. unfold attempt. fold mfr. rewrite Ee.
    destruct re as [[]|e].
    + unfold bind at 1. unfold getmodule at 1.
      destruct (modules mfe !! n) as [m|]; [|by eexists].
      unfold ret at 1. unfold bind at 1.
      destruct parent as [p|]; [|by eexists].
      unfold bind at 1. unfold getmodule at 1.
      destruct (modules mfe !! p); by eexists.
    + by eexists.
  - exists 0. unfold bind at 1. unfold bind at 1. unfold log at 1, modify.
    unfold ret at 1. by eexists.
  - exists 0. unfold bind at 1. unfold bind at 1. unfold log at 1, modify.
    unfold raise at 1. by eexists.
Qed.

Lemma gcd_import_halts (k : nat) :
  ∀ n, halts_within world k (λ f, gcd f n).
Proof.
  induction k as [k IHk] using lt_wf_ind.
  assert (∀ k', (k' < k)%nat → ∀ n', nice world k' (λ f, gcd f n')) as IHnice.
  { intros k' Hk' n'. split_and!.
    - apply gcd_import_mono.
    - intros f. apply sound_grows, sound_gcd_import.
    - by apply IHk. }
  intros n. remember (String.length n) as len eqn:Hlen.
  revert n Hlen. induction len as [len IHlen] using lt_wf_ind. intros n -> mf Hb.
  destruct (String.eqb_spec n "") as [->|Hne].
  { exists 1. by eexists. }
  assert (∀ f, gcd (S f) n mf
               = _find_and_load optimized normpath find_spec ia (gcd f) n mf) as Hstep.
  { intros f. cbn [_gcd_import]. by rewrite (proj2 (String.eqb_neq n "") Hne). }
  destruct (modules mf !! n) as [m|] eqn:Hm.
  { exists 1. rewrite Hstep. unfold _find_and_load, bind, gets. rewrite Hm. by eexists. }
  assert (∀ f, gcd (S f) n mf
               = _find_and_load_unlocked optimized normpath find_spec ia (gcd f) n mf) as Hstep'.
  { intros f. rewrite Hstep. unfold _find_and_load, bind, gets. by rewrite Hm. }
  unfold _find_and_load_unlocked in Hstep'.
  destruct (String.eqb_spec (PyStr.rpartition_head n) "") as [Hp|Hp].
  { destruct (find_load_bind_halts k n None None mf IHnice Hm Hb) as (f & r & E).
    exists (S f), r. by rewrite Hstep'. }
  set (parent := PyStr.rpartition_head n) in *.
  (* the parent first *)
  assert (∃ f1 mf1,
            (budget world mf1 ≤ k)%nat ∧
            ((∃ e, ∀ f, (f1 ≤ f)%nat →
                   (let! _ := match modules mf !! parent with
                              | Some _ => ret tt
                              | None => let! _ := gcd f parent in ret tt
                              end in ret tt) mf = Some (mf1, Raise e)) ∨
             (∀ f, (f1 ≤ f)%nat →
                   match modules mf !! parent with
                   | Some _ => ret tt
                   | None => let! _ := gcd f parent in ret tt
                   end mf = Some (mf1, Ok tt))))
    as (f1 & mf1 & Hb1 & Hpar).
  { destruct (modules mf !! parent) as [pm|] eqn:Hpm.
    - exists 0, mf. split; [done|]. right. by intros f _.
    - assert (String.length parent < String.length n)%nat as Hshort
        by by apply rpartition_head_shorter.
      destruct (IHlen _ Hshort parent eq_refl mf Hb) as (f1 & [mf1 r1] & E1).
      exists f1, mf1. split.
      { pose proof (sound_gcd_import optimized normpath find_spec ia f1 parent _ _ _ E1) as [_ G].
        pose proof (budget_grows world _ _ G). lia. }
      destruct r1 as [key|e].
      + right. intros f Hf. unfold bind.
        by rewrite (gcd_import_mono optimized normpath find_spec ia parent f1 f Hf _ _ E1).
      + left. exists e. intros f Hf. unfold bind.
        by rewrite (gcd_import_mono optimized normpath find_spec ia parent f1 f Hf _ _ E1). }
  destruct Hpar as [[e Hraise]|Hok].
  { exists (S f1). eexists. rewrite Hstep'. unfold bind at 1. unfold gets at 1.
    unfold bind at 1.
    specialize (Hraise f1 ltac:(lia)). unfold bind at 1 in Hraise.
    destruct (match modules mf !! parent with
              | Some _ => ret tt
              | None => let! _ := gcd f1 parent in ret tt
              end mf) as [[mfa [[]|ea]]|]; [done| |done].
    injection Hraise as -> ->. done. }
  destruct (modules mf1 !! n) as [m1|] eqn:Hm1.
  { exists (S f1). eexists. rewrite Hstep'. unfold bind at 1. unfold gets at 1.
    unfold bind at 1. rewrite (Hok f1 ltac:(lia)).
    unfold bind at 1. unfold gets at 1. by rewrite Hm1. }
  destruct (modules mf1 !! parent) as [pm|] eqn:Hpm1.
  2:{ exists (S f1). eexists. rewrite Hstep'. unfold bind at 1. unfold gets at 1.
      unfold bind at 1. rewrite (Hok f1 ltac:(lia)).
      unfold bind at 1. unfold gets at 1. rewrite Hm1.
      unfold bind at 1. unfold getmodule. by rewrite Hpm1. }
  destruct (mod_path pm) as [path|] eqn:Hpath.
  2:{ exists (S f1). eexists. rewrite Hstep'. unfold bind at 1. unfold gets at 1.
      unfold bind at 1. rewrite (Hok f1 ltac:(lia)).
      unfold bind at 1. unfold gets at 1. rewrite Hm1.
      unfold bind at 1. unfold getmodule. rewrite Hpm1. by rewrite Hpath. }
  destruct (find_load_bind_halts k n (Some path) (Some parent) mf1 IHnice Hm1 Hb1)
    as (f2 & r2 & E2).
  exists (S (f1 `max` f2)), r2. rewrite Hstep'.
  unfold bind at 1. unfold gets at 1.
  unfold bind at 1. rewrite (Hok (f1 `max` f2) ltac:(lia)).
  unfold bind at 1. unfold gets at 1. rewrite Hm1.
  unfold bind at 1. unfold getmodule. rewrite Hpm1, Hpath.
  eapply (refines_find_load_bind optimized normpath find_spec ia (gcd f2)); [|exact E2].
  intros n'. apply gcd_import_mono. lia.
Qed.

End Termination.

(** On a finite file tree every import ends: some amount of fuel gives
    a result, and every larger amount gives the same one. *)
Lemma import_as_module_halts (optimized : bool) (normpath : string → string)
    (find_spec : string → option (list string) → Res (option ModuleSpec))
    (ia : MFModuleType → string → bool) (world : gset string)
    (name : string) (mf : ModuleFinder) :
  (∀ n path spec, find_spec n path = Ok (Some spec) → n ∈ world) →
  ∃ fuel mf' r, ∀ fuel', (fuel ≤ fuel')%nat →
    import_as_module optimized normpath find_spec ia fuel' name mf = Some (mf', r).
Proof.
  intros Hw.
  assert (nice world (budget world mf)
            (λ f, import_as_module optimized normpath find_spec ia f name)) as (Hm & _ & Hh).
  { unfold import_as_module.
    refine (nice_bind world _ _ _ _ _); [|intros _; apply nice_ret].
    apply nice_dunder_import. intros n. split_and!.
    - apply gcd_import_mono.
    - intros f. apply sound_grows, sound_gcd_import.
    - by apply gcd_import_halts. }
  destruct (Hh mf ltac:(done)) as (fuel & [mf' r] & E).
  exists fuel, mf', r. intros fuel' Hle. by apply (Hm fuel fuel' Hle).
Qed.

(** The same for [_import_from_file]. *)
Lemma import_from_file_halts (optimized : bool) (normpath : string → string)
    (find_spec : string → option (list string) → Res (option ModuleSpec))
    (ia : MFModuleType → string → bool) (world : gset string)
    (name : string) (spec : option ModuleSpec) (mf : ModuleFinder) :
  (∀ n path spec, find_spec n path = Ok (Some spec) → n ∈ world) →
  ∃ fuel mf' r, ∀ fuel', (fuel ≤ fuel')%nat →
    _import_from_file optimized normpath find_spec ia fuel' name spec mf = Some (mf', r).
Proof.
  intros Hw. unfold _import_from_file.
  destruct spec as [spec|]; [|by exists 0; eexists _, _].
  destruct (negb optimized); [by exists 0; eexists _, _|].
  unfold bind at 1, modify at 1. unfold bind at 1, log at 1, modify at 1.
  destruct (has_loader spec); [|by exists 0; eexists _, _].
  set (mf2 := log_event (EvRegister name)
                (set_modules (insert name (module_from_spec name spec)) mf)).
  assert (nice world (budget world mf2)
            (λ f, exec_module optimized normpath ia
                    (_gcd_import optimized normpath find_spec ia f) name spec))
    as (Hm & _ & Hh).
  { apply nice_exec_module. intros n. split_and!.
    - apply gcd_import_mono.
    - intros f. apply sound_grows, sound_gcd_import.
    - by apply gcd_import_halts. }
  destruct (Hh mf2 ltac:(done)) as (fuel & [mf' r] & E).
  exists fuel, mf', r. intros fuel' Hle.
  by apply (Hm fuel fuel' Hle).
Qed.

Lemma table_finder_world (table : list (string * ModuleSpec))
    (n : string) (path : option (list string)) (spec : ModuleSpec) :
  table_finder table n path = Ok (Some spec) →
  n ∈ (list_to_set (PyDict.keys table) : gset string).
Proof.
  unfold table_finder. intros E. apply elem_of_list_to_set.
  destruct (decide (n ∈ PyDict.keys table)) as [|Hn]; [done|].
  apply get_None_keys in Hn. congruence.
Qed.

(** ** What every run keeps *)

Lemma module_le_refl (m : MFModuleType) : module_le m m.
Proof. unfold module_le. split_and!; done. Qed.

Lemma module_le_trans (m1 m2 m3 : MFModuleType) :
  module_le m1 m2 → module_le m2 m3 → module_le m1 m3.
Proof.
  intros (? & ? & ? & ? & Hc1 & ? & ?) (? & ? & ? & ? & Hc2 & ? & ?).
  unfold module_le.
  split_and!;
    [congruence|congruence|congruence|set_solver
    |intros c Hc; by apply Hc2, Hc1|set_solver|set_solver].
Qed.

Lemma registry_le_refl (M : gmap string MFModuleType) : registry_le M M.
Proof. intros k m Hm. exists m. split; [done|apply module_le_refl]. Qed.

Lemma registry_le_trans (M1 M2 M3 : gmap string MFModuleType) :
  registry_le M1 M2 → registry_le M2 M3 → registry_le M1 M3.
Proof.
  intros H1 H2 k m Hm. destruct (H1 _ _ Hm) as (m2 & Hm2 & Hle).
  destruct (H2 _ _ Hm2) as (m3 & Hm3 & Hle'). exists m3.
  split; [done|]. by eapply module_le_trans.
Qed.

Lemma bad_le_refl (b : PyDict.t (gset string)) : bad_le b b.
Proof. intros k s Hs. by exists s. Qed.

Lemma bad_le_trans (b1 b2 b3 : PyDict.t (gset string)) :
  bad_le b1 b2 → bad_le b2 b3 → bad_le b1 b3.
Proof.
  intros H1 H2 k s Hs. destruct (H1 _ _ Hs) as (s2 & Hs2 & ?).
  destruct (H2 _ _ Hs2) as (s3 & Hs3 & ?). exists s3. split; [done|set_solver].
Qed.

Lemma Keeps_refl (mf : ModuleFinder) : Keeps mf mf.
Proof.
  unfold Keeps. split_and!; try done.
  - apply registry_le_refl.
  - apply bad_le_refl.
Qed.

Lemma Keeps_trans (mf1 mf2 mf3 : ModuleFinder) :
  Keeps mf1 mf2 → Keeps mf2 mf3 → Keeps mf1 mf3.
Proof.
  intros (? & ? & ? & ? & ? & ? & ?) (? & ? & ? & ? & ? & ? & ?).
  unfold Keeps. split_and!; try congruence; auto.
  - by eapply registry_le_trans.
  - by eapply bad_le_trans.
  - by etrans.
Qed.

Lemma Keeps_alter (f : MFModuleType → MFModuleType) (n : string) (mf : ModuleFinder) :
  (∀ m, modules mf !! n = Some m → module_le m (f m)) →
  Keeps mf (set_modules (alter f n) mf).
Proof.
  intros Hf. unfold Keeps. cbn. split_and!; try done.
  - intros k m Hm. destruct (decide (n = k)) as [->|Hne].
    + exists (f m). rewrite lookup_alter_eq, Hm. split; [done|by apply Hf].
    + exists m. rewrite lookup_alter_ne by done. split; [done|apply module_le_refl].
  - apply bad_le_refl.
  - intros Hok k m. destruct (decide (n = k)) as [->|Hne].
    + rewrite lookup_alter_eq. destruct (modules mf !! k) as [m0|] eqn:E; [|done].
      cbn. intros [= <-]. destruct (Hf m0 eq_refl) as (-> & _). by apply Hok.
    + rewrite lookup_alter_ne by done. apply Hok.
Qed.

Lemma Keeps_log (ev : Event) (mf : ModuleFinder) : Keeps mf (log_event ev mf).
Proof.
  unfold Keeps. cbn. split_and!; try done.
  - apply registry_le_refl.
  - apply bad_le_refl.
Qed.

Lemma Keeps_add_bad (k importer : string) (mf : ModuleFinder) :
  Keeps mf (set_bad_modules (PyDict.setdefault_apply k ∅ (λ s, s ∪ {[importer]})) mf).
Proof.
  unfold Keeps. cbn [path_replacements excludes modules bad_modules set_bad_modules].
  split_and!; [done|done|apply registry_le_refl| | | |done].
  - intros k' s Hs. destruct (decide (k = k')) as [->|Hne].
    + rewrite get_setdefault_apply_eq, Hs. cbn. eexists. split; [done|set_solver].
    + rewrite get_setdefault_apply_ne by done. by exists s.
  - rewrite keys_setdefault_apply. case_decide; [done|]. by apply prefix_app_r.
  - apply wf_setdefault_apply.
Qed.

Lemma Keeps_register (n : string) (spec : ModuleSpec) (mf : ModuleFinder) :
  modules mf !! n = None →
  Keeps mf (set_modules (insert n (module_from_spec n spec)) mf).
Proof.
  intros Hn. unfold Keeps. cbn. split_and!; try done.
  - intros k m Hm. exists m. split; [|apply module_le_refl].
    rewrite lookup_insert_ne; [done|]. intros ->. congruence.
  - apply bad_le_refl.
  - intros Hok k m. destruct (decide (n = k)) as [->|Hne].
    + rewrite lookup_insert_eq. by intros [= <-].
    + rewrite lookup_insert_ne by done. apply Hok.
Qed.

Lemma Keeps_unregister (n : string) (mf0 mf : ModuleFinder) :
  modules mf0 !! n = None →
  Keeps mf0 mf →
  Keeps mf0 (set_modules (delete n) mf).
Proof.
  intros Hn (Hp & He & Hr & Hb & Hk & Hw & Hok). unfold Keeps.
  cbn [path_replacements excludes modules bad_modules set_modules].
  split_and!; [done|done| |done|done|done|].
  - intros k m Hm. destruct (Hr _ _ Hm) as (m' & Hm' & Hle). exists m'.
    split; [|done]. rewrite lookup_delete_ne; [done|]. intros ->. congruence.
  - intros Hnames k m Hm. apply lookup_delete_Some in Hm as [_ Hm].
    by apply (Hok Hnames).
Qed.

(** *** Rules *)

Lemma post_keeps {A} (c : Run A) (mf0 mf : ModuleFinder)
    (Q : ModuleFinder → Res A → Prop) :
  keeps c → Keeps mf0 mf →
  (∀ mf1 r, Keeps mf0 mf1 → Keeps mf mf1 → Q mf1 r) →
  post c mf Q.
Proof.
  intros Hc H0 HQ mf1 r E. apply HQ; [|by apply (Hc _ _ _ E)].
  eapply Keeps_trans; [done|]. by apply (Hc _ _ _ E).
Qed.

Lemma keeps_ret {A} (a : A) : keeps (ret a).
Proof. intros mf mf' r [= <- _]. apply Keeps_refl. Qed.

Lemma keeps_raise {A} (e : Exc) : keeps (@raise A e).
Proof. intros mf mf' r [= <- _]. apply Keeps_refl. Qed.

Lemma keeps_gets {A} (f : ModuleFinder → A) : keeps (gets f).
Proof. intros mf mf' r [= <- _]. apply Keeps_refl. Qed.

Lemma keeps_getmodule (n : string) : keeps (getmodule n).
Proof.
  intros mf mf' r. unfold getmodule.
  destruct (modules mf !! n); intros [= <- _]; apply Keeps_refl.
Qed.

Lemma keeps_log (ev : Event) : keeps (log ev).
Proof. intros mf mf' r [= <- _]. apply Keeps_log. Qed.

Lemma keeps_update_module (n : string) (f : MFModuleType → MFModuleType) :
  (∀ m, module_le m (f m)) → keeps (update_module n f).
Proof. intros Hf mf mf' r [= <- _]. apply Keeps_alter. intros m _. apply Hf. Qed.

Lemma keeps_add_bad_module (n importer : string) : keeps (add_bad_module n importer).
Proof. intros mf mf' r [= <- _]. apply Keeps_add_bad. Qed.

Lemma keeps_bind {A B} (c : Run A) (k : A → Run B) :
  keeps c → (∀ a, keeps (k a)) → keeps (bind c k).
Proof.
  intros Hc Hk mf. apply post_bind.
  eapply (post_keeps c mf mf); [done|apply Keeps_refl|].
  intros mf1 [a|e] H1 _; [|done].
  eapply post_keeps; [apply Hk|done|]. by intros.
Qed.

Lemma keeps_attempt {A} (c : Run A) : keeps c → keeps (attempt c).
Proof.
  intros Hc mf mf' r. unfold attempt.
  destruct (c mf) as [[mf1 r1]|] eqn:E; [|done].
  intros [= <- _]. by apply (Hc _ _ _ E).
Qed.

Lemma keeps_for_each {A} (body : A → Run unit) (l : list A) :
  (∀ x, keeps (body x)) → keeps (for_each body l).
Proof.
  intros Hb. induction l as [|x l IH]; cbn [for_each].
  - apply keeps_ret.
  - apply keeps_bind; [apply Hb|]. by intros _.
Qed.

Lemma module_le_global_names (s : gset string) (m : MFModuleType) :
  module_le m (set_global_names (λ x, x ∪ s) m).
Proof. unfold module_le. cbn. split_and!; try done. set_solver. Qed.

Lemma module_le_star_imports (s : gset string) (m : MFModuleType) :
  module_le m (set_star_imports (λ x, x ∪ s) m).
Proof. unfold module_le. cbn. split_and!; try done. set_solver. Qed.

Lemma module_le_bind_attr (child : string) (m : MFModuleType) :
  module_le m (bind_attr child m).
Proof. unfold module_le. cbn. split_and!; try done. set_solver. Qed.

Lemma keeps_star_import (optimized : bool) (module name : string) :
  keeps (star_import optimized module name).
Proof.
  unfold star_import.
  apply keeps_bind; [apply keeps_gets|]. intros mods.
  destruct (mods !! name) as [t|].
  - destruct (negb (mod_typed t)); [apply keeps_raise|].
    apply keeps_bind.
    { apply keeps_update_module. intros m. apply module_le_global_names. }
    intros _. apply keeps_bind.
    { apply keeps_update_module. intros m. apply module_le_star_imports. }
    intros _. destruct (mod_code t); [apply keeps_ret|].
    apply keeps_update_module. intros m. apply module_le_star_imports.
  - apply keeps_update_module. intros m. apply module_le_star_imports.
Qed.

Lemma keeps_record_missing_fromlist (ia : MFModuleType → string → bool)
    (module name result : string) (fromlist : list string) :
  keeps (record_missing_fromlist ia module name result fromlist).
Proof.
  unfold record_missing_fromlist.
  apply keeps_bind; [apply keeps_getmodule|]. intros rm.
  destruct (hasattr ia rm "__path__"); [|apply keeps_ret].
  apply keeps_for_each. intros x.
  apply keeps_bind; [apply keeps_getmodule|]. intros rm'.
  destruct (hasattr ia rm' x); [apply keeps_ret|apply keeps_add_bad_module].
Qed.

Section KeepsMachinery.
Variable optimized : bool.
Variable normpath : string → string.
Variable find_spec : string → option (list string) → Res (option ModuleSpec).
Variable ia : MFModuleType → string → bool.
Variable import_ : string → Run string.
Hypothesis import_keeps : ∀ n, keeps (import_ n).

Lemma keeps_handle_fromlist (module : string) (fromlist : list string) :
  keeps (_handle_fromlist ia import_ module fromlist).
Proof.
  unfold _handle_fromlist.
  apply keeps_bind; [|intros _; apply keeps_ret].
  apply keeps_for_each. intros x.
  destruct (String.eqb x "*"); [apply keeps_ret|].
  apply keeps_bind; [apply keeps_getmodule|]. intros m.
  destruct (hasattr ia m x); [apply keeps_ret|].
  apply keeps_bind; [apply keeps_attempt, import_keeps|].
  intros [k|e]; [apply keeps_ret|].
  destruct e; try apply keeps_raise.
  destruct (String.eqb _ _); [apply keeps_ret|apply keeps_raise].
Qed.

Lemma keeps_dunder_import (name : string) (fromlist : list string) :
  keeps (__import__ ia import_ name fromlist).
Proof.
  unfold __import__.
  apply keeps_bind; [apply import_keeps|]. intros module.
  case_bool_decide; [apply import_keeps|].
  apply keeps_bind; [apply keeps_getmodule|]. intros m.
  destruct (hasattr ia m "__path__"); [apply keeps_handle_fromlist|apply keeps_ret].
Qed.

Lemma keeps_try_import (module : string) (d : ImportDirective) (fromlist : list string) :
  keeps (try_import ia import_ module d fromlist).
Proof.
  unfold try_import.
  destruct (0 <? imp_level d)%Z.
  - apply keeps_bind; [apply keeps_getmodule|]. intros m.
    destruct (resolve_relative m (imp_name d) (imp_level d)); [|apply keeps_ret].
    apply keeps_bind; [apply keeps_attempt, keeps_dunder_import|].
    intros r. apply keeps_ret.
  - destruct (imp_level d <? 0)%Z; [apply keeps_ret|].
    apply keeps_bind; [apply keeps_attempt, keeps_dunder_import|].
    intros r. apply keeps_ret.
Qed.

Lemma keeps_scan_import (module : string) (d : ImportDirective) :
  keeps (scan_import optimized ia import_ module d).
Proof.
  rewrite scan_import_unfold.
  apply keeps_bind; [apply keeps_try_import|]. intros [name outcome].
  apply keeps_bind.
  - destruct outcome as [result|e]; [apply keeps_record_missing_fromlist|].
    destruct (caught_by_scan e); [apply keeps_add_bad_module|apply keeps_raise].
  - intros _. destruct (split_fromlist (imp_fromlist d)).1;
      [apply keeps_star_import|apply keeps_ret].
Qed.

Lemma keeps_scan_code (module : string) (code : CodeType) :
  keeps (_scan_code optimized ia import_ module code).
Proof.
  induction code as [f s i ks IH] using CodeType_nested_ind.
  cbn [_scan_code].
  apply keeps_bind.
  { apply keeps_for_each. intros x. apply keeps_update_module.
    intros m. apply module_le_global_names. }
  intros _. apply keeps_bind.
  { apply keeps_for_each. intros x. apply keeps_scan_import. }
  intros _. induction IH as [|k ks Hk _ IHks]; [apply keeps_ret|].
  destruct k as [|c]; [exact IHks|].
  apply keeps_bind; [exact Hk|]. intros _. exact IHks.
Qed.

Lemma module_le_reset (m : MFModuleType) : fresh m → module_le m (reset_fields m).
Proof.
  intros (Hc & Hg & Hs). unfold module_le, reset_fields. cbn.
  split_and!; try done; [by rewrite Hc|by rewrite Hg|by rewrite Hs].
Qed.

Lemma exec_module_keeps (name : string) (spec : ModuleSpec) (mf : ModuleFinder)
    (m : MFModuleType) :
  modules mf !! name = Some m → fresh m →
  post (exec_module optimized normpath ia import_ name spec) mf (λ mf' _, Keeps mf mf').
Proof.
  intros Hm Hfresh. unfold exec_module.
  apply post_bind. intros mf0 r0 [= <- <-].
  destruct (negb optimized && _); [intros mf1 r1 [= <- _]; apply Keeps_refl|].
  apply post_bind. intros mf1 r1 [= <- <-].
  assert (Keeps mf (set_modules (alter reset_fields name) mf)) as H1.
  { apply Keeps_alter. intros m0 Hm0. rewrite Hm in Hm0. injection Hm0 as <-.
    by apply module_le_reset. }
  fold reset_fields.
  set (mf1 := set_modules (alter reset_fields name) mf) in *.
  assert (modules mf1 !! name = Some (reset_fields m)) as Hm1.
  { subst mf1. cbn. by rewrite lookup_alter_eq, Hm. }
  destruct (get_code spec) as [code| |e|];
    [|by intros mf2 r2 [= <- _]..].
  apply post_bind. intros mf2 r2 [= <- <-].
  apply post_bind. intros mf3 r3 [= <- <-].
  match goal with
  | |- post _ (set_modules (alter (set_code (Some ?c)) name) mf1) _ => set (code' := c)
  end.
  assert (Keeps mf (set_modules (alter (set_code (Some code')) name) mf1)) as H3.
  { eapply Keeps_trans; [exact H1|]. apply Keeps_alter.
    intros m0 Hm0. rewrite Hm1 in Hm0. injection Hm0 as <-.
    unfold module_le. cbn. split_and!; done. }
  apply post_bind.
  eapply post_keeps; [apply keeps_log|exact H3|].
  intros mf4 [[]|e] H4 _; [|done].
  apply post_bind.
  eapply post_keeps; [apply keeps_scan_code|exact H4|].
  intros mf5 [[]|e] H5 _; [|done].
  eapply post_keeps; [apply keeps_log|exact H5|]. by intros.
Qed.

Lemma fresh_module_from_spec (name : string) (spec : ModuleSpec) :
  fresh (module_from_spec name spec).
Proof. done. Qed.

Lemma run_loader_keeps (name : string) (spec : ModuleSpec) (mf : ModuleFinder)
    (m : MFModuleType) :
  modules mf !! name = Some m → fresh m →
  post (run_loader optimized normpath ia import_ name spec) mf (λ mf' _, Keeps mf mf').
Proof.
  intros Hm Hfresh. unfold run_loader.
  destruct (has_loader spec); [by apply (exec_module_keeps _ _ _ m)|].
  destruct (submodule_search_locations spec);
    intros mf1 r1 [= <- _]; apply Keeps_refl.
Qed.

Lemma load_unlocked_keeps (name : string) (spec : ModuleSpec) (mf : ModuleFinder) :
  modules mf !! name = None →
  post (_load_unlocked optimized normpath ia import_ name spec) mf (λ mf' _, Keeps mf mf').
Proof.
  intros Hn. unfold _load_unlocked.
  apply post_bind. intros mf1 r1 [= <- <-].
  apply post_bind. intros mf2 r2 [= <- <-].
  set (mf2 := log_event (EvRegister name)
                (set_modules (insert name (module_from_spec name spec)) mf)).
  assert (Keeps mf mf2) as H2.
  { eapply Keeps_trans; [by apply Keeps_register|apply Keeps_log]. }
  assert (modules mf2 !! name = Some (module_from_spec name spec)) as Hin.
  { cbn. by rewrite lookup_insert_eq. }
  apply post_bind. intros mf3 r3 E3. unfold attempt in E3.
  destruct (run_loader optimized normpath ia import_ name spec mf2) as [[mf3' r3']|] eqn:Ex;
    [|done].
  injection E3 as <- <-.
  pose proof (run_loader_keeps name spec mf2 _ Hin
                (fresh_module_from_spec name spec) _ _ Ex) as H3. cbn in H3.
  assert (Keeps mf mf3') as H03 by (eapply Keeps_trans; done).
  destruct r3' as [[]|e].
  - apply post_bind.
    eapply post_keeps; [apply keeps_getmodule|exact H03|].
    intros mf4 [m|e] H4 _; [|done].
    intros mf5 r5 [= <- _]. done.
  - apply post_bind. intros mf4 r4 [= <- <-].
    apply post_bind. intros mf5 r5 [= <- <-].
    intros mf6 r6 [= <- _].
    eapply Keeps_trans; [by apply Keeps_unregister|apply Keeps_log].
Qed.

Lemma find_load_bind_keeps (name : string) (path : option (list string))
    (parent : option string) (mf : ModuleFinder) :
  modules mf !! name = None →
  post (find_load_bind optimized normpath find_spec ia import_ name path parent) mf
    (λ mf' _, Keeps mf mf').
Proof.
  intros Hn. unfold find_load_bind, _find_spec.
  apply post_bind. apply post_bind. intros mf1 r1 [= <- <-].
  assert (Keeps mf (log_event (EvFind name) mf)) as H1 by apply Keeps_log.
  destruct (find_spec name path) as [[spec|]|e]; cbn [lift_res];
    intros mf2 r2 [= <- <-]; [|by intros mf3 r3 [= <- _]|done].
  apply post_bind. intros mf3 r3 E3.
  pose proof (load_unlocked_keeps name spec (log_event (EvFind name) mf) Hn _ _ E3) as H3.
  cbn beta in H3. pose proof (Keeps_trans _ _ _ H1 H3) as H03.
  destruct r3 as [module|e]; [|done].
  apply post_bind.
  assert (keeps (match parent with
                 | Some parent0 =>
                     let! _ := getmodule parent0 in
                     update_module parent0 (bind_attr (PyStr.rpartition_tail name))
                 | None => ret tt
                 end)) as Hs.
  { destruct parent; [|apply keeps_ret].
    apply keeps_bind; [apply keeps_getmodule|]. intros _.
    apply keeps_update_module. intros m. apply module_le_bind_attr. }
  eapply post_keeps; [exact Hs|exact H03|].
  intros mf4 [[]|e] H4 _; [|done].
  intros mf5 r5 [= <- _]. done.
Qed.

Lemma find_and_load_unlocked_keeps (name : string) (mf : ModuleFinder) :
  modules mf !! name = None →
  post (_find_and_load_unlocked optimized normpath find_spec ia import_ name) mf
    (λ mf' _, Keeps mf mf').
Proof.
  intros Hn. unfold _find_and_load_unlocked.
  destruct (String.eqb (PyStr.rpartition_head name) "").
  { by apply find_load_bind_keeps. }
  set (parent := PyStr.rpartition_head name).
  apply post_bind. intros mf1 r1 [= <- <-].
  apply post_bind.
  assert (keeps (match modules mf !! parent with
                 | Some _ => ret tt
                 | None => let! _ := import_ parent in ret tt
                 end)) as Hs.
  { destruct (modules mf !! parent); [apply keeps_ret|].
    apply keeps_bind; [apply import_keeps|]. intros _. apply keeps_ret. }
  eapply post_keeps; [exact Hs|apply Keeps_refl|].
  intros mf2 [[]|e] H2 _; [|done].
  apply post_bind. intros mf3 r3 [= <- <-].
  destruct (modules mf2 !! name) eqn:Hn2.
  { intros mf4 r4 [= <- _]. done. }
  apply post_bind. intros mf4 r4 E4. unfold getmodule in E4.
  destruct (modules mf2 !! parent) as [pm|]; injection E4 as <- <-; [|done].
  destruct (mod_path pm) as [path|]; [|by intros mf5 r5 [= <- _]].
  intros mf5 r5 E5.
  pose proof (find_load_bind_keeps name (Some path) (Some parent) mf2 Hn2 _ _ E5) as H5.
  cbn beta in H5. exact (Keeps_trans _ _ _ H2 H5).
Qed.

Lemma keeps_find_and_load (name : string) :
  keeps (_find_and_load optimized normpath find_spec ia import_ name).
Proof.
  intros mf. unfold _find_and_load.
  apply post_bind. intros mf1 r1 [= <- <-].
  destruct (modules mf !! name) eqn:Hn.
  - intros mf2 r2 [= <- _]. apply Keeps_refl.
  - by apply find_and_load_unlocked_keeps.
Qed.

End KeepsMachinery.

Lemma keeps_gcd_import (optimized : bool) (normpath : string → string)
    (find_spec : string → option (list string) → Res (option ModuleSpec))
    (ia : MFModuleType → string → bool) (fuel : nat) (name : string) :
  keeps (_gcd_import optimized normpath find_spec ia fuel name).
Proof.
  revert name. induction fuel as [|fuel IH]; intros name; cbn [_gcd_import].
  - intros mf mf' r E. discriminate E.
  - destruct (String.eqb name ""); [apply keeps_raise|].
    by apply keeps_find_and_load.
Qed.

Lemma keeps_import_as_module (optimized : bool) (normpath : string → string)
    (find_spec : string → option (list string) → Res (option ModuleSpec))
    (ia : MFModuleType → string → bool) (fuel : nat) (name : string) :
  keeps (import_as_module optimized normpath find_spec ia fuel name).
Proof.
  unfold import_as_module. apply keeps_bind.
  - apply keeps_dunder_import. intros n. apply keeps_gcd_import.
  - intros _. apply keeps_ret.
Qed.

(** ** Consequences for whole runs *)

Lemma keeps_registry {A} (c : Run A) (mf mf' : ModuleFinder) (r : Res A)
    (k : string) (m : MFModuleType) :
  keeps c → c mf = Some (mf', r) → modules mf !! k = Some m →
  ∃ m', modules mf' !! k = Some m' ∧ module_le m m'.
Proof. intros Hc E Hm. destruct (Hc _ _ _ E) as (_ & _ & Hreg & _). by apply Hreg. Qed.

(** X1: a run of [import_as_module], however it ends, leaves the
    finder's [path_replacements] and [excludes] as they were and loses
    nothing of the registry: every module registered before the run is
    still registered under the same key, with the same name, package
    and search path, with the code object it had, and with at least
    the attributes, bound names and unresolved star imports it had. *)
Theorem import_keeps_registry (optimized : bool) (normpath : string → string)
    (find_spec : string → option (list string) → Res (option ModuleSpec))
    (ia : MFModuleType → string → bool)
    (fuel : nat) (name : string) (mf mf' : ModuleFinder) (r : Res unit) :
  import_as_module optimized normpath find_spec ia fuel name mf = Some (mf', r) →
  path_replacements mf' = path_replacements mf ∧
  excludes mf' = excludes mf ∧
  ∀ k m, modules mf !! k = Some m →
    ∃ m', modules mf' !! k = Some m' ∧
          mod_name m' = mod_name m ∧ mod_package m' = mod_package m ∧
          mod_path m' = mod_path m ∧
          (∀ c, mod_code m = Some c → mod_code m' = Some c) ∧
          mod_attrs m ⊆ mod_attrs m' ∧
          mf_global_names m ⊆ mf_global_names m' ∧
          mf_star_imports m ⊆ mf_star_imports m'.
Proof.
  intros E.
  destruct (keeps_import_as_module optimized normpath find_spec ia fuel name _ _ _ E)
    as (Hp & He & Hreg & _).
  split_and!; [done|done|]. intros k m Hm.
  destruct (Hreg k m Hm) as (m' & Hm' & H1 & H2 & H3 & H4 & H5 & H6 & H7).
  exists m'. split_and!; done.
Qed.

Lemma import_keeps_registry_witness :
  ∃ mf' m',
    import_as_module false Posix.normpath (table_finder world_same_name) no_intrinsic_attr
      9 "a.module" sample_one_module = Some (mf', Ok tt) ∧
    modules mf' !! "m" = Some m' ∧ mod_name m' = "m".
Proof.
  assert (∃ mf', import_as_module false Posix.normpath (table_finder world_same_name)
                   no_intrinsic_attr 9 "a.module" sample_one_module
                 = Some (mf', Ok tt)) as [mf' E].
  { eexists. vm_compute. reflexivity. }
  destruct (import_keeps_registry _ _ _ _ _ _ _ _ _ E) as (_ & _ & H).
  destruct (H "m" (blank_module "m" None) eq_refl) as (m' & Hm' & Hn & _).
  exists mf', m'. split_and!; [exact E|exact Hm'|exact Hn].
Defined.

(** X2: a run of [import_as_module], however it ends, only adds to the
    failure record: every failed name recorded before is still a key,
    with at least the importers it had, and the keys recorded before
    come first, in their old order. *)
Theorem import_keeps_failures (optimized : bool) (normpath : string → string)
    (find_spec : string → option (list string) → Res (option ModuleSpec))
    (ia : MFModuleType → string → bool)
    (fuel : nat) (name : string) (mf mf' : ModuleFinder) (r : Res unit) :
  import_as_module optimized normpath find_spec ia fuel name mf = Some (mf', r) →
  (∀ k s, PyDict.get k (bad_modules mf) = Some s →
     ∃ s', PyDict.get k (bad_modules mf') = Some s' ∧ s ⊆ s') ∧
  PyDict.keys (bad_modules mf) `prefix_of` PyDict.keys (bad_modules mf') ∧
  (PyDict.wf (bad_modules mf) → PyDict.wf (bad_modules mf')).
Proof.
  intros E.
  destruct (keeps_import_as_module optimized normpath find_spec ia fuel name _ _ _ E)
    as (_ & _ & _ & Hbad & Hkeys & Hwf & _).
  split_and!; done.
Qed.

Lemma import_keeps_failures_witness :
  ∃ mf' s',
    import_as_module false Posix.normpath (table_finder world_same_name) no_intrinsic_attr
      9 "a.module" sample_failed_before = Some (mf', Ok tt) ∧
    PyDict.get "gone" (bad_modules mf') = Some s' ∧ "m" ∈ s'.
Proof.
  assert (∃ mf', import_as_module false Posix.normpath (table_finder world_same_name)
                   no_intrinsic_attr 9 "a.module" sample_failed_before
                 = Some (mf', Ok tt)) as [mf' E].
  { eexists. vm_compute. reflexivity. }
  destruct (import_keeps_failures _ _ _ _ _ _ _ _ _ E) as (H & _ & _).
  destruct (H "gone" {["m"]} eq_refl) as (s' & Hs' & Hsub).
  exists mf', s'. split_and!; [exact E|exact Hs'|].
  apply Hsub. by apply elem_of_singleton.
Defined.

(** *** What a scan records *)

Lemma all_store_names_cons_other (l : list (Const CodeType)) :
  concat (map (λ const, match const with
                        | KCode c => all_store_names c
                        | KOther => []
                        end) (KOther :: l))
  = concat (map (λ const, match const with
                          | KCode c => all_store_names c
                          | KOther => []
                          end) l).
Proof. done. Qed.

Section ScanStores.
Variable optimized : bool.
Variable ia : MFModuleType → string → bool.
Variable import_ : string → Run string.
Hypothesis import_keeps : ∀ n, keeps (import_ n).

Lemma scan_code_stores (module : string) (code : CodeType) (mf mf' : ModuleFinder)
    (m : MFModuleType) :
  _scan_code optimized ia import_ module code mf = Some (mf', Ok tt) →
  modules mf !! module = Some m →
  ∃ m', modules mf' !! module = Some m' ∧ module_le m m' ∧
        ∀ x, x ∈ all_store_names code → x ∈ mf_global_names m'.
Proof.
  revert mf mf' m.
  induction code as [f s i ks IH] using CodeType_nested_ind.
  intros mf mf' m E Hm. cbn [_scan_code] in E.
  unfold bind at 1 in E. rewrite store_names_loop in E.
  set (mf1 := set_modules
                (alter (set_global_names (λ s0, s0 ∪ list_to_set s)) module) mf) in E.
  set (m1 := set_global_names (λ s0, s0 ∪ list_to_set s) m).
  assert (modules mf1 !! module = Some m1) as Hm1.
  { subst mf1 m1. cbn. by rewrite lookup_alter_eq, Hm. }
  assert (module_le m m1) as Hle1 by apply module_le_global_names.
  unfold bind at 1 in E.
  destruct (for_each (scan_import optimized ia import_ module) i mf1)
    as [[mf2 [[]|e]]|] eqn:E2; [|done|done].
  assert (keeps (for_each (scan_import optimized ia import_ module) i)) as Hk.
  { apply keeps_for_each. intros d. by apply keeps_scan_import. }
  destruct (keeps_registry _ _ _ _ _ _ Hk E2 Hm1) as (m2 & Hm2 & Hle2).
  assert (∀ x, x ∈ s → x ∈ mf_global_names m2) as Hs.
  { intros x Hx. destruct Hle2 as (_ & _ & _ & _ & _ & Hg & _). apply Hg.
    subst m1. cbn. apply elem_of_union_r. by apply elem_of_list_to_set. }
  assert (module_le m m2) as Hle02 by (eapply module_le_trans; done).
  clear E2 Hm1 Hle1 Hle2 Hk Hm. clearbody mf1 m1. clear mf1 m1.
  cbn [all_store_names].
  enough (∃ m', modules mf' !! module = Some m' ∧ module_le m2 m' ∧
            ∀ x, x ∈ concat (map (λ const, match const with
                                           | KCode c => all_store_names c
                                           | KOther => []
                                           end) ks) → x ∈ mf_global_names m')
    as (m' & Hm' & Hle' & Hks).
  { exists m'. split_and!; [done|by eapply module_le_trans|].
    intros x [Hx|Hx]%elem_of_app; [|by apply Hks].
    destruct Hle' as (_ & _ & _ & _ & _ & Hg & _). by apply Hg, Hs. }
  clear Hs Hle02 m. revert mf2 m2 E Hm2.
  induction IH as [|k ks Hk _ IHks]; intros mf2 m2 E Hm2.
  - injection E as <-. exists m2. split_and!; [done|apply module_le_refl|].
    intros x Hx. by apply elem_of_nil in Hx.
  - destruct k as [|c].
    + rewrite all_store_names_cons_other. exact (IHks mf2 m2 E Hm2).
    + unfold bind at 1 in E.
      destruct (_scan_code optimized ia import_ module c mf2) as [[mf3 [[]|e]]|] eqn:E3;
        [|done|done].
      destruct (Hk _ _ _ E3 Hm2) as (m3 & Hm3 & Hle3 & Hc).
      destruct (IHks _ _ E Hm3) as (m' & Hm' & Hle' & Hr).
      exists m'. split_and!; [done|by eapply module_le_trans|].
      cbn [map concat]. intros x [Hx|Hx]%elem_of_app; [|by apply Hr].
      destruct Hle' as (_ & _ & _ & _ & _ & Hg & _). by apply Hg, Hc.
Qed.

End ScanStores.

(** X3: a scan that ends normally has recorded, in the bound names of
    the scanned module, every name stored anywhere in the code object:
    the names of the code object itself and those of every code object
    nested in its constants, at any depth.  Names the module had before
    are kept. *)
Theorem scan_code_records_stores (optimized : bool) (normpath : string → string)
    (find_spec : string → option (list string) → Res (option ModuleSpec))
    (ia : MFModuleType → string → bool)
    (fuel : nat) (module : string) (code : CodeType) (mf mf' : ModuleFinder)
    (m : MFModuleType) :
  modules mf !! module = Some m →
  _scan_code optimized ia (_gcd_import optimized normpath find_spec ia fuel) module code mf
    = Some (mf', Ok tt) →
  ∃ m', modules mf' !! module = Some m' ∧
        mf_global_names m ⊆ mf_global_names m' ∧
        ∀ x, x ∈ all_store_names code → x ∈ mf_global_names m'.
Proof.
  intros Hm E.
  destruct (scan_code_stores optimized ia (_gcd_import optimized normpath find_spec ia fuel)
              (keeps_gcd_import optimized normpath find_spec ia fuel) module code mf mf' m E Hm)
    as (m' & Hm' & Hle & Hx).
  exists m'. split_and!; [done| |done].
  by destruct Hle as (_ & _ & _ & _ & _ & Hg & _).
Qed.

Lemma scan_code_records_stores_witness :
  ∃ mf' m',
    _scan_code false no_intrinsic_attr empty_tree_import "m" sample_nested_code
      sample_one_module = Some (mf', Ok tt) ∧
    modules mf' !! "m" = Some m' ∧ "z" ∈ mf_global_names m'.
Proof.
  assert (∃ mf', _scan_code false no_intrinsic_attr empty_tree_import "m"
                   sample_nested_code sample_one_module = Some (mf', Ok tt))
    as [mf' E].
  { eexists. vm_compute. reflexivity. }
  destruct (scan_code_records_stores false Posix.normpath (table_finder [])
              no_intrinsic_attr 5 "m" sample_nested_code sample_one_module mf'
              (blank_module "m" None) eq_refl E) as (m' & Hm' & _ & Hx).
  exists mf', m'. split_and!; [exact E|exact Hm'|].
  apply Hx. vm_compute. repeat constructor.
Defined.

(** *** What [exec_module] leaves in the module *)

Lemma all_store_names_replace (normpath : string → string)
    (rules : list (string * string)) (code : CodeType) :
  all_store_names (_replace_paths_in_code normpath code rules) = all_store_names code.
Proof.
  induction code as [f s i ks IH] using CodeType_nested_ind.
  cbn [_replace_paths_in_code all_store_names]. f_equal.
  rewrite map_map. f_equal.
  induction IH as [|k ks Hk _ IHks]; [done|].
  cbn [map]. f_equal; [|done].
  destruct k; [done|]. exact Hk.
Qed.

Lemma all_store_names_stored (normpath : string → string)
    (rules : list (string * string)) (code : CodeType) :
  all_store_names (stored_code normpath rules code) = all_store_names code.
Proof.
  unfold stored_code. case_bool_decide; [done|apply all_store_names_replace].
Qed.

(** X4: when the loader hands out a code object and [exec_module] ends
    normally, the module's [__code__] is that code object, rewritten by
    [_replace_paths_in_code] if the finder has path replacements and
    the very object (file names not even normalised) if it has none;
    nothing the scan does afterwards, nested imports included, changes
    it.  The module's bound names then hold every name stored anywhere
    in the code object. *)
Theorem exec_module_stores_code (optimized : bool) (normpath : string → string)
    (find_spec : string → option (list string) → Res (option ModuleSpec))
    (ia : MFModuleType → string → bool)
    (fuel : nat) (name : string) (spec : ModuleSpec) (code : CodeType)
    (mf mf' : ModuleFinder) :
  is_Some (modules mf !! name) →
  get_code spec = GotCode code →
  exec_module optimized normpath ia (_gcd_import optimized normpath find_spec ia fuel) name spec mf
    = Some (mf', Ok tt) →
  ∃ m', modules mf' !! name = Some m' ∧
        mod_code m' = Some (stored_code normpath (path_replacements mf) code) ∧
        (path_replacements mf = [] → mod_code m' = Some code) ∧
        (path_replacements mf ≠ [] →
         ∃ code', mod_code m' = Some code' ∧
                  all_filenames code' =
                    map (λ f, rewrite_filename (normpath f) (path_replacements mf))
                        (all_filenames code)) ∧
        ∀ x, x ∈ all_store_names code → x ∈ mf_global_names m'.
Proof.
  intros [m Hm] Hcode E. unfold exec_module in E. rewrite Hcode in E.
  unfold bind at 1, gets at 1 in E.
  destruct (negb optimized && _); [discriminate E|].
  unfold bind at 1 in E. unfold update_module at 1, modify at 1 in E.
  unfold bind at 1, gets at 1 in E.
  cbn [path_replacements set_modules] in E.
  fold (stored_code normpath (path_replacements mf) code) in E.
  set (c' := stored_code normpath (path_replacements mf) code) in *.
  unfold bind at 1 in E. unfold update_module at 1, modify at 1 in E.
  unfold bind at 1 in E. unfold log at 1, modify at 1 in E.
  unfold bind at 1 in E.
  match type of E with
  | context [_scan_code ?o ?i ?imp ?n ?c ?s] =>
      destruct (_scan_code o i imp n c s) as [[mf5 [[]|e]]|] eqn:Escan; [|done|done]
  end.
  injection E as <-.
  eapply scan_code_stores in Escan as (m' & Hm' & Hle & Hx);
    [|apply keeps_gcd_import|].
  2:{ cbn. rewrite lookup_alter_eq. cbn. rewrite lookup_alter_eq, Hm. reflexivity. }
  exists m'. cbn [modules log_event].
  assert (mod_code m' = Some c') as Hc.
  { destruct Hle as (_ & _ & _ & _ & Hc & _). by apply Hc. }
  split_and!; [done|done| | |].
  - intros Hr. rewrite Hc. subst c'. unfold stored_code.
    by rewrite bool_decide_eq_true_2.
  - intros Hr. exists c'. split; [done|]. subst c'. unfold stored_code.
    rewrite bool_decide_eq_false_2 by done. apply all_filenames_replace.
  - intros x Hx'. apply Hx. subst c'. by rewrite all_store_names_stored.
Qed.

Lemma exec_module_stores_code_witness :
  ∃ mf' m',
    exec_module false Posix.normpath no_intrinsic_attr empty_tree_import "m"
      (source "/t/./m.py" ["x"] []) sample_with_rules = Some (mf', Ok tt) ∧
    modules mf' !! "m" = Some m' ∧
    mod_code m' = Some (Code "/srv/m.py" ["x"] [] []) ∧
    "x" ∈ mf_global_names m'.
Proof.
  assert (∃ mf', exec_module false Posix.normpath no_intrinsic_attr empty_tree_import "m"
                   (source "/t/./m.py" ["x"] []) sample_with_rules
                 = Some (mf', Ok tt)) as [mf' E].
  { eexists. vm_compute. reflexivity. }
  destruct (exec_module_stores_code false Posix.normpath (table_finder [])
              no_intrinsic_attr 5 "m" (source "/t/./m.py" ["x"] [])
              (Code "/t/./m.py" ["x"] [] []) sample_with_rules mf')
    as (m' & Hm' & Hc & _ & _ & Hx).
  - exists (blank_module "m" None). reflexivity.
  - reflexivity.
  - exact E.
  - exists mf', m'. split_and!; [exact E|exact Hm'|exact Hc|].
    apply Hx. vm_compute. repeat constructor.
Defined.

(** *** Imports that fail at the top *)

Lemma delete_alter_insert (name : string) (f : MFModuleType → MFModuleType)
    (m : MFModuleType) (M : gmap string MFModuleType) :
  M !! name = None → delete name (alter f name (<[name := m]> M)) = M.
Proof.
  intros Hn. apply map_eq. intros k. destruct (decide (k = name)) as [->|Hk].
  - by rewrite lookup_delete_eq.
  - by rewrite lookup_delete_ne, lookup_alter_ne, lookup_insert_ne.
Qed.

(** X5: importing a top-level name that is not registered and that no
    finder knows raises [ModuleNotFoundError] for that name to the
    caller of [import_as_module]; the finder was asked once, and
    neither the registry nor the failure record has changed: failures
    are recorded only for imports found in scanned code. *)
Theorem import_unknown_top_level (optimized : bool) (normpath : string → string)
    (find_spec : string → option (list string) → Res (option ModuleSpec))
    (ia : MFModuleType → string → bool)
    (fuel : nat) (name : string) (mf : ModuleFinder) :
  top_level name →
  modules mf !! name = None →
  find_spec name None = Ok None →
  ∃ mf',
    import_as_module optimized normpath find_spec ia (S fuel) name mf
      = Some (mf', Raise (ModuleNotFoundError name)) ∧
    modules mf' = modules mf ∧ bad_modules mf' = bad_modules mf ∧
    path_replacements mf' = path_replacements mf ∧ excludes mf' = excludes mf ∧
    trace mf' = trace mf ++ [EvFind name].
Proof.
  intros [Hne Hdot] Hn Hspec. exists (log_event (EvFind name) mf).
  split; [|done].
  unfold import_as_module, __import__. unfold bind at 1. unfold bind at 1.
  cbn [_gcd_import]. rewrite (proj2 (String.eqb_neq name "") Hne).
  unfold _find_and_load. unfold bind at 1. unfold gets at 1. rewrite Hn.
  unfold _find_and_load_unlocked.
  rewrite top_level_rpartition_head by done. cbn [String.eqb].
  unfold find_load_bind, _find_spec. unfold bind at 1. unfold bind at 1.
  unfold log, modify, ret. by rewrite Hspec.
Qed.

Lemma import_unknown_top_level_witness :
  ∃ mf',
    import_as_module false Posix.normpath (table_finder world_cycle) no_intrinsic_attr
      1 "nosuch" sample_failed_before
      = Some (mf', Raise (ModuleNotFoundError "nosuch")) ∧
    bad_modules mf' = bad_modules sample_failed_before.
Proof.
  destruct (import_unknown_top_level false Posix.normpath (table_finder world_cycle)
              no_intrinsic_attr 0 "nosuch" sample_failed_before)
    as (mf' & E & _ & Hb & _).
  - split; [discriminate|reflexivity].
  - reflexivity.
  - reflexivity.
  - exists mf'. split; [exact E|exact Hb].
Defined.

(** X6: importing a top-level name whose loader fails to produce the
    code (for instance a file with a syntax error) raises the loader's
    exception to the caller of [import_as_module].  The module was
    registered for the time of the attempt and is removed again, so
    the registry ends as it began, and nothing is added to the failure
    record. *)
Theorem import_unreadable_top_level (optimized : bool) (normpath : string → string)
    (find_spec : string → option (list string) → Res (option ModuleSpec))
    (ia : MFModuleType → string → bool)
    (fuel : nat) (name : string) (spec : ModuleSpec) (e : Exc) (mf : ModuleFinder) :
  top_level name →
  modules mf !! name = None →
  find_spec name None = Ok (Some spec) →
  get_code spec = CodeRaises e →
  ∃ mf',
    import_as_module optimized normpath find_spec ia (S fuel) name mf = Some (mf', Raise e) ∧
    modules mf' = modules mf ∧ bad_modules mf' = bad_modules mf ∧
    trace mf' = trace mf ++ [EvFind name; EvRegister name; EvUnregister name].
Proof.
  intros [Hne Hdot] Hn Hspec Hcode.
  unfold import_as_module, __import__. unfold bind at 1. unfold bind at 1.
  cbn [_gcd_import]. rewrite (proj2 (String.eqb_neq name "") Hne).
  unfold _find_and_load. unfold bind at 1. unfold gets at 1. rewrite Hn.
  unfold _find_and_load_unlocked.
  rewrite top_level_rpartition_head by done. cbn [String.eqb].
  unfold find_load_bind, _find_spec. unfold bind at 1. unfold bind at 1.
  unfold log at 1, modify at 1. rewrite Hspec. cbn [lift_res]. unfold ret at 1.
  unfold bind at 1. unfold _load_unlocked. unfold bind at 1. unfold modify at 1.
  unfold bind at 1. unfold log at 1, modify at 1.
  assert (has_loader spec = true) as Hl by (unfold has_loader; by rewrite Hcode).
  unfold bind at 1. unfold attempt. rewrite run_loader_loader by done.
  rewrite exec_module_typed by (by apply registered_typed). rewrite Hcode.
  unfold bind at 1. unfold update_module at 1, modify at 1. unfold raise at 1.
  unfold bind at 1. unfold modify at 1. unfold bind at 1, log at 1, modify at 1.
  unfold raise. eexists. split; [reflexivity|].
  cbn. split_and!; [|done|by rewrite <- !app_assoc].
  by apply delete_alter_insert.
Qed.

Lemma import_unreadable_top_level_witness :
  ∃ mf',
    import_as_module false Posix.normpath
      (table_finder [("bad", {| submodule_search_locations := None;
                                get_code := CodeRaises SyntaxError |})])
      no_intrinsic_attr 1 "bad" sample_one_module = Some (mf', Raise SyntaxError) ∧
    modules mf' = modules sample_one_module.
Proof.
  destruct (import_unreadable_top_level false Posix.normpath
              (table_finder [("bad", {| submodule_search_locations := None;
                                        get_code := CodeRaises SyntaxError |})])
              no_intrinsic_attr 0 "bad"
              {| submodule_search_locations := None;
                 get_code := CodeRaises SyntaxError |}
              SyntaxError sample_one_module)
    as (mf' & E & Hm & _).
  - split; [discriminate|reflexivity].
  - reflexivity.
  - reflexivity.
  - reflexivity.
  - exists mf'. split; [exact E|exact Hm].
Defined.

(** *** Importing again *)

Section Lands.
Variable optimized : bool.
Variable normpath : string → string.
Variable find_spec : string → option (list string) → Res (option ModuleSpec).
Variable ia : MFModuleType → string → bool.

Lemma find_load_bind_lands (import_ : string → Run string) (name : string)
    (path : option (list string)) (parent : option string)
    (mf mf' : ModuleFinder) (n : string) :
  find_load_bind optimized normpath find_spec ia import_ name path parent mf = Some (mf', Ok n) →
  n = name ∧ is_Some (modules mf' !! name).
Proof.
  unfold find_load_bind, _find_spec. unfold bind at 1. unfold bind at 1.
  unfold log at 1, modify at 1.
  destruct (find_spec name path) as [[spec|]|e0]; cbn [lift_res]; [|done|done].
  unfold ret at 1.
  unfold bind at 1. unfold _load_unlocked. unfold bind at 1, modify at 1.
  unfold bind at 1, log at 1, modify at 1. unfold bind at 1.
  destruct (attempt _ _) as [[mf3 [[[]|e]|e]]|]; [| |done|done].
  - unfold bind at 1, getmodule at 1.
    destruct (modules mf3 !! name) as [m|] eqn:Hm; [|done].
    unfold ret at 1. unfold bind at 1.
    destruct parent as [parent|].
    + unfold bind at 1, getmodule at 1.
      destruct (modules mf3 !! parent); [|done].
      unfold update_module, modify, ret. intros [= <- <-]. split; [done|].
      cbn. destruct (decide (parent = name)) as [->|Hp].
      * rewrite lookup_alter_eq, Hm. by eexists.
      * rewrite lookup_alter_ne by done. by eexists.
    + unfold ret. intros [= <- <-]. split; [done|by eexists].
  - unfold bind at 1, modify at 1. unfold bind at 1, log at 1, modify at 1.
    unfold raise. done.
Qed.

Lemma gcd_import_lands (fuel : nat) (name : string) (mf mf' : ModuleFinder)
    (n : string) :
  _gcd_import optimized normpath find_spec ia fuel name mf = Some (mf', Ok n) →
  n = name ∧ name ≠ "" ∧ is_Some (modules mf' !! name).
Proof.
  destruct fuel as [|fuel]; [done|]. cbn [_gcd_import].
  destruct (String.eqb name "") eqn:Hne; [done|].
  apply String.eqb_neq in Hne.
  unfold _find_and_load. unfold bind at 1, gets at 1.
  destruct (modules mf !! name) as [m|] eqn:Hm.
  { unfold ret. intros [= <- <-]. split_and!; [done|done|by eexists]. }
  unfold _find_and_load_unlocked.
  destruct (String.eqb (PyStr.rpartition_head name) "").
  { intros E. apply find_load_bind_lands in E as [-> H]. done. }
  unfold bind at 1, gets at 1. unfold bind at 1.
  match goal with
  | |- context [match ?c with Some _ => _ | None => None end = _ → _] =>
      destruct c as [[mf2 [[]|e]]|]; [|done|done]
  end.
  unfold bind at 1, gets at 1.
  destruct (modules mf2 !! name) as [m2|] eqn:Hm2.
  { unfold ret. intros [= <- <-]. split_and!; [done|done|by eexists]. }
  unfold bind at 1, getmodule at 1.
  destruct (modules mf2 !! PyStr.rpartition_head name) as [pm|]; [|done].
  destruct (mod_path pm); [|done].
  intros E. apply find_load_bind_lands in E as [-> H]. done.
Qed.

End Lands.

(** X7: once [import_as_module name] has ended normally, importing the
    same name again changes nothing at all: the call ends normally with
    the finder as it was, without asking a finder and without scanning
    any code, whatever nesting depth it is allowed. *)
Theorem import_again_is_noop (optimized : bool) (normpath : string → string)
    (find_spec : string → option (list string) → Res (option ModuleSpec))
    (ia : MFModuleType → string → bool)
    (fuel fuel' : nat) (name : string) (mf mf' : ModuleFinder) :
  import_as_module optimized normpath find_spec ia fuel name mf = Some (mf', Ok tt) →
  import_as_module optimized normpath find_spec ia (S fuel') name mf' = Some (mf', Ok tt).
Proof.
  unfold import_as_module at 1. unfold bind at 1. unfold __import__ at 1.
  unfold bind at 1.
  destruct (_gcd_import optimized normpath find_spec ia fuel name mf)
    as [[mf1 [n1|e1]]|] eqn:E1; [|done|done].
  rewrite bool_decide_eq_true_2 by done.
  destruct (_gcd_import optimized normpath find_spec ia fuel (PyStr.partition_head name) mf1)
    as [[mf2 [n2|e2]]|] eqn:E2; [|done|done].
  unfold ret. intros [= <-].
  destruct (gcd_import_lands _ _ _ _ _ _ _ _ _ E1) as (_ & Hne & [m1 Hm1]).
  destruct (gcd_import_lands _ _ _ _ _ _ _ _ _ E2) as (_ & Hhead & Hreg).
  destruct (keeps_registry _ _ _ _ _ _ (keeps_gcd_import _ _ _ _ _ _) E2 Hm1)
    as (m2 & Hm2 & _).
  unfold import_as_module, __import__. unfold bind at 1. unfold bind at 1.
  rewrite gcd_import_cached by (done || by eexists).
  rewrite bool_decide_eq_true_2 by done.
  by rewrite gcd_import_cached.
Qed.

Lemma import_again_is_noop_witness :
  ∃ mf',
    import_as_module false Posix.normpath (table_finder world_package) no_intrinsic_attr
      9 "a.module" (new_finder [] []) = Some (mf', Ok tt) ∧
    import_as_module false Posix.normpath (table_finder world_package) no_intrinsic_attr
      1 "a.module" mf' = Some (mf', Ok tt).
Proof.
  assert (∃ mf', import_as_module false Posix.normpath (table_finder world_package)
                   no_intrinsic_attr 9 "a.module" (new_finder [] [])
                 = Some (mf', Ok tt)) as [mf' E].
  { eexists. vm_compute. reflexivity. }
  exists mf'. split; [exact E|].
  exact (import_again_is_noop _ _ _ _ 9 0 _ _ _ E).
Defined.

(** *** Loading a file by path *)

(** X8: [_import_from_file], which [import_as_file] and [run_as_script]
    call.  With no spec for the path it raises [FileNotFoundError];
    with a spec and asserts enabled it raises [AttributeError] at the
    assertion on the new module's [__code__] (and [AssertionError] at
    the assertion on the loader when the spec has none); in these cases
    the finder is untouched.  With asserts compiled out, the new module
    is put under [name] in place of whatever was registered there and is
    not removed again however the call ends, also when the loader or the
    scan raises; it keeps the name, package and search path its spec
    gives it, and every other registered module keeps its record, its
    name sets at most growing. *)
Theorem import_from_file_registers (normpath : string → string)
    (find_spec : string → option (list string) → Res (option ModuleSpec))
    (ia : MFModuleType → string → bool)
    (fuel : nat) (name : string) (mf : ModuleFinder) :
  (∀ optimized,
     _import_from_file optimized normpath find_spec ia fuel name None mf
       = Some (mf, Raise FileNotFoundError)) ∧
  (∀ spec,
     _import_from_file false normpath find_spec ia fuel name (Some spec) mf
       = Some (mf, Raise (if has_loader spec then AttributeError else AssertionError))) ∧
  (∀ spec mf' r,
     _import_from_file true normpath find_spec ia fuel name (Some spec) mf
       = Some (mf', r) →
     (∃ m', modules mf' !! name = Some m' ∧
            mod_name m' = name ∧
            mod_package m' = spec_parent name spec ∧
            mod_path m' = submodule_search_locations spec) ∧
     (∀ k m, k ≠ name → modules mf !! k = Some m →
        ∃ m', modules mf' !! k = Some m' ∧ module_le m m')).
Proof.
  split_and!; [done|done|].
  intros spec mf' r E. unfold _import_from_file in E. cbn [negb] in E.
  unfold bind at 1, modify at 1 in E. unfold bind at 1, log at 1, modify at 1 in E.
  set (mf1 := log_event (EvRegister name)
                (set_modules (insert name (module_from_spec name spec)) mf)) in E.
  assert (modules mf1 !! name = Some (module_from_spec name spec)) as H1.
  { subst mf1. cbn. by rewrite lookup_insert_eq. }
  assert (registry_le (modules mf1) (modules mf')) as Hreg.
  { destruct (has_loader spec).
    - by pose proof (exec_module_keeps true normpath ia _
                       (keeps_gcd_import true normpath find_spec ia fuel)
                       name spec mf1 _ H1 (fresh_module_from_spec name spec) _ _ E)
        as (_ & _ & Hreg & _).
    - injection E as <- _. intros k m Hm. exists m. split; [done|apply module_le_refl]. }
  split.
  - destruct (Hreg _ _ H1) as (m' & Hm' & Hn & Hp & Hpath & _).
    exists m'. split_and!; done.
  - intros k m Hk Hm. apply Hreg. subst mf1. cbn. by rewrite lookup_insert_ne.
Qed.

Lemma import_from_file_registers_witness :
  ∃ mf' m',
    _import_from_file true Posix.normpath (table_finder []) no_intrinsic_attr 5 "m"
      (Some {| submodule_search_locations := None;
               get_code := CodeRaises SyntaxError |})
      sample_star_before = Some (mf', Raise SyntaxError) ∧
    modules mf' !! "m" = Some m' ∧ mod_name m' = "m" ∧
    is_Some (modules mf' !! "b").
Proof.
  destruct (import_from_file_registers Posix.normpath (table_finder [])
              no_intrinsic_attr 5 "m" sample_star_before) as (_ & _ & H).
  assert (∃ mf', _import_from_file true Posix.normpath (table_finder []) no_intrinsic_attr
                   5 "m"
                   (Some {| submodule_search_locations := None;
                            get_code := CodeRaises SyntaxError |})
                   sample_star_before = Some (mf', Raise SyntaxError)) as [mf' E].
  { eexists. vm_compute. reflexivity. }
  destruct (H _ _ _ E) as ((m' & Hm' & Hn & _) & Hothers).
  destruct (Hothers "b" (blank_module "b" (Some ["/t/b"]))) as (mb & Hb & _);
    [discriminate|reflexivity|].
  exists mf', m'. split_and!; [exact E|exact Hm'|exact Hn|by exists mb].
Defined.

(** *** Path replacement and the scan *)

Lemma bind_ext_at {A B} (c : Run A) (k k' : A → Run B) (mf : ModuleFinder) :
  (∀ a mf1, k a mf1 = k' a mf1) → bind c k mf = bind c k' mf.
Proof. intros H. unfold bind. destruct (c mf) as [[mf1 [a|e]]|]; [apply H|done|done]. Qed.

(** X9: path replacement touches file names only, so it cannot change
    what the analysis finds: scanning the rewritten code object runs
    exactly as scanning the original one, from any finder state and
    with any import machinery. *)
Theorem scan_ignores_path_replacement (optimized : bool) (normpath : string → string)
    (rules : list (string * string))
    (ia : MFModuleType → string → bool) (import_ : string → Run string)
    (module : string) (code : CodeType) (mf : ModuleFinder) :
  _scan_code optimized ia import_ module (_replace_paths_in_code normpath code rules) mf
  = _scan_code optimized ia import_ module code mf.
Proof.
  revert mf. induction code as [f s i ks IH] using CodeType_nested_ind. intros mf.
  cbn [_replace_paths_in_code _scan_code].
  apply bind_ext_at. intros _ mf1. apply bind_ext_at. intros _ mf2.
  revert mf2. induction IH as [|k ks Hk _ IHks]; intros mf2; [done|].
  destruct k as [|c]; cbn [map]; [apply IHks|].
  unfold bind. rewrite Hk.
  destruct (_scan_code optimized ia import_ module c mf2) as [[mf3 [[]|e]]|]; [|done|done].
  apply IHks.
Qed.

(** ** The report does not depend on the order of discovery *)

Lemma get_Some_wf {V} (d : PyDict.t V) (k : string) (v : V) :
  PyDict.wf d → PyDict.get k d = Some v ↔ (k, v) ∈ d.
Proof.
  unfold PyDict.wf, PyDict.keys. induction d as [|[k' v'] d IH]; intros Hwf.
  - cbn. split; [done|]. intros H. by apply elem_of_nil in H.
  - cbn [map fst] in Hwf. apply NoDup_cons in Hwf as [Hk' Hwf].
    cbn [PyDict.get]. destruct (String.eqb k k') eqn:E.
    + apply String.eqb_eq in E as ->. split.
      * intros [= ->]. apply elem_of_cons. by left.
      * intros [[= ->]|H]%elem_of_cons; [done|].
        exfalso. apply Hk'. apply list_elem_of_fmap. by exists (k', v).
    + apply String.eqb_neq in E. rewrite IH by done. split.
      * intros H. apply elem_of_cons. by right.
      * intros [[= -> ->]|H]%elem_of_cons; done.
Qed.

Lemma get_perm {V} (d1 d2 : PyDict.t V) (k : string) :
  PyDict.wf d1 → d1 ≡ₚ d2 → PyDict.get k d1 = PyDict.get k d2.
Proof.
  intros Hwf Hp.
  assert (PyDict.wf d2) as Hwf2.
  { unfold PyDict.wf, PyDict.keys in *. by rewrite <- Hp. }
  apply option_eq. intros v. rewrite !get_Some_wf by done. by rewrite Hp.
Qed.

Lemma verdict_perm (mf1 mf2 : ModuleFinder) (n : string) :
  PyDict.wf (bad_modules mf1) →
  bad_modules mf1 ≡ₚ bad_modules mf2 →
  modules mf1 = modules mf2 →
  (∀ x, x ∈ excludes mf1 ↔ x ∈ excludes mf2) →
  verdict mf1 n = verdict mf2 n.
Proof.
  intros Hwf Hp Hm Hx. unfold verdict, importers_of.
  rewrite (bool_decide_ext _ _ (Hx n)), Hm.
  by rewrite (get_perm _ _ n Hwf Hp).
Qed.

Lemma sort_unique (l1 l2 : list string) : l1 ≡ₚ l2 → PyStr.sort l1 = PyStr.sort l2.
Proof.
  intros Hp. apply (Sorted_unique String.le).
  - apply Sorted_merge_sort, _.
  - apply Sorted_merge_sort, _.
  - by rewrite !sort_perm.
Qed.

(** X10: the two lists of [any_missing_maybe] are sorted ascending,
    and they depend on what the failure record holds, not on the order
    in which the failures were recorded: two finders with the same
    registry, the same excluded names and the same entries in
    [bad_modules], in any order, give the same two lists. *)
Theorem any_missing_maybe_order_free (mf1 mf2 : ModuleFinder) :
  PyDict.wf (bad_modules mf1) →
  bad_modules mf1 ≡ₚ bad_modules mf2 →
  modules mf1 = modules mf2 →
  (∀ x, x ∈ excludes mf1 ↔ x ∈ excludes mf2) →
  Sorted String.le (any_missing_maybe mf1).1 ∧
  Sorted String.le (any_missing_maybe mf1).2 ∧
  any_missing_maybe mf2 = any_missing_maybe mf1.
Proof.
  intros Hwf Hp Hm Hx. rewrite !any_missing_maybe_unfold. cbn [fst snd].
  split_and!; [apply Sorted_merge_sort, _|apply Sorted_merge_sort, _|].
  assert (PyDict.keys (bad_modules mf2) ≡ₚ PyDict.keys (bad_modules mf1)) as Hk.
  { unfold PyDict.keys. by rewrite Hp. }
  assert (∀ (v : Verdict) (l : list string),
            filter (λ n, verdict mf2 n = v) l = filter (λ n, verdict mf1 n = v) l) as Hf.
  { intros v l. apply list_filter_iff. intros n.
    by rewrite (verdict_perm mf1 mf2 n). }
  f_equal; apply sort_unique; by rewrite Hk, Hf.
Qed.

Lemma any_missing_maybe_order_free_witness :
  any_missing_maybe sample_maybe_swapped = any_missing_maybe sample_maybe.
Proof.
  apply (any_missing_maybe_order_free sample_maybe sample_maybe_swapped).
  - by_eval.
  - symmetry. apply (reverse_Permutation (bad_modules sample_maybe)).
  - reflexivity.
  - reflexivity.
Defined.

(** ** The report over modules that are not [MFModuleType]s *)

Lemma any_missing_maybe_turn_typed (mf : ModuleFinder)
    (acc : list string * list string) (name : string) :
  (∀ pkg, modules mf !! PyStr.rpartition_head name = Some pkg → mod_typed pkg = true) →
  any_missing_maybe_turn mf acc name = Ok (any_missing_maybe_body mf acc name).
Proof.
  intros Ht. unfold any_missing_maybe_turn, any_missing_maybe_body.
  destruct acc as [missing maybe].
  destruct (bool_decide (name ∈ excludes mf)); [done|].
  destruct (negb (PyStr.contains_dot name)); [done|].
  destruct (modules mf !! PyStr.rpartition_head name) as [pkg|]; [|done].
  rewrite (Ht pkg eq_refl). cbn [negb].
  destruct (bool_decide (_ ∈ importers_of mf name)); [done|].
  destruct (bool_decide (_ ∈ mf_global_names pkg)); [done|].
  by destruct (negb (bool_decide (mf_star_imports pkg = ∅))).
Qed.

Lemma any_missing_maybe_loop_typed (mf : ModuleFinder) (names : list string)
    (acc : list string * list string) :
  (∀ name pkg, name ∈ names →
     modules mf !! PyStr.rpartition_head name = Some pkg → mod_typed pkg = true) →
  any_missing_maybe_loop mf names acc
  = Ok (fold_left (any_missing_maybe_body mf) names acc).
Proof.
  revert acc. induction names as [|name rest IH]; intros acc Ht; [done|].
  cbn [any_missing_maybe_loop fold_left].
  rewrite any_missing_maybe_turn_typed.
  - apply IH. intros n pkg Hn. apply Ht. by apply elem_of_cons; right.
  - intros pkg. apply Ht. by apply elem_of_cons; left.
Qed.

(** X19: the report and modules that are not [MFModuleType]s.  When
    the package of every recorded name, if registered, is an
    [MFModuleType], calling [any_missing_maybe] returns the two lists
    of the classifier.  A namespace package is registered as a plain
    module: after [from pkg.ns import x] in a scanned module, with
    [pkg/ns] a directory without [__init__.py] and without [x], the
    import run ends normally with [pkg.ns.x] on record, and the call of
    [any_missing_maybe] raises [AttributeError]. *)
Theorem report_needs_typed_packages (mf : ModuleFinder) :
  (∀ name pkg, name ∈ PyDict.keys (bad_modules mf) →
     modules mf !! PyStr.rpartition_head name = Some pkg → mod_typed pkg = true) →
  any_missing_maybe_call mf = Ok (any_missing_maybe mf) ∧
  ∃ mf',
    import_as_module false Posix.normpath (table_finder world_namespace_item)
      no_intrinsic_attr 5 "a" (new_finder [] []) = Some (mf', Ok tt) ∧
    PyDict.keys (bad_modules mf') = ["pkg.ns.x"] ∧
    (∃ ns, modules mf' !! "pkg.ns" = Some ns ∧ mod_typed ns = false) ∧
    any_missing_maybe_call mf' = Raise AttributeError.
Proof.
  intros Ht. split.
  - unfold any_missing_maybe_call, any_missing_maybe.
    rewrite any_missing_maybe_loop_typed by done.
    by destruct (fold_left _ _ _).
  - eexists. split_and!; [vm_compute; reflexivity|vm_compute; reflexivity| |].
    + eexists. split; vm_compute; reflexivity.
    + vm_compute. reflexivity.
Qed.

Lemma report_needs_typed_packages_witness :
  any_missing_maybe_call sample_maybe = Ok (any_missing_maybe sample_maybe).
Proof.
  apply (report_needs_typed_packages sample_maybe).
  intros name pkg Hn Hp. unfold sample_maybe in Hn. cbn in Hn.
  repeat (apply elem_of_cons in Hn as [->|Hn]);
    [..|by apply elem_of_nil in Hn]; vm_compute in Hp;
    try discriminate Hp; by injection Hp as <-.
Defined.

(** ** [_patch_attr] and [_patch_sys] put everything back *)

Section PatchFacts.
Context {V H A : Type}.
Implicit Types (body : @Block V H A) (obj sys : gmap string V) (h : H).

Lemma patch_attr_missing (attr : string) (new : V) body obj h :
  obj !! attr = None → _patch_attr attr new body obj h = Some (obj, h, Raise AttributeError).
Proof. intros Hn. unfold _patch_attr. by rewrite Hn. Qed.

Lemma patch_attr_present (attr : string) (new old : V) body obj h :
  obj !! attr = Some old →
  _patch_attr attr new body obj h =
    match body (<[attr := new]> obj) h with
    | Some (obj', h', r) => Some (<[attr := old]> obj', h', r)
    | None => None
    end.
Proof. intros Hn. unfold _patch_attr. by rewrite Hn. Qed.

Lemma patch_attr_restores (attr : string) (new : V) body obj h obj' h' (r : Res A) :
  _patch_attr attr new body obj h = Some (obj', h', r) →
  obj' !! attr = obj !! attr.
Proof.
  unfold _patch_attr. destruct (obj !! attr) as [old|] eqn:E.
  - destruct (body _ h) as [[[objb hb] rb]|]; [|done].
    intros [= <- _ _]. by rewrite lookup_insert_eq.
  - by intros [= <- _ _].
Qed.

Lemma insert_back (attr : string) (new old : V) obj :
  obj !! attr = Some old → <[attr := old]> (<[attr := new]> obj) = obj.
Proof. intros Ho. rewrite insert_insert_eq. by apply insert_id. Qed.

End PatchFacts.

Ltac patch_lookup :=
  repeat first
    [ rewrite lookup_insert_eq
    | rewrite lookup_insert_ne by (done || congruence) ].

(** Under [_patch_sys] the import machinery works on the finder's
    registry: a computation run inside the [with] statement runs on the
    finder as it stands, leaves the interpreter's own module table
    alone, and hands [sys] back as it was. *)
Lemma with_patch_sys_run {A : Type} (c : Run A) (sys : gmap string SysValue)
    (st : Interpreter) :
  (∀ x, x ∈ patched_names → is_Some (sys !! x)) →
  with_patch_sys c sys st =
    match c (finder st) with
    | Some (mf', r) => Some (sys, mkInterpreter (host_modules st) mf', r)
    | None => None
    end.
Proof.
  intros Hsys. unfold patched_names in Hsys.
  destruct (Hsys "modules") as [m Hm]; [repeat constructor|].
  destruct (Hsys "path") as [p Hp]; [repeat constructor|].
  destruct (Hsys "meta_path") as [mp Hmp]; [repeat constructor|].
  destruct (Hsys "path_hooks") as [hooks Hh]; [repeat constructor|].
  destruct (Hsys "path_importer_cache") as [cache Hc]; [repeat constructor|].
  unfold with_patch_sys, _patch_sys.
  rewrite (patch_attr_present _ _ m) by done.
  rewrite (patch_attr_present _ _ p) by (by patch_lookup).
  rewrite (patch_attr_present _ _ mp) by (by patch_lookup).
  patch_lookup. rewrite Hh.
  rewrite (patch_attr_present _ _ hooks) by (by patch_lookup).
  patch_lookup. rewrite Hc.
  rewrite (patch_attr_present _ _ cache) by (by patch_lookup).
  unfold via_sys. patch_lookup.
  destruct (c (finder st)) as [[mf' r]|]; [|done].
  rewrite insert_back by (by patch_lookup).
  rewrite insert_back by (by patch_lookup).
  rewrite insert_back by (by patch_lookup).
  rewrite insert_back by (by patch_lookup).
  by rewrite insert_back.
Qed.

(** X11: [with self._patch_sys(): body] leaves each of the five
    patched attributes of [sys] bound to what it was bound to before,
    however the body ends (normally or by raising) and whatever the
    body did to them.  If all five exist, the body runs once, on [sys]
    with [modules], [path] and [meta_path] bound to the finder's
    objects and [path_hooks] and [path_importer_cache] bound to copies;
    its outcome and everything else it did are passed on unchanged, and
    the statement ends exactly when the body does.  If one of the five
    is missing, the body is not run, [AttributeError] is raised and
    [sys] is as before. *)
Theorem patch_sys_restores {V H A : Type}
    (self_modules self_path self_meta_path : V) (copy_list copy_dict : V → V)
    (body : @Block V H A) (sys : gmap string V) (h : H) :
  let out := _patch_sys self_modules self_path self_meta_path copy_list copy_dict
               body sys h in
  (∀ sys' h' r, out = Some (sys', h', r) →
     ∀ a, a ∈ patched_names → sys' !! a = sys !! a) ∧
  (∀ m p mp hooks cache,
     sys !! "modules" = Some m → sys !! "path" = Some p →
     sys !! "meta_path" = Some mp → sys !! "path_hooks" = Some hooks →
     sys !! "path_importer_cache" = Some cache →
     let inside :=
       <["path_importer_cache" := copy_dict cache]>
         (<["path_hooks" := copy_list hooks]>
            (<["meta_path" := self_meta_path]>
               (<["path" := self_path]> (<["modules" := self_modules]> sys)))) in
     match body inside h with
     | Some (sysb, hb, rb) =>
         ∃ sys', out = Some (sys', hb, rb) ∧
                 ∀ a, a ∉ patched_names → sys' !! a = sysb !! a
     | None => out = None
     end) ∧
  ((∃ a, a ∈ patched_names ∧ sys !! a = None) →
   out = Some (sys, h, Raise AttributeError)).
Proof.
  intros out. subst out. unfold _patch_sys.
  destruct (sys !! "modules") as [m|] eqn:Hm.
  2:{ rewrite patch_attr_missing by done. split_and!; [by intros ? ? ? [= <- _ _]| |done].
      intros; discriminate. }
  rewrite (patch_attr_present _ _ m) by done.
  destruct (sys !! "path") as [p|] eqn:Hp.
  2:{ rewrite patch_attr_missing by (by patch_lookup).
      rewrite insert_back by done.
      split_and!; [by intros ? ? ? [= <- _ _]| |done]. intros; discriminate. }
  rewrite (patch_attr_present _ _ p) by (by patch_lookup).
  destruct (sys !! "meta_path") as [mp|] eqn:Hmp.
  2:{ rewrite patch_attr_missing by (by patch_lookup).
      rewrite insert_back by (by patch_lookup). rewrite insert_back by done.
      split_and!; [by intros ? ? ? [= <- _ _]| |done]. intros; discriminate. }
  rewrite (patch_attr_present _ _ mp) by (by patch_lookup).
  patch_lookup.
  destruct (sys !! "path_hooks") as [hooks|] eqn:Hh.
  2:{ rewrite insert_back by (by patch_lookup).
      rewrite insert_back by (by patch_lookup). rewrite insert_back by done.
      split_and!; [by intros ? ? ? [= <- _ _]| |done]. intros; discriminate. }
  rewrite (patch_attr_present _ _ hooks) by (by patch_lookup).
  patch_lookup.
  destruct (sys !! "path_importer_cache") as [cache|] eqn:Hc.
  2:{ rewrite insert_back by (by patch_lookup).
      rewrite insert_back by (by patch_lookup).
      rewrite insert_back by (by patch_lookup). rewrite insert_back by done.
      split_and!; [by intros ? ? ? [= <- _ _]| |done]. intros; discriminate. }
  rewrite (patch_attr_present _ _ cache) by (by patch_lookup).
  destruct (body _ h) as [[[sysb hb] rb]|] eqn:Eb.
  2:{ split_and!; [done| |].
      - intros m' p' mp' hooks' cache' [= <-] [= <-] [= <-] [= <-] [= <-].
        cbn zeta. by rewrite Eb.
      - intros (a & Ha & Hnone). unfold patched_names in Ha.
        repeat (apply elem_of_cons in Ha as [->|Ha]); [..|by apply elem_of_nil in Ha];
          congruence. }
  split_and!.
  - intros sys' h' r [= <- _ _] a Ha. unfold patched_names in Ha.
    repeat (apply elem_of_cons in Ha as [->|Ha]); [..|by apply elem_of_nil in Ha];
      by patch_lookup.
  - intros m' p' mp' hooks' cache' [= <-] [= <-] [= <-] [= <-] [= <-].
    cbn zeta. rewrite Eb. eexists. split; [done|].
    intros a Ha. unfold patched_names in Ha.
    apply not_elem_of_cons in Ha as [H1 Ha]. apply not_elem_of_cons in Ha as [H2 Ha].
    apply not_elem_of_cons in Ha as [H3 Ha]. apply not_elem_of_cons in Ha as [H4 Ha].
    apply not_elem_of_cons in Ha as [H5 _]. by patch_lookup.
  - intros (a & Ha & Hnone). unfold patched_names in Ha.
    repeat (apply elem_of_cons in Ha as [->|Ha]); [..|by apply elem_of_nil in Ha];
      congruence.
Qed.

Lemma patch_sys_restores_witness :
  ∃ sys',
    _patch_sys 100 200 300 (λ x, x + 1000) (λ x, x + 2000) sample_body sample_sys tt
      = Some (sys', tt, Raise KeyError) ∧
    sys' !! "modules" = Some 1 ∧ sys' !! "path" = Some 2 ∧ sys' !! "argv" = Some 60.
Proof.
  destruct (patch_sys_restores 100 200 300 (λ x, x + 1000) (λ x, x + 2000)
              sample_body sample_sys tt) as (H1 & H2 & _).
  destruct (H2 1 2 3 4 5 eq_refl eq_refl eq_refl eq_refl eq_refl)
    as (sys' & Hout & Hframe).
  exists sys'. split_and!.
  - exact Hout.
  - apply (H1 _ _ _ Hout "modules"). unfold patched_names. repeat constructor.
  - apply (H1 _ _ _ Hout "path"). unfold patched_names. repeat constructor.
  - rewrite (Hframe "argv"); [reflexivity|].
    unfold patched_names. intros Ha. by repeat (apply elem_of_cons in Ha as [?|Ha]);
      [..|apply elem_of_nil in Ha].
Defined.

(** ** Registration, cycles and termination *)

Lemma sound_trace {A} (c : Run A) (mf mf' : ModuleFinder) (r : Res A) :
  sound c → c mf = Some (mf', r) → ∃ tr, trace mf' = trace mf ++ tr.
Proof.
  intros Hc E. destruct (Hc _ _ _ E) as [(tr & Ht & _) _]. by exists tr.
Qed.

Section Begins.
Variable optimized : bool.
Variable normpath : string → string.
Variable find_spec : string → option (list string) → Res (option ModuleSpec).
Variable ia : MFModuleType → string → bool.

(** The loader of a module with code logs the start of the scan before
    anything else. *)
Lemma exec_module_begins (import_ : string → Run string) (name : string)
    (spec : ModuleSpec) (code : CodeType) (mf mf' : ModuleFinder) (r : Res unit) :
  (∀ n, sound (import_ n)) →
  get_code spec = GotCode code →
  (∀ m, modules mf !! name = Some m → mod_typed m = true) →
  exec_module optimized normpath ia import_ name spec mf = Some (mf', r) →
  ∃ tr, trace mf' = trace mf ++ EvScanBegin name :: tr.
Proof.
  intros Himp Hcode Htyped E. rewrite exec_module_typed in E by done.
  rewrite Hcode in E.
  unfold bind at 1, update_module at 1, modify at 1 in E.
  unfold bind at 1, gets at 1 in E.
  unfold bind at 1, update_module at 1, modify at 1 in E.
  unfold bind at 1, log at 1, modify at 1 in E. unfold bind at 1 in E.
  match type of E with
  | context [_scan_code ?o ?i ?imp ?n ?c ?st] =>
      destruct (_scan_code o i imp n c st) as [[mf5 r5]|] eqn:Escan; [|done]
  end.
  destruct (sound_trace _ _ _ _ (sound_scan_code optimized ia import_ Himp _ _) Escan)
    as [tr Htr].
  cbn [trace log_event set_modules] in Htr.
  destruct r5 as [[]|e]; injection E as <- _.
  - exists (tr ++ [EvScanEnd name]). cbn [trace log_event]. rewrite Htr.
    by rewrite <- !app_assoc.
  - exists tr. rewrite Htr. by rewrite <- !app_assoc.
Qed.

(** Importing a top-level module that is not registered and has code:
    the module is registered once it is found, and the scan of its
    code begins after that. *)
Lemma import_registers_first (fuel : nat) (name : string) (spec : ModuleSpec)
    (code : CodeType) (mf mf' : ModuleFinder) (r : Res unit) :
  top_level name → modules mf !! name = None →
  find_spec name None = Ok (Some spec) → get_code spec = GotCode code →
  import_as_module optimized normpath find_spec ia fuel name mf = Some (mf', r) →
  ∃ tr, trace mf' = trace mf ++ EvFind name :: EvRegister name :: EvScanBegin name :: tr.
Proof.
  intros Ht Hn Hspec Hcode E.
  assert (has_loader spec = true) as Hl by (unfold has_loader; by rewrite Hcode).
  assert (∀ mf1 r1,
            _gcd_import optimized normpath find_spec ia fuel name mf = Some (mf1, r1) →
            ∃ tr, trace mf1
                  = trace mf ++ EvFind name :: EvRegister name :: EvScanBegin name :: tr)
    as Hload.
  { intros mf1 r1 E1. destruct fuel as [|fuel]; [done|]. cbn [_gcd_import] in E1.
    rewrite (top_level_eqb name Ht) in E1.
    unfold _find_and_load in E1. unfold bind at 1, gets at 1 in E1. rewrite Hn in E1.
    unfold _find_and_load_unlocked in E1.
    rewrite top_level_rpartition_head in E1 by done. cbn [String.eqb] in E1.
    unfold find_load_bind, _find_spec in E1. unfold bind at 1 in E1.
    unfold bind at 1, log at 1, modify at 1 in E1.
    rewrite Hspec in E1. cbn [lift_res] in E1. unfold ret at 1 in E1.
    unfold bind at 1 in E1. unfold _load_unlocked in E1.
    unfold bind at 1, modify at 1 in E1. unfold bind at 1, log at 1, modify at 1 in E1.
    unfold bind at 1, attempt in E1. rewrite run_loader_loader in E1 by done.
    match type of E1 with
    | context [exec_module ?o ?np ?i ?imp ?n ?s ?st] =>
        destruct (exec_module o np i imp n s st) as [[mf3 r3]|] eqn:Ex; [|done]
    end.
    eapply exec_module_begins in Ex as [tr Htr];
      [|intros n; apply sound_gcd_import|exact Hcode|by apply registered_typed].
    cbn [trace log_event set_modules] in Htr.
    destruct r3 as [[]|e].
    - unfold bind at 1, getmodule at 1 in E1.
      destruct (modules mf3 !! name); unfold bind, ret in E1; injection E1 as <- _;
        exists tr; rewrite Htr; by rewrite <- !app_assoc.
    - unfold bind at 1, modify at 1 in E1. unfold bind at 1, log at 1, modify at 1 in E1.
      injection E1 as <- _. exists (tr ++ [EvUnregister name]).
      cbn [trace log_event set_modules]. rewrite Htr. by rewrite <- !app_assoc. }
  unfold import_as_module in E. unfold bind at 1 in E. unfold __import__ in E.
  unfold bind at 1 in E.
  destruct (_gcd_import optimized normpath find_spec ia fuel name mf)
    as [[mf1 [n1|e1]]|] eqn:E1; [| |done].
  - destruct (Hload _ _ eq_refl) as [tr Htr].
    rewrite bool_decide_eq_true_2 in E by done.
    destruct (_gcd_import optimized normpath find_spec ia fuel (PyStr.partition_head name) mf1)
      as [[mf2 r2]|] eqn:E2; [|done].
    destruct (sound_trace _ _ _ _ (sound_gcd_import _ _ _ _ _ _) E2) as [tr2 Htr2].
    exists (tr ++ tr2).
    assert (mf' = mf2) as -> by (destruct r2; by injection E as <- _).
    rewrite Htr2, Htr. by rewrite <- !app_assoc.
  - injection E as <- _. by apply (Hload _ _ eq_refl).
Qed.

(** The same for [_import_from_file] with asserts compiled out, which
    does the registration itself. *)
Lemma import_from_file_registers_first (fuel : nat) (name : string)
    (spec : ModuleSpec) (code : CodeType) (mf mf' : ModuleFinder) (r : Res unit) :
  optimized = true →
  get_code spec = GotCode code →
  _import_from_file optimized normpath find_spec ia fuel name (Some spec) mf
    = Some (mf', r) →
  ∃ tr, trace mf' = trace mf ++ EvRegister name :: EvScanBegin name :: tr.
Proof.
  intros Hopt Hcode E.
  assert (has_loader spec = true) as Hl by (unfold has_loader; by rewrite Hcode).
  assert (negb optimized = false) as Hn by (by rewrite Hopt).
  unfold _import_from_file in E. rewrite Hn, Hl in E.
  unfold bind at 1, modify at 1 in E. unfold bind at 1, log at 1, modify at 1 in E.
  eapply exec_module_begins in E as [tr Htr];
    [|intros n; apply sound_gcd_import|exact Hcode|by apply registered_typed].
  cbn [trace log_event set_modules] in Htr.
  exists tr. rewrite Htr. by rewrite <- !app_assoc.
Qed.

End Begins.

(** C6.  The registry is the dictionary [sys.modules] is bound to
    inside [_patch_sys], so that the registrations of the import
    machinery land in it (0).

    For [import_as_module] the claim holds.  (1) Along every run the
    scan of a module's code begins and ends only while the module is
    registered under its name, and no registered name is lost.  (2) A
    top-level module with code that is not registered yet is registered
    as soon as it is found, before the scan of its code begins.  (3) An
    import of a registered name, also one whose analysis is still going
    on, hands the registered module back without asking a finder or
    scanning anything.  (4) Over a file tree with finitely many modules
    every import ends: some depth of nested imports suffices, and any
    larger bound gives the same result.  (5) For top-level modules [a]
    and [b] whose code imports the other one, importing [a] ends with
    both registered, their bound names being the names their code
    stores, nothing filed as failed, and each module's code scanned
    exactly once.

    For [_import_from_file] it fails on an interpreter that checks
    assertions: (6) the call raises at the assertion on the fresh
    module's [__code__] (at the one on the loader, if there is none)
    before the module is registered; nothing is registered, nothing is
    analysed.  With asserts compiled out it holds: (7) runs respect
    (1); (8) the module is registered first and the scan of its code
    begins after that; (9) every call ends, as in (4); (10) the cycle
    of [a] and [b], entered through [_import_from_file], ends as in
    (5). *)
Theorem registered_before_analysed
    (optimized : bool) (normpath : string → string)
    (find_spec : string → option (list string) → Res (option ModuleSpec))
    (ia : MFModuleType → string → bool)
    (world : gset string)
    (a b fa fb : string) (sa sb : list string) :
  (∀ n path spec, find_spec n path = Ok (Some spec) → n ∈ world) →
  top_level a → top_level b → a ≠ b →
  find_spec a None = Ok (Some (source fa sa [imp b])) →
  find_spec b None = Ok (Some (source fb sb [imp a])) →
  (∀ (A : Type) (c : Run A) (sys : gmap string SysValue) (st : Interpreter),
     (∀ x, x ∈ patched_names → is_Some (sys !! x)) →
     with_patch_sys c sys st =
       match c (finder st) with
       | Some (mf', r) => Some (sys, mkInterpreter (host_modules st) mf', r)
       | None => None
       end) ∧
  (∀ fuel name mf mf' r,
     import_as_module optimized normpath find_spec ia fuel name mf = Some (mf', r) →
     (∃ tr, trace mf' = trace mf ++ tr ∧
            scans_registered (dom (modules mf)) tr ∧
            dom (modules mf') = replay (dom (modules mf)) tr) ∧
     dom (modules mf) ⊆ dom (modules mf')) ∧
  (∀ fuel name spec code mf mf' r,
     top_level name → modules mf !! name = None →
     find_spec name None = Ok (Some spec) → get_code spec = GotCode code →
     import_as_module optimized normpath find_spec ia fuel name mf = Some (mf', r) →
     ∃ tr, trace mf'
           = trace mf ++ EvFind name :: EvRegister name :: EvScanBegin name :: tr) ∧
  (∀ fuel n mf,
     n ≠ "" → is_Some (modules mf !! n) →
     _gcd_import optimized normpath find_spec ia (S fuel) n mf = Some (mf, Ok n)) ∧
  (∀ name mf,
     ∃ fuel mf' r, ∀ fuel', (fuel ≤ fuel')%nat →
       import_as_module optimized normpath find_spec ia fuel' name mf = Some (mf', r)) ∧
  (∀ fuel ex,
     ∃ mf',
       import_as_module optimized normpath find_spec ia (S (S (S fuel))) a (new_finder [] ex)
         = Some (mf', Ok tt) ∧
       modules mf' !! a = Some (analysed a (Code fa sa [imp b] [])) ∧
       modules mf' !! b = Some (analysed b (Code fb sb [imp a] [])) ∧
       dom (modules mf') = {[a; b]} ∧
       bad_modules mf' = [] ∧
       trace mf' = [EvFind a; EvRegister a; EvScanBegin a;
                    EvFind b; EvRegister b; EvScanBegin b; EvScanEnd b;
                    EvScanEnd a]) ∧
  (optimized = false →
   ∀ fuel name spec mf,
     _import_from_file optimized normpath find_spec ia fuel name (Some spec) mf
       = Some (mf, Raise (if has_loader spec then AttributeError else AssertionError))) ∧
  (optimized = true →
   (∀ fuel name spec mf mf' r,
      _import_from_file optimized normpath find_spec ia fuel name spec mf = Some (mf', r) →
      (∃ tr, trace mf' = trace mf ++ tr ∧
             scans_registered (dom (modules mf)) tr ∧
             dom (modules mf') = replay (dom (modules mf)) tr) ∧
      dom (modules mf) ⊆ dom (modules mf')) ∧
   (∀ fuel name spec code mf mf' r,
      get_code spec = GotCode code →
      _import_from_file optimized normpath find_spec ia fuel name (Some spec) mf
        = Some (mf', r) →
      ∃ tr, trace mf' = trace mf ++ EvRegister name :: EvScanBegin name :: tr) ∧
   (∀ name spec mf,
      ∃ fuel mf' r, ∀ fuel', (fuel ≤ fuel')%nat →
        _import_from_file optimized normpath find_spec ia fuel' name spec mf
          = Some (mf', r)) ∧
   (∀ fuel ex,
      ∃ mf',
        _import_from_file optimized normpath find_spec ia (S (S fuel)) a
          (Some (source fa sa [imp b])) (new_finder [] ex) = Some (mf', Ok tt) ∧
        modules mf' !! a = Some (analysed a (Code fa sa [imp b] [])) ∧
        modules mf' !! b = Some (analysed b (Code fb sb [imp a] [])) ∧
        dom (modules mf') = {[a; b]} ∧
        bad_modules mf' = [] ∧
        trace mf' = [EvRegister a; EvScanBegin a;
                     EvFind b; EvRegister b; EvScanBegin b; EvScanEnd b;
                     EvScanEnd a])).
Proof.
  intros Hw Ha Hb Hab Hfa Hfb. split_and!.
  - intros A c sys st. apply with_patch_sys_run.
  - intros fuel name mf mf' r E.
    exact (sound_import_as_module optimized normpath find_spec ia fuel name mf mf' r E).
  - intros fuel name spec code mf mf' r. apply import_registers_first.
  - intros fuel n mf. apply gcd_import_cached.
  - intros name mf. by apply (import_as_module_halts _ _ _ _ world).
  - intros fuel ex. by apply cycle_run.
  - intros Hopt fuel name spec mf. unfold _import_from_file. by rewrite Hopt.
  - intros Hopt. split_and!.
    + intros fuel name spec mf mf' r E.
      exact (sound_import_from_file optimized normpath find_spec ia fuel name spec
               mf mf' r E).
    + intros fuel name spec code mf mf' r. by apply import_from_file_registers_first.
    + intros name spec mf. by apply (import_from_file_halts _ _ _ _ world).
    + intros fuel ex. by apply cycle_from_file.
Qed.

Lemma registered_before_analysed_witness :
  ∃ mf',
    _import_from_file true Posix.normpath (table_finder world_cycle) no_intrinsic_attr
      2 "a" (Some (source "/t/a.py" ["b"; "x"] [imp "b"])) (new_finder [] [])
      = Some (mf', Ok tt) ∧
    dom (modules mf') = {["a"; "b"]} ∧
    trace mf' = [EvRegister "a"; EvScanBegin "a";
                 EvFind "b"; EvRegister "b"; EvScanBegin "b"; EvScanEnd "b";
                 EvScanEnd "a"].
Proof.
  destruct (registered_before_analysed true Posix.normpath (table_finder world_cycle)
              no_intrinsic_attr (list_to_set (PyDict.keys world_cycle))
              "a" "b" "/t/a.py" "/t/b.py" ["b"; "x"] ["a"; "y"])
    as (_ & _ & _ & _ & _ & _ & _ & H).
  - apply table_finder_world.
  - split; [discriminate|reflexivity].
  - split; [discriminate|reflexivity].
  - discriminate.
  - reflexivity.
  - reflexivity.
  - destruct (H eq_refl) as (_ & _ & _ & Hc).
    destruct (Hc 0 []) as (mf' & H1 & _ & _ & H4 & _ & H6).
    exists mf'. split_and!; assumption.
Defined.

(** [run_as_script] on a default interpreter: the call raises under
    [_patch_sys], and the registry stays empty. *)
Example run_as_script_raises :
  with_patch_sys
    (_import_from_file false Posix.normpath (table_finder world_cycle) no_intrinsic_attr
       5 "__main__" (Some (source "/t/a.py" ["b"; "x"] [imp "b"])))
    host_sys (mkInterpreter ∅ (new_finder [] []))
  = Some (host_sys, mkInterpreter ∅ (new_finder [] []), Raise AttributeError).
Proof. vm_compute. reflexivity. Qed.

(** ** The legacy finder against the current one *)

Lemma new_filename_rewrite (s : string) (rules : list (string * string)) :
  LegacyFinder.new_filename s rules = rewrite_filename s rules.
Proof.
  induction rules as [|[f r] rules IH]; cbn [LegacyFinder.new_filename rewrite_filename];
    [done|].
  unfold PyStr.startswith. destruct (String.prefix f s) eqn:E; [|done].
  rewrite replace1_prefix by done. unfold LegacyFinder.removeprefix. by rewrite E.
Qed.

Lemma noted_refl (debug : Z) (st : LegacyFinder.DebugState) : noted debug st st.
Proof.
  unfold noted. split_and!; [done|done|done|]. destruct (2 <=? debug)%Z; lia.
Qed.

Lemma noted_trans (debug : Z) (st1 st2 st3 : LegacyFinder.DebugState) :
  noted debug st1 st2 → noted debug st2 st3 → noted debug st1 st3.
Proof.
  intros (P1 & N1 & D1 & I1) (P2 & N2 & D2 & I2). unfold noted. split_and!.
  - by etrans.
  - auto.
  - intros Hd. by rewrite D2, D1.
  - rewrite I2, I1. destruct (2 <=? debug)%Z; lia.
Qed.

Lemma note_path_noted (debug : Z) (f : string) (st : LegacyFinder.DebugState) :
  noted debug st (LegacyFinder.note_path debug f st).
Proof.
  unfold LegacyFinder.note_path.
  destruct (debug =? 0)%Z eqn:Ed; cbn [negb andb]; [apply noted_refl|].
  case_bool_decide as Hin; cbn [negb]; [apply noted_refl|].
  apply Z.eqb_neq in Ed. unfold noted, LegacyFinder.msgout.
  destruct (2 <=? debug)%Z; cbn; split_and!.
  - by apply prefix_app_r.
  - intros Hnd. apply NoDup_app. split_and!; [done| |apply NoDup_singleton].
    intros x Hx ->%list_elem_of_singleton. done.
  - done.
  - rewrite length_app. cbn. lia.
  - by apply prefix_app_r.
  - intros Hnd. apply NoDup_app. split_and!; [done| |apply NoDup_singleton].
    intros x Hx ->%list_elem_of_singleton. done.
  - done.
  - lia.
Qed.

Lemma note_path_elem (debug : Z) (f : string) (st : LegacyFinder.DebugState) :
  debug ≠ 0%Z →
  f ∈ LegacyFinder.processed_paths (LegacyFinder.note_path debug f st).
Proof.
  intros Hd. unfold LegacyFinder.note_path.
  rewrite (proj2 (Z.eqb_neq debug 0) Hd). cbn [negb andb].
  case_bool_decide as Hin; cbn [negb]; [done|].
  cbn. apply elem_of_app. right. by apply list_elem_of_singleton.
Qed.

Lemma noted_elem (debug : Z) (st st' : LegacyFinder.DebugState) (f : string) :
  noted debug st st' →
  f ∈ LegacyFinder.processed_paths st → f ∈ LegacyFinder.processed_paths st'.
Proof. intros ([k ->] & _) Hf. apply elem_of_app. by left. Qed.

Lemma replace_paths_in_code_spec (normpath : string → string) (debug : Z)
    (rules : list (string * string)) (co : CodeType) (st : LegacyFinder.DebugState) :
  (LegacyFinder.replace_paths_in_code normpath debug rules co st).1
    = _replace_paths_in_code normpath co rules ∧
  noted debug st (LegacyFinder.replace_paths_in_code normpath debug rules co st).2 ∧
  (debug ≠ 0%Z → ∀ f, f ∈ all_filenames co →
     normpath f ∈ LegacyFinder.processed_paths
                    (LegacyFinder.replace_paths_in_code normpath debug rules co st).2).
Proof.
  revert st. induction co as [f s i ks IH] using CodeType_nested_ind. intros st.
  cbn [LegacyFinder.replace_paths_in_code _replace_paths_in_code all_filenames].
  set (st0 := LegacyFinder.note_path debug (normpath f) st).
  match goal with
  | |- context [?g ks st0] => set (go := g)
  end.
  assert (∀ st1,
            (go ks st1).1 = map (λ const, match const with
                                         | KCode c => KCode (_replace_paths_in_code normpath c rules)
                                         | KOther => KOther
                                         end) ks ∧
            noted debug st1 (go ks st1).2 ∧
            (debug ≠ 0%Z → ∀ x,
               x ∈ concat (map (λ const, match const with
                                         | KCode c => all_filenames c
                                         | KOther => []
                                         end) ks) →
               normpath x ∈ LegacyFinder.processed_paths (go ks st1).2)) as Hgo.
  { clear st st0. induction IH as [|k ks Hk _ IHks]; intros st1.
    - cbn. split_and!; [done|apply noted_refl|].
      intros _ x Hx. by apply elem_of_nil in Hx.
    - destruct k as [|c].
      + cbn [go map concat app]. fold go.
        destruct (IHks st1) as (H1 & H2 & H3).
        destruct (go ks st1) as [r' st2]. cbn in *. split_and!; [by f_equal|done|done].
      + cbn [go map concat]. fold go.
        destruct (Hk st1) as (K1 & K2 & K3).
        destruct (LegacyFinder.replace_paths_in_code normpath debug rules c st1)
          as [c' st2]. cbn [fst snd] in *.
        destruct (IHks st2) as (H1 & H2 & H3).
        destruct (go ks st2) as [r' st3]. cbn [fst snd] in *. split_and!.
        * by rewrite K1, H1.
        * by eapply noted_trans.
        * intros Hd x [Hx|Hx]%elem_of_app; [|by apply H3].
          eapply noted_elem; [exact H2|]. by apply K3. }
  destruct (Hgo st0) as (H1 & H2 & H3).
  destruct (go ks st0) as [ks' st1]. cbn [fst snd] in *. split_and!.
  - rewrite new_filename_rewrite. by rewrite H1.
  - eapply noted_trans; [apply note_path_noted|done].
  - intros Hd x [->|Hx]%elem_of_cons; [|by apply H3].
    eapply noted_elem; [exact H2|]. by apply note_path_elem.
Qed.

(** X12: the legacy [replace_paths_in_code] returns the very code
    object the current [_replace_paths_in_code] returns, for every code
    object, rule list and debug level ([r + s.removeprefix(f)] and
    [s.replace(f, r, 1)] agree whenever [s] starts with [f]).  Its
    bookkeeping stays out of the result: with [debug = 0] the finder is
    untouched; otherwise [processed_paths] is only appended to, gets no
    path twice, and ends up holding the normalised file name of every
    code object in the tree, and [indent] drops by one per appended
    path exactly when [debug >= 2]. *)
Theorem legacy_replace_paths_agrees (normpath : string → string) (debug : Z)
    (rules : list (string * string)) (co : CodeType) (st : LegacyFinder.DebugState) :
  let out := LegacyFinder.replace_paths_in_code normpath debug rules co st in
  out.1 = _replace_paths_in_code normpath co rules ∧
  (debug = 0%Z → out.2 = st) ∧
  LegacyFinder.processed_paths st `prefix_of` LegacyFinder.processed_paths out.2 ∧
  (NoDup (LegacyFinder.processed_paths st) → NoDup (LegacyFinder.processed_paths out.2)) ∧
  (debug ≠ 0%Z → ∀ f, f ∈ all_filenames co →
     normpath f ∈ LegacyFinder.processed_paths out.2) ∧
  ((debug < 2)%Z → LegacyFinder.indent out.2 = LegacyFinder.indent st) ∧
  ((2 ≤ debug)%Z →
   LegacyFinder.indent out.2 =
     (LegacyFinder.indent st -
      (Z.of_nat (length (LegacyFinder.processed_paths out.2)) -
       Z.of_nat (length (LegacyFinder.processed_paths st))))%Z).
Proof.
  intros out. subst out.
  destruct (replace_paths_in_code_spec normpath debug rules co st)
    as (H1 & (P & N & D & I) & H3).
  split_and!; [done|done|done|done|done| |].
  - intros Hd. rewrite I. rewrite (proj2 (Z.leb_gt 2 debug)) by lia. lia.
  - intros Hd. rewrite I. by rewrite (proj2 (Z.leb_le 2 debug)) by lia.
Qed.

Lemma legacy_replace_paths_agrees_witness :
  let out := LegacyFinder.replace_paths_in_code Posix.normpath 2 [("/t", "/srv")]
               sample_two_files (LegacyFinder.mkDebug 0 ["/t/m.py"]) in
  "/u/n.py" ∈ LegacyFinder.processed_paths out.2 ∧
  NoDup (LegacyFinder.processed_paths out.2) ∧
  LegacyFinder.indent out.2 = (-1)%Z.
Proof.
  intros out.
  destruct (legacy_replace_paths_agrees Posix.normpath 2 [("/t", "/srv")]
              sample_two_files (LegacyFinder.mkDebug 0 ["/t/m.py"]))
    as (_ & _ & _ & Hnd & Hin & _ & Hind).
  split_and!.
  - apply (Hin ltac:(discriminate) "/u/n.py"). vm_compute. repeat constructor.
  - apply Hnd. cbn. apply NoDup_singleton.
  - subst out. rewrite Hind by lia. vm_compute. reflexivity.
Defined.

(** *** The two classifiers *)

Lemma rfind_dot_rpartition (s : string) :
  match LegacyFinder.rfind_dot s with
  | None => PyStr.rpartition s = None
  | Some i =>
      PyStr.rpartition s = Some (LegacyFinder.take i s, PyStr.drop (i + 1) s)
  end.
Proof.
  induction s as [|c r IH]; [done|].
  cbn [LegacyFinder.rfind_dot PyStr.rpartition].
  destruct (LegacyFinder.rfind_dot r) as [i|].
  - rewrite IH. reflexivity.
  - rewrite IH. destruct (PyStr.is_dot c); [|done]. cbn. by destruct r.
Qed.

Lemma legacy_body_agrees (mf : ModuleFinder) (acc : list string * list string)
    (name : string) :
  LegacyFinder.any_missing_maybe_body mf acc name = any_missing_maybe_body mf acc name.
Proof.
  unfold LegacyFinder.any_missing_maybe_body, any_missing_maybe_body.
  destruct acc as [missing maybe]. case_bool_decide; [done|].
  pose proof (rfind_dot_rpartition name) as Hr.
  unfold PyStr.rpartition_head, PyStr.rpartition_tail.
  destruct (LegacyFinder.rfind_dot name) as [i|].
  - destruct (PyStr.contains_dot name) eqn:E.
    + cbn [negb]. by rewrite Hr.
    + apply rpartition_None in E. congruence.
  - apply rpartition_None in Hr. by rewrite Hr.
Qed.

Lemma legacy_fold_agrees (mf : ModuleFinder) (l : list string)
    (acc : list string * list string) :
  fold_left (LegacyFinder.any_missing_maybe_body mf) l acc
  = fold_left (any_missing_maybe_body mf) l acc.
Proof.
  revert acc. induction l as [|x l IH]; intros acc; [done|].
  cbn [fold_left]. by rewrite legacy_body_agrees.
Qed.

Lemma legacy_any_missing_maybe_eq (mf : ModuleFinder) :
  LegacyFinder.any_missing_maybe mf = any_missing_maybe mf.
Proof.
  unfold LegacyFinder.any_missing_maybe, any_missing_maybe.
  by rewrite legacy_fold_agrees.
Qed.

Lemma legacy_any_missing_eq (mf : ModuleFinder) :
  LegacyFinder.any_missing mf = (any_missing_maybe mf).1 ++ (any_missing_maybe mf).2.
Proof.
  unfold LegacyFinder.any_missing. rewrite legacy_any_missing_maybe_eq.
  by destruct (any_missing_maybe mf).
Qed.

(** X13: the legacy classifier and the current one agree.  On every
    finder state the legacy [any_missing_maybe], which splits a failed
    name at [name.rfind(".")], returns the same two lists as the
    current [any_missing_maybe], which uses [name.rpartition(".")]; and
    the legacy [any_missing] is the first list followed by the second,
    so that over a well-formed failure record it names no module
    twice. *)
Theorem legacy_any_missing_agrees (mf : ModuleFinder) :
  LegacyFinder.any_missing_maybe mf = any_missing_maybe mf ∧
  LegacyFinder.any_missing mf = (any_missing_maybe mf).1 ++ (any_missing_maybe mf).2 ∧
  (PyDict.wf (bad_modules mf) → NoDup (LegacyFinder.any_missing mf)).
Proof.
  split_and!; [apply legacy_any_missing_maybe_eq|apply legacy_any_missing_eq|].
  intros Hwf. rewrite legacy_any_missing_eq. unfold PyDict.wf in Hwf.
  rewrite any_missing_maybe_unfold. cbn [fst snd].
  apply NoDup_app. split_and!.
  - rewrite sort_perm. by apply NoDup_filter.
  - intros x. rewrite !sort_perm, !list_elem_of_filter.
    intros [E _] [E' _]. congruence.
  - rewrite sort_perm. by apply NoDup_filter.
Qed.

Lemma legacy_any_missing_agrees_witness : NoDup (LegacyFinder.any_missing sample_maybe).
Proof.
  destruct (legacy_any_missing_agrees sample_maybe) as (_ & _ & H).
  apply H. by_eval.
Defined.

(** *** Excluded names in the legacy finder *)

Lemma excluded_not_reported (mf : ModuleFinder) (name : string) :
  name ∈ excludes mf → name ∉ LegacyFinder.any_missing mf.
Proof.
  intros Hx. rewrite legacy_any_missing_eq.
  intros [H|H]%elem_of_app.
  - apply elem_of_missing in H as [H _]. unfold verdict in H.
    by rewrite bool_decide_eq_true_2 in H.
  - apply elem_of_maybe in H as [H _]. unfold verdict in H.
    by rewrite bool_decide_eq_true_2 in H.
Qed.

Section LegacyExcludes.
Variable path : list string.
Variable builtin_module_names : list string.
Variable path_find : string → list string → PathFound.
Variable suffixes : list string.
Variable listdir : string → option (list string).
Variable intrinsic_attr : MFModuleType → string → bool.
Variable load_module : string → option ModuleSpec → Run string.

Lemma import_module_excluded (head : string) (mf : ModuleFinder) :
  head ∈ excludes mf → modules mf !! head = None →
  import_module path builtin_module_names path_find load_module head head None mf
    = Some (mf, Ok None).
Proof.
  intros Hx Hn. unfold import_module. unfold bind at 1, gets at 1. rewrite Hn.
  unfold bind at 1, gets at 1. case_bool_decide; [done|].
  unfold bind at 1, ret at 1. cbn [mjoin option_join].
  unfold bind at 1, attempt, find_module. unfold bind at 1, ret at 1.
  unfold bind at 1, gets at 1. by rewrite bool_decide_eq_true_2.
Qed.

Lemma import_hook_excluded (name : string) (caller : option string)
    (fromlist : option (list string)) (level : Z) (mf : ModuleFinder) :
  (level = 0%Z ∨ caller = None) →
  match caller with Some c => is_Some (modules mf !! c) | None => True end →
  PyStr.partition_head name ∈ excludes mf →
  modules mf !! PyStr.partition_head name = None →
  import_hook path builtin_module_names path_find suffixes listdir intrinsic_attr
    load_module name caller fromlist level mf = Some (mf, Raise ImportError).
Proof.
  intros Hl Hc Hx Hn. unfold import_hook.
  unfold bind at 1. unfold determine_parent.
  unfold bind at 1, gets at 1. unfold bind at 1.
  assert (∀ cm, Legacy.determine_parent (to_legacy <$> modules mf) cm level = Ok None
                ∨ caller = None) as Hdp.
  { intros cm. destruct Hl as [->|Hl]; [left|by right]. by destruct cm. }
  destruct caller as [c|].
  - destruct Hc as [cm Hcm]. unfold bind at 1, getmodule at 1. rewrite Hcm.
    unfold ret at 1. destruct (Hdp (Some (to_legacy cm))) as [->|]; [|done].
    unfold bind at 1, lift_res, ret at 1. unfold ret at 1. cbn [fmap option_fmap option_map].
    unfold find_head_package. unfold bind at 1. unfold bind at 1, ret at 1.
    unfold bind at 1. rewrite import_module_excluded by done. done.
  - unfold ret at 1. cbn [Legacy.determine_parent].
    unfold bind at 1, lift_res, ret at 1. unfold ret at 1. cbn [fmap option_fmap option_map].
    unfold find_head_package. unfold bind at 1. unfold bind at 1, ret at 1.
    unfold bind at 1. rewrite import_module_excluded by done. done.
Qed.

End LegacyExcludes.

(** X14: the legacy finder honours [excludes] at lookup.  For an
    absolute import ([level = 0], or no caller) of a name whose first
    component is excluded and not registered, [_safe_import_hook] ends
    normally without asking the path finder and without loading
    anything, whatever the file system holds: the registry and the
    trace of finder calls are unchanged, and the name as written is
    recorded in [badmodules] with the caller's name (["-"] without a
    caller) among its importers.  If the name itself is excluded,
    [any_missing] does not report it. *)
Theorem legacy_excluded_not_looked_up
    (path builtin_module_names : list string)
    (path_find : string → list string → PathFound)
    (suffixes : list string) (listdir : string → option (list string))
    (intrinsic_attr : MFModuleType → string → bool)
    (load_module : string → option ModuleSpec → Run string)
    (name : string) (caller : option string) (fromlist : option (list string))
    (level : Z) (mf : ModuleFinder) :
  (level = 0%Z ∨ caller = None) →
  match caller with Some c => is_Some (modules mf !! c) | None => True end →
  PyStr.partition_head name ∈ excludes mf →
  modules mf !! PyStr.partition_head name = None →
  let importer := match caller with
                  | Some c => default "-" (mod_name <$> modules mf !! c)
                  | None => "-"
                  end in
  ∃ mf',
    _safe_import_hook path builtin_module_names path_find suffixes listdir
      intrinsic_attr load_module name caller fromlist level mf = Some (mf', Ok tt) ∧
    modules mf' = modules mf ∧ trace mf' = trace mf ∧ excludes mf' = excludes mf ∧
    bad_modules mf' =
      PyDict.setdefault_apply name ∅ (λ s, s ∪ {[importer]}) (bad_modules mf) ∧
    importer ∈ importers_of mf' name ∧
    (name ∈ excludes mf → name ∉ LegacyFinder.any_missing mf').
Proof.
  intros Hl Hc Hx Hn importer.
  exists (set_bad_modules
            (PyDict.setdefault_apply name ∅ (λ s, s ∪ {[importer]})) mf).
  assert (_add_badmodule name caller mf
          = Some (set_bad_modules
                    (PyDict.setdefault_apply name ∅ (λ s, s ∪ {[importer]})) mf, Ok tt))
    as Hadd.
  { unfold _add_badmodule. subst importer. destruct caller as [c|]; [|done].
    destruct Hc as [cm Hcm]. unfold bind, getmodule. by rewrite Hcm. }
  split_and!; [|done|done|done|done| |].
  - unfold _safe_import_hook. unfold bind at 1, gets at 1.
    case_bool_decide; [done|].
    unfold bind at 1, attempt.
    rewrite import_hook_excluded by done. done.
  - unfold importers_of. cbn [bad_modules set_bad_modules].
    rewrite get_setdefault_apply_eq.
    destruct (PyDict.get name (bad_modules mf)); cbn;
      apply elem_of_union_r; by apply elem_of_singleton.
  - intros Hex. by apply excluded_not_reported.
Qed.

Lemma legacy_excluded_not_looked_up_witness :
  ∃ mf',
    _safe_import_hook ["/t"] [] (λ _ _, SpecFound plain_spec) [".py"] (λ _, None)
      no_intrinsic_attr (λ n _, ret n) "secret.part" (Some "m") None 0
      sample_excluding = Some (mf', Ok tt) ∧
    bad_modules mf' = [("secret.part", {["m"]})] ∧ trace mf' = [].
Proof.
  destruct (legacy_excluded_not_looked_up ["/t"] [] (λ _ _, SpecFound plain_spec)
              [".py"] (λ _, None) no_intrinsic_attr (λ n _, ret n)
              "secret.part" (Some "m") None 0 sample_excluding)
    as (mf' & E & _ & Ht & _ & Hb & _).
  - by left.
  - by exists (blank_module "m" None).
  - vm_compute. repeat constructor.
  - reflexivity.
  - exists mf'. split_and!; [exact E| |exact Ht].
    rewrite Hb. vm_compute. reflexivity.
Defined.

(** The hook on names that are registered: [import a.b] hands back the
    head package [a], asks no finder and loads nothing. *)
Example legacy_import_hook_cached :
  import_hook ["/t"] [] (λ _ _, NoSpec) [".py"] (λ _, None) no_intrinsic_attr
    (λ n _, raise AssertionError) "a.b" None None 0
    (set_modules (insert "a.b" (blank_module "a.b" None))
       (set_modules (insert "a" (blank_module "a" (Some ["/t/a"]))) (new_finder [] [])))
  = Some (set_modules (insert "a.b" (blank_module "a.b" None))
            (set_modules (insert "a" (blank_module "a" (Some ["/t/a"])))
               (new_finder [] [])),
          Ok (Some "a")).
Proof. vm_compute. reflexivity. Qed.

(** ** What a scan never raises *)

Lemma quiet_ret {A} (a : A) : quiet (ret a).
Proof. intros mf mf' e E. discriminate E. Qed.

Lemma quiet_modify (f : ModuleFinder → ModuleFinder) : quiet (modify f).
Proof. intros mf mf' e E. discriminate E. Qed.

Lemma quiet_gets {A} (f : ModuleFinder → A) : quiet (gets f).
Proof. intros mf mf' e E. discriminate E. Qed.

Lemma quiet_getmodule (name : string) : quiet (getmodule name).
Proof.
  intros mf mf' e E. unfold getmodule in E.
  destruct (modules mf !! name); [discriminate E|]. by injection E as _ <-.
Qed.

Lemma quiet_attempt {A} (c : Run A) : quiet (attempt c).
Proof. intros mf mf' e E. unfold attempt in E. by destruct (c mf) as [[]|]. Qed.

Lemma quiet_raise {A} (e : Exc) : caught_by_scan e = false → quiet (@raise A e).
Proof. intros He mf mf' e' E. by injection E as <- <-. Qed.

Lemma quiet_bind {A B} (c : Run A) (k : A → Run B) :
  quiet c → (∀ a, quiet (k a)) → quiet (bind c k).
Proof.
  intros Hc Hk mf mf' e E. unfold bind in E.
  destruct (c mf) as [[mf1 [a|e1]]|] eqn:E1; [|injection E as <- <-|done].
  - by eapply Hk.
  - by eapply Hc.
Qed.

Lemma quiet_for_each {A} (body : A → Run unit) (l : list A) :
  (∀ x, quiet (body x)) → quiet (for_each body l).
Proof.
  intros Hb. induction l as [|x l IH]; cbn [for_each]; [apply quiet_ret|].
  apply quiet_bind; [apply Hb|]. intros _. exact IH.
Qed.

Section QuietScan.
Variable optimized : bool.
Variable ia : MFModuleType → string → bool.
Variable import_ : string → Run string.

Lemma quiet_star_import (module name : string) : quiet (star_import optimized module name).
Proof.
  unfold star_import. apply quiet_bind; [apply quiet_gets|]. intros mods.
  destruct (mods !! name) as [cm|]; [|apply quiet_modify].
  destruct (negb (mod_typed cm)); [apply quiet_raise; by destruct optimized|].
  apply quiet_bind; [apply quiet_modify|]. intros _.
  apply quiet_bind; [apply quiet_modify|]. intros _.
  destruct (mod_code cm); [apply quiet_ret|apply quiet_modify].
Qed.

Lemma quiet_record_missing_fromlist (module name result_module : string)
    (fromlist : list string) :
  quiet (record_missing_fromlist ia module name result_module fromlist).
Proof.
  unfold record_missing_fromlist. apply quiet_bind; [apply quiet_getmodule|].
  intros result. destruct (hasattr ia result "__path__"); [|apply quiet_ret].
  apply quiet_for_each. intros x.
  apply quiet_bind; [apply quiet_getmodule|]. intros r.
  destruct (hasattr ia r x); [apply quiet_ret|apply quiet_modify].
Qed.

Lemma quiet_try_import (module : string) (d : ImportDirective) (fromlist : list string) :
  quiet (try_import ia import_ module d fromlist).
Proof.
  unfold try_import. destruct (0 <? imp_level d)%Z.
  - apply quiet_bind; [apply quiet_getmodule|]. intros m.
    destruct (resolve_relative m (imp_name d) (imp_level d)); [|apply quiet_ret].
    apply quiet_bind; [apply quiet_attempt|]. intros r. apply quiet_ret.
  - destruct (imp_level d <? 0)%Z; [apply quiet_ret|].
    apply quiet_bind; [apply quiet_attempt|]. intros r. apply quiet_ret.
Qed.

Lemma quiet_scan_import (module : string) (d : ImportDirective) :
  quiet (scan_import optimized ia import_ module d).
Proof.
  rewrite scan_import_unfold.
  apply quiet_bind; [apply quiet_try_import|]. intros [name outcome].
  apply quiet_bind.
  - destruct outcome as [result|e]; [apply quiet_record_missing_fromlist|].
    destruct (caught_by_scan e) eqn:He; [apply quiet_modify|by apply quiet_raise].
  - intros _. destruct (split_fromlist (imp_fromlist d)).1;
      [apply quiet_star_import|apply quiet_ret].
Qed.

Lemma quiet_scan_code (module : string) (code : CodeType) :
  quiet (_scan_code optimized ia import_ module code).
Proof.
  induction code as [f s i ks IH] using CodeType_nested_ind.
  cbn [_scan_code].
  apply quiet_bind; [apply quiet_for_each; intros x; apply quiet_modify|].
  intros _. apply quiet_bind; [apply quiet_for_each, quiet_scan_import|].
  intros _. induction IH as [|k ks Hk _ IHks]; [apply quiet_ret|].
  destruct k as [|c]; [exact IHks|].
  apply quiet_bind; [exact Hk|]. intros _. exact IHks.
Qed.

End QuietScan.

Lemma exec_module_caught (optimized : bool) (normpath : string → string)
    (ia : MFModuleType → string → bool) (import_ : string → Run string)
    (module : string) (spec : ModuleSpec) (mf mf' : ModuleFinder) (e : Exc) :
  exec_module optimized normpath ia import_ module spec mf = Some (mf', Raise e) →
  caught_by_scan e = true →
  get_code spec = CodeRaises e ∧
  mf' = set_modules (alter reset_fields module) mf.
Proof.
  intros E He. unfold exec_module in E.
  unfold bind at 1, gets at 1 in E.
  destruct (negb optimized && _); [injection E as _ <-; discriminate He|].
  unfold bind at 1, update_module at 1, modify at 1 in E.
  destruct (get_code spec) as [c| |e0|].
  - exfalso.
    assert (quiet (let! rules := gets path_replacements in
                   let code0 := if bool_decide (rules = []) then c
                                else _replace_paths_in_code normpath c rules in
                   let! _ := update_module module (set_code (Some code0)) in
                   let! _ := log (EvScanBegin module) in
                   let! _ := _scan_code optimized ia import_ module code0 in
                   log (EvScanEnd module))) as Hq.
    { apply quiet_bind; [apply quiet_gets|]. intros rules.
      apply quiet_bind; [apply quiet_modify|]. intros _.
      apply quiet_bind; [apply quiet_modify|]. intros _.
      apply quiet_bind; [apply quiet_scan_code|]. intros _. apply quiet_modify. }
    rewrite (Hq _ _ _ E) in He. discriminate He.
  - discriminate E.
  - injection E as <- <-. done.
  - injection E as _ <-. discriminate He.
Qed.

(** X15: a scan never ends with an exception of the kinds it guards
    against.  Whatever the import machinery does, [_scan_code] does not
    raise [ImportError], [ModuleNotFoundError] or [SyntaxError]: such a
    failure of a directive is recorded and the scan goes on.  So
    [exec_module] raises one of these only when the loader's
    [get_code] raised it, before any directive was looked at and with
    no name recorded for the module. *)
Theorem scan_never_raises_import_error (optimized : bool) (normpath : string → string)
    (ia : MFModuleType → string → bool) (import_ : string → Run string)
    (module : string) (code : CodeType) (spec : ModuleSpec)
    (mf mf' : ModuleFinder) (e : Exc) :
  (_scan_code optimized ia import_ module code mf = Some (mf', Raise e) →
   caught_by_scan e = false) ∧
  (exec_module optimized normpath ia import_ module spec mf = Some (mf', Raise e) →
   caught_by_scan e = true →
   get_code spec = CodeRaises e ∧
   mf' = set_modules (alter reset_fields module) mf).
Proof.
  split; [apply quiet_scan_code|apply exec_module_caught].
Qed.

Lemma scan_never_raises_import_error_witness :
  ∃ mf',
    _scan_code false no_intrinsic_attr empty_tree_import "m" sample_bad_directive
      sample_one_module = Some (mf', Raise ValueError) ∧
    caught_by_scan ValueError = false.
Proof.
  assert (∃ mf', _scan_code false no_intrinsic_attr empty_tree_import "m"
                   sample_bad_directive sample_one_module
                 = Some (mf', Raise ValueError)) as [mf' E].
  { eexists. vm_compute. reflexivity. }
  exists mf'. split; [exact E|].
  exact (proj1 (scan_never_raises_import_error false Posix.normpath no_intrinsic_attr
                  empty_tree_import "m" sample_bad_directive plain_spec
                  sample_one_module mf' ValueError) E).
Defined.

(** ** Parents are registered before their children *)

Lemma parent_closed_dom (M M' : gmap string MFModuleType) :
  dom M' = dom M → parent_closed M → parent_closed M'.
Proof.
  intros Hd Hc n Hn Hp.
  apply elem_of_dom. rewrite Hd. apply elem_of_dom. apply Hc; [|done].
  apply elem_of_dom. rewrite <- Hd. by apply elem_of_dom.
Qed.

Lemma parent_closed_alter (f : MFModuleType → MFModuleType) (k : string)
    (M : gmap string MFModuleType) :
  parent_closed M → parent_closed (alter f k M).
Proof. apply parent_closed_dom. apply dom_alter_L. Qed.

Lemma parent_closed_insert (k : string) (m : MFModuleType)
    (M : gmap string MFModuleType) :
  PyStr.rpartition_head k = "" ∨ is_Some (M !! PyStr.rpartition_head k) →
  parent_closed M → parent_closed (<[k := m]> M).
Proof.
  intros Hk Hc n Hn Hp. destruct (decide (n = k)) as [->|Hne].
  - destruct Hk as [Hk|Hk]; [done|].
    destruct (decide (PyStr.rpartition_head k = k)) as [->|Hne].
    + rewrite lookup_insert_eq. by eexists.
    + by rewrite lookup_insert_ne.
  - rewrite lookup_insert_ne in Hn by done.
    destruct (decide (PyStr.rpartition_head n = k)) as [->|Hne'].
    + rewrite lookup_insert_eq. by eexists.
    + rewrite lookup_insert_ne by done. by apply Hc.
Qed.

Lemma tidy_ret {A} (a : A) : tidy (ret a).
Proof. by intros mf mf' r Hc [= <- <-] _. Qed.

Lemma tidy_raise {A} (e : Exc) : tidy (@raise A e).
Proof. by intros mf mf' r Hc [= <- <-] _. Qed.

Lemma tidy_gets {A} (f : ModuleFinder → A) : tidy (gets f).
Proof. by intros mf mf' r Hc [= <- <-] _. Qed.

Lemma tidy_getmodule (name : string) : tidy (getmodule name).
Proof.
  intros mf mf' r Hc E _. unfold getmodule in E.
  destruct (modules mf !! name); by injection E as <- <-.
Qed.

Lemma tidy_log (ev : Event) : tidy (log ev).
Proof. by intros mf mf' r Hc [= <- <-] _. Qed.

Lemma tidy_update_module (name : string) (f : MFModuleType → MFModuleType) :
  tidy (update_module name f).
Proof. intros mf mf' r Hc [= <- <-] _. cbn. by apply parent_closed_alter. Qed.

Lemma tidy_add_bad_module (name importer : string) : tidy (add_bad_module name importer).
Proof. by intros mf mf' r Hc [= <- <-] _. Qed.

Lemma tidy_bind {A B} (c : Run A) (k : A → Run B) :
  tidy c → (∀ a, tidy (k a)) → tidy (bind c k).
Proof.
  intros Hc Hk mf mf' r Hcl E Hr. unfold bind in E.
  destruct (c mf) as [[mf1 [a|e]]|] eqn:E1; [| |done].
  - eapply (Hk a); [|exact E|exact Hr]. by eapply Hc.
  - injection E as <- <-. by eapply Hc.
Qed.

Lemma tidy_for_each {A} (body : A → Run unit) (l : list A) :
  (∀ x, tidy (body x)) → tidy (for_each body l).
Proof.
  intros Hb. induction l as [|x l IH]; cbn [for_each]; [apply tidy_ret|].
  apply tidy_bind; [apply Hb|]. intros _. exact IH.
Qed.

(** After [attempt c] the registry is in order if [c] ended settled;
    the continuation must pass an unsettled outcome on. *)
Lemma tidy_attempt_bind {A B} (c : Run A) (k : Res A → Run B) :
  tidy c →
  (∀ r, settled r → tidy (k r)) →
  (∀ r mf mf' r', ¬ settled r → k r mf = Some (mf', r') → ¬ settled r') →
  tidy (bind (attempt c) k).
Proof.
  intros Hc Hk Hpass mf mf' r' Hcl E Hr'. unfold bind, attempt in E.
  destruct (c mf) as [[mf1 r]|] eqn:E1; [|done].
  assert (settled r ∨ ¬ settled r) as [Hs|Hs].
  { destruct r as [a|e]; [by left|]. cbn. destruct (caught_by_scan e); auto. }
  - eapply (Hk r Hs); [|exact E|exact Hr']. by eapply Hc.
  - by destruct (Hpass _ _ _ _ Hs E).
Qed.

Section TidyMachinery.
Variable optimized : bool.
Variable normpath : string → string.
Variable find_spec : string → option (list string) → Res (option ModuleSpec).
Variable ia : MFModuleType → string → bool.
Variable import_ : string → Run string.
Hypothesis import_tidy : ∀ n, tidy (import_ n).

Lemma tidy_star_import (module name : string) : tidy (star_import optimized module name).
Proof.
  unfold star_import. apply tidy_bind; [apply tidy_gets|]. intros mods.
  destruct (mods !! name) as [cm|]; [|apply tidy_update_module].
  destruct (negb (mod_typed cm)); [apply tidy_raise|].
  apply tidy_bind; [apply tidy_update_module|]. intros _.
  apply tidy_bind; [apply tidy_update_module|]. intros _.
  destruct (mod_code cm); [apply tidy_ret|apply tidy_update_module].
Qed.

Lemma tidy_record_missing_fromlist (module name result_module : string)
    (fromlist : list string) :
  tidy (record_missing_fromlist ia module name result_module fromlist).
Proof.
  unfold record_missing_fromlist. apply tidy_bind; [apply tidy_getmodule|].
  intros result. destruct (hasattr ia result "__path__"); [|apply tidy_ret].
  apply tidy_for_each. intros x.
  apply tidy_bind; [apply tidy_getmodule|]. intros r.
  destruct (hasattr ia r x); [apply tidy_ret|apply tidy_add_bad_module].
Qed.

Lemma tidy_handle_fromlist (module : string) (fromlist : list string) :
  tidy (_handle_fromlist ia import_ module fromlist).
Proof.
  unfold _handle_fromlist.
  apply tidy_bind; [|intros _; apply tidy_ret].
  apply tidy_for_each. intros x.
  destruct (String.eqb x "*"); [apply tidy_ret|].
  apply tidy_bind; [apply tidy_getmodule|]. intros m.
  destruct (hasattr ia m x); [apply tidy_ret|].
  apply tidy_attempt_bind; [apply import_tidy| |].
  - intros [k|e] Hs; [apply tidy_ret|].
    destruct e; try apply tidy_raise.
    destruct (String.eqb _ _); [apply tidy_ret|apply tidy_raise].
  - intros [k|e] mf mf' r' Hs E; [by destruct Hs|].
    destruct e; try (by destruct Hs); by injection E as <- <-.
Qed.

Lemma tidy_dunder_import (name : string) (fromlist : list string) :
  tidy (__import__ ia import_ name fromlist).
Proof.
  unfold __import__.
  apply tidy_bind; [apply import_tidy|]. intros module.
  case_bool_decide; [apply import_tidy|].
  apply tidy_bind; [apply tidy_getmodule|]. intros m.
  destruct (hasattr ia m "__path__"); [apply tidy_handle_fromlist|apply tidy_ret].
Qed.

Lemma try_import_closed (module : string) (d : ImportDirective) (fl : list string)
    (mf mf' : ModuleFinder) (out : Res (string * Res string)) :
  parent_closed (modules mf) →
  try_import ia import_ module d fl mf = Some (mf', out) →
  match out with
  | Ok (_, r) => settled r → parent_closed (modules mf')
  | Raise _ => parent_closed (modules mf')
  end.
Proof.
  intros Hcl E. unfold try_import in E.
  assert (∀ n, (let! r := attempt (__import__ ia import_ n fl) in ret (n, r)) mf
               = Some (mf', out) →
               match out with
               | Ok (_, r) => settled r → parent_closed (modules mf')
               | Raise _ => parent_closed (modules mf')
               end) as Himp.
  { intros n E'. unfold bind, attempt in E'.
    destruct (__import__ ia import_ n fl mf) as [[mf1 r1]|] eqn:E1; [|done].
    injection E' as <- <-. intros Hs. by eapply tidy_dunder_import. }
  destruct (0 <? imp_level d)%Z.
  - unfold bind at 1, getmodule at 1 in E.
    destruct (modules mf !! module) as [m|]; [|by injection E as <- <-].
    destruct (resolve_relative m (imp_name d) (imp_level d)) as [n|e].
    + by apply (Himp n).
    + by injection E as <- <-.
  - destruct (imp_level d <? 0)%Z; [by injection E as <- <-|].
    by apply (Himp (imp_name d)).
Qed.

Lemma tidy_scan_import (module : string) (d : ImportDirective) :
  tidy (scan_import optimized ia import_ module d).
Proof.
  intros mf mf' r Hcl E Hr. rewrite scan_import_unfold in E.
  unfold bind at 1 in E.
  destruct (try_import ia import_ module d (split_fromlist (imp_fromlist d)).2 mf)
    as [[mf1 [[name r1]|e]]|] eqn:Et; [| |done].
  2:{ injection E as <- <-. exact (try_import_closed _ _ _ _ _ _ Hcl Et). }
  pose proof (try_import_closed _ _ _ _ _ _ Hcl Et) as H1. cbn beta iota in H1.
  unfold bind at 1 in E.
  destruct r1 as [k|e].
  - destruct (record_missing_fromlist ia module name k _ mf1)
      as [[mf2 [[]|e2]]|] eqn:E2; [| |done].
    + assert (parent_closed (modules mf2)) as H2.
      { eapply tidy_record_missing_fromlist; [|exact E2|done]. by apply H1. }
      destruct (split_fromlist (imp_fromlist d)).1.
      * by eapply tidy_star_import.
      * by injection E as <- <-.
    + injection E as <- <-.
      eapply tidy_record_missing_fromlist; [|exact E2|done]. by apply H1.
  - destruct (caught_by_scan e) eqn:He.
    + unfold add_bad_module at 1, modify at 1 in E.
      assert (parent_closed (modules mf1)) as H2 by (by apply H1).
      destruct (split_fromlist (imp_fromlist d)).1.
      * eapply tidy_star_import; [|exact E|exact Hr]. done.
      * by injection E as <- <-.
    + injection E as <- <-. cbn in Hr. congruence.
Qed.

Lemma tidy_scan_code (module : string) (code : CodeType) :
  tidy (_scan_code optimized ia import_ module code).
Proof.
  induction code as [f s i ks IH] using CodeType_nested_ind.
  cbn [_scan_code].
  apply tidy_bind; [apply tidy_for_each; intros x; apply tidy_update_module|].
  intros _. apply tidy_bind; [apply tidy_for_each, tidy_scan_import|].
  intros _. induction IH as [|k ks Hk _ IHks]; [apply tidy_ret|].
  destruct k as [|c]; [exact IHks|].
  apply tidy_bind; [exact Hk|]. intros _. exact IHks.
Qed.

Lemma tidy_exec_module (name : string) (spec : ModuleSpec) :
  tidy (exec_module optimized normpath ia import_ name spec).
Proof.
  unfold exec_module. apply tidy_bind; [apply tidy_gets|]. intros mods.
  destruct (negb optimized && _); [apply tidy_raise|].
  apply tidy_bind; [apply tidy_update_module|]. intros _.
  destruct (get_code spec); [|apply tidy_ret|apply tidy_raise|apply tidy_raise].
  apply tidy_bind; [apply tidy_gets|]. intros rules.
  apply tidy_bind; [apply tidy_update_module|]. intros _.
  apply tidy_bind; [apply tidy_log|]. intros _.
  apply tidy_bind; [apply tidy_scan_code|]. intros _. apply tidy_log.
Qed.

Lemma tidy_run_loader (name : string) (spec : ModuleSpec) :
  tidy (run_loader optimized normpath ia import_ name spec).
Proof.
  unfold run_loader. destruct (has_loader spec); [apply tidy_exec_module|].
  destruct (submodule_search_locations spec); [apply tidy_ret|apply tidy_raise].
Qed.

(** A loader that ends with an exception the scanner catches has done
    no more than reset the module's fields. *)
Lemma run_loader_caught (name : string) (spec : ModuleSpec)
    (mf mf' : ModuleFinder) (e : Exc) :
  run_loader optimized normpath ia import_ name spec mf = Some (mf', Raise e) →
  caught_by_scan e = true →
  mf' = mf ∨ mf' = set_modules (alter reset_fields name) mf.
Proof.
  unfold run_loader. destruct (has_loader spec).
  - intros E He. right. by destruct (exec_module_caught _ _ _ _ _ _ _ _ _ E He).
  - destruct (submodule_search_locations spec); intros [= <- _] _; by left.
Qed.

Lemma load_unlocked_tidy (name : string) (spec : ModuleSpec)
    (mf mf' : ModuleFinder) (r : Res string) :
  parent_closed (modules mf) →
  modules mf !! name = None →
  PyStr.rpartition_head name = "" ∨ is_Some (modules mf !! PyStr.rpartition_head name) →
  _load_unlocked optimized normpath ia import_ name spec mf = Some (mf', r) →
  settled r → parent_closed (modules mf').
Proof.
  intros Hcl Hn Hp E Hr. unfold _load_unlocked in E.
  unfold bind at 1, modify at 1 in E. unfold bind at 1, log at 1, modify at 1 in E.
  set (mf2 := log_event (EvRegister name)
                (set_modules (insert name (module_from_spec name spec)) mf)) in E.
  assert (parent_closed (modules mf2)) as H2 by (by apply parent_closed_insert).
  unfold bind at 1, attempt in E.
  destruct (run_loader optimized normpath ia import_ name spec mf2) as [[mf3 r3]|] eqn:Ex;
    [|done].
  destruct r3 as [[]|e].
  - assert (parent_closed (modules mf3)) as H3 by (by eapply tidy_run_loader).
    unfold bind at 1, getmodule at 1 in E.
    destruct (modules mf3 !! name); by injection E as <- <-.
  - unfold bind at 1, modify at 1 in E. unfold bind at 1, log at 1, modify at 1 in E.
    injection E as <- <-. cbn in Hr.
    destruct (run_loader_caught _ _ _ _ _ Ex Hr) as [->| ->]; subst mf2; cbn.
    + by rewrite delete_insert_id.
    + by rewrite delete_alter_insert.
Qed.

Lemma find_load_bind_tidy (name : string) (path : option (list string))
    (parent : option string) (mf mf' : ModuleFinder) (r : Res string) :
  parent_closed (modules mf) →
  modules mf !! name = None →
  PyStr.rpartition_head name = "" ∨ is_Some (modules mf !! PyStr.rpartition_head name) →
  find_load_bind optimized normpath find_spec ia import_ name path parent mf = Some (mf', r) →
  settled r → parent_closed (modules mf').
Proof.
  intros Hcl Hn Hp E Hr. unfold find_load_bind, _find_spec in E.
  unfold bind at 1 in E. unfold bind at 1, log at 1, modify at 1 in E.
  destruct (find_spec name path) as [[spec|]|e0]; cbn [lift_res] in E;
    [|by injection E as <- <-|by injection E as <- <-].
  unfold ret at 1 in E.
  unfold bind at 1 in E.
  destruct (_load_unlocked optimized normpath ia import_ name spec (log_event (EvFind name) mf))
    as [[mf3 [module|e]]|] eqn:El; [| |done].
  - assert (parent_closed (modules mf3)) as H3.
    { by eapply (load_unlocked_tidy name spec (log_event (EvFind name) mf)). }
    assert (tidy (let! _ := match parent with
                            | Some parent0 =>
                                let! _ := getmodule parent0 in
                                update_module parent0
                                  (bind_attr (PyStr.rpartition_tail name))
                            | None => ret tt
                            end in ret module)) as Ht.
    { apply tidy_bind; [|intros _; apply tidy_ret].
      destruct parent; [|apply tidy_ret].
      apply tidy_bind; [apply tidy_getmodule|]. intros _. apply tidy_update_module. }
    by eapply Ht.
  - injection E as <- <-.
    by eapply (load_unlocked_tidy name spec (log_event (EvFind name) mf)).
Qed.

Lemma find_and_load_unlocked_tidy (name : string) (mf mf' : ModuleFinder)
    (r : Res string) :
  parent_closed (modules mf) →
  modules mf !! name = None →
  _find_and_load_unlocked optimized normpath find_spec ia import_ name mf = Some (mf', r) →
  settled r → parent_closed (modules mf').
Proof.
  intros Hcl Hn E Hr. unfold _find_and_load_unlocked in E.
  destruct (String.eqb (PyStr.rpartition_head name) "") eqn:Etop.
  { apply String.eqb_eq in Etop. eapply find_load_bind_tidy; eauto. }
  unfold bind at 1, gets at 1 in E. unfold bind at 1 in E.
  set (pre := match modules mf !! PyStr.rpartition_head name with
              | Some _ => ret tt
              | None => let! _ := import_ (PyStr.rpartition_head name) in ret tt
              end) in E.
  assert (tidy pre) as Ht.
  { subst pre. destruct (modules mf !! PyStr.rpartition_head name); [apply tidy_ret|].
    apply tidy_bind; [apply import_tidy|]. intros _. apply tidy_ret. }
  destruct (pre mf) as [[mf2 [[]|e]]|] eqn:E2; [| |done].
  2:{ injection E as <- <-. by eapply Ht. }
  assert (parent_closed (modules mf2)) as H2 by (by eapply Ht).
  unfold bind at 1, gets at 1 in E.
  destruct (modules mf2 !! name) eqn:Hn2; [by injection E as <- <-|].
  unfold bind at 1, getmodule at 1 in E.
  destruct (modules mf2 !! PyStr.rpartition_head name) as [pm|] eqn:Hpm;
    [|by injection E as <- <-].
  destruct (mod_path pm); [|by injection E as <- <-].
  eapply find_load_bind_tidy; [exact H2|exact Hn2| |exact E|exact Hr].
  right. by eexists.
Qed.

Lemma tidy_find_and_load (name : string) :
  tidy (_find_and_load optimized normpath find_spec ia import_ name).
Proof.
  intros mf mf' r Hcl E Hr. unfold _find_and_load in E.
  unfold bind at 1, gets at 1 in E.
  destruct (modules mf !! name) eqn:Hn; [by injection E as <- <-|].
  by eapply find_and_load_unlocked_tidy.
Qed.

End TidyMachinery.

Lemma tidy_gcd_import (optimized : bool) (normpath : string → string)
    (find_spec : string → option (list string) → Res (option ModuleSpec))
    (ia : MFModuleType → string → bool) (fuel : nat) (name : string) :
  tidy (_gcd_import optimized normpath find_spec ia fuel name).
Proof.
  revert name. induction fuel as [|fuel IH]; intros name; cbn [_gcd_import].
  - intros mf mf' r _ E. discriminate E.
  - destruct (String.eqb name ""); [apply tidy_raise|].
    by apply tidy_find_and_load.
Qed.

Lemma tidy_import_as_module (optimized : bool) (normpath : string → string)
    (find_spec : string → option (list string) → Res (option ModuleSpec))
    (ia : MFModuleType → string → bool) (fuel : nat) (name : string) :
  tidy (import_as_module optimized normpath find_spec ia fuel name).
Proof.
  unfold import_as_module. apply tidy_bind.
  - apply tidy_dunder_import. intros n. apply tidy_gcd_import.
  - intros _. apply tidy_ret.
Qed.

Lemma parent_closed_empty : parent_closed ∅.
Proof. intros n [m Hm]. by rewrite lookup_empty in Hm. Qed.

Lemma parent_closed_iter (M : gmap string MFModuleType) (name : string) (k : nat) :
  parent_closed M → is_Some (M !! name) →
  Nat.iter k PyStr.rpartition_head name ≠ "" →
  is_Some (M !! Nat.iter k PyStr.rpartition_head name).
Proof.
  intros Hc Hn. induction k as [|k IH]; [done|].
  rewrite Nat.iter_succ. intros Hk. apply Hc; [|done]. apply IH.
  intros Hk'. apply Hk. by rewrite Hk'.
Qed.

(** X16: parents stay registered with their children.  If every
    registered dotted name has its parent package registered before
    [import_as_module] is called, the same holds when the call ends
    normally or with an exception the scanner catches ([ImportError],
    [ModuleNotFoundError], [SyntaxError]), also across the modules that
    failed to load and were removed again on the way.  When the call
    ends normally, [name] and every package above it are registered. *)
Theorem import_keeps_parents_registered (optimized : bool) (normpath : string → string)
    (find_spec : string → option (list string) → Res (option ModuleSpec))
    (ia : MFModuleType → string → bool)
    (fuel : nat) (name : string) (mf mf' : ModuleFinder) (r : Res unit) :
  parent_closed (modules mf) →
  import_as_module optimized normpath find_spec ia fuel name mf = Some (mf', r) →
  settled r →
  parent_closed (modules mf') ∧
  (r = Ok tt →
   ∀ k, Nat.iter k PyStr.rpartition_head name ≠ "" →
        is_Some (modules mf' !! Nat.iter k PyStr.rpartition_head name)).
Proof.
  intros Hcl E Hr.
  assert (parent_closed (modules mf')) as Hcl'
    by (by eapply tidy_import_as_module).
  split; [done|]. intros -> k Hk.
  apply parent_closed_iter; [done| |done].
  unfold import_as_module, __import__ in E. unfold bind at 1 in E.
  unfold bind at 1 in E.
  destruct (_gcd_import optimized normpath find_spec ia fuel name mf)
    as [[mf1 [n1|e1]]|] eqn:E1; [|done|done].
  rewrite bool_decide_eq_true_2 in E by done.
  destruct (_gcd_import optimized normpath find_spec ia fuel (PyStr.partition_head name) mf1)
    as [[mf2 [n2|e2]]|] eqn:E2; [|done|done].
  injection E as <-.
  destruct (gcd_import_lands _ _ _ _ _ _ _ _ _ E1) as (_ & _ & [m1 Hm1]).
  destruct (keeps_registry _ _ _ _ _ _ (keeps_gcd_import _ _ _ _ _ _) E2 Hm1)
    as (m2 & Hm2 & _).
  by eexists.
Qed.

Lemma import_keeps_parents_registered_witness :
  ∃ mf',
    import_as_module false Posix.normpath (table_finder world_relative_2) no_intrinsic_attr
      9 "a.b.c.moduleC" (new_finder [] []) = Some (mf', Ok tt) ∧
    is_Some (modules mf' !! "a.b").
Proof.
  assert (∃ mf', import_as_module false Posix.normpath (table_finder world_relative_2)
                   no_intrinsic_attr 9 "a.b.c.moduleC" (new_finder [] [])
                 = Some (mf', Ok tt)) as [mf' E].
  { eexists. vm_compute. reflexivity. }
  destruct (import_keeps_parents_registered false Posix.normpath
              (table_finder world_relative_2) no_intrinsic_attr 9 "a.b.c.moduleC"
              (new_finder [] []) mf' (Ok tt) parent_closed_empty E I)
    as [_ H].
  exists mf'. split; [exact E|].
  apply (H eq_refl 2). vm_compute. discriminate.
Defined.

(** ** Only names the finder knows are registered *)

Section OnlyKnown.
Variable optimized : bool.
Variable normpath : string → string.
Variable find_spec : string → option (list string) → Res (option ModuleSpec).
Variable ia : MFModuleType → string → bool.

Lemma ok_same {A} (c : Run A) :
  (∀ mf mf' r, c mf = Some (mf', r) → dom (modules mf') = dom (modules mf)) →
  only_known find_spec c.
Proof.
  intros H mf mf' r n E Hn. left.
  apply elem_of_dom. rewrite <- (H _ _ _ E). by apply elem_of_dom.
Qed.

Lemma ok_ret {A} (a : A) : only_known find_spec (ret a).
Proof. apply ok_same. by intros mf mf' r [= <- _]. Qed.

Lemma ok_raise {A} (e : Exc) : only_known find_spec (@raise A e).
Proof. apply ok_same. by intros mf mf' r [= <- _]. Qed.

Lemma ok_gets {A} (f : ModuleFinder → A) : only_known find_spec (gets f).
Proof. apply ok_same. by intros mf mf' r [= <- _]. Qed.

Lemma ok_getmodule (name : string) : only_known find_spec (getmodule name).
Proof.
  apply ok_same. intros mf mf' r E. unfold getmodule in E.
  destruct (modules mf !! name); by injection E as <- _.
Qed.

Lemma ok_log (ev : Event) : only_known find_spec (log ev).
Proof. apply ok_same. by intros mf mf' r [= <- _]. Qed.

Lemma ok_update_module (name : string) (f : MFModuleType → MFModuleType) :
  only_known find_spec (update_module name f).
Proof. apply ok_same. intros mf mf' r [= <- _]. cbn. apply dom_alter_L. Qed.

Lemma ok_add_bad_module (name importer : string) :
  only_known find_spec (add_bad_module name importer).
Proof. apply ok_same. by intros mf mf' r [= <- _]. Qed.

Lemma ok_bind {A B} (c : Run A) (k : A → Run B) :
  only_known find_spec c → (∀ a, only_known find_spec (k a)) →
  only_known find_spec (bind c k).
Proof.
  intros Hc Hk mf mf' r n E Hn. unfold bind in E.
  destruct (c mf) as [[mf1 [a|e]]|] eqn:E1; [| |done].
  - destruct (Hk a _ _ _ _ E Hn) as [H1|H1]; [|by right]. by eapply Hc.
  - injection E as <- <-. by eapply Hc.
Qed.

Lemma ok_attempt {A} (c : Run A) :
  only_known find_spec c → only_known find_spec (attempt c).
Proof.
  intros Hc mf mf' r n E Hn. unfold attempt in E.
  destruct (c mf) as [[mf1 r1]|] eqn:E1; [|done].
  injection E as <- <-. by eapply Hc.
Qed.

Lemma ok_for_each {A} (body : A → Run unit) (l : list A) :
  (∀ x, only_known find_spec (body x)) → only_known find_spec (for_each body l).
Proof.
  intros Hb. induction l as [|x l IH]; cbn [for_each]; [apply ok_ret|].
  apply ok_bind; [apply Hb|]. intros _. exact IH.
Qed.

Lemma ok_star_import (module name : string) :
  only_known find_spec (star_import optimized module name).
Proof.
  unfold star_import. apply ok_bind; [apply ok_gets|]. intros mods.
  destruct (mods !! name) as [cm|]; [|apply ok_update_module].
  destruct (negb (mod_typed cm)); [apply ok_raise|].
  apply ok_bind; [apply ok_update_module|]. intros _.
  apply ok_bind; [apply ok_update_module|]. intros _.
  destruct (mod_code cm); [apply ok_ret|apply ok_update_module].
Qed.

Lemma ok_record_missing_fromlist (module name result_module : string)
    (fromlist : list string) :
  only_known find_spec (record_missing_fromlist ia module name result_module fromlist).
Proof.
  unfold record_missing_fromlist. apply ok_bind; [apply ok_getmodule|].
  intros result. destruct (hasattr ia result "__path__"); [|apply ok_ret].
  apply ok_for_each. intros x.
  apply ok_bind; [apply ok_getmodule|]. intros r.
  destruct (hasattr ia r x); [apply ok_ret|apply ok_add_bad_module].
Qed.

Section Callback.
Variable import_ : string → Run string.
Hypothesis import_ok : ∀ n, only_known find_spec (import_ n).

Lemma ok_handle_fromlist (module : string) (fromlist : list string) :
  only_known find_spec (_handle_fromlist ia import_ module fromlist).
Proof.
  unfold _handle_fromlist.
  apply ok_bind; [|intros _; apply ok_ret].
  apply ok_for_each. intros x.
  destruct (String.eqb x "*"); [apply ok_ret|].
  apply ok_bind; [apply ok_getmodule|]. intros m.
  destruct (hasattr ia m x); [apply ok_ret|].
  apply ok_bind; [apply ok_attempt, import_ok|].
  intros [k|e]; [apply ok_ret|].
  destruct e; try apply ok_raise.
  destruct (String.eqb _ _); [apply ok_ret|apply ok_raise].
Qed.

Lemma ok_dunder_import (name : string) (fromlist : list string) :
  only_known find_spec (__import__ ia import_ name fromlist).
Proof.
  unfold __import__.
  apply ok_bind; [apply import_ok|]. intros module.
  case_bool_decide; [apply import_ok|].
  apply ok_bind; [apply ok_getmodule|]. intros m.
  destruct (hasattr ia m "__path__"); [apply ok_handle_fromlist|apply ok_ret].
Qed.

Lemma ok_try_import (module : string) (d : ImportDirective) (fromlist : list string) :
  only_known find_spec (try_import ia import_ module d fromlist).
Proof.
  unfold try_import.
  destruct (0 <? imp_level d)%Z.
  - apply ok_bind; [apply ok_getmodule|]. intros m.
    destruct (resolve_relative m (imp_name d) (imp_level d)); [|apply ok_ret].
    apply ok_bind; [apply ok_attempt, ok_dunder_import|].
    intros r. apply ok_ret.
  - destruct (imp_level d <? 0)%Z; [apply ok_ret|].
    apply ok_bind; [apply ok_attempt, ok_dunder_import|].
    intros r. apply ok_ret.
Qed.

Lemma ok_scan_import (module : string) (d : ImportDirective) :
  only_known find_spec (scan_import optimized ia import_ module d).
Proof.
  rewrite scan_import_unfold.
  apply ok_bind; [apply ok_try_import|]. intros [name outcome].
  apply ok_bind.
  - destruct outcome as [result|e]; [apply ok_record_missing_fromlist|].
    destruct (caught_by_scan e); [apply ok_add_bad_module|apply ok_raise].
  - intros _. destruct (split_fromlist (imp_fromlist d)).1;
      [apply ok_star_import|apply ok_ret].
Qed.

Lemma ok_scan_code (module : string) (code : CodeType) :
  only_known find_spec (_scan_code optimized ia import_ module code).
Proof.
  induction code as [f s i ks IH] using CodeType_nested_ind.
  cbn [_scan_code].
  apply ok_bind; [apply ok_for_each; intros x; apply ok_update_module|].
  intros _. apply ok_bind; [apply ok_for_each, ok_scan_import|].
  intros _. induction IH as [|k ks Hk _ IHks]; [apply ok_ret|].
  destruct k as [|c]; [exact IHks|].
  apply ok_bind; [exact Hk|]. intros _. exact IHks.
Qed.

Lemma ok_exec_module (name : string) (spec : ModuleSpec) :
  only_known find_spec (exec_module optimized normpath ia import_ name spec).
Proof.
  unfold exec_module. apply ok_bind; [apply ok_gets|]. intros mods.
  destruct (negb optimized && _); [apply ok_raise|].
  apply ok_bind; [apply ok_update_module|]. intros _.
  destruct (get_code spec); [|apply ok_ret|apply ok_raise|apply ok_raise].
  apply ok_bind; [apply ok_gets|]. intros rules.
  apply ok_bind; [apply ok_update_module|]. intros _.
  apply ok_bind; [apply ok_log|]. intros _.
  apply ok_bind; [apply ok_scan_code|]. intros _. apply ok_log.
Qed.

Lemma ok_run_loader (name : string) (spec : ModuleSpec) :
  only_known find_spec (run_loader optimized normpath ia import_ name spec).
Proof.
  unfold run_loader. destruct (has_loader spec); [apply ok_exec_module|].
  destruct (submodule_search_locations spec); [apply ok_ret|apply ok_raise].
Qed.

Lemma ok_load_unlocked (name : string) (spec : ModuleSpec) :
  known_by find_spec name →
  only_known find_spec (_load_unlocked optimized normpath ia import_ name spec).
Proof.
  intros Hk. unfold _load_unlocked.
  apply ok_bind.
  { intros mf mf' r n [= <- _] Hn. cbn in Hn.
    destruct (decide (n = name)) as [->|Hne]; [by right|].
    left. by rewrite lookup_insert_ne in Hn. }
  intros _. apply ok_bind; [apply ok_log|]. intros _.
  apply ok_bind; [apply ok_attempt, ok_run_loader|]. intros [[]|e].
  - apply ok_bind; [apply ok_getmodule|]. intros _. apply ok_ret.
  - apply ok_bind.
    { intros mf mf' r n [= <- _] Hn. cbn in Hn. left.
      destruct (decide (n = name)) as [->|Hne].
      - rewrite lookup_delete_eq in Hn. by destruct Hn.
      - by rewrite lookup_delete_ne in Hn. }
    intros _. apply ok_bind; [apply ok_log|]. intros _. apply ok_raise.
Qed.

Lemma ok_find_load_bind (name : string) (path : option (list string))
    (parent : option string) :
  only_known find_spec (find_load_bind optimized normpath find_spec ia import_ name path parent).
Proof.
  intros mf mf' r n E Hn. unfold find_load_bind, _find_spec in E.
  unfold bind at 1 in E. unfold bind at 1, log at 1, modify at 1 in E.
  destruct (find_spec name path) as [[spec|]|e0] eqn:Hs; cbn [lift_res] in E;
    [|injection E as <- <-; by left..].
  unfold ret at 1 in E.
  assert (only_known find_spec
            (let! module := _load_unlocked optimized normpath ia import_ name spec in
             let! _ := match parent with
                       | Some parent0 =>
                           let! _ := getmodule parent0 in
                           update_module parent0 (bind_attr (PyStr.rpartition_tail name))
                       | None => ret tt
                       end in
             ret module)) as H.
  { apply ok_bind; [apply ok_load_unlocked; by exists path, spec|].
    intros module. apply ok_bind; [|intros _; apply ok_ret].
    destruct parent; [|apply ok_ret].
    apply ok_bind; [apply ok_getmodule|]. intros _. apply ok_update_module. }
  exact (H _ _ _ _ E Hn).
Qed.

Lemma ok_find_and_load (name : string) :
  only_known find_spec (_find_and_load optimized normpath find_spec ia import_ name).
Proof.
  unfold _find_and_load. apply ok_bind; [apply ok_gets|]. intros mods.
  destruct (mods !! name); [apply ok_ret|].
  unfold _find_and_load_unlocked.
  destruct (String.eqb _ _); [apply ok_find_load_bind|].
  apply ok_bind; [apply ok_gets|]. intros mods1.
  apply ok_bind.
  { destruct (mods1 !! _); [apply ok_ret|].
    apply ok_bind; [apply import_ok|]. intros _. apply ok_ret. }
  intros _. apply ok_bind; [apply ok_gets|]. intros mods2.
  destruct (mods2 !! name); [apply ok_ret|].
  apply ok_bind; [apply ok_getmodule|]. intros pm.
  destruct (mod_path pm); [apply ok_find_load_bind|apply ok_raise].
Qed.

End Callback.
End OnlyKnown.

Lemma ok_gcd_import (optimized : bool) (normpath : string → string)
    (find_spec : string → option (list string) → Res (option ModuleSpec))
    (ia : MFModuleType → string → bool) (fuel : nat) (name : string) :
  only_known find_spec (_gcd_import optimized normpath find_spec ia fuel name).
Proof.
  revert name. induction fuel as [|fuel IH]; intros name; cbn [_gcd_import].
  - intros mf mf' r n E. discriminate E.
  - destruct (String.eqb name ""); [apply ok_raise|].
    by apply ok_find_and_load.
Qed.

(** ** Unresolvable imports end up in the report *)

Lemma keeps_importers {A} (c : Run A) (mf mf' : ModuleFinder) (r : Res A)
    (x importer : string) :
  keeps c → c mf = Some (mf', r) →
  importer ∈ importers_of mf x → importer ∈ importers_of mf' x.
Proof.
  intros Hc E Hi. destruct (Hc _ _ _ E) as (_ & _ & _ & Hbad & _).
  unfold importers_of in *.
  destruct (PyDict.get x (bad_modules mf)) as [s|] eqn:Hs; [|by apply elem_of_empty in Hi].
  destruct (Hbad _ _ Hs) as (s' & -> & Hsub). cbn in *. by apply Hsub.
Qed.

Lemma all_imports_replace (normpath : string → string)
    (rules : list (string * string)) (code : CodeType) :
  all_imports (_replace_paths_in_code normpath code rules) = all_imports code.
Proof.
  induction code as [f s i ks IH] using CodeType_nested_ind.
  cbn [_replace_paths_in_code all_imports]. f_equal.
  rewrite map_map. f_equal.
  induction IH as [|k ks Hk _ IHks]; [done|].
  cbn [map]. f_equal; [|done].
  destruct k; [done|]. exact Hk.
Qed.

Section Reported.
Variable optimized : bool.
Variable normpath : string → string.
Variable find_spec : string → option (list string) → Res (option ModuleSpec).
Variable ia : MFModuleType → string → bool.

Lemma gcd_import_unknown (fuel : nat) (x : string) (mf : ModuleFinder) :
  top_level x → modules mf !! x = None → ¬ known_by find_spec x →
  ∃ e, _gcd_import optimized normpath find_spec ia (S fuel) x mf
       = Some (log_event (EvFind x) mf, Raise e).
Proof.
  intros [Hne Hdot] Hn Hk.
  cbn [_gcd_import]. rewrite (proj2 (String.eqb_neq x "") Hne).
  unfold _find_and_load. unfold bind at 1. unfold gets at 1. rewrite Hn.
  unfold _find_and_load_unlocked.
  rewrite top_level_rpartition_head by done. cbn [String.eqb].
  unfold find_load_bind, _find_spec. unfold bind at 1. unfold bind at 1.
  unfold log, modify.
  destruct (find_spec x None) as [[spec|]|e] eqn:Hspec; cbn [lift_res].
  - destruct Hk. by exists None, spec.
  - by eexists.
  - by eexists.
Qed.

Lemma scan_import_unknown (fuel : nat) (module : string) (d : ImportDirective)
    (mf mf1 : ModuleFinder) :
  imp_level d = 0%Z → top_level (imp_name d) →
  ¬ known_by find_spec (imp_name d) →
  modules mf !! imp_name d = None →
  scan_import optimized ia (_gcd_import optimized normpath find_spec ia fuel) module d mf
    = Some (mf1, Ok tt) →
  module ∈ importers_of mf1 (imp_name d).
Proof.
  intros Hl Ht Hs Hn E. rewrite scan_import_unfold in E.
  unfold bind at 1, try_import in E. rewrite Hl in E.
  change (0 <? 0)%Z with false in E. cbv iota in E.
  unfold bind at 1, attempt, __import__ in E. unfold bind at 1 in E.
  destruct fuel as [|fuel]; [done|].
  destruct (gcd_import_unknown fuel _ mf Ht Hn Hs) as [e He]. rewrite He in E.
  unfold ret at 1 in E.
  unfold bind at 1 in E.
  destruct (caught_by_scan e); [|discriminate E].
  unfold add_bad_module at 1, modify at 1 in E.
  set (mf2 := set_bad_modules _ _) in E.
  assert (module ∈ importers_of mf2 (imp_name d)) as H2.
  { subst mf2. unfold importers_of. cbn [bad_modules set_bad_modules log_event].
    rewrite get_setdefault_apply_eq. cbn.
    apply elem_of_union_r. by apply elem_of_singleton. }
  eapply keeps_importers; [|exact E|exact H2].
  destruct (split_fromlist (imp_fromlist d)).1; [apply keeps_star_import|apply keeps_ret].
Qed.

Lemma scan_imports_unknown (fuel : nat) (module x : string)
    (l : list ImportDirective) (mf mf' : ModuleFinder) :
  top_level x → ¬ known_by find_spec x → modules mf !! x = None →
  for_each (scan_import optimized ia (_gcd_import optimized normpath find_spec ia fuel) module) l mf
    = Some (mf', Ok tt) →
  modules mf' !! x = None ∧
  ∀ d, d ∈ l → imp_level d = 0%Z → imp_name d = x → module ∈ importers_of mf' x.
Proof.
  intros Ht Hk. revert mf. induction l as [|d0 l IH]; intros mf Hn E.
  - injection E as <-. split; [done|]. intros d Hd. by apply elem_of_nil in Hd.
  - cbn [for_each] in E. unfold bind at 1 in E.
    destruct (scan_import _ _ _ module d0 mf) as [[mf1 [[]|e]]|] eqn:E1; [|done|done].
    assert (modules mf1 !! x = None) as Hn1.
    { apply eq_None_not_Some. intros Hx.
      destruct (ok_scan_import optimized find_spec ia _
                  (ok_gcd_import optimized normpath find_spec ia fuel) module d0 _ _ _ _ E1 Hx)
        as [H|H]; [|done]. rewrite Hn in H. by destruct H. }
    destruct (IH mf1 Hn1 E) as [Hn' Hrest]. split; [done|].
    intros d [->|Hd]%elem_of_cons Hl Hx; [|by apply (Hrest d)].
    subst x.
    assert (module ∈ importers_of mf1 (imp_name d0)) as H1.
    { eapply scan_import_unknown; [exact Hl|exact Ht|exact Hk|exact Hn|exact E1]. }
    eapply keeps_importers; [|exact E|exact H1].
    apply keeps_for_each. intros d'. apply keeps_scan_import.
    intros n. apply keeps_gcd_import.
Qed.

Lemma scan_code_unknown (fuel : nat) (module x : string) (code : CodeType)
    (mf mf' : ModuleFinder) :
  top_level x → ¬ known_by find_spec x → modules mf !! x = None →
  _scan_code optimized ia (_gcd_import optimized normpath find_spec ia fuel) module code mf
    = Some (mf', Ok tt) →
  modules mf' !! x = None ∧
  ∀ d, d ∈ all_imports code → imp_level d = 0%Z → imp_name d = x →
       module ∈ importers_of mf' x.
Proof.
  intros Ht Hk. revert mf mf'.
  induction code as [f s i ks IH] using CodeType_nested_ind.
  intros mf mf' Hn E. cbn [_scan_code] in E.
  unfold bind at 1 in E. rewrite store_names_loop in E.
  unfold bind at 1 in E.
  match type of E with
  | context [for_each ?b i ?st] =>
      destruct (for_each b i st) as [[mf2 [[]|e]]|] eqn:E2; [|done|done]
  end.
  assert (modules (set_modules
                     (alter (set_global_names (λ s0, s0 ∪ list_to_set s)) module) mf)
          !! x = None) as Hn1.
  { cbn. destruct (decide (module = x)) as [->|Hne].
    - by rewrite lookup_alter_eq, Hn.
    - by rewrite lookup_alter_ne. }
  destruct (scan_imports_unknown fuel module x i _ mf2 Ht Hk Hn1 E2) as [Hn2 Hi].
  cbn [all_imports].
  enough (modules mf' !! x = None ∧
          (∀ importer, importer ∈ importers_of mf2 x → importer ∈ importers_of mf' x) ∧
          ∀ d, d ∈ concat (map (λ const, match const with
                                         | KCode c => all_imports c
                                         | KOther => []
                                         end) ks) →
               imp_level d = 0%Z → imp_name d = x → module ∈ importers_of mf' x)
    as (Hn' & Hmono & Hks).
  { split; [done|]. intros d [Hd|Hd]%elem_of_app Hl Hx; [|by apply (Hks d)].
    apply Hmono. by apply (Hi d). }
  clear E2 Hi Hn. revert mf2 Hn2 E.
  induction IH as [|k ks Hk' _ IHks]; intros mf2 Hn2 E.
  - injection E as <-. split_and!; [done|done|].
    intros d Hd. by apply elem_of_nil in Hd.
  - destruct k as [|c].
    + exact (IHks mf2 Hn2 E).
    + unfold bind at 1 in E.
      destruct (_scan_code optimized ia _ module c mf2) as [[mf3 [[]|e]]|] eqn:E3; [|done|done].
      destruct (Hk' _ _ Hn2 E3) as [Hn3 Hc].
      destruct (IHks mf3 Hn3 E) as (Hn' & Hmono & Hr).
      split_and!; [done| |].
      * intros importer Hi. apply Hmono.
        eapply keeps_importers; [|exact E3|exact Hi].
        apply keeps_scan_code. intros n. apply keeps_gcd_import.
      * cbn [map concat]. intros d [Hd|Hd]%elem_of_app Hl Hx; [|by apply (Hr d)].
        apply Hmono. by apply (Hc d).
Qed.

End Reported.

(** X17: an import that cannot be resolved ends up in the report.
    Let [import_as_module] load a top-level module [name] that was not
    registered, and let it end normally.  For every directive in the
    module's code, also inside functions and classes, that imports
    (absolutely) a top-level name for which no finder has a spec and
    which is neither registered nor excluded: the name is still not
    registered after the run, [name] is recorded among its importers in
    [bad_modules], and [any_missing_maybe] lists it as missing. *)
Theorem unknown_import_is_reported (optimized : bool) (normpath : string → string)
    (find_spec : string → option (list string) → Res (option ModuleSpec))
    (ia : MFModuleType → string → bool)
    (fuel : nat) (name : string) (spec : ModuleSpec) (code : CodeType)
    (d : ImportDirective) (mf mf' : ModuleFinder) :
  top_level name → modules mf !! name = None →
  find_spec name None = Ok (Some spec) → get_code spec = GotCode code →
  d ∈ all_imports code → imp_level d = 0%Z → top_level (imp_name d) →
  ¬ known_by find_spec (imp_name d) →
  modules mf !! imp_name d = None → imp_name d ∉ excludes mf →
  import_as_module optimized normpath find_spec ia fuel name mf = Some (mf', Ok tt) →
  modules mf' !! imp_name d = None ∧
  name ∈ importers_of mf' (imp_name d) ∧
  imp_name d ∈ (any_missing_maybe mf').1.
Proof.
  intros Ht Hn Hspec Hcode Hd Hl Htx Hk Hnx Hex E.
  set (x := imp_name d) in *.
  assert (x ≠ name) as Hxn.
  { intros ->. apply Hk. by exists None, spec. }
  pose proof (keeps_import_as_module optimized normpath find_spec ia fuel name _ _ _ E)
    as (_ & Hexcl & _).
  unfold import_as_module in E. unfold bind at 1 in E. unfold __import__ in E.
  unfold bind at 1 in E.
  destruct (_gcd_import optimized normpath find_spec ia fuel name mf)
    as [[mf1 [n1|e1]]|] eqn:E1; [|done|done].
  rewrite bool_decide_eq_true_2 in E by done.
  destruct (_gcd_import optimized normpath find_spec ia fuel (PyStr.partition_head name) mf1)
    as [[mf2 [n2|e2]]|] eqn:E2; [|done|done].
  injection E as <-.
  enough (modules mf1 !! x = None ∧ name ∈ importers_of mf1 x) as [Hn1 Hi1].
  { assert (modules mf2 !! x = None) as Hn2.
    { apply eq_None_not_Some. intros Hx.
      destruct (ok_gcd_import optimized normpath find_spec ia fuel _ _ _ _ _ E2 Hx) as [H|H];
        [|done]. rewrite Hn1 in H. by destruct H. }
    assert (name ∈ importers_of mf2 x) as Hi2.
    { eapply keeps_importers; [apply keeps_gcd_import|exact E2|exact Hi1]. }
    split_and!; [done|done|].
    apply elem_of_missing. split.
    - unfold verdict. rewrite Hexcl. rewrite bool_decide_eq_false_2 by done.
      destruct Htx as [_ ->]. done.
    - apply dec_stable. intros Hkeys. apply get_None_keys in Hkeys.
      unfold importers_of in Hi2. rewrite Hkeys in Hi2. by apply elem_of_empty in Hi2. }
  clear E2 mf2 Hexcl n2.
  destruct fuel as [|fuel]; [done|]. cbn [_gcd_import] in E1.
  rewrite (top_level_eqb name Ht) in E1.
  unfold _find_and_load in E1. unfold bind at 1, gets at 1 in E1. rewrite Hn in E1.
  unfold _find_and_load_unlocked in E1.
  rewrite top_level_rpartition_head in E1 by done. cbn [String.eqb] in E1.
  unfold find_load_bind, _find_spec in E1. unfold bind at 1 in E1.
  unfold bind at 1, log at 1, modify at 1 in E1.
  rewrite Hspec in E1. cbn [lift_res] in E1. unfold ret at 1 in E1.
  unfold bind at 1 in E1. unfold _load_unlocked in E1.
  unfold bind at 1, modify at 1 in E1. unfold bind at 1, log at 1, modify at 1 in E1.
  assert (has_loader spec = true) as Hload by (unfold has_loader; by rewrite Hcode).
  unfold bind at 1, attempt in E1. rewrite run_loader_loader in E1 by done.
  match type of E1 with
  | context [exec_module ?o ?np ?i ?imp ?n ?s ?st] =>
      destruct (exec_module o np i imp n s st) as [[mf3 [[]|e]]|] eqn:Ex; [| |done]
  end.
  2:{ exfalso. unfold bind at 1, modify at 1 in E1.
      unfold bind at 1, log at 1, modify at 1 in E1. discriminate E1. }
  unfold bind at 1, getmodule at 1 in E1.
  destruct (modules mf3 !! name); [|discriminate E1].
  unfold bind, ret in E1. injection E1 as <- _.
  rewrite exec_module_typed in Ex by (by apply registered_typed). rewrite Hcode in Ex.
  unfold bind at 1, update_module at 1, modify at 1 in Ex.
  unfold bind at 1, gets at 1 in Ex.
  unfold bind at 1, update_module at 1, modify at 1 in Ex.
  unfold bind at 1, log at 1, modify at 1 in Ex. unfold bind at 1 in Ex.
  match type of Ex with
  | context [_scan_code ?o ?i ?imp ?n ?c ?st] =>
      destruct (_scan_code o i imp n c st) as [[mf5 [[]|e]]|] eqn:Escan; [|done|done]
  end.
  injection Ex as <-. cbn [modules bad_modules log_event importers_of].
  eapply scan_code_unknown in Escan as [Hn5 Hi5]; [| exact Htx | exact Hk |].
  - split; [exact Hn5|]. apply (Hi5 d); [|done|done].
    cbn [path_replacements set_modules log_event].
    destruct (bool_decide (path_replacements mf = [])); [exact Hd|].
    rewrite all_imports_replace. exact Hd.
  - cbn. by rewrite !lookup_alter_ne, lookup_insert_ne.
Qed.

Lemma unknown_import_is_reported_witness :
  ∃ mf',
    import_as_module false Posix.normpath (table_finder world_unknown) no_intrinsic_attr
      5 "app" (new_finder [] []) = Some (mf', Ok tt) ∧
    "ghost" ∈ (any_missing_maybe mf').1.
Proof.
  assert (∃ mf', import_as_module false Posix.normpath (table_finder world_unknown)
                   no_intrinsic_attr 5 "app" (new_finder [] [])
                 = Some (mf', Ok tt)) as [mf' E].
  { eexists. vm_compute. reflexivity. }
  destruct (unknown_import_is_reported false Posix.normpath (table_finder world_unknown)
              no_intrinsic_attr 5 "app"
              {| submodule_search_locations := None;
                 get_code := GotCode (Code "/t/app.py" ["main"] [imp "util"]
                                        [KCode (Code "/t/app.py" [] [imp "ghost"] [])]) |}
              (Code "/t/app.py" ["main"] [imp "util"]
                 [KCode (Code "/t/app.py" [] [imp "ghost"] [])])
              (imp "ghost") (new_finder [] []) mf')
    as (_ & _ & H).
  - split; [discriminate|reflexivity].
  - reflexivity.
  - reflexivity.
  - reflexivity.
  - vm_compute. repeat constructor.
  - reflexivity.
  - split; [discriminate|reflexivity].
  - intros (p & s & Hs). vm_compute in Hs. discriminate Hs.
  - reflexivity.
  - apply not_elem_of_nil.
  - exact E.
  - exists mf'. split; [exact E|exact H].
Defined.

(** ** Imports that can be resolved are followed *)

Section Followed.
Variable optimized : bool.
Variable normpath : string → string.
Variable find_spec : string → option (list string) → Res (option ModuleSpec).
Variable ia : MFModuleType → string → bool.

Abbreviation gcd_import fuel := (_gcd_import optimized normpath find_spec ia fuel).

Lemma run_loader_caught_loads (import_ : string → Run string) (name : string)
    (spec : ModuleSpec) (mf mf' : ModuleFinder) (e : Exc) :
  run_loader optimized normpath ia import_ name spec mf = Some (mf', Raise e) →
  caught_by_scan e = true → ¬ loads spec.
Proof.
  unfold run_loader, has_loader, loads. intros E He Hload.
  destruct (get_code spec) eqn:Hc.
  1-3: destruct (exec_module_caught _ _ _ _ _ _ _ _ _ E He) as [Hc' _]; congruence.
  destruct (submodule_search_locations spec); [discriminate E|by destruct Hload].
Qed.

Lemma gcd_import_loadable (fuel : nat) (y : string) (spec : ModuleSpec)
    (mf mf' : ModuleFinder) (r : Res string) :
  top_level y → find_spec y None = Ok (Some spec) → loads spec →
  gcd_import fuel y mf = Some (mf', r) → settled r →
  is_Some (modules mf' !! y).
Proof.
  intros Ht Hs Hload E Hr. destruct r as [n|e].
  { by destruct (gcd_import_lands _ _ _ _ _ _ _ _ _ E) as (_ & _ & H). }
  exfalso. cbn in Hr.
  destruct fuel as [|fuel]; [done|]. cbn [_gcd_import] in E.
  rewrite (top_level_eqb y Ht) in E.
  unfold _find_and_load in E. unfold bind at 1, gets at 1 in E.
  destruct (modules mf !! y); [done|].
  unfold _find_and_load_unlocked in E.
  rewrite top_level_rpartition_head in E by done. cbn [String.eqb] in E.
  unfold find_load_bind, _find_spec in E. unfold bind at 1 in E.
  unfold bind at 1, log at 1, modify at 1 in E.
  rewrite Hs in E. cbn [lift_res] in E. unfold ret at 1 in E.
  unfold bind at 1 in E. unfold _load_unlocked in E.
  unfold bind at 1, modify at 1 in E. unfold bind at 1, log at 1, modify at 1 in E.
  unfold bind at 1, attempt in E.
  match type of E with
  | context [run_loader ?o ?np ?i ?imp ?n ?s ?st] =>
      destruct (run_loader o np i imp n s st) as [[mf3 [[]|e3]]|] eqn:Ex; [| |done]
  end.
  - unfold bind at 1, getmodule at 1 in E.
    destruct (modules mf3 !! y).
    + unfold bind, ret in E. discriminate E.
    + injection E as _ <-. discriminate Hr.
  - unfold bind at 1, modify at 1 in E. unfold bind at 1, log at 1, modify at 1 in E.
    injection E as _ <-.
    by destruct (run_loader_caught_loads _ _ _ _ _ _ Ex Hr).
Qed.

Lemma dunder_import_loadable (fuel : nat) (y : string) (fl : list string)
    (spec : ModuleSpec) (mf mf' : ModuleFinder) (r : Res string) :
  top_level y → find_spec y None = Ok (Some spec) → loads spec →
  __import__ ia (gcd_import fuel) y fl mf = Some (mf', r) → settled r →
  is_Some (modules mf' !! y).
Proof.
  intros Ht Hs Hload E Hr. unfold __import__ in E. unfold bind at 1 in E.
  destruct (gcd_import fuel y mf) as [[mf1 [n|e]]|] eqn:E1; [| |done].
  - destruct (gcd_import_loadable _ _ _ _ _ _ Ht Hs Hload E1 I) as [m1 Hm1].
    assert (keeps (if bool_decide (fl = [])
                   then gcd_import fuel (PyStr.partition_head y)
                   else let! m := getmodule n in
                        if hasattr ia m "__path__"
                        then _handle_fromlist ia (gcd_import fuel) n fl
                        else ret n)) as Hk.
    { case_bool_decide; [apply keeps_gcd_import|].
      apply keeps_bind; [apply keeps_getmodule|]. intros m.
      destruct (hasattr ia m "__path__"); [|apply keeps_ret].
      apply keeps_handle_fromlist. intros k. apply keeps_gcd_import. }
    destruct (keeps_registry _ _ _ _ _ _ Hk E Hm1) as (m' & Hm' & _). by eexists.
  - injection E as <- <-. by eapply gcd_import_loadable.
Qed.

Lemma scan_import_loadable (fuel : nat) (module : string) (d : ImportDirective)
    (spec : ModuleSpec) (mf mf' : ModuleFinder) :
  imp_level d = 0%Z → top_level (imp_name d) →
  find_spec (imp_name d) None = Ok (Some spec) → loads spec →
  scan_import optimized ia (gcd_import fuel) module d mf = Some (mf', Ok tt) →
  is_Some (modules mf' !! imp_name d).
Proof.
  intros Hl Ht Hs Hload E. rewrite scan_import_unfold in E.
  unfold bind at 1, try_import in E. rewrite Hl in E.
  change (0 <? 0)%Z with false in E. cbv iota in E.
  unfold bind at 1, attempt in E.
  destruct (__import__ ia (gcd_import fuel) (imp_name d) _ mf)
    as [[mf1 r1]|] eqn:E1; [|done].
  unfold ret at 1 in E.
  assert (settled r1) as Hr1.
  { destruct r1 as [k|e]; [done|]. cbn.
    destruct (caught_by_scan e) eqn:He; [done|].
    unfold bind, raise in E. discriminate E. }
  destruct (dunder_import_loadable _ _ _ _ _ _ _ Ht Hs Hload E1 Hr1) as [m1 Hm1].
  assert (keeps (let! _ := match r1 with
                           | Raise e => if caught_by_scan e
                                        then add_bad_module (imp_name d) module
                                        else raise e
                           | Ok result_module =>
                               record_missing_fromlist ia module (imp_name d)
                                 result_module (split_fromlist (imp_fromlist d)).2
                           end in
                 if (split_fromlist (imp_fromlist d)).1
                 then star_import optimized module (imp_name d) else ret tt)) as Hk.
  { apply keeps_bind.
    - destruct r1 as [k|e]; [apply keeps_record_missing_fromlist|].
      destruct (caught_by_scan e); [apply keeps_add_bad_module|apply keeps_raise].
    - intros _. destruct (split_fromlist (imp_fromlist d)).1;
        [apply keeps_star_import|apply keeps_ret]. }
  destruct (keeps_registry _ _ _ _ _ _ Hk E Hm1) as (m' & Hm' & _). by eexists.
Qed.

Lemma scan_imports_loadable (fuel : nat) (module : string)
    (l : list ImportDirective) (mf mf' : ModuleFinder) :
  for_each (scan_import optimized ia (gcd_import fuel) module) l mf = Some (mf', Ok tt) →
  ∀ d spec, d ∈ l → imp_level d = 0%Z → top_level (imp_name d) →
            find_spec (imp_name d) None = Ok (Some spec) → loads spec →
            is_Some (modules mf' !! imp_name d).
Proof.
  revert mf. induction l as [|d0 l IH]; intros mf E d spec Hd Hl Ht Hs Hload.
  { by apply elem_of_nil in Hd. }
  cbn [for_each] in E. unfold bind at 1 in E.
  destruct (scan_import _ _ _ module d0 mf) as [[mf1 [[]|e]]|] eqn:E1; [|done|done].
  apply elem_of_cons in Hd as [->|Hd]; [|by eapply IH].
  destruct (scan_import_loadable _ _ _ _ _ _ Hl Ht Hs Hload E1) as [m1 Hm1].
  assert (keeps (for_each (scan_import optimized ia (gcd_import fuel) module) l)) as Hk.
  { apply keeps_for_each. intros d'. apply keeps_scan_import.
    intros n. apply keeps_gcd_import. }
  destruct (keeps_registry _ _ _ _ _ _ Hk E Hm1) as (m' & Hm' & _). by eexists.
Qed.

Lemma scan_code_loadable (fuel : nat) (module : string) (code : CodeType)
    (mf mf' : ModuleFinder) :
  _scan_code optimized ia (gcd_import fuel) module code mf = Some (mf', Ok tt) →
  ∀ d spec, d ∈ all_imports code → imp_level d = 0%Z → top_level (imp_name d) →
            find_spec (imp_name d) None = Ok (Some spec) → loads spec →
            is_Some (modules mf' !! imp_name d).
Proof.
  revert mf mf'. induction code as [f s i ks IH] using CodeType_nested_ind.
  intros mf mf' E. cbn [_scan_code] in E.
  unfold bind at 1 in E. rewrite store_names_loop in E.
  unfold bind at 1 in E.
  match type of E with
  | context [for_each ?b i ?st] =>
      destruct (for_each b i st) as [[mf2 [[]|e]]|] eqn:E2; [|done|done]
  end.
  pose proof (scan_imports_loadable _ _ _ _ _ E2) as Hi.
  cbn [all_imports].
  enough ((∀ y, is_Some (modules mf2 !! y) → is_Some (modules mf' !! y)) ∧
          ∀ d spec,
            d ∈ concat (map (λ const, match const with
                                      | KCode c => all_imports c
                                      | KOther => []
                                      end) ks) →
            imp_level d = 0%Z → top_level (imp_name d) →
            find_spec (imp_name d) None = Ok (Some spec) → loads spec →
            is_Some (modules mf' !! imp_name d)) as [Hmono Hks].
  { intros d spec [Hd|Hd]%elem_of_app Hl Ht Hs Hload; [|by eapply Hks].
    apply Hmono. by eapply Hi. }
  clear E2 Hi. revert mf2 E.
  induction IH as [|k ks Hk' _ IHks]; intros mf2 E.
  - injection E as <-. split; [done|]. intros d spec Hd. by apply elem_of_nil in Hd.
  - destruct k as [|c].
    + exact (IHks mf2 E).
    + unfold bind at 1 in E.
      destruct (_scan_code optimized ia _ module c mf2) as [[mf3 [[]|e]]|] eqn:E3; [|done|done].
      destruct (IHks mf3 E) as [Hmono Hr]. split.
      * intros y [m Hm]. apply Hmono.
        assert (keeps (_scan_code optimized ia (gcd_import fuel) module c)) as Hk.
        { apply keeps_scan_code. intros n. apply keeps_gcd_import. }
        destruct (keeps_registry _ _ _ _ _ _ Hk E3 Hm) as (m' & Hm' & _). by eexists.
      * cbn [map concat]. intros d spec [Hd|Hd]%elem_of_app Hl Ht Hs Hload;
          [|by eapply Hr].
        apply Hmono. by eapply (Hk' _ _ E3).
Qed.

End Followed.

(** A normal run of [import_as_module] on an unregistered top-level
    module with code: the scan of that code, and what follows it. *)
Lemma import_top_level_scan (optimized : bool) (normpath : string → string)
    (find_spec : string → option (list string) → Res (option ModuleSpec))
    (ia : MFModuleType → string → bool)
    (fuel : nat) (name : string) (spec : ModuleSpec) (code : CodeType)
    (mf mf' : ModuleFinder) :
  top_level name → modules mf !! name = None →
  find_spec name None = Ok (Some spec) → get_code spec = GotCode code →
  import_as_module optimized normpath find_spec ia fuel name mf = Some (mf', Ok tt) →
  ∃ fuel' mf_s mf_e n,
    fuel = S fuel' ∧
    dom (modules mf_s) = {[name]} ∪ dom (modules mf) ∧
    path_replacements mf_s = path_replacements mf ∧
    _scan_code optimized ia (_gcd_import optimized normpath find_spec ia fuel') name
      (stored_code normpath (path_replacements mf) code) mf_s = Some (mf_e, Ok tt) ∧
    _gcd_import optimized normpath find_spec ia fuel (PyStr.partition_head name)
      (log_event (EvScanEnd name) mf_e) = Some (mf', Ok n).
Proof.
  intros Ht Hn Hspec Hcode E.
  unfold import_as_module in E. unfold bind at 1 in E. unfold __import__ in E.
  unfold bind at 1 in E.
  destruct (_gcd_import optimized normpath find_spec ia fuel name mf)
    as [[mf1 [n1|e1]]|] eqn:E1; [|done|done].
  rewrite bool_decide_eq_true_2 in E by done.
  destruct (_gcd_import optimized normpath find_spec ia fuel (PyStr.partition_head name) mf1)
    as [[mf2 [n2|e2]]|] eqn:E2; [|done|done].
  injection E as <-.
  destruct fuel as [|fuel]; [done|]. cbn [_gcd_import] in E1.
  rewrite (top_level_eqb name Ht) in E1.
  unfold _find_and_load in E1. unfold bind at 1, gets at 1 in E1. rewrite Hn in E1.
  unfold _find_and_load_unlocked in E1.
  rewrite top_level_rpartition_head in E1 by done. cbn [String.eqb] in E1.
  unfold find_load_bind, _find_spec in E1. unfold bind at 1 in E1.
  unfold bind at 1, log at 1, modify at 1 in E1.
  rewrite Hspec in E1. cbn [lift_res] in E1. unfold ret at 1 in E1.
  unfold bind at 1 in E1. unfold _load_unlocked in E1.
  unfold bind at 1, modify at 1 in E1. unfold bind at 1, log at 1, modify at 1 in E1.
  assert (has_loader spec = true) as Hload by (unfold has_loader; by rewrite Hcode).
  unfold bind at 1, attempt in E1. rewrite run_loader_loader in E1 by done.
  match type of E1 with
  | context [exec_module ?o ?np ?i ?imp ?n ?s ?st] =>
      destruct (exec_module o np i imp n s st) as [[mf3 [[]|e]]|] eqn:Ex; [| |done]
  end.
  2:{ exfalso. unfold bind at 1, modify at 1 in E1.
      unfold bind at 1, log at 1, modify at 1 in E1. discriminate E1. }
  unfold bind at 1, getmodule at 1 in E1.
  destruct (modules mf3 !! name); [|discriminate E1].
  unfold bind, ret in E1. injection E1 as <- _.
  rewrite exec_module_typed in Ex by (by apply registered_typed). rewrite Hcode in Ex.
  unfold bind at 1, update_module at 1, modify at 1 in Ex.
  unfold bind at 1, gets at 1 in Ex.
  unfold bind at 1, update_module at 1, modify at 1 in Ex.
  unfold bind at 1, log at 1, modify at 1 in Ex. unfold bind at 1 in Ex.
  match type of Ex with
  | context [_scan_code ?o ?i ?imp ?n ?c ?st] =>
      destruct (_scan_code o i imp n c st) as [[mf5 [[]|e]]|] eqn:Escan; [|done|done]
  end.
  injection Ex as <-.
  eexists fuel, _, mf5, n2. split_and!; [done| | |exact Escan|exact E2].
  - cbn. by rewrite !dom_alter_L, dom_insert_L.
  - done.
Qed.

(** X18: imports that can be resolved are followed.  Let
    [import_as_module] load a top-level module [name] that was not
    registered, and let it end normally.  Every top-level module that
    a directive in the code of [name] imports absolutely, from anywhere
    in the code, also inside functions and classes, is registered after
    the run under its own name, provided a finder has a spec for it and
    its loader hands out the code without raising. *)
Theorem resolvable_import_is_registered (optimized : bool) (normpath : string → string)
    (find_spec : string → option (list string) → Res (option ModuleSpec))
    (ia : MFModuleType → string → bool)
    (fuel : nat) (name : string) (spec : ModuleSpec) (code : CodeType)
    (d : ImportDirective) (spec_d : ModuleSpec) (mf mf' : ModuleFinder) :
  top_level name → modules mf !! name = None →
  find_spec name None = Ok (Some spec) → get_code spec = GotCode code →
  d ∈ all_imports code → imp_level d = 0%Z → top_level (imp_name d) →
  find_spec (imp_name d) None = Ok (Some spec_d) → loads spec_d →
  import_as_module optimized normpath find_spec ia fuel name mf = Some (mf', Ok tt) →
  is_Some (modules mf' !! name) ∧ is_Some (modules mf' !! imp_name d).
Proof.
  intros Ht Hn Hspec Hcode Hd Hl Htd Hsd Hload E.
  destruct (import_top_level_scan _ _ _ _ _ _ _ _ _ _ Ht Hn Hspec Hcode E)
    as (fuel' & mf_s & mf_e & n & -> & Hdom & _ & Escan & E2).
  assert (keeps (_scan_code optimized ia (_gcd_import optimized normpath find_spec ia fuel') name
                   (stored_code normpath (path_replacements mf) code))) as Hk.
  { apply keeps_scan_code. intros k. apply keeps_gcd_import. }
  assert (∀ y, is_Some (modules mf_e !! y) → is_Some (modules mf' !! y)) as Hmono.
  { intros y [m Hm].
    destruct (keeps_registry _ _ _ _ _ _ (keeps_gcd_import _ _ _ _ _ _) E2 Hm)
      as (m' & Hm' & _). by eexists. }
  split.
  - apply Hmono.
    assert (is_Some (modules mf_s !! name)) as [m Hm].
    { apply elem_of_dom. rewrite Hdom. apply elem_of_union_l. by apply elem_of_singleton. }
    destruct (keeps_registry _ _ _ _ _ _ Hk Escan Hm) as (m' & Hm' & _). by eexists.
  - apply Hmono. eapply scan_code_loadable; [exact Escan| |exact Hl|exact Htd|exact Hsd|exact Hload].
    unfold stored_code. destruct (bool_decide _); [exact Hd|].
    rewrite all_imports_replace. exact Hd.
Qed.

Lemma resolvable_import_is_registered_witness :
  ∃ mf',
    import_as_module false Posix.normpath (table_finder world_unknown) no_intrinsic_attr
      5 "app" (new_finder [] []) = Some (mf', Ok tt) ∧
    is_Some (modules mf' !! "util").
Proof.
  assert (∃ mf', import_as_module false Posix.normpath (table_finder world_unknown)
                   no_intrinsic_attr 5 "app" (new_finder [] [])
                 = Some (mf', Ok tt)) as [mf' E].
  { eexists. vm_compute. reflexivity. }
  destruct (resolvable_import_is_registered false Posix.normpath (table_finder world_unknown)
              no_intrinsic_attr 5 "app"
              {| submodule_search_locations := None;
                 get_code := GotCode (Code "/t/app.py" ["main"] [imp "util"]
                                        [KCode (Code "/t/app.py" [] [imp "ghost"] [])]) |}
              (Code "/t/app.py" ["main"] [imp "util"]
                 [KCode (Code "/t/app.py" [] [imp "ghost"] [])])
              (imp "util") (source "/t/util.py" [] []) (new_finder [] []) mf')
    as [_ H].
  - split; [discriminate|reflexivity].
  - reflexivity.
  - reflexivity.
  - reflexivity.
  - vm_compute. repeat constructor.
  - reflexivity.
  - split; [discriminate|reflexivity].
  - reflexivity.
  - exact I.
  - exact E.
  - exists mf'. split; [exact E|exact H].
Defined.
